(** * Patient allocation heuristics: a shallow embedding and its properties

    The development embeds the evaluator, the constructive heuristic and the
    four search strategies of [metaheuristics_NEW.py] and [metaheuristics.py]
    and proves properties of them.

    Conventions of the embedding.
    - Python [int] is [Z].  Python [float] has two embeddings.  In the first
      a float is an exact rational [Q] (no rounding, no overflow), and the
      special floats [inf], [-inf] and [nan] that the legacy [Solution] class
      produces are the extra constructors of [fl]; it serves the properties
      of control flow, of orderings along a run and of the integer data.  In
      the second, the module [F64], a float is a primitive binary64 float
      with the operations of IEEE 754; it serves the properties that rounding
      or overflow decide: the penalty of [objective_value_penalized] and the
      finiteness of the objective of [Solution.evaluate].
    - A Python [dict] is an association list in insertion order; a lookup
      [d[k]] of a missing key raises [KeyError], a list index out of range
      raises [IndexError].
    - Exceptions are the constructors of [exn]; a function that can raise
      returns a [result].
    - The module [random] and the wall clock are read from a [World] of three
      streams, threaded through the randomised functions by the monad [M]. *)

From Stdlib Require Import Floats.
From Stdlib Require Import List ZArith QArith Qround Qminmax Lia Lqa Bool String
  Permutation Sorted.
Import ListNotations.
Open Scope Z_scope.

Set Implicit Arguments.

(* ------------------------------------------------------------------ *)
(** ** Exceptions and the error monad *)

Inductive exn : Type :=
| KeyError (key : string)
| IndexError
| ValueError
| ZeroDivisionError
| RuntimeError (pid : string).

Inductive result (A : Type) : Type :=
| Ok (a : A)
| Raise (e : exn).

Arguments Ok {A} a.
Arguments Raise {A} e.

Definition bindR {A B} (m : result A) (k : A -> result B) : result B :=
  match m with
  | Ok a => k a
  | Raise e => Raise e
  end.

Declare Scope result_scope.
Delimit Scope result_scope with result.
Notation "x <- m ;; k" := (bindR m (fun x => k))
  (at level 100, m at next level, right associativity) : result_scope.
Notation "' p <- m ;; k" := (bindR m (fun x => match x with p => k end))
  (at level 100, p pattern, m at next level, right associativity) : result_scope.
Open Scope result_scope.

(** [for x in l: s = f(s, x)] where the body may raise. *)
Fixpoint foldM {A S} (f : S -> A -> result S) (l : list A) (s : S) : result S :=
  match l with
  | [] => Ok s
  | x :: r => s' <- f s x ;; foldM f r s'
  end.

(** A loop that returns [False] at the first failing element and [True] at
    the end; the elements after a failing one are not evaluated. *)
Fixpoint allM {A} (f : A -> result bool) (l : list A) : result bool :=
  match l with
  | [] => Ok true
  | x :: r => b <- f x ;; if b then allM f r else Ok false
  end.

(* ------------------------------------------------------------------ *)
(** ** Python containers *)

Fixpoint dict_get {V} (d : list (string * V)) (k : string) : result V :=
  match d with
  | [] => Raise (KeyError k)
  | (k', v) :: r => if String.eqb k' k then Ok v else dict_get r k
  end.

(** [d[k] = v]: overwrite in place, or append a new key at the end. *)
Fixpoint dict_set {V} (d : list (string * V)) (k : string) (v : V) : list (string * V) :=
  match d with
  | [] => [(k, v)]
  | (k', v') :: r => if String.eqb k' k then (k', v) :: r else (k', v') :: dict_set r k v
  end.

Definition dict_keys {V} (d : list (string * V)) : list string := map fst d.

Definition dict_mem {V} (d : list (string * V)) (k : string) : bool :=
  existsb (String.eqb k) (dict_keys d).

(** [l[i]], with Python's negative indices. *)
Definition py_index {A} (l : list A) (i : Z) : result A :=
  let j := if i <? 0 then i + Z.of_nat (List.length l) else i in
  if j <? 0 then Raise IndexError
  else match nth_error l (Z.to_nat j) with
       | Some x => Ok x
       | None => Raise IndexError
       end.

(** [range(a, b)]. *)
Definition range (a b : Z) : list Z :=
  map (fun i => a + Z.of_nat i) (seq 0 (Z.to_nat (b - a))).

Definition str_in (s : string) (l : list string) : bool := existsb (String.eqb s) l.

Definition Qltb (x y : Q) : bool := negb (Qle_bool y x).

(** The tolerance [1e-9] of the improvement tests. *)
Definition eps : Q := 1 # 1000000000.

(* ------------------------------------------------------------------ *)
(** ** The data model ([PatientAllocationData])

    Modelled from the spec: the class [PatientAllocationData] of
    [data_parser.py] is not part of the sources; its fields are the ones the
    heuristics read, with the types of section 3 of the specification. *)

Record Patient : Type := {
  specialization : string;
  earliest : Z;
  latest : Z;
  los : Z;
  surgery_duration : Q;
  workload_per_day : list Q
}.

Record Ward : Type := {
  bed_capacity : Z;
  workload_capacity : Q;
  major_specialization : string;
  minor_specializations : list string;
  carryover_patients : list Z;
  carryover_workload : list Q
}.

Record Specialism : Type := {
  ot_time : list Q;
  workload_factor : Q
}.

Record PatientAllocationData : Type := {
  patients : list (string * Patient);
  wards : list (string * Ward);
  specialisms : list (string * Specialism);
  num_days : Z;
  weight_overtime : Q;
  weight_undertime : Q;
  weight_delay : Q
}.

(** One entry [{"ward": w, "day": d}] of an allocation. *)
Record Assign : Type := { ward : string; day : Z }.

Definition Allocation : Type := list (string * Assign).

Definition Assign_eqb (a b : Assign) : bool :=
  String.eqb (ward a) (ward b) && (day a =? day b).

(** Modelled from the spec: the invariants of the data model that the
    missing parser establishes (section 3): dictionary keys are unique, the
    per-day sequences of wards and specializations cover the horizon, and
    every minor specialization of a ward has a specialization record. *)
Fixpoint nodupb (l : list string) : bool :=
  match l with
  | [] => true
  | x :: r => negb (str_in x r) && nodupb r
  end.

Definition wf_ward (data : PatientAllocationData) (w : Ward) : bool :=
  (num_days data <=? Z.of_nat (List.length (carryover_patients w)))
  && (num_days data <=? Z.of_nat (List.length (carryover_workload w)))
  && forallb (fun s => dict_mem (specialisms data) s) (minor_specializations w).

Definition wf_specialism (data : PatientAllocationData) (s : Specialism) : bool :=
  num_days data <=? Z.of_nat (List.length (ot_time s)).

Definition wf_data (data : PatientAllocationData) : bool :=
  nodupb (dict_keys (patients data))
  && nodupb (dict_keys (wards data))
  && nodupb (dict_keys (specialisms data))
  && forallb (fun kv => wf_ward data (snd kv)) (wards data)
  && forallb (fun kv => wf_specialism data (snd kv)) (specialisms data).

(** A total allocation: one entry per patient, and no other entry. *)
Definition total_allocation (data : PatientAllocationData) (allocation : Allocation) : bool :=
  nodupb (dict_keys allocation)
  && forallb (fun k => dict_mem (patients data) k) (dict_keys allocation)
  && forallb (fun k => dict_mem allocation k) (dict_keys (patients data)).

(* ------------------------------------------------------------------ *)
(** ** The evaluator of [metaheuristics_NEW.py] *)

Definition compatible_wards_for_patient (data : PatientAllocationData) (patient : Patient)
  : list string :=
  map fst
    (filter (fun kv =>
       String.eqb (specialization patient) (major_specialization (snd kv))
       || str_in (specialization patient) (minor_specializations (snd kv)))
      (wards data)).

(** [a["day"] <= d < a["day"] + p["los"]] *)
Definition in_stay (a : Assign) (p : Patient) (d : Z) : bool :=
  (day a <=? d) && (d <? day a + los p).

Definition count_beds_used_on_day (data : PatientAllocationData) (allocation : Allocation)
  (ward_name : string) (d : Z) : result Z :=
  w <- dict_get (wards data) ward_name ;;
  used <- py_index (carryover_patients w) d ;;
  foldM (fun used (kv : string * Assign) =>
           let (pid, a) := kv in
           if negb (String.eqb (ward a) ward_name) then Ok used
           else p <- dict_get (patients data) pid ;;
                Ok (if in_stay a p d then used + 1 else used))
        allocation used.

Definition apply_change (allocation : Allocation) (change : option (string * string * Z))
  : Allocation :=
  match change with
  | None => allocation
  | Some (pid, new_ward, new_day) => dict_set allocation pid {| ward := new_ward; day := new_day |}
  end.

Definition feasible_after_change_beds (data : PatientAllocationData) (allocation : Allocation)
  (change : option (string * string * Z)) : result bool :=
  let allocation := apply_change allocation change in
  allM (fun kv : string * Ward =>
          let (wname, ward) := kv in
          let cap := bed_capacity ward in
          allM (fun d =>
                  used <- count_beds_used_on_day data allocation wname d ;;
                  Ok (negb (cap <? used)))
               (range 0 (num_days data)))
       (wards data).

Definition bed_capacity_violations (data : PatientAllocationData) (allocation : Allocation)
  : result Z :=
  foldM (fun vio (kv : string * Ward) =>
           let (wname, ward) := kv in
           let cap := bed_capacity ward in
           foldM (fun vio d =>
                    used <- count_beds_used_on_day data allocation wname d ;;
                    Ok (if cap <? used then vio + (used - cap) else vio))
                 (range 0 (num_days data)) vio)
        (wards data) 0.

Definition compute_ot_used_by_spec_day (data : PatientAllocationData) (allocation : Allocation)
  (spec : string) (d : Z) : result Q :=
  foldM (fun total (kv : string * Assign) =>
           let (pid, a) := kv in
           p <- dict_get (patients data) pid ;;
           Ok (if String.eqb (specialization p) spec && (day a =? d)
               then total + surgery_duration p else total)%Q)
        allocation 0%Q.

(** The workload one resident patient adds to ward-day [(wname, d)]. *)
Definition add_patient_workload (data : PatientAllocationData) (wname : string) (w : Ward)
  (d : Z) (total_w : Q) (kv : string * Assign) : result Q :=
  let (pid, a) := kv in
  if negb (String.eqb (ward a) wname) then Ok total_w
  else
    p <- dict_get (patients data) pid ;;
    let admission := day a in
    if in_stay a p d then
      let day_of_stay := d - admission in
      if (0 <=? day_of_stay) && (day_of_stay <? Z.of_nat (List.length (workload_per_day p))) then
        base <- py_index (workload_per_day p) day_of_stay ;;
        let spec := specialization p in
        if negb (String.eqb spec (major_specialization w))
           && str_in spec (minor_specializations w)
        then s <- dict_get (specialisms data) spec ;;
             Ok (total_w + base * workload_factor s)%Q
        else Ok (total_w + base)%Q
      else Ok total_w
    else Ok total_w.

(** [total_w / cap if cap > 0 else 0.0] *)
Definition normalize (total_w cap : Q) : Q :=
  if Qltb 0 cap then (total_w / cap)%Q else 0%Q.

(** [max(z, x)] on floats: the second argument only when it is larger. *)
Definition fmax (z x : Q) : Q := if Qltb z x then x else z.

Definition compute_workload_normalized_and_z (data : PatientAllocationData)
  (allocation : Allocation) : result (list ((string * Z) * Q) * Q) :=
  foldM (fun xz (kv : string * Ward) =>
           let (wname, ward) := kv in
           let cap := workload_capacity ward in
           foldM (fun (xz : list ((string * Z) * Q) * Q) d =>
                    let (x, z) := xz in
                    w0 <- py_index (carryover_workload ward) d ;;
                    total_w <- foldM (add_patient_workload data wname ward d) allocation w0 ;;
                    let xv := normalize total_w cap in
                    Ok (x ++ [((wname, d), xv)], fmax z xv))
                 (range 0 (num_days data)) xz)
        (wards data) ([], 0%Q).

Record Components : Type := {
  c_delays : Q;
  c_overtime : Q;
  c_undertime : Q;
  c_z : Q;
  c_x_map : list ((string * Z) * Q);
  c_ot_used_map : list ((string * Z) * (Q * Q * Q * Q))
}.

Definition compute_delays (data : PatientAllocationData) (allocation : Allocation) : result Q :=
  foldM (fun delays (kv : string * Assign) =>
           let (pid, a) := kv in
           p <- dict_get (patients data) pid ;;
           Ok (delays + inject_Z (Z.max 0 (day a - earliest p)))%Q)
        allocation 0%Q.

Definition compute_ot (data : PatientAllocationData) (allocation : Allocation)
  : result (Q * Q * list ((string * Z) * (Q * Q * Q * Q))) :=
  foldM (fun acc (kv : string * Specialism) =>
           let (spec, _) := kv in
           foldM (fun (acc : Q * Q * list ((string * Z) * (Q * Q * Q * Q))) d =>
                    let '(ovt, undt, m) := acc in
                    used <- compute_ot_used_by_spec_day data allocation spec d ;;
                    s <- dict_get (specialisms data) spec ;;
                    avail <- py_index (ot_time s) d ;;
                    if Qltb avail used
                    then Ok (ovt + (used - avail), undt,
                             m ++ [((spec, d), (used, avail, used - avail, 0))])%Q
                    else Ok (ovt, undt + (avail - used),
                             m ++ [((spec, d), (used, avail, 0, avail - used))])%Q)
                 (range 0 (num_days data)) acc)
        (specialisms data) (0%Q, 0%Q, []).

Definition compute_objective_components (data : PatientAllocationData)
  (allocation : Allocation) : result Components :=
  delays <- compute_delays data allocation ;;
  ot <- compute_ot data allocation ;;
  let '(total_overtime, total_undertime, ot_used_map) := ot in
  xz <- compute_workload_normalized_and_z data allocation ;;
  let (x_map, z) := xz in
  Ok {| c_delays := delays; c_overtime := total_overtime; c_undertime := total_undertime;
        c_z := z; c_x_map := x_map; c_ot_used_map := ot_used_map |}.

Definition objective_value (data : PatientAllocationData) (allocation : Allocation)
  (lambda1 lambda2 : Q) : result Q :=
  c <- compute_objective_components data allocation ;;
  let f1 := (weight_overtime data * c_overtime c + weight_undertime data * c_undertime c
             + weight_delay data * c_delays c)%Q in
  let f2 := c_z c in
  Ok (lambda1 * f1 + lambda2 * f2)%Q.

(** The penalised objective in exact arithmetic; with the rounding of the
    source it is [F64.objective_value_penalized]. *)
Definition objective_value_penalized (data : PatientAllocationData) (allocation : Allocation)
  (lambda1 lambda2 penalty_weight : Q) : result Q :=
  f_obj <- objective_value data allocation lambda1 lambda2 ;;
  violations <- bed_capacity_violations data allocation ;;
  Ok (f_obj + penalty_weight * inject_Z violations)%Q.

(** The default arguments [lambda1=0.5, lambda2=0.5, penalty_weight=1000.0]. *)
Definition default_lambda : Q := 1 # 2.
Definition default_penalty_weight : Q := 1000.

(* ------------------------------------------------------------------ *)
(** ** Floats with their special values *)

Inductive fl : Type :=
| Fin (q : Q)
| PInf
| NInf
| NaN.

Definition fl_ltb (x y : fl) : bool :=
  match x, y with
  | Fin a, Fin b => Qltb a b
  | Fin _, PInf => true
  | NInf, Fin _ => true
  | NInf, PInf => true
  | _, _ => false
  end.

Definition fl_sub (x y : fl) : fl :=
  match x, y with
  | NaN, _ => NaN
  | _, NaN => NaN
  | Fin a, Fin b => Fin (a - b)
  | Fin _, PInf => NInf
  | Fin _, NInf => PInf
  | PInf, PInf => NaN
  | PInf, _ => PInf
  | NInf, NInf => NaN
  | NInf, _ => NInf
  end.

(** [x <= y] between floats that are not [nan]. *)
Definition fl_le (x y : fl) : Prop := x = y \/ fl_ltb x y = true.

(* ------------------------------------------------------------------ *)
(** ** Randomness and the clock

    Every call of [random] reads the head of the stream [ints] (or [units]
    for [random.random()]), every test [time.time() - t0 > budget] reads the
    head of [timeouts]; the streams are arbitrary, so a property proved for
    every [World] holds for every outcome of the random draws and every
    timing. *)

Record World : Type := {
  ints : nat -> nat;
  units : nat -> Q;
  timeouts : nat -> bool
}.

Definition M (A : Type) : Type := World -> result (A * World).

Definition ret {A} (a : A) : M A := fun w => Ok (a, w).

Definition raise {A} (e : exn) : M A := fun _ => Raise e.

Definition bindM {A B} (m : M A) (k : A -> M B) : M B :=
  fun w => match m w with
           | Ok (a, w') => k a w'
           | Raise e => Raise e
           end.

Definition liftR {A} (r : result A) : M A :=
  fun w => match r with Ok a => Ok (a, w) | Raise e => Raise e end.

Declare Scope m_scope.
Delimit Scope m_scope with M.
Notation "x <~ m ;; k" := (bindM m (fun x => k))
  (at level 100, m at next level, right associativity) : m_scope.
Notation "' p <~ m ;; k" := (bindM m (fun x => match x with p => k end))
  (at level 100, p pattern, m at next level, right associativity) : m_scope.
Open Scope m_scope.

Definition next_int : M nat :=
  fun w => Ok (ints w 0%nat,
               {| ints := fun n => ints w (S n); units := units w; timeouts := timeouts w |}).

(** [random.random()] *)
Definition random_random : M Q :=
  fun w => Ok (units w 0%nat,
               {| ints := ints w; units := fun n => units w (S n); timeouts := timeouts w |}).

(** [time.time() - t0 > max_time_seconds] *)
Definition time_exceeded : M bool :=
  fun w => Ok (timeouts w 0%nat,
               {| ints := ints w; units := units w; timeouts := fun n => timeouts w (S n) |}).

(** [random.choice(l)] *)
Definition random_choice {A} (l : list A) : M A :=
  match l with
  | [] => raise IndexError
  | x :: _ => i <~ next_int ;; ret (nth (i mod List.length l)%nat l x)
  end.

(** [random.randint(a, b)] *)
Definition random_randint (a b : Z) : M Z :=
  if b <? a then raise ValueError
  else i <~ next_int ;; ret (a + Z.of_nat i mod (b - a + 1)).

Fixpoint remove_nth {A} (n : nat) (l : list A) : list A :=
  match l, n with
  | [], _ => []
  | _ :: r, O => r
  | x :: r, S n' => x :: remove_nth n' r
  end.

Fixpoint draw {A} (k : nat) (l : list A) : M (list A) :=
  match k with
  | O => ret []
  | S k' =>
      match l with
      | [] => ret []
      | x :: _ =>
          i <~ next_int ;;
          let j := (i mod List.length l)%nat in
          r <~ draw k' (remove_nth j l) ;;
          ret (nth j l x :: r)
      end
  end.

(** [random.sample(l, k)]: [k] distinct positions of [l], in any order. *)
Definition random_sample {A} (l : list A) (k : Z) : M (list A) :=
  if (k <? 0) || (Z.of_nat (List.length l) <? k) then raise ValueError
  else draw (Z.to_nat k) l.

(** [random.shuffle(l)]: any permutation of [l]. *)
Definition random_shuffle {A} (l : list A) : M (list A) := draw (List.length l) l.

Fixpoint foldMM {A S} (f : S -> A -> M S) (l : list A) (s : S) : M S :=
  match l with
  | [] => ret s
  | x :: r => s' <~ f s x ;; foldMM f r s'
  end.

(** [for _ in range(n)] whose body may [break]: the body returns the new
    state and whether it broke out of the loop. *)
Fixpoint for_loop {S} (n : nat) (body : S -> M (S * bool)) (s : S) : M S :=
  match n with
  | O => ret s
  | S n' => sb <~ body s ;;
            let (s', brk) := sb : S * bool in
            if brk then ret s' else for_loop n' body s'
  end.

(** The states at the end of each executed pass of such a loop. *)
Fixpoint loop_trace {S} (n : nat) (body : S -> M (S * bool)) (s : S) (w : World) : list S :=
  match n with
  | O => []
  | S n' =>
      match body s w with
      | Ok ((s', brk), w') => s' :: (if brk then [] else loop_trace n' body s' w')
      | Raise _ => []
      end
  end.

(* ------------------------------------------------------------------ *)
(** ** The constructive heuristic of [metaheuristics_NEW.py] *)

Fixpoint findM {A} (f : A -> result bool) (l : list A) : result (option A) :=
  match l with
  | [] => Ok None
  | x :: r => b <- f x ;; if b then Ok (Some x) else findM f r
  end.

(** [alloc[pid]["day"] = d] *)
Definition set_day (alloc : Allocation) (pid : string) (d : Z) : result Allocation :=
  a <- dict_get alloc pid ;;
  Ok (dict_set alloc pid {| ward := ward a; day := d |}).

(** [alloc[pid]["ward"] = w] *)
Definition set_ward (alloc : Allocation) (pid : string) (w : string) : result Allocation :=
  a <- dict_get alloc pid ;;
  Ok (dict_set alloc pid {| ward := w; day := day a |}).

(** [range(p["earliest"], min(p["latest"] + 1, data.num_days))] *)
Definition window_days (data : PatientAllocationData) (p : Patient) : list Z :=
  range (earliest p) (Z.min (latest p + 1) (num_days data)).

Definition _score_trial (data : PatientAllocationData) (alloc : Allocation) (pid w : string)
  (d : Z) (lambda1 lambda2 : Q) : result fl :=
  let trial := dict_set alloc pid {| ward := w; day := d |} in
  f <- feasible_after_change_beds data alloc (Some (pid, w, d)) ;;
  if negb f then Ok PInf
  else v <- objective_value data trial lambda1 lambda2 ;; Ok (Fin v).

Fixpoint repair_try (data : PatientAllocationData) (alloc : Allocation)
  (candidates : list string) (tried max_shifts : Z) : result (bool * Allocation) :=
  match candidates with
  | [] => Ok (false, alloc)
  | pid :: r =>
      if max_shifts <=? tried then Ok (false, alloc)
      else
        p <- dict_get (patients data) pid ;;
        a <- dict_get alloc pid ;;
        let a_day := day a in
        if a_day + 1 <=? Z.min (latest p) (num_days data - 1) then
          trial <- set_day alloc pid (a_day + 1) ;;
          f <- feasible_after_change_beds data trial None ;;
          if f then Ok (true, trial)
          else repair_try data alloc r (tried + 1) max_shifts
        else repair_try data alloc r (tried + 1) max_shifts
  end.

Definition repair_candidates (data : PatientAllocationData) (alloc : Allocation)
  (ward_name : string) (congested_day : Z) : result (list string) :=
  foldM (fun cands (kv : string * Assign) =>
           let (pid, a) := kv in
           if negb (String.eqb (ward a) ward_name) then Ok cands
           else p <- dict_get (patients data) pid ;;
                Ok (if in_stay a p congested_day then cands ++ [pid] else cands))
        alloc [].

Definition _tiny_repair_shift_same_ward_day_forward (data : PatientAllocationData)
  (alloc : Allocation) (ward_name : string) (congested_day : Z) (max_shifts : Z)
  : M (bool * Allocation) :=
  candidates <~ liftR (repair_candidates data alloc ward_name congested_day) ;;
  candidates <~ random_shuffle candidates ;;
  liftR (repair_try data alloc candidates 0 max_shifts).

(** The stay of a patient who enters on [d] finds a free bed on every day. *)
Definition stay_free (data : PatientAllocationData) (alloc : Allocation) (w : string)
  (cap : Z) (los : Z) (d : Z) : result bool :=
  allM (fun day_check =>
          used <- count_beds_used_on_day data alloc w day_check ;;
          Ok (negb (cap <=? used)))
       (range d (Z.min (d + los) (num_days data))).

(** The first-fit scan: the first ward, and in it the first window day, whose
    stay is free. *)
Fixpoint first_fit (data : PatientAllocationData) (alloc : Allocation) (p : Patient)
  (ws : list string) : result (option (string * Z)) :=
  match ws with
  | [] => Ok None
  | w :: r =>
      wd <- dict_get (wards data) w ;;
      od <- findM (stay_free data alloc w (bed_capacity wd) (los p)) (window_days data p) ;;
      match od with
      | Some d => Ok (Some (w, d))
      | None => first_fit data alloc p r
      end
  end.

(** The innermost loop of the repair pass: it stops at the first congested
    day that a shift relieves. *)
Fixpoint repair_stay (data : PatientAllocationData) (w : string) (day_checks : list Z)
  (alloc : Allocation) : M Allocation :=
  match day_checks with
  | [] => ret alloc
  | day_check :: r =>
      used <~ liftR (count_beds_used_on_day data alloc w day_check) ;;
      wd <~ liftR (dict_get (wards data) w) ;;
      if bed_capacity wd <=? used then
        ra <~ _tiny_repair_shift_same_ward_day_forward data alloc w day_check 3 ;;
        let (ok, alloc') := ra : bool * Allocation in
        if ok then ret alloc' else repair_stay data w r alloc'
      else repair_stay data w r alloc
  end.

Definition repair_pass (data : PatientAllocationData) (alloc : Allocation) (p : Patient)
  (ws : list string) : M Allocation :=
  foldMM (fun alloc w =>
            foldMM (fun alloc d =>
                      repair_stay data w (range d (Z.min (d + los p) (num_days data))) alloc)
                   (window_days data p) alloc)
         ws alloc.

(** One step of a scan that keeps the best score and where it was found. *)
Definition scan_step {A B} (score : A -> result fl) (tag : A -> B)
  (best : fl * option B) (x : A) : result (fl * option B) :=
  s <- score x ;; Ok (if fl_ltb s (fst best) then (s, Some (tag x)) else best).

Definition fallback_scan (data : PatientAllocationData) (alloc : Allocation) (pid : string)
  (p : Patient) (ws : list string) : result (fl * option (string * Z)) :=
  foldM (fun best w =>
           foldM (fun (best : fl * option (string * Z)) d =>
                    score <- _score_trial data alloc pid w d default_lambda default_lambda ;;
                    Ok (if fl_ltb score (fst best) then (score, Some (w, d)) else best))
                 (window_days data p) best)
        ws (PInf, None).

Definition commit (alloc : Allocation) (pid : string) (wd : string * Z) : Allocation :=
  dict_set alloc pid {| ward := fst wd; day := snd wd |}.

(** The body of the main loop of the construction, for one patient. *)
Definition place_patient (data : PatientAllocationData) (alloc : Allocation)
  (kv : string * Patient) : M Allocation :=
  let (pid, p) := kv in
  let ws := compatible_wards_for_patient data p in
  ff <~ liftR (first_fit data alloc p ws) ;;
  match ff with
  | Some wd => ret (commit alloc pid wd)
  | None =>
      alloc <~ repair_pass data alloc p ws ;;
      ff <~ liftR (first_fit data alloc p ws) ;;
      match ff with
      | Some wd => ret (commit alloc pid wd)
      | None =>
          fb <~ liftR (fallback_scan data alloc pid p ws) ;;
          match snd fb with
          | Some wd => ret (commit alloc pid wd)
          | None => raise (RuntimeError pid)
          end
      end
  end.

(** Stable sort by a key, as [sorted(..., key=...)]. *)
Fixpoint insert_by {A} (lt : A -> A -> bool) (x : A) (l : list A) : list A :=
  match l with
  | [] => [x]
  | y :: r => if lt y x then y :: insert_by lt x r else x :: y :: r
  end.

Definition sort_by {A} (lt : A -> A -> bool) (l : list A) : list A :=
  fold_right (insert_by lt) [] l.

Definition triple_ltb (a b : Z * Z * Z) : bool :=
  let '(a1, a2, a3) := a in
  let '(b1, b2, b3) := b in
  (a1 <? b1) || ((a1 =? b1) && ((a2 <? b2) || ((a2 =? b2) && (a3 <? b3)))).

Definition greedy_key (kv : string * Patient) : Z * Z * Z :=
  (latest (snd kv) - earliest (snd kv), earliest (snd kv), - los (snd kv)).

Definition patients_order (data : PatientAllocationData) : list (string * Patient) :=
  sort_by (fun a b => triple_ltb (greedy_key a) (greedy_key b)) (patients data).

Definition greedy_feasible_by_window_strict (data : PatientAllocationData) : M Allocation :=
  foldMM (place_patient data) (patients_order data) [].

(** The literal scenario: three patients, one ward with two beds, stays of
    one day, windows [0,0]. *)
Definition scenario_patient : Patient :=
  {| specialization := "S"; earliest := 0; latest := 0; los := 1;
     surgery_duration := 1%Q; workload_per_day := [1%Q] |}.

Definition scenario_data : PatientAllocationData :=
  {| patients := [("p1"%string, scenario_patient); ("p2"%string, scenario_patient);
                  ("p3"%string, scenario_patient)];
     wards := [("W"%string,
                {| bed_capacity := 2; workload_capacity := 10%Q; major_specialization := "S";
                   minor_specializations := []; carryover_patients := [0];
                   carryover_workload := [0%Q] |})];
     specialisms := [("S"%string, {| ot_time := [2%Q]; workload_factor := 1%Q |})];
     num_days := 1;
     weight_overtime := 1%Q; weight_undertime := 1%Q; weight_delay := 1%Q |}.

Definition world0 : World :=
  {| ints := fun _ => 0%nat; units := fun _ => 0%Q; timeouts := fun _ => false |}.

(* ------------------------------------------------------------------ *)
(** ** The fast local search shared by ILS and VNS

    [IteratedLocalSearch._local_search_fast] and
    [VariableNeighborhoodSearch._local_search_fast] are the same code up to
    three constants: the cap on passes, the sampled share of the patients
    and the number of days tried per patient. *)

(** [int(x)] on a float: truncation towards zero. *)
Definition py_int (x : Q) : Z := if Qltb x 0 then Qceiling x else Qfloor x.

Definition fmin (x y : Q) : Q := if Qltb y x then y else x.

Section LocalSearch.

Variable data : PatientAllocationData.
Variables lambda1 lambda2 penalty_weight : Q.

Fixpoint ls_try_days (pid : string) (days_to_try : list Z) (current : Allocation)
  (curr_val : Q) : result (Allocation * Q * bool) :=
  match days_to_try with
  | [] => Ok (current, curr_val, false)
  | d :: r =>
      base <- dict_get current pid ;;
      if d =? day base then ls_try_days pid r current curr_val
      else
        trial <- set_day current pid d ;;
        val <- objective_value_penalized data trial lambda1 lambda2 penalty_weight ;;
        if Qltb (val + eps) curr_val then Ok (trial, val, true)
        else ls_try_days pid r current curr_val
  end.

Fixpoint ls_patients (days_per_patient : Z) (pids_sample : list string)
  (current : Allocation) (curr_val : Q) : M (Allocation * Q * bool) :=
  match pids_sample with
  | [] => ret (current, curr_val, false)
  | pid :: r =>
      t <~ time_exceeded ;;
      if t : bool then ret (current, curr_val, false)
      else
        p <~ liftR (dict_get (patients data) pid) ;;
        _ <~ liftR (dict_get current pid) ;;
        let possible_days := window_days data p in
        days_to_try <~ random_sample possible_days
                         (Z.min days_per_patient (Z.of_nat (List.length possible_days))) ;;
        res <~ liftR (ls_try_days pid days_to_try current curr_val) ;;
        let '(current', curr_val', improved) := res in
        if improved : bool then ret (current', curr_val', true)
        else ls_patients days_per_patient r current' curr_val'
  end.

Definition ls_pass (sample_ratio : Q) (days_per_patient : Z) (s : Allocation * Q)
  : M (Allocation * Q * bool) :=
  let (current, curr_val) := s in
  t <~ time_exceeded ;;
  if t : bool then ret (s, true)
  else
    let n := Z.of_nat (List.length (patients data)) in
    let num_patients_to_check := Z.max 10 (py_int (inject_Z n * sample_ratio)) in
    pids_sample <~ random_sample (dict_keys (patients data)) (Z.min num_patients_to_check n) ;;
    res <~ ls_patients days_per_patient pids_sample current curr_val ;;
    let '(current', curr_val', improved) := res in
    ret ((current', curr_val'), negb improved).

Definition local_search_fast (max_iterations : nat) (sample_ratio : Q)
  (days_per_patient : Z) (allocation : Allocation) : M (Allocation * Q) :=
  curr_val <~ liftR (objective_value_penalized data allocation lambda1 lambda2 penalty_weight) ;;
  for_loop max_iterations (ls_pass sample_ratio days_per_patient) (allocation, curr_val).

End LocalSearch.

(** What [solve] returns (the elapsed time is not modelled). *)
Record SolveResult : Type := {
  r_objective_value : Q;
  r_allocation : Allocation
}.

(** The lines printed under [verbose=True] that carry data. *)
Inductive event : Type :=
| NewBest (f : Q)
| Perturbazione (intensity : Q)
| TimeoutReached
| StoppingEarly.

(* ------------------------------------------------------------------ *)
(** ** Iterated local search *)

Module IteratedLocalSearch.

Definition STAGNATION_LIMIT : Z := 20.
Definition PERTURB_BASE_RATIO : Q := 1 # 10.
Definition PERTURB_MAX_RATIO : Q := 1 # 4.

Record state : Type := {
  current : Allocation;
  best_feasible_allocation : Allocation;
  best_feasible_value : Q;
  no_improve_counter : Z;
  output : list event
}.

Definition pair_gtb (a b : Z * string) : bool :=
  (fst b <? fst a) || ((fst a =? fst b) && String.ltb (snd b) (snd a)).

Definition mapR {A B} (f : A -> result B) (l : list A) : result (list B) :=
  foldM (fun acc x => y <- f x ;; Ok (acc ++ [y])) l [].

Section Methods.

Variable data : PatientAllocationData.
Variables lambda1 lambda2 penalty_weight : Q.

Definition num_to_perturb (intensity : Q) : Z :=
  Z.max 1 (py_int (inject_Z (Z.of_nat (List.length (patients data))) * intensity)).

Definition worst_contributors (allocation : Allocation) (intensity : Q)
  : result (list string) :=
  worst_pids <- mapR (fun kv : string * Patient =>
                        let (pid, p) := kv in
                        a <- dict_get allocation pid ;;
                        Ok (Z.max 0 (day a - earliest p), pid))
                     (patients data) ;;
  let worst_pids := sort_by pair_gtb worst_pids in
  Ok (map snd (firstn (Z.to_nat (num_to_perturb intensity / 2)) worst_pids)).

Definition reassign (perturbed : Allocation) (pid : string) : M Allocation :=
  p <~ liftR (dict_get (patients data) pid) ;;
  let ws := compatible_wards_for_patient data p in
  new_ward <~ random_choice ws ;;
  new_day <~ random_randint (earliest p) (Z.min (latest p) (num_days data - 1)) ;;
  ret (dict_set perturbed pid {| ward := new_ward; day := new_day |}).

Definition _perturbation_mixed (allocation : Allocation) (intensity : Q) : M Allocation :=
  worst <~ liftR (worst_contributors allocation intensity) ;;
  let num_random := num_to_perturb intensity / 2 in
  patients_random <~ random_sample (dict_keys (patients data)) num_random ;;
  let patients_to_perturb := patients_random ++ worst in
  foldMM reassign patients_to_perturb allocation.

Definition _local_search_fast (allocation : Allocation) : M (Allocation * Q) :=
  local_search_fast data lambda1 lambda2 penalty_weight 10 (3 # 10) 3 allocation.

(** [min(PERTURB_MAX_RATIO, PERTURB_BASE_RATIO * (1 + counter / STAGNATION_LIMIT))] *)
Definition perturbation_intensity (counter : Z) : Q :=
  fmin PERTURB_MAX_RATIO
       (PERTURB_BASE_RATIO * (1 + inject_Z counter / inject_Z STAGNATION_LIMIT)).

(** The update of the best solution after the local search. *)
Definition record_best (st : state) (current : Allocation) : result state :=
  f <- feasible_after_change_beds data current None ;;
  if f : bool then
    curr_val <- objective_value data current lambda1 lambda2 ;;
    if Qltb (curr_val + eps) (best_feasible_value st) then
      Ok {| current := current;
            best_feasible_allocation := current;
            best_feasible_value := curr_val;
            no_improve_counter := 0;
            output := output st ++ [NewBest curr_val] |}
    else
      Ok {| current := current;
            best_feasible_allocation := best_feasible_allocation st;
            best_feasible_value := best_feasible_value st;
            no_improve_counter := no_improve_counter st + 1;
            output := output st |}
  else
    Ok {| current := current;
          best_feasible_allocation := best_feasible_allocation st;
          best_feasible_value := best_feasible_value st;
          no_improve_counter := no_improve_counter st + 1;
          output := output st |}.

(** The stagnation test and the perturbation that follows it. *)
Definition stagnation (st : state) : M state :=
  if STAGNATION_LIMIT <=? no_improve_counter st then
    let intensity := perturbation_intensity (no_improve_counter st) in
    current <~ _perturbation_mixed (best_feasible_allocation st) intensity ;;
    ret {| current := current;
           best_feasible_allocation := best_feasible_allocation st;
           best_feasible_value := best_feasible_value st;
           no_improve_counter := 0;
           output := output st ++ [Perturbazione intensity] |}
  else ret st.

Definition log (st : state) (e : event) : state :=
  {| current := current st;
     best_feasible_allocation := best_feasible_allocation st;
     best_feasible_value := best_feasible_value st;
     no_improve_counter := no_improve_counter st;
     output := output st ++ [e] |}.

(** One pass of the [for iteration in range(max_iterations)] loop. *)
Definition iteration (st : state) : M (state * bool) :=
  t <~ time_exceeded ;;
  if t : bool then ret (log st TimeoutReached, true)
  else
    ls <~ _local_search_fast (current st) ;;
    st <~ liftR (record_best st (fst ls)) ;;
    st <~ stagnation st ;;
    if STAGNATION_LIMIT * 2 <=? no_improve_counter st
    then ret (log st StoppingEarly, true)
    else ret (st, false).

Definition initial_state (start_allocation : Allocation) : result state :=
  let current := start_allocation in
  f <- feasible_after_change_beds data current None ;;
  if f : bool then
    v <- objective_value data current lambda1 lambda2 ;;
    Ok {| current := current;
          best_feasible_allocation := current;
          best_feasible_value := v;
          no_improve_counter := 0;
          output := [] |}
  else Raise ValueError.

Definition result_of (st : state) : SolveResult :=
  {| r_objective_value := best_feasible_value st;
     r_allocation := best_feasible_allocation st |}.

Definition solve (start_allocation : Allocation) (max_iterations : nat) : M SolveResult :=
  st <~ liftR (initial_state start_allocation) ;;
  st <~ for_loop max_iterations iteration st ;;
  ret (result_of st).

(** The best solution after a pass: unchanged, or replaced by a
    capacity-feasible allocation that is better by more than the tolerance. *)
Definition best_step (st st' : state) : Prop :=
  (best_feasible_allocation st' = best_feasible_allocation st
   /\ best_feasible_value st' = best_feasible_value st)
  \/ (feasible_after_change_beds data (best_feasible_allocation st') None = Ok true
      /\ objective_value data (best_feasible_allocation st') lambda1 lambda2
         = Ok (best_feasible_value st')
      /\ (best_feasible_value st' + eps < best_feasible_value st)%Q).

Definition best_is_feasible (st : state) : Prop :=
  feasible_after_change_beds data (best_feasible_allocation st) None = Ok true.

(** What the run prints when the stagnation counter never passes the limit:
    perturbations of intensity 0.2 only, and no early stop. *)
Definition steady_event (e : event) : Prop :=
  match e with
  | Perturbazione i => (i == 1 # 5)%Q
  | StoppingEarly => False
  | _ => True
  end.

Definition steady (st : state) : Prop :=
  0 <= no_improve_counter st < STAGNATION_LIMIT /\ Forall steady_event (output st).

End Methods.

End IteratedLocalSearch.

(* ------------------------------------------------------------------ *)
(** ** Variable neighbourhood search *)

Module VariableNeighborhoodSearch.

Definition K_MAX : Z := 4.

Record state : Type := {
  current : Allocation;
  best_feasible_allocation : Allocation;
  best_feasible_value : Q;
  k : Z;
  iteration_count : Z
}.

Section Methods.

Variable data : PatientAllocationData.
Variables lambda1 lambda2 penalty_weight : Q.

Definition day_bound (p : Patient) : Z := Z.min (latest p) (num_days data - 1).

Definition _shake_N1 (allocation : Allocation) : M Allocation :=
  pid <~ random_choice (dict_keys (patients data)) ;;
  p <~ liftR (dict_get (patients data) pid) ;;
  a <~ liftR (dict_get allocation pid) ;;
  let current_day := day a in
  shift <~ random_choice [-2; -1; 1; 2] ;;
  let new_day := current_day + shift in
  if (earliest p <=? new_day) && (new_day <=? day_bound p)
  then liftR (set_day allocation pid new_day)
  else ret allocation.

Definition _shake_N2 (allocation : Allocation) : M Allocation :=
  pid <~ random_choice (dict_keys (patients data)) ;;
  p <~ liftR (dict_get (patients data) pid) ;;
  let ws := compatible_wards_for_patient data p in
  if 1 <? Z.of_nat (List.length ws) then
    a <~ liftR (dict_get allocation pid) ;;
    new_ward <~ random_choice (filter (fun w => negb (String.eqb w (ward a))) ws) ;;
    liftR (set_ward allocation pid new_ward)
  else ret allocation.

Definition shake_one (shaken : Allocation) (pid : string) : M Allocation :=
  p <~ liftR (dict_get (patients data) pid) ;;
  u <~ random_random ;;
  if Qltb u (1 # 2) then
    new_day <~ random_randint (earliest p) (day_bound p) ;;
    liftR (set_day shaken pid new_day)
  else
    let ws := compatible_wards_for_patient data p in
    if 1 <? Z.of_nat (List.length ws) then
      new_ward <~ random_choice ws ;;
      liftR (set_ward shaken pid new_ward)
    else ret shaken.

Definition _shake_N3 (allocation : Allocation) : M Allocation :=
  let keys := dict_keys (patients data) in
  pids_to_move <~ random_sample keys (Z.min 2 (Z.of_nat (List.length keys))) ;;
  foldMM shake_one pids_to_move allocation.

Definition _shake_N4 (allocation : Allocation) : M Allocation :=
  let keys := dict_keys (patients data) in
  if 2 <=? Z.of_nat (List.length keys) then
    pids <~ random_sample keys 2 ;;
    match pids with
    | [p1_id; p2_id] =>
        p1 <~ liftR (dict_get (patients data) p1_id) ;;
        p2 <~ liftR (dict_get (patients data) p2_id) ;;
        a1 <~ liftR (dict_get allocation p1_id) ;;
        a2 <~ liftR (dict_get allocation p2_id) ;;
        let p1_wards := compatible_wards_for_patient data p1 in
        let p2_wards := compatible_wards_for_patient data p2 in
        if str_in (ward a2) p1_wards && str_in (ward a1) p2_wards
           && (earliest p1 <=? day a2) && (day a2 <=? day_bound p1)
           && (earliest p2 <=? day a1) && (day a1 <=? day_bound p2)
        then ret (dict_set (dict_set allocation p1_id a2) p2_id a1)
        else ret allocation
    | _ => raise ValueError
    end
  else ret allocation.

Definition _shake (allocation : Allocation) (k : Z) : M Allocation :=
  if k =? 1 then _shake_N1 allocation
  else if k =? 2 then _shake_N2 allocation
  else if k =? 3 then _shake_N3 allocation
  else _shake_N4 allocation.

Definition _local_search_fast (allocation : Allocation) : M (Allocation * Q) :=
  local_search_fast data lambda1 lambda2 penalty_weight 5 (2 # 10) 2 allocation.

(** The acceptance test after the local search, with the update of [k]
    before the wrap-around. *)
Definition accept (st : state) (improved_solution : Allocation) : result state :=
  f <- feasible_after_change_beds data improved_solution None ;;
  if f : bool then
    improved_val <- objective_value data improved_solution lambda1 lambda2 ;;
    if Qltb (improved_val + eps) (best_feasible_value st) then
      Ok {| current := improved_solution;
            best_feasible_allocation := improved_solution;
            best_feasible_value := improved_val;
            k := 1;
            iteration_count := iteration_count st |}
    else
      Ok {| current := current st;
            best_feasible_allocation := best_feasible_allocation st;
            best_feasible_value := best_feasible_value st;
            k := k st + 1;
            iteration_count := iteration_count st |}
  else
    Ok {| current := current st;
          best_feasible_allocation := best_feasible_allocation st;
          best_feasible_value := best_feasible_value st;
          k := k st + 1;
          iteration_count := iteration_count st |}.

(** [if k > self.K_MAX: k = 1] *)
Definition wrap (st : state) : state :=
  {| current := current st;
     best_feasible_allocation := best_feasible_allocation st;
     best_feasible_value := best_feasible_value st;
     k := if K_MAX <? k st then 1 else k st;
     iteration_count := iteration_count st |}.

Definition tick (st : state) : state :=
  {| current := current st;
     best_feasible_allocation := best_feasible_allocation st;
     best_feasible_value := best_feasible_value st;
     k := k st;
     iteration_count := iteration_count st + 1 |}.

(** One pass of the [while iteration < max_iterations] loop. *)
Definition iteration (st : state) : M (state * bool) :=
  t <~ time_exceeded ;;
  if t : bool then ret (st, true)
  else
    let st := tick st in
    shaken <~ _shake (current st) (k st) ;;
    ls <~ _local_search_fast shaken ;;
    st <~ liftR (accept st (fst ls)) ;;
    ret (wrap st, false).

Definition initial_state (start_allocation : Allocation) : result state :=
  let current := start_allocation in
  f <- feasible_after_change_beds data current None ;;
  if f : bool then
    v <- objective_value data current lambda1 lambda2 ;;
    Ok {| current := current;
          best_feasible_allocation := current;
          best_feasible_value := v;
          k := 1;
          iteration_count := 0 |}
  else Raise ValueError.

Definition result_of (st : state) : SolveResult :=
  {| r_objective_value := best_feasible_value st;
     r_allocation := best_feasible_allocation st |}.

(** The counter [iteration] grows by one in every pass that does not
    break, so the [while] loop makes at most [max_iterations] passes. *)
Definition solve (start_allocation : Allocation) (max_iterations : nat) : M SolveResult :=
  st <~ liftR (initial_state start_allocation) ;;
  st <~ for_loop max_iterations iteration st ;;
  ret (result_of st).

(** The best solution after a pass: unchanged, or replaced by a
    capacity-feasible allocation that is better by more than the tolerance. *)
Definition best_step (st st' : state) : Prop :=
  (best_feasible_allocation st' = best_feasible_allocation st
   /\ best_feasible_value st' = best_feasible_value st)
  \/ (feasible_after_change_beds data (best_feasible_allocation st') None = Ok true
      /\ objective_value data (best_feasible_allocation st') lambda1 lambda2
         = Ok (best_feasible_value st')
      /\ (best_feasible_value st' + eps < best_feasible_value st)%Q).

Definition best_is_feasible (st : state) : Prop :=
  feasible_after_change_beds data (best_feasible_allocation st) None = Ok true.

(** The local-search result [sol] is adopted: it is capacity-feasible and
    its objective is below the best one by more than the tolerance. *)
Definition adopted (st : state) (sol : Allocation) (v : Q) : Prop :=
  feasible_after_change_beds data sol None = Ok true
  /\ objective_value data sol lambda1 lambda2 = Ok v
  /\ (v + eps < best_feasible_value st)%Q.

(** The index is in range and the next shake starts from the best
    allocation. *)
Definition shake_ready (st : state) : Prop :=
  1 <= k st <= K_MAX /\ current st = best_feasible_allocation st.

End Methods.

End VariableNeighborhoodSearch.

(* ------------------------------------------------------------------ *)
(** ** The class [Solution] of [metaheuristics.py] *)

Module Solution.

Record t : Type := {
  allocation : Allocation;
  objective_value : fl;
  feasible : bool
}.

(** [Solution(data)] *)
Definition init : t :=
  {| allocation := []; objective_value := PInf; feasible := false |}.

(** [copy]: the allocation is deep-copied, so the copy is the same value. *)
Definition copy (s : t) : t :=
  {| allocation := allocation s; objective_value := objective_value s;
     feasible := feasible s |}.

Section Methods.

Variable data : PatientAllocationData.

Definition check_windows (alloc : Allocation) : result bool :=
  allM (fun kv : string * Assign =>
          let (patient_id, a) := kv in
          patient <- dict_get (patients data) patient_id ;;
          Ok ((earliest patient <=? day a) && (day a <=? latest patient)))
       alloc.

Definition patients_count (alloc : Allocation) (ward_name : string) (w : Ward) (d : Z)
  : result Z :=
  c0 <- py_index (carryover_patients w) d ;;
  foldM (fun count (kv : string * Assign) =>
           let (patient_id, a) := kv in
           if String.eqb (ward a) ward_name then
             patient <- dict_get (patients data) patient_id ;;
             Ok (if in_stay a patient d then count + 1 else count)
           else Ok count)
        alloc c0.

Definition check_beds (alloc : Allocation) : result bool :=
  allM (fun kv : string * Ward =>
          let (ward_name, w) := kv in
          allM (fun d =>
                  count <- patients_count alloc ward_name w d ;;
                  Ok (negb (bed_capacity w <? count)))
               (range 0 (num_days data)))
       (wards data).

Definition check_compatibility (alloc : Allocation) : result bool :=
  allM (fun kv : string * Assign =>
          let (patient_id, a) := kv in
          patient <- dict_get (patients data) patient_id ;;
          let spec := specialization patient in
          w <- dict_get (wards data) (ward a) ;;
          Ok (negb (negb (String.eqb spec (major_specialization w))
                    && negb (str_in spec (minor_specializations w)))))
       alloc.

Definition _check_feasibility (alloc : Allocation) : result bool :=
  if negb (Nat.eqb (List.length alloc) (List.length (patients data))) then Ok false
  else
    b <- check_windows alloc ;;
    if negb b then Ok false
    else
      b <- check_beds alloc ;;
      if negb b then Ok false
      else check_compatibility alloc.

Definition _calculate_operational_cost (alloc : Allocation) : result Q :=
  cost <- foldM (fun cost (kv : string * Assign) =>
                   let (patient_id, a) := kv in
                   patient <- dict_get (patients data) patient_id ;;
                   let delay := day a - earliest patient in
                   Ok (cost + weight_delay data * inject_Z delay)%Q)
                alloc 0%Q ;;
  foldM (fun cost (kv : string * Specialism) =>
           let (spec, _) := kv in
           foldM (fun cost d =>
                    ot_used <- compute_ot_used_by_spec_day data alloc spec d ;;
                    s <- dict_get (specialisms data) spec ;;
                    ot_available <- py_index (ot_time s) d ;;
                    if Qltb ot_available ot_used
                    then Ok (cost + weight_overtime data * (ot_used - ot_available))%Q
                    else Ok (cost + weight_undertime data * (ot_available - ot_used))%Q)
                 (range 0 (num_days data)) cost)
        (specialisms data) cost.

Definition add_workload (ward_name : string) (w : Ward) (d : Z) (total_workload : Q)
  (kv : string * Assign) : result Q :=
  let (patient_id, a) := kv in
  if String.eqb (ward a) ward_name then
    patient <- dict_get (patients data) patient_id ;;
    let admission_day := day a in
    if in_stay a patient d then
      let day_of_stay := d - admission_day in
      workload <- py_index (workload_per_day patient) day_of_stay ;;
      let spec := specialization patient in
      if negb (String.eqb spec (major_specialization w))
         && str_in spec (minor_specializations w)
      then s <- dict_get (specialisms data) spec ;;
           Ok (total_workload + workload * workload_factor s)%Q
      else Ok (total_workload + workload)%Q
    else Ok total_workload
  else Ok total_workload.

Definition _calculate_workload_balance (alloc : Allocation) : result Q :=
  foldM (fun max_workload (kv : string * Ward) =>
           let (ward_name, w) := kv in
           let workload_capacity := workload_capacity w in
           foldM (fun max_workload d =>
                    w0 <- py_index (carryover_workload w) d ;;
                    total_workload <- foldM (add_workload ward_name w d) alloc w0 ;;
                    if Qeq_bool workload_capacity 0 then Raise ZeroDivisionError
                    else
                      let normalized_workload := (total_workload / workload_capacity)%Q in
                      Ok (fmax max_workload normalized_workload))
                 (range 0 (num_days data)) max_workload)
        (wards data) 0%Q.

(** In exact arithmetic the scalarised value is always finite; with the
    overflow of the source the method is [F64.Solution.evaluate]. *)
Definition evaluate (s : t) (lambda1 lambda2 : Q) : result t :=
  ok <- _check_feasibility (allocation s) ;;
  if negb ok then
    Ok {| allocation := allocation s; objective_value := PInf; feasible := false |}
  else
    f1 <- _calculate_operational_cost (allocation s) ;;
    f2 <- _calculate_workload_balance (allocation s) ;;
    Ok {| allocation := allocation s;
          objective_value := Fin (lambda1 * f1 + lambda2 * f2);
          feasible := true |}.

End Methods.

End Solution.

(** The record that [SimulatedAnnealing.solve] and [TabuSearch.solve]
    return (the elapsed time is not modelled). *)
Record LegacyResult : Type := {
  lr_objective_value : fl;
  lr_solution : Allocation;
  lr_feasible : bool
}.

(* ------------------------------------------------------------------ *)
(** ** Simulated annealing *)

Module SimulatedAnnealing.

Inductive operation : Type := change_day | change_ward | swap.

Record state : Type := {
  current : Solution.t;
  best_solution : Solution.t;
  temperature : Q
}.

Definition pair_ltb (a b : Z * Z) : bool :=
  (fst a <? fst b) || ((fst a =? fst b) && (snd a <? snd b)).

Definition initial_key (kv : string * Patient) : Z * Z :=
  (latest (snd kv) - earliest (snd kv), earliest (snd kv)).

(** [l.remove(x)]: the first occurrence, [ValueError] when there is none. *)
Fixpoint list_remove (x : string) (l : list string) : result (list string) :=
  match l with
  | [] => Raise ValueError
  | y :: r => if String.eqb y x then Ok r
              else r' <- list_remove x r ;; Ok (y :: r')
  end.

(** [-delta / temperature] for a positive temperature. *)
Definition neg_div (delta : fl) (temperature : Q) : fl :=
  match delta with
  | Fin d => Fin (- d / temperature)
  | PInf => NInf
  | NInf => PInf
  | NaN => NaN
  end.

(** The temperatures at the end of the passes of a run of at most [n]
    passes: one multiplication by the cooling rate per pass, until the
    temperature is below the floor [0.01]. *)
Fixpoint cooling_schedule (n : nat) (temperature cooling_rate : Q) : list Q :=
  match n with
  | O => []
  | S n' =>
      let t := (temperature * cooling_rate)%Q in
      t :: (if Qltb t (1 # 100) then [] else cooling_schedule n' t cooling_rate)
  end.

Section Methods.

Variable data : PatientAllocationData.
Variables lambda1 lambda2 : Q.

(** [math.exp] on finite arguments: the embedding is parametric in it. *)
Variable exp : Q -> Q.

Definition math_exp (x : fl) : fl :=
  match x with
  | Fin q => Fin (exp q)
  | PInf => PInf
  | NInf => Fin 0
  | NaN => NaN
  end.

Definition compatible_wards (patient : Patient) : list string :=
  map fst
    (filter (fun kv : string * Ward =>
               String.eqb (specialization patient) (major_specialization (snd kv))
               || str_in (specialization patient) (minor_specializations (snd kv)))
            (wards data)).

Fixpoint try_wards (patient_id : string) (d : Z) (ws : list string) (alloc : Allocation)
  : result (Allocation * bool) :=
  match ws with
  | [] => Ok (alloc, false)
  | ward_name :: r =>
      let alloc := dict_set alloc patient_id {| ward := ward_name; day := d |} in
      b <- Solution._check_feasibility data alloc ;;
      if b : bool then Ok (alloc, true) else try_wards patient_id d r alloc
  end.

Fixpoint try_days (patient_id : string) (ws : list string) (ds : list Z)
  (alloc : Allocation) : result (Allocation * bool) :=
  match ds with
  | [] => Ok (alloc, false)
  | d :: r =>
      if num_days data <=? d then Ok (alloc, false)
      else
        res <- try_wards patient_id d ws alloc ;;
        let (alloc, allocated) := res : Allocation * bool in
        if allocated then Ok (alloc, true) else try_days patient_id ws r alloc
  end.

Definition allocate_patient (alloc : Allocation) (kv : string * Patient)
  : result Allocation :=
  let (patient_id, patient) := kv in
  let ws := compatible_wards patient in
  res <- try_days patient_id ws (range (earliest patient) (latest patient + 1)) alloc ;;
  let (alloc, allocated) := res : Allocation * bool in
  if allocated then Ok alloc
  else
    w0 <- py_index ws 0 ;;
    Ok (dict_set alloc patient_id {| ward := w0; day := earliest patient |}).

Definition _generate_initial_solution : result Solution.t :=
  let ps := sort_by (fun a b => pair_ltb (initial_key a) (initial_key b)) (patients data) in
  alloc <- foldM allocate_patient ps [] ;;
  Solution.evaluate data
    {| Solution.allocation := alloc; Solution.objective_value := PInf;
       Solution.feasible := false |} lambda1 lambda2.

Definition apply_operation (alloc : Allocation) (patient_id : string) (patient : Patient)
  (op : operation) : M Allocation :=
  match op with
  | change_day =>
      new_day <~ random_randint (earliest patient) (latest patient) ;;
      if new_day <? num_days data then liftR (set_day alloc patient_id new_day)
      else ret alloc
  | change_ward =>
      let ws := compatible_wards patient in
      if 1 <? Z.of_nat (List.length ws) then
        a <~ liftR (dict_get alloc patient_id) ;;
        ws' <~ liftR (list_remove (ward a) ws) ;;
        w <~ random_choice ws' ;;
        liftR (set_ward alloc patient_id w)
      else ret alloc
  | swap =>
      patient_id2 <~ random_choice (dict_keys alloc) ;;
      if negb (String.eqb patient_id patient_id2) then
        a1 <~ liftR (dict_get alloc patient_id) ;;
        a2 <~ liftR (dict_get alloc patient_id2) ;;
        alloc <~ liftR (set_day alloc patient_id (day a2)) ;;
        liftR (set_day alloc patient_id2 (day a1))
      else ret alloc
  end.

Definition _get_neighbor (solution : Solution.t) : M Solution.t :=
  let neighbor := Solution.copy solution in
  patient_id <~ random_choice (dict_keys (Solution.allocation neighbor)) ;;
  patient <~ liftR (dict_get (patients data) patient_id) ;;
  op <~ random_choice [change_day; change_ward; swap] ;;
  alloc <~ apply_operation (Solution.allocation neighbor) patient_id patient op ;;
  liftR (Solution.evaluate data
           {| Solution.allocation := alloc;
              Solution.objective_value := Solution.objective_value neighbor;
              Solution.feasible := Solution.feasible neighbor |} lambda1 lambda2).

(** [delta < 0 or (temperature > 0 and random.random() < math.exp(-delta / temperature))];
    the random number is drawn only when the first two tests leave the
    decision open. *)
Definition accepts (delta : fl) (temperature : Q) : M bool :=
  if fl_ltb delta (Fin 0) then ret true
  else if Qltb 0 temperature then
    u <~ random_random ;;
    ret (fl_ltb (Fin u) (math_exp (neg_div delta temperature)))
  else ret false.

Definition track_best (best : Solution.t) (current : Solution.t) : Solution.t :=
  if fl_ltb (Solution.objective_value current) (Solution.objective_value best)
  then Solution.copy current else best.

(** One pass of the loop of [solve]. *)
Definition iteration (cooling_rate : Q) (st : state) : M (state * bool) :=
  neighbor <~ _get_neighbor (current st) ;;
  let delta := fl_sub (Solution.objective_value neighbor)
                      (Solution.objective_value (current st)) in
  acc <~ accepts delta (temperature st) ;;
  let current' := if acc : bool then neighbor else current st in
  let best' := if acc then track_best (best_solution st) current' else best_solution st in
  let temperature' := (temperature st * cooling_rate)%Q in
  ret ({| current := current'; best_solution := best'; temperature := temperature' |},
       Qltb temperature' (1 # 100)).

Definition initial_state (initial_temp : Q) : result state :=
  current <- _generate_initial_solution ;;
  Ok {| current := current; best_solution := Solution.copy current;
        temperature := initial_temp |}.

Definition result_of (st : state) : LegacyResult :=
  {| lr_objective_value := Solution.objective_value (best_solution st);
     lr_solution := Solution.allocation (best_solution st);
     lr_feasible := Solution.feasible (best_solution st) |}.

Definition solve (max_iterations : nat) (initial_temp cooling_rate : Q) : M LegacyResult :=
  st <~ liftR (initial_state initial_temp) ;;
  st <~ for_loop max_iterations (iteration cooling_rate) st ;;
  ret (result_of st).

End Methods.

End SimulatedAnnealing.

(* ------------------------------------------------------------------ *)
(** ** Tabu search *)

Module TabuSearch.

Record state : Type := {
  current : Solution.t;
  best_solution : Solution.t;
  tabu_list : list Allocation
}.

(** [str(neighbor.allocation)] is compared as a string; two allocations of
    the same run print alike exactly when they are equal entry by entry. *)
Fixpoint alloc_eqb (a b : Allocation) : bool :=
  match a, b with
  | [], [] => true
  | (k1, v1) :: r1, (k2, v2) :: r2 => String.eqb k1 k2 && Assign_eqb v1 v2 && alloc_eqb r1 r2
  | _, _ => false
  end.

Definition is_tabu (move : Allocation) (tabu_list : list Allocation) : bool :=
  existsb (alloc_eqb move) tabu_list.

Section Methods.

Variable data : PatientAllocationData.
Variables lambda1 lambda2 : Q.

Fixpoint neighborhood (n : nat) (current : Solution.t) : M (list Solution.t) :=
  match n with
  | O => ret []
  | S n' =>
      neighbor <~ SimulatedAnnealing._get_neighbor data lambda1 lambda2 current ;;
      rest <~ neighborhood n' current ;;
      ret (neighbor :: rest)
  end.

Definition push (tabu_tenure : Z) (tabu_list : list Allocation) (move : Allocation)
  : list Allocation :=
  let l := tabu_list ++ [move] in
  if tabu_tenure <? Z.of_nat (List.length l) then tl l else l.

(** The scan of the sorted neighbours: the first one that is not tabu,
    or that beats the best solution, is taken. *)
Fixpoint choose (tabu_tenure : Z) (neighbors : list Solution.t) (st : state) : state :=
  match neighbors with
  | [] => st
  | neighbor :: r =>
      let move := Solution.allocation neighbor in
      if negb (is_tabu move (tabu_list st))
         || fl_ltb (Solution.objective_value neighbor)
                   (Solution.objective_value (best_solution st))
      then
        {| current := neighbor;
           best_solution := SimulatedAnnealing.track_best (best_solution st) neighbor;
           tabu_list := push tabu_tenure (tabu_list st) move |}
      else choose tabu_tenure r st
  end.

Definition iteration (tabu_tenure : Z) (st : state) : M (state * bool) :=
  neighbors <~ neighborhood 20 (current st) ;;
  let neighbors :=
    sort_by (fun a b => fl_ltb (Solution.objective_value a) (Solution.objective_value b))
            neighbors in
  ret (choose tabu_tenure neighbors st, false).

Definition initial_state : result state :=
  current <- SimulatedAnnealing._generate_initial_solution data lambda1 lambda2 ;;
  Ok {| current := current; best_solution := Solution.copy current; tabu_list := [] |}.

Definition result_of (st : state) : LegacyResult :=
  {| lr_objective_value := Solution.objective_value (best_solution st);
     lr_solution := Solution.allocation (best_solution st);
     lr_feasible := Solution.feasible (best_solution st) |}.

Definition solve (max_iterations : nat) (tabu_tenure : Z) : M LegacyResult :=
  st <~ liftR initial_state ;;
  st <~ for_loop max_iterations (iteration tabu_tenure) st ;;
  ret (result_of st).

End Methods.

End TabuSearch.

(* ------------------------------------------------------------------ *)
(** ** The capacity constraint in the words of the specification

    The specification (section 3): for every ward and day, the count of
    patients whose stay interval covers that day, plus the ward's carryover
    count, must not exceed bed capacity.  And (section 4.1): [bed_violations]
    is the sum over all ward-days of (occupancy - capacity) where positive. *)

Definition sum_Z {A} (f : A -> Z) (l : list A) : Z :=
  fold_right (fun x acc => f x + acc) 0 l.

Definition resident (data : PatientAllocationData) (wname : string) (d : Z)
  (kv : string * Assign) : bool :=
  String.eqb (ward (snd kv)) wname
  && match dict_get (patients data) (fst kv) with
     | Ok p => in_stay (snd kv) p d
     | Raise _ => false
     end.

Definition spec_occupancy (data : PatientAllocationData) (allocation : Allocation)
  (wname : string) (w : Ward) (d : Z) : Z :=
  nth (Z.to_nat d) (carryover_patients w) 0
  + Z.of_nat (List.length (filter (resident data wname d) allocation)).

Definition spec_bed_violations (data : PatientAllocationData) (allocation : Allocation) : Z :=
  sum_Z (fun kv : string * Ward =>
           sum_Z (fun d => Z.max 0 (spec_occupancy data allocation (fst kv) (snd kv) d
                                    - bed_capacity (snd kv)))
                 (range 0 (num_days data)))
        (wards data).

Definition spec_capacity_ok (data : PatientAllocationData) (allocation : Allocation) : Prop :=
  forall wname w d,
    In (wname, w) (wards data) -> 0 <= d < num_days data ->
    spec_occupancy data allocation wname w d <= bed_capacity w.

(** Every key of the allocation is a patient. *)
Definition known_patients (data : PatientAllocationData) (allocation : Allocation) : Prop :=
  forall pid a, In (pid, a) allocation -> exists p, dict_get (patients data) pid = Ok p.

(** An instance that stresses the guards of the evaluator: a ward without
    workload capacity, a patient whose workload profile is shorter than the
    stay, and assignments outside the window and past the horizon. *)
Definition stress_data : PatientAllocationData :=
  {| patients := [("p1"%string,
                   {| specialization := "S"; earliest := 0; latest := 0; los := 3;
                      surgery_duration := 1%Q; workload_per_day := [1%Q] |});
                  ("p2"%string,
                   {| specialization := "T"; earliest := 0; latest := 1; los := 2;
                      surgery_duration := 1%Q; workload_per_day := [] |})];
     wards := [("W"%string,
                {| bed_capacity := 1; workload_capacity := 0%Q; major_specialization := "S";
                   minor_specializations := ["T"%string]; carryover_patients := [0; 0];
                   carryover_workload := [1%Q; 1%Q] |})];
     specialisms := [("S"%string, {| ot_time := [2%Q; 2%Q]; workload_factor := 1%Q |});
                     ("T"%string, {| ot_time := [2%Q; 2%Q]; workload_factor := (1 # 2)%Q |})];
     num_days := 2;
     weight_overtime := 1%Q; weight_undertime := 1%Q; weight_delay := 1%Q |}.

Definition stress_allocation : Allocation :=
  [("p1"%string, {| ward := "W"; day := -1 |});
   ("p2"%string, {| ward := "W"; day := 7 |})].


(** The saturation error is the only [RuntimeError] of the construction; a
    computation is [safeR] (or [safeM]) when it cannot raise it. *)
Definition not_saturation (e : exn) : Prop :=
  match e with RuntimeError _ => False | _ => True end.

Definition safeR {A} (r : result A) : Prop := forall e, r = Raise e -> not_saturation e.

Definition safeM {A} (m : M A) : Prop := forall w e, m w = Raise e -> not_saturation e.

(** No placement of [pid] passes the capacity check of the fallback scan. *)
Definition no_placement (data : PatientAllocationData) (alloc : Allocation) (pid : string)
  (p : Patient) : Prop :=
  forall w d,
    In w (compatible_wards_for_patient data p) -> In d (window_days data p) ->
    feasible_after_change_beds data alloc (Some (pid, w, d)) = Ok false.

(** An instance on which two allocations differ by less than the tolerance:
    one patient, one ward, two days, no cost weights; the carryover workload
    of the second day is [1e-9]. *)
Definition tolerance_data : PatientAllocationData :=
  {| patients := [("p"%string,
                   {| specialization := "S"; earliest := 0; latest := 1; los := 1;
                      surgery_duration := 0%Q; workload_per_day := [1%Q] |})];
     wards := [("W"%string,
                {| bed_capacity := 1; workload_capacity := 1%Q; major_specialization := "S";
                   minor_specializations := []; carryover_patients := [0; 0];
                   carryover_workload := [0%Q; eps] |})];
     specialisms := [("S"%string, {| ot_time := [0%Q; 0%Q]; workload_factor := 1%Q |})];
     num_days := 2;
     weight_overtime := 0%Q; weight_undertime := 0%Q; weight_delay := 0%Q |}.

Definition tolerance_start : Allocation := [("p"%string, {| ward := "W"; day := 1 |})].

Definition tolerance_better : Allocation := [("p"%string, {| ward := "W"; day := 0 |})].

Definition world1 : World :=
  {| ints := fun _ => 1%nat; units := fun _ => 0%Q; timeouts := fun _ => false |}.

(** A small instance with two wards and two patients. *)
Definition demo_data : PatientAllocationData :=
  {| patients := [("a"%string,
                   {| specialization := "S"; earliest := 0; latest := 2; los := 2;
                      surgery_duration := 3%Q; workload_per_day := [2%Q; 1%Q] |});
                  ("b"%string,
                   {| specialization := "T"; earliest := 1; latest := 2; los := 1;
                      surgery_duration := 2%Q; workload_per_day := [1%Q] |})];
     wards := [("W1"%string,
                {| bed_capacity := 1; workload_capacity := 4%Q; major_specialization := "S";
                   minor_specializations := ["T"%string]; carryover_patients := [1; 0; 0];
                   carryover_workload := [1%Q; 0%Q; 0%Q] |});
               ("W2"%string,
                {| bed_capacity := 2; workload_capacity := 5%Q; major_specialization := "T";
                   minor_specializations := ["S"%string]; carryover_patients := [0; 0; 0];
                   carryover_workload := [0%Q; 0%Q; 0%Q] |})];
     specialisms := [("S"%string, {| ot_time := [2%Q; 2%Q; 2%Q]; workload_factor := (3 # 2)%Q |});
                     ("T"%string, {| ot_time := [2%Q; 1%Q; 2%Q]; workload_factor := (1 # 2)%Q |})];
     num_days := 3;
     weight_overtime := 2%Q; weight_undertime := 1%Q; weight_delay := 3%Q |}.

Definition demo_start : Allocation :=
  [("b"%string, {| ward := "W1"; day := 1 |}); ("a"%string, {| ward := "W1"; day := 2 |})].

Definition world7 : World :=
  {| ints := fun n => (n * 7 + 3)%nat; units := fun _ => (1 # 3)%Q; timeouts := fun _ => false |}.

(** A stand-in for [math.exp] in the concrete runs. *)
Definition exp_half (_ : Q) : Q := 1 # 2.

(** The scenario with the three patients on the same day. *)
Definition scenario_crowded : Allocation :=
  [("p1"%string, {| ward := "W"; day := 0 |}); ("p2"%string, {| ward := "W"; day := 0 |});
   ("p3"%string, {| ward := "W"; day := 0 |})].

(** An instance on which the local search prefers a capacity violation:
    the delay of the second patient costs more than the penalty. *)
Definition soft_data : PatientAllocationData :=
  {| patients := [("p1"%string,
                   {| specialization := "S"; earliest := 0; latest := 0; los := 1;
                      surgery_duration := 1%Q; workload_per_day := [1%Q] |});
                  ("p2"%string,
                   {| specialization := "S"; earliest := 0; latest := 1; los := 1;
                      surgery_duration := 1%Q; workload_per_day := [1%Q] |})];
     wards := [("W"%string,
                {| bed_capacity := 1; workload_capacity := 10%Q; major_specialization := "S";
                   minor_specializations := []; carryover_patients := [0; 0];
                   carryover_workload := [0%Q; 0%Q] |})];
     specialisms := [("S"%string, {| ot_time := [1%Q; 1%Q]; workload_factor := 1%Q |})];
     num_days := 2;
     weight_overtime := 1%Q; weight_undertime := 1%Q; weight_delay := 4000%Q |}.

Definition soft_start : Allocation :=
  [("p1"%string, {| ward := "W"; day := 0 |}); ("p2"%string, {| ward := "W"; day := 1 |})].

(* ------------------------------------------------------------------ *)
(** ** The local improvement of [metaheuristics_NEW.py] *)

Definition pairQ_gtb (a b : Q * string) : bool :=
  Qltb (fst b) (fst a) || (Qeq_bool (fst a) (fst b) && String.ltb (snd b) (snd a)).

Section LocalImprovement.

Variable data : PatientAllocationData.
Variables lambda1 lambda2 : Q.

(** One candidate move of patient [pid]: skipped when it breaks the bed
    capacity, kept when it beats the best value found so far by more than
    the tolerance. *)
Definition gli_try (current : Allocation) (pid : string) (best : Assign * Q) (cand : Assign)
  : result (Assign * Q) :=
  f <- feasible_after_change_beds data current (Some (pid, ward cand, day cand)) ;;
  if negb f then Ok best
  else
    val <- objective_value data (dict_set current pid cand) lambda1 lambda2 ;;
    if Qltb (val + eps) (snd best) then Ok (cand, val) else Ok best.

(** The body of [for pid in ordered_pids]; the flag tells whether the
    patient was moved. *)
Definition gli_patient (s : Allocation * Q) (pid : string) : result (Allocation * Q * bool) :=
  let (current, curr_val) := s in
  p <- dict_get (patients data) pid ;;
  base <- dict_get current pid ;;
  best <- foldM (fun best d =>
                   if d =? day base then Ok best
                   else gli_try current pid best {| ward := ward base; day := d |})
                (window_days data p) (base, curr_val) ;;
  best <- foldM (fun best w =>
                   if String.eqb w (ward base) then Ok best
                   else gli_try current pid best {| ward := w; day := day base |})
                (compatible_wards_for_patient data p) best ;;
  if negb (Assign_eqb (fst best) base)
  then Ok (dict_set current pid (fst best), snd best, true)
  else Ok (current, curr_val, false).

Definition gli_contributions (current : Allocation) : result (list (Q * string)) :=
  IteratedLocalSearch.mapR
    (fun kv : string * Patient =>
       let (pid, p) := kv in
       a <- dict_get current pid ;;
       Ok ((inject_Z (Z.max 0 (day a - earliest p)) * weight_delay data)%Q, pid))
    (patients data).

(** One round; the flag is [no_improve]. *)
Definition gli_round (s : Allocation * Q) : result (Allocation * Q * bool) :=
  _ <- compute_objective_components data (fst s) ;;
  patient_contributions <- gli_contributions (fst s) ;;
  let ordered_pids := map snd (sort_by pairQ_gtb patient_contributions) in
  foldM (fun (acc : Allocation * Q * bool) pid =>
           r <- gli_patient (fst acc) pid ;;
           Ok (fst r, snd acc && negb (snd r)))
        ordered_pids (s, true).

Fixpoint gli_rounds (max_rounds : nat) (s : Allocation * Q) : result (Allocation * Q) :=
  match max_rounds with
  | O => Ok s
  | S n =>
      r <- gli_round s ;;
      if snd r : bool then Ok (fst r) else gli_rounds n (fst r)
  end.

Definition greedy_local_improvement (start_allocation : Allocation) (max_rounds : nat)
  : result (Allocation * Q) :=
  curr_val <- objective_value data start_allocation lambda1 lambda2 ;;
  gli_rounds max_rounds (start_allocation, curr_val).

End LocalImprovement.

(* ------------------------------------------------------------------ *)
(** ** The pipeline [run_metaheuristics] *)



(* ------------------------------------------------------------------ *)
(** ** The hybrid coordinator of [hybrid_solver.py]

    Modelled from the spec: the class [PatientAllocationMILP] of
    [milp_model.py] is not part of the sources and wraps an external solver.
    Of it the coordinator uses the dictionary [y] of assignment variables,
    keyed by (patient, ward, day), whose attribute [Start] it writes, and the
    call [solve], whose result is a record with an objective and a solution,
    or nothing.  The variables are a list of keys with their [Start] value
    ([None] while unset); the external solver is an arbitrary function of the
    variables it is started from.  The method [solve], which computes with
    the float objective of the searches, is [F64.HybridSolver.solve] below. *)

Definition YKey : Type := (string * string * Z)%type.

Definition YVars : Type := list (YKey * option Z).

Definition ykey_eqb (a b : YKey) : bool :=
  let '(p1, w1, d1) := a in
  let '(p2, w2, d2) := b in
  String.eqb p1 p2 && String.eqb w1 w2 && (d1 =? d2).

(** [milp.y[key].Start = v] for a key of the dictionary. *)
Definition set_start (y : YVars) (key : YKey) (v : Z) : YVars :=
  map (fun kv => if ykey_eqb (fst kv) key then (fst kv, Some v) else kv) y.

(** The second loop of the body: the other variables of the patient get 0. *)
Definition clear_others (y : YVars) (patient_id w : string) (d : Z) : YVars :=
  map (fun kv : YKey * option Z =>
         let '(pid, w', d') := fst kv in
         if String.eqb pid patient_id && (negb (String.eqb w' w) || negb (d' =? d))
         then (fst kv, Some 0) else kv)
      y.

Definition warm_start_patient (y : YVars) (kv : string * Assign) : YVars :=
  let (patient_id, a) := kv in
  let y := if existsb (fun k => ykey_eqb (fst k) (patient_id, ward a, day a)) y
           then set_start y (patient_id, ward a, day a) 1 else y in
  clear_others y patient_id (ward a) (day a).

Definition _apply_warm_start (y : YVars) (solution : Allocation) : YVars :=
  fold_left warm_start_patient solution y.

(* ------------------------------------------------------------------ *)
(** ** Notions used to state further properties *)

(** The assignment of [pid] is inside the patient's window and the horizon
    and on a ward that is compatible with the patient. *)
Definition placement_ok (data : PatientAllocationData) (pid : string) (a : Assign) : Prop :=
  exists p,
    dict_get (patients data) pid = Ok p
    /\ earliest p <= day a <= Z.min (latest p) (num_days data - 1)
    /\ In (ward a) (compatible_wards_for_patient data p).

Definition all_placements_ok (data : PatientAllocationData) (alloc : Allocation) : Prop :=
  forall pid a, In (pid, a) alloc -> placement_ok data pid a.

(** What the fast local search does to its argument: a sequence of moves
    of one patient to a day of its window, each lowering the penalised
    objective by more than the tolerance. *)
Inductive ls_moves (data : PatientAllocationData) (lambda1 lambda2 penalty_weight : Q)
  : Allocation * Q -> Allocation * Q -> Prop :=
| ls_stay s : ls_moves data lambda1 lambda2 penalty_weight s s
| ls_move cur v pid p d trial val s' :
    dict_get (patients data) pid = Ok p ->
    In d (window_days data p) ->
    set_day cur pid d = Ok trial ->
    objective_value_penalized data trial lambda1 lambda2 penalty_weight = Ok val ->
    (val + eps < v)%Q ->
    ls_moves data lambda1 lambda2 penalty_weight (trial, val) s' ->
    ls_moves data lambda1 lambda2 penalty_weight (cur, v) s'.

(** [a'] has the entries of [a] for the same patients in the same order,
    and is inside the windows and on compatible wards when [a] is. *)
Definition keeps (data : PatientAllocationData) (a a' : Allocation) : Prop :=
  dict_keys a' = dict_keys a
  /\ (all_placements_ok data a -> all_placements_ok data a').

(** What the construction keeps true of the partial allocation: every
    placed patient is inside its window and on a compatible ward, and no
    ward-day of the horizon is over its bed capacity. *)
Definition construction_ok (data : PatientAllocationData) (alloc : Allocation) : Prop :=
  all_placements_ok data alloc /\ spec_capacity_ok data alloc.

(** What the scan of one patient in [greedy_local_improvement] has found so
    far: nothing, or a candidate other than the base placement that passes
    the capacity check and beats the current value by more than the
    tolerance. *)
Definition gli_found (data : PatientAllocationData) (lambda1 lambda2 : Q)
  (current : Allocation) (pid : string) (base : Assign) (curr_val : Q)
  (best : Assign * Q) : Prop :=
  best = (base, curr_val)
  \/ (fst best <> base
      /\ (placement_ok data pid base -> placement_ok data pid (fst best))
      /\ feasible_after_change_beds data (dict_set current pid (fst best)) None = Ok true
      /\ objective_value data (dict_set current pid (fst best)) lambda1 lambda2 = Ok (snd best)
      /\ (snd best + eps < curr_val)%Q).

(** What [greedy_local_improvement] does to its state [(current, curr_val)]. *)
Definition gli_improves (data : PatientAllocationData) (lambda1 lambda2 : Q)
  (s s' : Allocation * Q) : Prop :=
  s' = s
  \/ (keeps data (fst s) (fst s')
      /\ feasible_after_change_beds data (fst s') None = Ok true
      /\ objective_value data (fst s') lambda1 lambda2 = Ok (snd s')
      /\ (snd s' + eps < snd s)%Q).

(** A start for the demonstration instance with both patients on the last
    day of the horizon. *)
Definition delayed_start : Allocation :=
  [("a"%string, {| ward := "W2"; day := 2 |}); ("b"%string, {| ward := "W2"; day := 2 |})].


(** The placement that [_generate_initial_solution] falls back on: the
    first compatible ward on the earliest day ([IndexError] when no ward is
    compatible). *)
Definition forced_placement (data : PatientAllocationData) (kv : string * Patient)
  : result (string * Assign) :=
  w0 <- py_index (SimulatedAnnealing.compatible_wards data (snd kv)) 0 ;;
  Ok (fst kv, {| ward := w0; day := earliest (snd kv) |}).

(** What [_apply_warm_start] leaves in a variable: 1 when the solution
    assigns the patient of the variable to its ward and day, 0 when it
    assigns the patient elsewhere, the old value when the patient is not in
    the solution. *)
Definition warm_start_value (solution : Allocation) (kv : YKey * option Z)
  : YKey * option Z :=
  let '(pid, w, d) := fst kv in
  match dict_get solution pid with
  | Ok a => if String.eqb w (ward a) && (d =? day a) then (fst kv, Some 1)
            else (fst kv, Some 0)
  | Raise _ => kv
  end.

(** Assignment variables for the demonstration instance: two of patient
    [a], one of patient [b], and one of a patient that no solution places. *)
Definition demo_y : YVars :=
  [(("a"%string, "W1"%string, 2), None); (("a"%string, "W2"%string, 0), None);
   (("b"%string, "W1"%string, 1), None); (("c"%string, "W1"%string, 0), Some 1)].

(* ------------------------------------------------------------------ *)
(** ** The evaluators and the legacy searches over binary64 floats

    The definitions above compute with exact rationals.  Where rounding or
    overflow decides a property (the penalty of [objective_value_penalized],
    the finiteness of the objective of [Solution.evaluate]), the same
    functions are embedded here with the float operations of the source:
    Rocq's primitive floats are IEEE 754 binary64 with rounding to nearest,
    ties to even, as Python's [float].  A number of the instance is the
    float [Q2F q] that its numeral [q] denotes; an [int] that meets a float
    in an operation is converted by [Z2F].  The integer functions (the
    feasibility checks, [bed_capacity_violations], the moves on allocations)
    are the ones above. *)

Module F64.

(** [float(n)] for an [int]: the nearest float (exact below [2^53]). *)
Definition Z2F (z : Z) : float := SF2Prim (binary_normalize prec emax z 0 false).

(** The float of a numeral [n/d]; it is the nearest float to the rational
    when [n] and [d] are below [2^53]. *)
Definition Q2F (q : Q) : float := (Z2F (Qnum q) / Z2F (Zpos (Qden q)))%float.

(** The key of a positive float with mantissa [m] and exponent [e]: its
    value in units of the smallest positive float, [2^-1074]. *)
Definition fkey (m : positive) (e : Z) : Z := Zpos m * 2 ^ (e + 1074).

(** Rounding to nearest, ties to even, of a positive integer to 53
    significant bits: what the operations of binary64 apply to the key of an
    exact result. *)
Definition rne (V : Z) : Z :=
  let d := Z.log2 V + 1 in
  if d <=? 53 then V
  else
    let n := d - 53 in
    let q := V / 2 ^ n in
    let r := V mod 2 ^ n in
    (if (2 ^ n <? 2 * r) || ((2 ^ n =? 2 * r) && Z.odd q) then q + 1 else q) * 2 ^ n.

(** What [n] right shifts leave: the quotient, and the position of the
    remainder with respect to the half. *)
Definition shr_inv (m0 : Z) (n : nat) (mrs : shr_record) : Prop :=
  exists rem,
    0 <= shr_m mrs
    /\ m0 = shr_m mrs * 2 ^ Z.of_nat n + rem
    /\ 0 <= rem < 2 ^ Z.of_nat n
    /\ (shr_r mrs || shr_s mrs = negb (rem =? 0))
    /\ ((1 <= n)%nat ->
        shr_r mrs = (2 ^ Z.of_nat n <=? 2 * rem)
        /\ shr_s mrs = negb ((rem =? 0) || (2 * rem =? 2 ^ Z.of_nat n))).

(** [max(z, x)] on floats: the second argument only when it is larger. *)
Definition fmax (z x : float) : float := if (z <? x)%float then x else z.

(** [total_w / cap if cap > 0 else 0.0] *)
Definition normalize (total_w cap : float) : float :=
  if (0 <? cap)%float then (total_w / cap)%float else 0%float.

Definition compute_ot_used_by_spec_day (data : PatientAllocationData) (allocation : Allocation)
  (spec : string) (d : Z) : result float :=
  foldM (fun (total : float) (kv : string * Assign) =>
           let (pid, a) := kv in
           p <- dict_get (patients data) pid ;;
           Ok (if String.eqb (specialization p) spec && (day a =? d)
               then (total + Q2F (surgery_duration p))%float else total))
        allocation 0%float.

Definition add_patient_workload (data : PatientAllocationData) (wname : string) (w : Ward)
  (d : Z) (total_w : float) (kv : string * Assign) : result float :=
  let (pid, a) := kv in
  if negb (String.eqb (ward a) wname) then Ok total_w
  else
    p <- dict_get (patients data) pid ;;
    let admission := day a in
    if in_stay a p d then
      let day_of_stay := d - admission in
      if (0 <=? day_of_stay) && (day_of_stay <? Z.of_nat (List.length (workload_per_day p))) then
        base <- py_index (workload_per_day p) day_of_stay ;;
        let spec := specialization p in
        if negb (String.eqb spec (major_specialization w))
           && str_in spec (minor_specializations w)
        then s <- dict_get (specialisms data) spec ;;
             Ok (total_w + Q2F base * Q2F (workload_factor s))%float
        else Ok (total_w + Q2F base)%float
      else Ok total_w
    else Ok total_w.

Definition compute_workload_normalized_and_z (data : PatientAllocationData)
  (allocation : Allocation) : result (list ((string * Z) * float) * float) :=
  foldM (fun xz (kv : string * Ward) =>
           let (wname, ward) := kv in
           let cap := Q2F (workload_capacity ward) in
           foldM (fun (xz : list ((string * Z) * float) * float) d =>
                    let (x, z) := xz in
                    w0 <- py_index (carryover_workload ward) d ;;
                    total_w <- foldM (add_patient_workload data wname ward d) allocation
                                 (Q2F w0) ;;
                    let xv := normalize total_w cap in
                    Ok (x ++ [((wname, d), xv)], fmax z xv))
                 (range 0 (num_days data)) xz)
        (wards data) ([], 0%float).

Record Components : Type := {
  c_delays : float;
  c_overtime : float;
  c_undertime : float;
  c_z : float;
  c_x_map : list ((string * Z) * float);
  c_ot_used_map : list ((string * Z) * (float * float * float * float))
}.

Definition compute_delays (data : PatientAllocationData) (allocation : Allocation)
  : result float :=
  foldM (fun (delays : float) (kv : string * Assign) =>
           let (pid, a) := kv in
           p <- dict_get (patients data) pid ;;
           Ok (delays + Z2F (Z.max 0 (day a - earliest p)))%float)
        allocation 0%float.

Definition compute_ot (data : PatientAllocationData) (allocation : Allocation)
  : result (float * float * list ((string * Z) * (float * float * float * float))) :=
  foldM (fun acc (kv : string * Specialism) =>
           let (spec, _) := kv in
           foldM (fun (acc : float * float
                             * list ((string * Z) * (float * float * float * float))) d =>
                    let '(ovt, undt, m) := acc in
                    used <- compute_ot_used_by_spec_day data allocation spec d ;;
                    s <- dict_get (specialisms data) spec ;;
                    avail_q <- py_index (ot_time s) d ;;
                    let avail := Q2F avail_q in
                    if (avail <? used)%float
                    then Ok ((ovt + (used - avail))%float, undt,
                             m ++ [((spec, d), (used, avail, (used - avail)%float, 0%float))])
                    else Ok (ovt, (undt + (avail - used))%float,
                             m ++ [((spec, d), (used, avail, 0%float, (avail - used)%float))]))
                 (range 0 (num_days data)) acc)
        (specialisms data) (0%float, 0%float, []).

Definition compute_objective_components (data : PatientAllocationData)
  (allocation : Allocation) : result Components :=
  delays <- compute_delays data allocation ;;
  ot <- compute_ot data allocation ;;
  let '(total_overtime, total_undertime, ot_used_map) := ot in
  xz <- compute_workload_normalized_and_z data allocation ;;
  let (x_map, z) := xz in
  Ok {| c_delays := delays; c_overtime := total_overtime; c_undertime := total_undertime;
        c_z := z; c_x_map := x_map; c_ot_used_map := ot_used_map |}.

Definition objective_value (data : PatientAllocationData) (allocation : Allocation)
  (lambda1 lambda2 : float) : result float :=
  c <- compute_objective_components data allocation ;;
  let f1 := (Q2F (weight_overtime data) * c_overtime c
             + Q2F (weight_undertime data) * c_undertime c
             + Q2F (weight_delay data) * c_delays c)%float in
  let f2 := c_z c in
  Ok (lambda1 * f1 + lambda2 * f2)%float.

(** [f_obj + penalty_weight * violations]: the count is an [int]. *)
Definition objective_value_penalized (data : PatientAllocationData) (allocation : Allocation)
  (lambda1 lambda2 penalty_weight : float) : result float :=
  f_obj <- objective_value data allocation lambda1 lambda2 ;;
  violations <- bed_capacity_violations data allocation ;;
  Ok (f_obj + penalty_weight * Z2F violations)%float.

(** The feasibility check of the class [Solution] reads no float. *)
Definition _check_feasibility := Solution._check_feasibility.

(** *** The class [Solution] *)

Module Solution.

Record t : Type := {
  allocation : Allocation;
  objective_value : float;
  feasible : bool
}.

Definition copy (s : t) : t :=
  {| allocation := allocation s; objective_value := objective_value s;
     feasible := feasible s |}.

Section Methods.

Variable data : PatientAllocationData.

Definition _calculate_operational_cost (alloc : Allocation) : result float :=
  cost <- foldM (fun (cost : float) (kv : string * Assign) =>
                   let (patient_id, a) := kv in
                   patient <- dict_get (patients data) patient_id ;;
                   let delay := day a - earliest patient in
                   Ok (cost + Q2F (weight_delay data) * Z2F delay)%float)
                alloc 0%float ;;
  foldM (fun cost (kv : string * Specialism) =>
           let (spec, _) := kv in
           foldM (fun (cost : float) d =>
                    ot_used <- compute_ot_used_by_spec_day data alloc spec d ;;
                    s <- dict_get (specialisms data) spec ;;
                    ot_available_q <- py_index (ot_time s) d ;;
                    let ot_available := Q2F ot_available_q in
                    if (ot_available <? ot_used)%float
                    then Ok (cost + Q2F (weight_overtime data) * (ot_used - ot_available))%float
                    else Ok (cost + Q2F (weight_undertime data) * (ot_available - ot_used))%float)
                 (range 0 (num_days data)) cost)
        (specialisms data) cost.

Definition add_workload (ward_name : string) (w : Ward) (d : Z) (total_workload : float)
  (kv : string * Assign) : result float :=
  let (patient_id, a) := kv in
  if String.eqb (ward a) ward_name then
    patient <- dict_get (patients data) patient_id ;;
    let admission_day := day a in
    if in_stay a patient d then
      let day_of_stay := d - admission_day in
      workload <- py_index (workload_per_day patient) day_of_stay ;;
      let spec := specialization patient in
      if negb (String.eqb spec (major_specialization w))
         && str_in spec (minor_specializations w)
      then s <- dict_get (specialisms data) spec ;;
           Ok (total_workload + Q2F workload * Q2F (workload_factor s))%float
      else Ok (total_workload + Q2F workload)%float
    else Ok total_workload
  else Ok total_workload.

(** A division by a zero capacity raises [ZeroDivisionError]. *)
Definition _calculate_workload_balance (alloc : Allocation) : result float :=
  foldM (fun max_workload (kv : string * Ward) =>
           let (ward_name, w) := kv in
           let workload_capacity := Q2F (workload_capacity w) in
           foldM (fun (max_workload : float) d =>
                    w0 <- py_index (carryover_workload w) d ;;
                    total_workload <- foldM (add_workload ward_name w d) alloc (Q2F w0) ;;
                    if (workload_capacity =? 0)%float then Raise ZeroDivisionError
                    else
                      let normalized_workload := (total_workload / workload_capacity)%float in
                      Ok (fmax max_workload normalized_workload))
                 (range 0 (num_days data)) max_workload)
        (wards data) 0%float.

Definition evaluate (s : t) (lambda1 lambda2 : float) : result t :=
  ok <- _check_feasibility data (allocation s) ;;
  if negb ok then
    Ok {| allocation := allocation s; objective_value := infinity; feasible := false |}
  else
    f1 <- _calculate_operational_cost (allocation s) ;;
    f2 <- _calculate_workload_balance (allocation s) ;;
    Ok {| allocation := allocation s;
          objective_value := (lambda1 * f1 + lambda2 * f2)%float;
          feasible := true |}.

End Methods.

End Solution.

Record LegacyResult : Type := {
  lr_objective_value : float;
  lr_solution : Allocation;
  lr_feasible : bool
}.

(** What every solution of a run satisfies: a cleared flag comes with the
    objective [inf]. *)
Definition flagged (s : Solution.t) : Prop :=
  Solution.feasible s = false -> Solution.objective_value s = infinity.

(** *** Simulated annealing *)

Module SimulatedAnnealing.

Record state : Type := {
  current : Solution.t;
  best_solution : Solution.t;
  temperature : float
}.

Section Methods.

Variable data : PatientAllocationData.
Variables lambda1 lambda2 : float.

(** [math.exp]: the embedding is parametric in it. *)
Variable exp : float -> float.

Definition _generate_initial_solution : result Solution.t :=
  let ps := sort_by (fun a b => SimulatedAnnealing.pair_ltb (SimulatedAnnealing.initial_key a)
                                  (SimulatedAnnealing.initial_key b)) (patients data) in
  alloc <- foldM (SimulatedAnnealing.allocate_patient data) ps [] ;;
  Solution.evaluate data
    {| Solution.allocation := alloc; Solution.objective_value := infinity;
       Solution.feasible := false |} lambda1 lambda2.

Definition _get_neighbor (solution : Solution.t) : M Solution.t :=
  let neighbor := Solution.copy solution in
  patient_id <~ random_choice (dict_keys (Solution.allocation neighbor)) ;;
  patient <~ liftR (dict_get (patients data) patient_id) ;;
  op <~ random_choice [SimulatedAnnealing.change_day; SimulatedAnnealing.change_ward;
                       SimulatedAnnealing.swap] ;;
  alloc <~ SimulatedAnnealing.apply_operation data (Solution.allocation neighbor) patient_id
             patient op ;;
  liftR (Solution.evaluate data
           {| Solution.allocation := alloc;
              Solution.objective_value := Solution.objective_value neighbor;
              Solution.feasible := Solution.feasible neighbor |} lambda1 lambda2).

(** [delta < 0 or (temperature > 0 and random.random() < math.exp(-delta / temperature))] *)
Definition accepts (delta temperature : float) : M bool :=
  if (delta <? 0)%float then ret true
  else if (0 <? temperature)%float then
    u <~ random_random ;;
    ret (Q2F u <? exp (- delta / temperature))%float
  else ret false.

Definition track_best (best : Solution.t) (current : Solution.t) : Solution.t :=
  if (Solution.objective_value current <? Solution.objective_value best)%float
  then Solution.copy current else best.

Definition iteration (cooling_rate : float) (st : state) : M (state * bool) :=
  neighbor <~ _get_neighbor (current st) ;;
  let delta := (Solution.objective_value neighbor
                - Solution.objective_value (current st))%float in
  acc <~ accepts delta (temperature st) ;;
  let current' := if acc : bool then neighbor else current st in
  let best' := if acc then track_best (best_solution st) current' else best_solution st in
  let temperature' := (temperature st * cooling_rate)%float in
  ret ({| current := current'; best_solution := best'; temperature := temperature' |},
       (temperature' <? Q2F (1 # 100))%float).

Definition initial_state (initial_temp : float) : result state :=
  current <- _generate_initial_solution ;;
  Ok {| current := current; best_solution := Solution.copy current;
        temperature := initial_temp |}.

Definition result_of (st : state) : LegacyResult :=
  {| lr_objective_value := Solution.objective_value (best_solution st);
     lr_solution := Solution.allocation (best_solution st);
     lr_feasible := Solution.feasible (best_solution st) |}.

Definition solve (max_iterations : nat) (initial_temp cooling_rate : float)
  : M LegacyResult :=
  st <~ liftR (initial_state initial_temp) ;;
  st <~ for_loop max_iterations (iteration cooling_rate) st ;;
  ret (result_of st).

End Methods.

(** The default [cooling_rate=0.95]: the float nearest to 95/100. *)
Definition default_cooling_rate : float := Q2F (95 # 100).

(** The temperatures at the end of the passes of a run of at most [n]
    passes, as the floats of the source: [temperature *= cooling_rate],
    until [temperature < 0.01]. *)
Fixpoint cooling_schedule (n : nat) (temperature cooling_rate : float) : list float :=
  match n with
  | O => []
  | S n' =>
      let t := (temperature * cooling_rate)%float in
      t :: (if (t <? Q2F (1 # 100))%float then [] else cooling_schedule n' t cooling_rate)
  end.

End SimulatedAnnealing.

(** *** Tabu search *)

Module TabuSearch.

Record state : Type := {
  current : Solution.t;
  best_solution : Solution.t;
  tabu_list : list Allocation
}.

Section Methods.

Variable data : PatientAllocationData.
Variables lambda1 lambda2 : float.

Fixpoint neighborhood (n : nat) (current : Solution.t) : M (list Solution.t) :=
  match n with
  | O => ret []
  | S n' =>
      neighbor <~ SimulatedAnnealing._get_neighbor data lambda1 lambda2 current ;;
      rest <~ neighborhood n' current ;;
      ret (neighbor :: rest)
  end.

Fixpoint choose (tabu_tenure : Z) (neighbors : list Solution.t) (st : state) : state :=
  match neighbors with
  | [] => st
  | neighbor :: r =>
      let move := Solution.allocation neighbor in
      if negb (TabuSearch.is_tabu move (tabu_list st))
         || (Solution.objective_value neighbor
             <? Solution.objective_value (best_solution st))%float
      then
        {| current := neighbor;
           best_solution := SimulatedAnnealing.track_best (best_solution st) neighbor;
           tabu_list := TabuSearch.push tabu_tenure (tabu_list st) move |}
      else choose tabu_tenure r st
  end.

Definition iteration (tabu_tenure : Z) (st : state) : M (state * bool) :=
  neighbors <~ neighborhood 20 (current st) ;;
  let neighbors :=
    sort_by (fun a b => (Solution.objective_value a <? Solution.objective_value b)%float)
            neighbors in
  ret (choose tabu_tenure neighbors st, false).

Definition initial_state : result state :=
  current <- SimulatedAnnealing._generate_initial_solution data lambda1 lambda2 ;;
  Ok {| current := current; best_solution := Solution.copy current; tabu_list := [] |}.

Definition result_of (st : state) : LegacyResult :=
  {| lr_objective_value := Solution.objective_value (best_solution st);
     lr_solution := Solution.allocation (best_solution st);
     lr_feasible := Solution.feasible (best_solution st) |}.

Definition solve (max_iterations : nat) (tabu_tenure : Z) : M LegacyResult :=
  st <~ liftR initial_state ;;
  st <~ for_loop max_iterations (iteration tabu_tenure) st ;;
  ret (result_of st).

End Methods.

End TabuSearch.

(** *** The method [solve] of the hybrid coordinator *)

(** The truth value of [self.final_obj]: [None] and a zero are false, [nan]
    is true. *)
Definition truthy (final_obj : option float) : bool :=
  match final_obj with
  | None => false
  | Some q => negb (q =? 0)%float
  end.

(** [((mh_obj - final_obj) / mh_obj) * 100 if final_obj else 0]; a float
    division by zero raises [ZeroDivisionError]; the [0] of the [else]
    branch is the float zero here. *)
Definition improvement_pct (metaheuristic_obj : float) (final_obj : option float)
  : result float :=
  match final_obj with
  | Some q =>
      if truthy final_obj
      then if (metaheuristic_obj =? 0)%float then Raise ZeroDivisionError
           else Ok ((metaheuristic_obj - q) / metaheuristic_obj * 100)%float
      else Ok 0%float
  | None => Ok 0%float
  end.

Record HybridResult : Type := {
  h_metaheuristic : string;
  h_metaheuristic_obj : float;
  h_final_obj : option float;
  h_improvement_pct : float;
  h_solution : option Allocation
}.

Module HybridSolver.

Section Methods.

Variable data : PatientAllocationData.
Variables lambda1 lambda2 : float.
Variable exp : float -> float.

(** The variables that [build_model] creates, and the external solver. *)
Variable milp_y : YVars.
Variable milp_solve : YVars -> option (float * Allocation).

(** The searches run with their default parameters: [initial_temp=1000],
    [cooling_rate=0.95], [tabu_tenure=50]. *)
Definition run_metaheuristic (metaheuristic : string) (mh_max_iter : nat) : M LegacyResult :=
  if String.eqb metaheuristic "SA" then
    SimulatedAnnealing.solve data lambda1 lambda2 exp mh_max_iter 1000
      SimulatedAnnealing.default_cooling_rate
  else if String.eqb metaheuristic "TS" then
    TabuSearch.solve data lambda1 lambda2 mh_max_iter 50
  else raise ValueError.

Definition solve (metaheuristic : string) (mh_max_iter : nat) : M HybridResult :=
  mh_results <~ run_metaheuristic metaheuristic mh_max_iter ;;
  let metaheuristic_obj := lr_objective_value mh_results in
  let y := if lr_feasible mh_results then _apply_warm_start milp_y (lr_solution mh_results)
           else milp_y in
  let final_results := milp_solve y in
  let final_solution := match final_results with Some r => Some (snd r) | None => None end in
  let final_obj := match final_results with Some r => Some (fst r) | None => None end in
  pct <~ liftR (improvement_pct metaheuristic_obj final_obj) ;;
  ret {| h_metaheuristic := metaheuristic;
         h_metaheuristic_obj := metaheuristic_obj;
         h_final_obj := final_obj;
         h_improvement_pct := pct;
         h_solution := final_solution |}.

End Methods.

End HybridSolver.

End F64.

(** The literal scenario with an overtime weight of [4e19]: the objective
    of the crowded allocation is [2e19], where neighbouring floats are 4096
    apart. *)
Definition heavy_data : PatientAllocationData :=
  {| patients := patients scenario_data; wards := wards scenario_data;
     specialisms := specialisms scenario_data; num_days := num_days scenario_data;
     weight_overtime := inject_Z (4 * 10 ^ 19); weight_undertime := 1%Q;
     weight_delay := 1%Q |}.

(** The demonstration instance with an undertime weight of [1e308]: the
    operational cost of every allocation overflows. *)
Definition overflow_data : PatientAllocationData :=
  {| patients := patients demo_data; wards := wards demo_data;
     specialisms := specialisms demo_data; num_days := num_days demo_data;
     weight_overtime := 2%Q; weight_undertime := inject_Z (10 ^ 308);
     weight_delay := 3%Q |}.

(** A stand-in for [math.exp] on floats in the concrete runs; as
    [math.exp], it returns [nan] on [nan]. *)
Definition exp_half_f (x : float) : float := if is_nan x then x else 0.5%float.

(** A stand-in for the external solver: it reports objective 1 and no
    assignment. *)
Definition demo_milp_solve (_ : YVars) : option (float * Allocation) := Some (1%float, []).

Unset Implicit Arguments.
(* ================================================================== *)
(** * Properties *)

(** ** The error monad and the containers *)

Lemma bindR_Ok {A B} (m : result A) (k : A -> result B) (b : B) :
  bindR m k = Ok b -> exists a, m = Ok a /\ k a = Ok b.
Proof.
  destruct m as [a|e]; simpl; intros H; [exists a; auto | discriminate].
Qed.

Lemma str_in_In (s : string) (l : list string) : str_in s l = true <-> In s l.
Proof.
  unfold str_in. rewrite existsb_exists. split.
  - intros [x [Hx He]]. apply String.eqb_eq in He. now subst.
  - intros H. exists s. split; [assumption | apply String.eqb_refl].
Qed.

Lemma dict_mem_In {V} (d : list (string * V)) (k : string) :
  dict_mem d k = true <-> In k (dict_keys d).
Proof. apply str_in_In. Qed.

Lemma nodupb_NoDup (l : list string) : nodupb l = true -> NoDup l.
Proof.
  induction l as [|x r IH]; simpl; intros H; constructor.
  - apply andb_prop in H. destruct H as [H _].
    intros Hin. apply str_in_In in Hin. rewrite Hin in H. discriminate.
  - apply IH. apply andb_prop in H. tauto.
Qed.

Lemma dict_get_mem {V} (d : list (string * V)) (k : string) :
  In k (dict_keys d) -> exists v, dict_get d k = Ok v.
Proof.
  induction d as [|[k' v'] r IH]; simpl; intros H; [contradiction|].
  destruct (String.eqb_spec k' k) as [->|Hne].
  - now exists v'.
  - destruct H as [H|H]; [congruence | now apply IH].
Qed.

Lemma dict_get_In {V} (d : list (string * V)) (k : string) (v : V) :
  dict_get d k = Ok v -> In (k, v) d.
Proof.
  induction d as [|[k' v'] r IH]; simpl; intros H; [discriminate|].
  destruct (String.eqb_spec k' k) as [->|Hne].
  - left. congruence.
  - right. now apply IH.
Qed.

Lemma dict_get_NoDup {V} (d : list (string * V)) (k : string) (v : V) :
  NoDup (dict_keys d) -> In (k, v) d -> dict_get d k = Ok v.
Proof.
  induction d as [|[k' v'] r IH]; simpl; intros Hnd Hin; [contradiction|].
  inversion Hnd as [|? ? Hnotin Hnd']; subst.
  destruct Hin as [Heq|Hin].
  - inversion Heq; subst. now rewrite String.eqb_refl.
  - destruct (String.eqb_spec k' k) as [->|Hne].
    + exfalso. apply Hnotin. change (In (fst (k, v)) (map fst r)). now apply in_map.
    + now apply IH.
Qed.

Lemma py_index_ok {A} (l : list A) (i : Z) :
  0 <= i < Z.of_nat (List.length l) -> exists x, py_index l i = Ok x.
Proof.
  intros H. unfold py_index.
  destruct (Z.ltb_spec i 0) as [?|_]; [lia|].
  destruct (Z.ltb_spec i 0) as [?|_]; [lia|].
  destruct (nth_error l (Z.to_nat i)) as [x|] eqn:E; [now exists x|].
  apply nth_error_None in E. lia.
Qed.

Lemma in_range (a b d : Z) : In d (range a b) <-> a <= d < b.
Proof.
  unfold range. rewrite in_map_iff. split.
  - intros [i [<- Hi]]. apply in_seq in Hi. lia.
  - intros H. exists (Z.to_nat (d - a)). split; [lia|]. apply in_seq. lia.
Qed.

(** A loop whose body cannot raise on the elements of the list returns. *)
Lemma foldM_total {A S} (f : S -> A -> result S) (l : list A) (s : S) :
  (forall s x, In x l -> exists s', f s x = Ok s') ->
  exists s', foldM f l s = Ok s'.
Proof.
  revert s. induction l as [|x r IH]; simpl; intros s H.
  - now exists s.
  - destruct (H s x (or_introl eq_refl)) as [s1 ->]. simpl.
    apply IH. intros s' y Hy. apply H. now right.
Qed.

Lemma foldM_invariant {A S} (P : S -> Prop) (f : S -> A -> result S) (l : list A) (s s' : S) :
  (forall s x s', In x l -> P s -> f s x = Ok s' -> P s') ->
  P s -> foldM f l s = Ok s' -> P s'.
Proof.
  revert s. induction l as [|x r IH]; simpl; intros s H Hs Hf.
  - congruence.
  - apply bindR_Ok in Hf. destruct Hf as [s1 [H1 H2]].
    apply (IH s1); auto.
    + intros; eapply H; eauto.
    + eapply H; eauto.
Qed.

Lemma Qltb_lt (x y : Q) : Qltb x y = true <-> (x < y)%Q.
Proof.
  unfold Qltb. rewrite negb_true_iff. split.
  - intros H. apply Qnot_le_lt. intros Hle. apply Qle_bool_iff in Hle. congruence.
  - intros H. destruct (Qle_bool y x) eqn:E; [|reflexivity].
    apply Qle_bool_iff in E. apply Qlt_not_le in H. contradiction.
Qed.

Lemma Qltb_ge (x y : Q) : Qltb x y = false <-> (y <= x)%Q.
Proof.
  unfold Qltb. rewrite negb_false_iff. apply Qle_bool_iff.
Qed.

(** ** Well-formed data and total allocations *)

Lemma wf_data_patients data : wf_data data = true -> NoDup (dict_keys (patients data)).
Proof.
  unfold wf_data. rewrite !andb_true_iff. intros H. apply nodupb_NoDup. tauto.
Qed.

Lemma wf_data_wards_NoDup data : wf_data data = true -> NoDup (dict_keys (wards data)).
Proof.
  unfold wf_data. rewrite !andb_true_iff. intros H. apply nodupb_NoDup. tauto.
Qed.

Lemma wf_data_ward data wname w :
  wf_data data = true -> In (wname, w) (wards data) -> wf_ward data w = true.
Proof.
  unfold wf_data. rewrite !andb_true_iff. intros [[[_ _] Hw] _] Hin.
  rewrite forallb_forall in Hw. apply (Hw (wname, w) Hin).
Qed.

Lemma wf_data_specialism data spec s :
  wf_data data = true -> In (spec, s) (specialisms data) -> wf_specialism data s = true.
Proof.
  unfold wf_data. rewrite !andb_true_iff. intros [_ Hs] Hin.
  rewrite forallb_forall in Hs. apply (Hs (spec, s) Hin).
Qed.

Lemma wf_data_ward_get data wname w :
  wf_data data = true -> In (wname, w) (wards data) -> dict_get (wards data) wname = Ok w.
Proof.
  intros Hwf Hin. apply dict_get_NoDup; [now apply wf_data_wards_NoDup | assumption].
Qed.

Lemma total_allocation_known data allocation :
  total_allocation data allocation = true -> known_patients data allocation.
Proof.
  unfold total_allocation. rewrite !andb_true_iff. intros [[_ H] _] pid a Hin.
  rewrite forallb_forall in H. apply dict_get_mem. apply dict_mem_In. apply H.
  change (In (fst (pid, a)) (map fst allocation)). now apply in_map.
Qed.

(** ** The evaluator returns on every total allocation *)

Section Totality.

Variable data : PatientAllocationData.
Variable allocation : Allocation.
Hypothesis Hwf : wf_data data = true.
Hypothesis Hknown : known_patients data allocation.

Lemma count_beds_total wname w d :
  In (wname, w) (wards data) -> 0 <= d < num_days data ->
  exists used, count_beds_used_on_day data allocation wname d = Ok used.
Proof.
  intros Hin Hd. unfold count_beds_used_on_day.
  rewrite (wf_data_ward_get _ _ _ Hwf Hin). simpl.
  pose proof (wf_data_ward _ _ _ Hwf Hin) as Hw. unfold wf_ward in Hw.
  rewrite !andb_true_iff in Hw. destruct Hw as [[Hc _] _]. apply Z.leb_le in Hc.
  destruct (@py_index_ok _ (carryover_patients w) d) as [u ->]; [lia|]. simpl.
  apply foldM_total. intros s [pid a] Hx.
  destruct (negb (String.eqb (ward a) wname)); [now eexists|].
  destruct (Hknown _ _ Hx) as [p ->]. simpl. now eexists.
Qed.

Lemma bed_capacity_violations_total :
  exists vio, bed_capacity_violations data allocation = Ok vio.
Proof.
  unfold bed_capacity_violations. apply foldM_total. intros s [wname w] Hin.
  apply foldM_total. intros s' d Hd. apply in_range in Hd.
  destruct (count_beds_total wname w d Hin) as [u ->]; [lia|]. simpl. now eexists.
Qed.

Lemma compute_delays_total : exists v, compute_delays data allocation = Ok v.
Proof.
  unfold compute_delays. apply foldM_total. intros s [pid a] Hx.
  destruct (Hknown _ _ Hx) as [p ->]. simpl. now eexists.
Qed.

Lemma compute_ot_used_total spec d :
  exists v, compute_ot_used_by_spec_day data allocation spec d = Ok v.
Proof.
  unfold compute_ot_used_by_spec_day. apply foldM_total. intros s [pid a] Hx.
  destruct (Hknown _ _ Hx) as [p ->]. simpl. now eexists.
Qed.

Lemma compute_ot_total : exists v, compute_ot data allocation = Ok v.
Proof.
  unfold compute_ot. apply foldM_total. intros acc [spec s] Hin.
  apply foldM_total. intros [[ovt undt] m] d Hd. apply in_range in Hd.
  destruct (compute_ot_used_total spec d) as [used ->]. simpl.
  assert (Hnd : NoDup (dict_keys (specialisms data))).
  { pose proof Hwf as H. unfold wf_data in H. rewrite !andb_true_iff in H.
    apply nodupb_NoDup. tauto. }
  rewrite (dict_get_NoDup _ _ _ Hnd Hin). simpl.
  pose proof (wf_data_specialism _ _ _ Hwf Hin) as Hs. unfold wf_specialism in Hs.
  apply Z.leb_le in Hs.
  destruct (@py_index_ok _ (ot_time s) d) as [avail ->]; [lia|]. simpl.
  destruct (Qltb avail used); now eexists.
Qed.

(** The lookup of the workload profile is guarded, so no hypothesis on the
    length of [workload_per_day] or on the assigned day is needed. *)
Lemma add_patient_workload_total wname w d total_w kv :
  In (wname, w) (wards data) -> In kv allocation ->
  exists v, add_patient_workload data wname w d total_w kv = Ok v.
Proof.
  intros Hin Hx. destruct kv as [pid a]. unfold add_patient_workload.
  destruct (negb (String.eqb (ward a) wname)); [now eexists|].
  destruct (Hknown _ _ Hx) as [p ->]. simpl.
  destruct (in_stay a p d); [|now eexists].
  destruct ((0 <=? d - day a) && (d - day a <? Z.of_nat (List.length (workload_per_day p))))
    eqn:Hg; [|now eexists].
  apply andb_prop in Hg. destruct Hg as [Hg1 Hg2].
  apply Z.leb_le in Hg1. apply Z.ltb_lt in Hg2.
  destruct (@py_index_ok _ (workload_per_day p) (d - day a)) as [base ->]; [lia|]. simpl.
  destruct (negb (String.eqb (specialization p) (major_specialization w))
            && str_in (specialization p) (minor_specializations w)) eqn:Hm; [|now eexists].
  apply andb_prop in Hm. destruct Hm as [_ Hm].
  pose proof (wf_data_ward _ _ _ Hwf Hin) as Hw. unfold wf_ward in Hw.
  rewrite !andb_true_iff in Hw. destruct Hw as [_ Hminor].
  rewrite forallb_forall in Hminor. apply str_in_In in Hm.
  apply Hminor in Hm. apply dict_mem_In in Hm.
  destruct (dict_get_mem _ _ Hm) as [s ->]. simpl. now eexists.
Qed.

Lemma compute_workload_total :
  exists v, compute_workload_normalized_and_z data allocation = Ok v.
Proof.
  unfold compute_workload_normalized_and_z. apply foldM_total. intros xz [wname w] Hin.
  apply foldM_total. intros [x z] d Hd. apply in_range in Hd.
  pose proof (wf_data_ward _ _ _ Hwf Hin) as Hw. unfold wf_ward in Hw.
  rewrite !andb_true_iff in Hw. destruct Hw as [[_ Hc] _]. apply Z.leb_le in Hc.
  destruct (@py_index_ok _ (carryover_workload w) d) as [w0 ->]; [lia|]. simpl.
  destruct (@foldM_total _ _ (add_patient_workload data wname w d) allocation w0) as [t ->].
  - intros s kv Hkv. now apply add_patient_workload_total.
  - simpl. now eexists.
Qed.

Lemma compute_objective_components_total :
  exists c, compute_objective_components data allocation = Ok c.
Proof.
  unfold compute_objective_components.
  destruct compute_delays_total as [dl ->]. simpl.
  destruct compute_ot_total as [[[ovt undt] m] ->]. simpl.
  destruct compute_workload_total as [[x z] ->]. simpl. now eexists.
Qed.

Lemma objective_value_total lambda1 lambda2 :
  exists v, objective_value data allocation lambda1 lambda2 = Ok v.
Proof.
  unfold objective_value. destruct compute_objective_components_total as [c ->].
  simpl. now eexists.
Qed.

Lemma objective_value_penalized_total lambda1 lambda2 penalty_weight :
  exists v, objective_value_penalized data allocation lambda1 lambda2 penalty_weight = Ok v.
Proof.
  unfold objective_value_penalized.
  destruct (objective_value_total lambda1 lambda2) as [f ->]. simpl.
  destruct bed_capacity_violations_total as [vio ->]. simpl. now eexists.
Qed.

End Totality.

(** The entries of the map of normalised workloads of a ward whose workload
    capacity is not positive are all 0. *)
Lemma x_map_guard data allocation :
  wf_data data = true ->
  forall xm z, compute_workload_normalized_and_z data allocation = Ok (xm, z) ->
  forall wname w d x,
    In (wname, w) (wards data) -> (workload_capacity w <= 0)%Q ->
    In ((wname, d), x) xm -> x = 0%Q.
Proof.
  intros Hwf xm z H wname w d x Hin Hcap Hx.
  pose proof (wf_data_wards_NoDup _ Hwf) as Hnd.
  unfold compute_workload_normalized_and_z in H.
  set (P := fun xz : list (string * Z * Q) * Q =>
              forall d x, In ((wname, d), x) (fst xz) -> x = 0%Q).
  assert (HP : P (xm, z)); [|exact (HP d x Hx)].
  eapply (foldM_invariant P); [| |exact H].
  - intros s [wn w'] s' Hin' Hs Hf.
    eapply (foldM_invariant P); [|exact Hs|exact Hf].
    intros [x0 z0] d0 s0 _ Hs0 Hstep.
    apply bindR_Ok in Hstep. destruct Hstep as [w0 [_ Hstep]].
    apply bindR_Ok in Hstep. destruct Hstep as [tw [_ Hstep]].
    inversion Hstep; subst s0; clear Hstep.
    intros d1 x1 Hin1. simpl in Hin1. apply in_app_or in Hin1.
    destruct Hin1 as [Hin1|[Heq|[]]]; [exact (Hs0 d1 x1 Hin1)|].
    inversion Heq; subst.
    assert (w' = w).
    { pose proof (dict_get_NoDup _ _ _ Hnd Hin) as E1.
      pose proof (dict_get_NoDup _ _ _ Hnd Hin') as E2. congruence. }
    subst w'. unfold normalize.
    destruct (Qltb 0 (workload_capacity w)) eqn:E; [|reflexivity].
    apply Qltb_lt in E. exfalso. apply (Qlt_not_le _ _ E Hcap).
  - intros d0 x0 [].
Qed.

(** Claim C9.  On well-formed data, [compute_objective_components],
    [objective_value] and [objective_value_penalized] return a value on every
    total allocation, whatever the assigned days (outside the window, past
    the horizon) and whatever the length of the workload profiles; and every
    normalised workload of a ward whose workload capacity is not positive
    is 0. *)
Theorem evaluators_total data allocation lambda1 lambda2 penalty_weight :
  wf_data data = true ->
  total_allocation data allocation = true ->
  (exists c, compute_objective_components data allocation = Ok c
             /\ forall wname w d x,
                  In (wname, w) (wards data) -> (workload_capacity w <= 0)%Q ->
                  In ((wname, d), x) (c_x_map c) -> x = 0%Q)
  /\ (exists v, objective_value data allocation lambda1 lambda2 = Ok v)
  /\ (exists v, objective_value_penalized data allocation lambda1 lambda2 penalty_weight = Ok v).
Proof.
  intros Hwf Htot. pose proof (total_allocation_known _ _ Htot) as Hk.
  split; [|split].
  - destruct (compute_objective_components_total data allocation Hwf Hk) as [c Hc].
    exists c. split; [assumption|].
    intros wname w d x Hin Hcap Hx.
    unfold compute_objective_components in Hc.
    apply bindR_Ok in Hc. destruct Hc as [dl [_ Hc]].
    apply bindR_Ok in Hc. destruct Hc as [[[ovt undt] m] [_ Hc]].
    apply bindR_Ok in Hc. destruct Hc as [[xm z] [Hxz Hc]].
    inversion Hc; subst c; clear Hc. simpl in Hx.
    apply (x_map_guard data allocation Hwf xm z Hxz wname w d x Hin Hcap Hx).
  - apply objective_value_total; assumption.
  - apply objective_value_penalized_total; assumption.
Qed.

Lemma evaluators_total_witness :
  wf_data stress_data = true /\ total_allocation stress_data stress_allocation = true /\
  (exists v, objective_value_penalized stress_data stress_allocation (1 # 2) (1 # 2) 1000 = Ok v).
Proof.
  split; [reflexivity|]. split; [reflexivity|].
  apply (evaluators_total stress_data stress_allocation (1 # 2) (1 # 2) 1000);
    reflexivity.
Defined.

(** ** Bed violations and the capacity check *)

Lemma foldM_sum {A} (g : Z -> A -> result Z) (h : A -> Z) (l : list A) (a : Z) :
  (forall acc x, In x l -> g acc x = Ok (acc + h x)) ->
  foldM g l a = Ok (a + sum_Z h l).
Proof.
  revert a. induction l as [|x r IH]; simpl; intros a H.
  - f_equal. lia.
  - rewrite (H a x (or_introl eq_refl)). simpl.
    rewrite IH; [f_equal; lia|]. intros acc y Hy. apply H. now right.
Qed.

Lemma sum_Z_nonneg {A} (h : A -> Z) (l : list A) :
  (forall x, In x l -> 0 <= h x) -> 0 <= sum_Z h l.
Proof.
  induction l as [|x r IH]; simpl; intros H; [lia|].
  pose proof (H x (or_introl eq_refl)).
  assert (0 <= sum_Z h r) by (apply IH; intros; apply H; now right). lia.
Qed.

Lemma sum_Z_zero {A} (h : A -> Z) (l : list A) :
  (forall x, In x l -> 0 <= h x) ->
  (sum_Z h l = 0 <-> forall x, In x l -> h x = 0).
Proof.
  induction l as [|x r IH]; simpl; intros H.
  - split; [intros _ ? [] | reflexivity].
  - pose proof (H x (or_introl eq_refl)) as Hx.
    assert (Hr : forall y, In y r -> 0 <= h y) by (intros; apply H; now right).
    pose proof (sum_Z_nonneg h r Hr) as Hs. specialize (IH Hr). split.
    + intros E y [<-|Hy]; [lia|]. apply IH; [lia | assumption].
    + intros E. rewrite (E x (or_introl eq_refl)).
      assert (sum_Z h r = 0) by (apply IH; intros; apply E; now right). lia.
Qed.

Lemma allM_spec {A} (f : A -> result bool) (g : A -> bool) (l : list A) :
  (forall x, In x l -> f x = Ok (g x)) ->
  allM f l = Ok (forallb g l).
Proof.
  induction l as [|x r IH]; simpl; intros H; [reflexivity|].
  rewrite (H x (or_introl eq_refl)). simpl.
  destruct (g x); simpl; [|reflexivity]. apply IH. intros y Hy. apply H. now right.
Qed.

Lemma py_index_nth (l : list Z) (i : Z) :
  0 <= i < Z.of_nat (List.length l) -> py_index l i = Ok (nth (Z.to_nat i) l 0).
Proof.
  intros H. unfold py_index.
  destruct (Z.ltb_spec i 0) as [?|_]; [lia|].
  destruct (Z.ltb_spec i 0) as [?|_]; [lia|].
  destruct (nth_error l (Z.to_nat i)) as [x|] eqn:E.
  - f_equal. symmetry. now apply nth_error_nth.
  - apply nth_error_None in E. lia.
Qed.

Section Capacity.

Variable data : PatientAllocationData.
Variable allocation : Allocation.
Hypothesis Hwf : wf_data data = true.
Hypothesis Hknown : known_patients data allocation.

Lemma count_residents wname d (l : list (string * Assign)) (u : Z) :
  (forall pid a, In (pid, a) l -> exists p, dict_get (patients data) pid = Ok p) ->
  foldM (fun used (kv : string * Assign) =>
           let (pid, a) := kv in
           if negb (String.eqb (ward a) wname) then Ok used
           else p <- dict_get (patients data) pid ;;
                Ok (if in_stay a p d then used + 1 else used))
        l u
  = Ok (u + Z.of_nat (List.length (filter (resident data wname d) l))).
Proof.
  revert u. induction l as [|[pid a] r IH]; intros u H.
  - simpl. f_equal. lia.
  - cbn [foldM filter]. unfold resident at 1. cbn [fst snd].
    destruct (H pid a (or_introl eq_refl)) as [p Hp]. rewrite Hp.
    assert (Hr : forall pid a, In (pid, a) r -> exists p, dict_get (patients data) pid = Ok p)
      by (intros; eapply H; right; eauto).
    destruct (String.eqb (ward a) wname); cbn [negb andb bindR].
    + destruct (in_stay a p d); rewrite IH by assumption; f_equal; cbn [List.length]; lia.
    + now rewrite IH.
Qed.

Lemma count_beds_spec wname w d :
  In (wname, w) (wards data) -> 0 <= d < num_days data ->
  count_beds_used_on_day data allocation wname d
  = Ok (spec_occupancy data allocation wname w d).
Proof.
  intros Hin Hd. unfold count_beds_used_on_day, spec_occupancy.
  rewrite (wf_data_ward_get _ _ _ Hwf Hin). cbn [bindR].
  pose proof (wf_data_ward _ _ _ Hwf Hin) as Hw. unfold wf_ward in Hw.
  rewrite !andb_true_iff in Hw. destruct Hw as [[Hc _] _]. apply Z.leb_le in Hc.
  rewrite py_index_nth by lia. cbn [bindR].
  apply count_residents. exact Hknown.
Qed.

Lemma bed_capacity_violations_spec :
  bed_capacity_violations data allocation = Ok (spec_bed_violations data allocation).
Proof.
  unfold bed_capacity_violations, spec_bed_violations.
  rewrite foldM_sum with
    (h := fun kv : string * Ward =>
            sum_Z (fun d => Z.max 0 (spec_occupancy data allocation (fst kv) (snd kv) d
                                     - bed_capacity (snd kv)))
                  (range 0 (num_days data))); [reflexivity|].
  intros acc [wname w] Hin. cbn [fst snd].
  apply foldM_sum. intros acc' d Hd. apply in_range in Hd.
  rewrite (count_beds_spec wname w d Hin) by lia. cbn [bindR].
  destruct (Z.ltb_spec (bed_capacity w) (spec_occupancy data allocation wname w d));
    f_equal; lia.
Qed.

Lemma feasible_spec :
  feasible_after_change_beds data allocation None
  = Ok (forallb (fun kv : string * Ward =>
                   forallb (fun d => negb (bed_capacity (snd kv)
                                           <? spec_occupancy data allocation (fst kv) (snd kv) d))
                           (range 0 (num_days data)))
                (wards data)).
Proof.
  unfold feasible_after_change_beds. cbn [apply_change].
  apply allM_spec. intros [wname w] Hin. cbn [fst snd].
  apply allM_spec. intros d Hd. apply in_range in Hd.
  rewrite (count_beds_spec wname w d Hin) by lia. reflexivity.
Qed.

Lemma feasible_iff_capacity_ok :
  feasible_after_change_beds data allocation None = Ok true
  <-> spec_capacity_ok data allocation.
Proof.
  rewrite feasible_spec. split.
  - intros H wname w d Hin Hd. inversion H as [H']; clear H.
    rewrite forallb_forall in H'. specialize (H' _ Hin). cbn [fst snd] in H'.
    rewrite forallb_forall in H'. specialize (H' d). rewrite in_range in H'.
    specialize (H' Hd). apply negb_true_iff in H'. apply Z.ltb_ge in H'. exact H'.
  - intros H. f_equal. apply forallb_forall. intros [wname w] Hin. cbn [fst snd].
    apply forallb_forall. intros d Hd. apply in_range in Hd.
    apply negb_true_iff. apply Z.ltb_ge. now apply H.
Qed.

Lemma violations_zero_iff_capacity_ok :
  spec_bed_violations data allocation = 0 <-> spec_capacity_ok data allocation.
Proof.
  unfold spec_bed_violations.
  rewrite sum_Z_zero.
  2:{ intros x _. apply sum_Z_nonneg. intros; lia. }
  split.
  - intros H wname w d Hin Hd. specialize (H _ Hin). cbn [fst snd] in H.
    rewrite sum_Z_zero in H by (intros; lia).
    specialize (H d). rewrite in_range in H. specialize (H Hd). lia.
  - intros H [wname w] Hin. cbn [fst snd].
    apply sum_Z_zero; [intros; lia|]. intros d Hd. apply in_range in Hd.
    specialize (H wname w d Hin). lia.
Qed.

Lemma spec_bed_violations_nonneg : 0 <= spec_bed_violations data allocation.
Proof.
  unfold spec_bed_violations. apply sum_Z_nonneg. intros x _.
  apply sum_Z_nonneg. intros; lia.
Qed.

End Capacity.

(** ** The monad of randomised computations *)

Lemma bindM_Ok {A B} (m : M A) (k : A -> M B) (w w' : World) (b : B) :
  bindM m k w = Ok (b, w') -> exists a w1, m w = Ok (a, w1) /\ k a w1 = Ok (b, w').
Proof.
  unfold bindM. destruct (m w) as [[a w1]|e]; intros H; [|discriminate].
  exists a, w1. auto.
Qed.

Lemma liftR_Ok {A} (r : result A) (w w' : World) (a : A) :
  liftR r w = Ok (a, w') -> r = Ok a /\ w' = w.
Proof.
  unfold liftR. destruct r; intros H; inversion H; auto.
Qed.

Lemma bindM_liftR {A B} (r : result A) (k : A -> M B) (a : A) (w : World) :
  r = Ok a -> bindM (liftR r) k w = k a w.
Proof. intros ->. reflexivity. Qed.

Lemma remove_nth_incl {A} (n : nat) (l : list A) : incl (remove_nth n l) l.
Proof.
  revert n. induction l as [|x r IH]; intros n; simpl.
  - destruct n; apply incl_refl.
  - destruct n as [|n]; [apply incl_tl, incl_refl|].
    intros y [<-|Hy]; [now left | right; now apply (IH n)].
Qed.

(** [random.sample] and [random.shuffle] return elements of the list they
    are given, and never raise once the size test has passed. *)
Lemma draw_incl {A} (k : nat) (l : list A) (w : World) :
  exists l' w', draw k l w = Ok (l', w') /\ incl l' l.
Proof.
  revert l w. induction k as [|k IH]; intros l w; simpl.
  - exists [], w. split; [reflexivity | apply incl_nil_l].
  - destruct l as [|x r] eqn:El.
    + exists [], w. split; [reflexivity | apply incl_nil_l].
    + rewrite <- El. unfold bindM at 1. unfold next_int at 1.
      set (j := (ints w 0 mod List.length l)%nat).
      set (w1 := {| ints := fun n : nat => ints w (S n); units := units w;
                    timeouts := timeouts w |}).
      destruct (IH (remove_nth j l) w1) as [l' [w' [Hd Hi]]].
      unfold bindM. rewrite Hd. exists (nth j l x :: l'), w'. split; [reflexivity|].
      intros y [<-|Hy].
      * apply nth_In. subst j l. simpl List.length. apply Nat.mod_upper_bound. discriminate.
      * apply (remove_nth_incl j l). now apply Hi.
Qed.

Lemma bindM_Ok_eq {A B} (m : M A) (k : A -> M B) (w w1 : World) (a : A) :
  m w = Ok (a, w1) -> bindM m k w = k a w1.
Proof. unfold bindM. intros ->. reflexivity. Qed.

(** ** The repair step *)



(** ** The literal scenario *)


(** ** Which exceptions the construction can raise *)

Lemma safeR_Ok {A} (a : A) : safeR (Ok a).
Proof. intros e H. discriminate. Qed.

Lemma safeR_bind {A B} (m : result A) (k : A -> result B) :
  safeR m -> (forall a, safeR (k a)) -> safeR (bindR m k).
Proof.
  intros Hm Hk e H. destruct m as [a|e']; simpl in H.
  - exact (Hk a e H).
  - apply Hm. congruence.
Qed.

Lemma safeR_foldM {A S} (f : S -> A -> result S) (l : list A) (s : S) :
  (forall s x, safeR (f s x)) -> safeR (foldM f l s).
Proof.
  intros H. revert s. induction l as [|x r IH]; intros s; simpl.
  - apply safeR_Ok.
  - apply safeR_bind; [apply H | intros; apply IH].
Qed.

Lemma safeR_allM {A} (f : A -> result bool) (l : list A) :
  (forall x, safeR (f x)) -> safeR (allM f l).
Proof.
  intros H. induction l as [|x r IH]; simpl.
  - apply safeR_Ok.
  - apply safeR_bind; [apply H | intros [|]; [apply IH | apply safeR_Ok]].
Qed.

Lemma safeR_findM {A} (f : A -> result bool) (l : list A) :
  (forall x, safeR (f x)) -> safeR (findM f l).
Proof.
  intros H. induction l as [|x r IH]; simpl.
  - apply safeR_Ok.
  - apply safeR_bind; [apply H | intros [|]; [apply safeR_Ok | apply IH]].
Qed.

Lemma safeR_dict_get {V} (d : list (string * V)) (k : string) : safeR (dict_get d k).
Proof.
  induction d as [|[k' v] r IH]; simpl.
  - intros e H. inversion H. exact I.
  - destruct (String.eqb k' k); [apply safeR_Ok | exact IH].
Qed.

Lemma safeR_py_index {A} (l : list A) (i : Z) : safeR (py_index l i).
Proof.
  unfold py_index. intros e H.
  destruct ((if i <? 0 then i + Z.of_nat (List.length l) else i) <? 0).
  - inversion H. exact I.
  - destruct (nth_error l _); inversion H. exact I.
Qed.

Create HintDb safe.

#[local] Hint Resolve safeR_Ok safeR_dict_get safeR_py_index : safe.

Ltac safeR_step :=
  match goal with
  | |- safeR (bindR _ _) => apply safeR_bind
  | |- safeR (foldM _ _ _) => apply safeR_foldM
  | |- safeR (allM _ _) => apply safeR_allM
  | |- safeR (findM _ _) => apply safeR_findM
  | |- safeR (if ?c then _ else _) => destruct c
  | |- safeR (let (_, _) := ?p in _) => destruct p
  | |- safeR (match ?p with _ => _ end) => destruct p
  | |- forall _, _ => intro
  | |- safeR _ => solve [auto with safe]
  end.

Ltac safeR_tac := repeat safeR_step.

Lemma safeR_count_beds data allocation ward_name d :
  safeR (count_beds_used_on_day data allocation ward_name d).
Proof. unfold count_beds_used_on_day. safeR_tac. Qed.

#[local] Hint Resolve safeR_count_beds : safe.

Lemma safeR_feasible data allocation change :
  safeR (feasible_after_change_beds data allocation change).
Proof. unfold feasible_after_change_beds. safeR_tac. Qed.

Lemma safeR_violations data allocation : safeR (bed_capacity_violations data allocation).
Proof. unfold bed_capacity_violations. safeR_tac. Qed.

Lemma safeR_ot_used data allocation spec d :
  safeR (compute_ot_used_by_spec_day data allocation spec d).
Proof. unfold compute_ot_used_by_spec_day. safeR_tac. Qed.

#[local] Hint Resolve safeR_feasible safeR_violations safeR_ot_used : safe.

Lemma safeR_add_patient_workload data wname w d total_w kv :
  safeR (add_patient_workload data wname w d total_w kv).
Proof. unfold add_patient_workload. safeR_tac. Qed.

#[local] Hint Resolve safeR_add_patient_workload : safe.

Lemma safeR_objective_value data allocation lambda1 lambda2 :
  safeR (objective_value data allocation lambda1 lambda2).
Proof.
  unfold objective_value, compute_objective_components, compute_delays, compute_ot,
    compute_workload_normalized_and_z.
  safeR_tac.
Qed.

#[local] Hint Resolve safeR_objective_value : safe.

Lemma safeR_score_trial data alloc pid w d lambda1 lambda2 :
  safeR (_score_trial data alloc pid w d lambda1 lambda2).
Proof. unfold _score_trial. safeR_tac. Qed.

Lemma safeR_set_day alloc pid d : safeR (set_day alloc pid d).
Proof. unfold set_day. safeR_tac. Qed.

#[local] Hint Resolve safeR_score_trial safeR_set_day : safe.

Lemma safeR_repair_try data alloc candidates tried max_shifts :
  safeR (repair_try data alloc candidates tried max_shifts).
Proof.
  revert tried. induction candidates as [|pid r IH]; intros tried; simpl; safeR_tac;
    apply IH.
Qed.

Lemma safeR_repair_candidates data alloc ward_name congested_day :
  safeR (repair_candidates data alloc ward_name congested_day).
Proof. unfold repair_candidates. safeR_tac. Qed.

Lemma safeR_stay_free data alloc w cap los d : safeR (stay_free data alloc w cap los d).
Proof. unfold stay_free. safeR_tac. Qed.

#[local] Hint Resolve safeR_repair_try safeR_repair_candidates safeR_stay_free : safe.

Lemma safeR_first_fit data alloc p ws : safeR (first_fit data alloc p ws).
Proof. induction ws as [|w r IH]; simpl; safeR_tac; apply IH. Qed.

Lemma safeR_fallback_scan data alloc pid p ws : safeR (fallback_scan data alloc pid p ws).
Proof. unfold fallback_scan. safeR_tac. Qed.

#[local] Hint Resolve safeR_first_fit safeR_fallback_scan : safe.

Lemma safeM_ret {A} (a : A) : safeM (ret a).
Proof. intros w e H. discriminate. Qed.

Lemma safeM_liftR {A} (r : result A) : safeR r -> safeM (liftR r).
Proof.
  intros H w e Hr. unfold liftR in Hr. destruct r; [discriminate|].
  apply H. congruence.
Qed.

Lemma safeM_bind {A B} (m : M A) (k : A -> M B) :
  safeM m -> (forall a, safeM (k a)) -> safeM (bindM m k).
Proof.
  intros Hm Hk w e H. unfold bindM in H. destruct (m w) as [[a w']|e'] eqn:E.
  - exact (Hk a w' e H).
  - apply (Hm w). congruence.
Qed.

Lemma safeM_foldMM {A S} (f : S -> A -> M S) (l : list A) (s : S) :
  (forall s x, safeM (f s x)) -> safeM (foldMM f l s).
Proof.
  intros H. revert s. induction l as [|x r IH]; intros s; simpl.
  - apply safeM_ret.
  - apply safeM_bind; [apply H | intros; apply IH].
Qed.

Lemma safeM_shuffle {A} (l : list A) : safeM (random_shuffle l).
Proof.
  intros w e H. unfold random_shuffle in H.
  destruct (draw_incl (List.length l) l w) as [l' [w' [Hd _]]]. congruence.
Qed.

Lemma safeM_tiny_repair data alloc ward_name congested_day max_shifts :
  safeM (_tiny_repair_shift_same_ward_day_forward data alloc ward_name congested_day max_shifts).
Proof.
  unfold _tiny_repair_shift_same_ward_day_forward.
  apply safeM_bind; [apply safeM_liftR; auto with safe|]. intros c.
  apply safeM_bind; [apply safeM_shuffle|]. intros c'.
  apply safeM_liftR. auto with safe.
Qed.

Lemma safeM_repair_stay data w day_checks alloc : safeM (repair_stay data w day_checks alloc).
Proof.
  revert alloc. induction day_checks as [|dc r IH]; intros alloc; simpl.
  - apply safeM_ret.
  - apply safeM_bind; [apply safeM_liftR; auto with safe|]. intros used.
    apply safeM_bind; [apply safeM_liftR; auto with safe|]. intros wd.
    destruct (bed_capacity wd <=? used); [|apply IH].
    apply safeM_bind; [apply safeM_tiny_repair|]. intros [ok alloc'].
    destruct ok; [apply safeM_ret | apply IH].
Qed.

Lemma safeM_repair_pass data alloc p ws : safeM (repair_pass data alloc p ws).
Proof.
  unfold repair_pass. apply safeM_foldMM. intros s x.
  apply safeM_foldMM. intros s' d. apply safeM_repair_stay.
Qed.

(** ** The fallback scan *)

Lemma foldM_app {A S} (f : S -> A -> result S) (l1 l2 : list A) (s : S) :
  foldM f (l1 ++ l2) s = (s' <- foldM f l1 s ;; foldM f l2 s').
Proof.
  revert s. induction l1 as [|x r IH]; intros s; simpl; [reflexivity|].
  destruct (f s x) as [s1|e]; simpl; [apply IH | reflexivity].
Qed.

Lemma foldM_map {A B S} (f : S -> B -> result S) (g : A -> B) (l : list A) (s : S) :
  foldM f (map g l) s = foldM (fun s x => f s (g x)) l s.
Proof.
  revert s. induction l as [|x r IH]; intros s; simpl; [reflexivity|].
  destruct (f s (g x)); simpl; [apply IH | reflexivity].
Qed.

(** Two nested loops are one loop over the pairs, in the same order. *)
Lemma foldM_nested {A B S} (f : S -> A -> B -> result S) (la : list A) (lb : list B) (s : S) :
  foldM (fun s a => foldM (fun s b => f s a b) lb s) la s
  = foldM (fun s ab => f s (fst ab) (snd ab)) (list_prod la lb) s.
Proof.
  revert s. induction la as [|a r IH]; intros s; simpl; [reflexivity|].
  rewrite foldM_app, foldM_map. simpl.
  destruct (foldM (fun s b => f s a b) lb s) as [s1|e]; simpl; [apply IH | reflexivity].
Qed.

Section Scan.

Context {A B : Type}.
Variable score : A -> result fl.
Variable tag : A -> B.

#[local] Abbreviation step := (scan_step score tag).

Lemma scan_keeps_some l b t r :
  foldM step l (b, Some t) = Ok r -> snd r <> None.
Proof.
  revert b t. induction l as [|x l IH]; intros b t H; simpl in H.
  - inversion H. discriminate.
  - apply bindR_Ok in H. destruct H as [s1 [H1 H2]]. unfold scan_step in H1.
    apply bindR_Ok in H1. destruct H1 as [s [_ H1]]. inversion H1; subst s1; clear H1.
    simpl in H2. destruct (fl_ltb s b); eapply IH; exact H2.
Qed.

Lemma scan_none_inv l b best :
  foldM step l (b, None) = Ok (best, None) ->
  forall x, In x l -> exists s, score x = Ok s /\ fl_ltb s b = false.
Proof.
  revert b. induction l as [|x l IH]; intros b H y Hy; [destruct Hy|].
  simpl in H. apply bindR_Ok in H. destruct H as [s1 [H1 H2]]. unfold scan_step in H1.
  apply bindR_Ok in H1. destruct H1 as [s [Hs H1]]. inversion H1; subst s1; clear H1.
  simpl in H2. destruct (fl_ltb s b) eqn:E.
  - exfalso. apply (scan_keeps_some _ _ _ _ H2). reflexivity.
  - destruct Hy as [<-|Hy]; [exists s; auto | exact (IH b H2 y Hy)].
Qed.

Lemma scan_none_intro l b :
  (forall x, In x l -> exists s, score x = Ok s /\ fl_ltb s b = false) ->
  foldM step l (b, None) = Ok (b, None).
Proof.
  induction l as [|x l IH]; intros H; simpl; [reflexivity|].
  destruct (H x (or_introl eq_refl)) as [s [Hs E]]. unfold scan_step at 1.
  rewrite Hs. simpl. rewrite E. apply IH. intros; apply H; now right.
Qed.

End Scan.

Lemma score_trial_inf data alloc pid w d lambda1 lambda2 :
  (exists s, _score_trial data alloc pid w d lambda1 lambda2 = Ok s /\ fl_ltb s PInf = false)
  <-> feasible_after_change_beds data alloc (Some (pid, w, d)) = Ok false.
Proof.
  unfold _score_trial. split.
  - intros [s [H E]]. apply bindR_Ok in H. destruct H as [f [Hf H]].
    destruct f; simpl in H; [|exact Hf].
    apply bindR_Ok in H. destruct H as [v [_ H]]. inversion H; subst s. discriminate.
  - intros ->. simpl. exists PInf. auto.
Qed.

Lemma fallback_scan_none data alloc pid p :
  (exists best, fallback_scan data alloc pid p (compatible_wards_for_patient data p)
                = Ok (best, None))
  <-> no_placement data alloc pid p.
Proof.
  unfold fallback_scan, no_placement.
  rewrite (foldM_nested
             (fun (best : fl * option (string * Z)) w d =>
                score <- _score_trial data alloc pid w d default_lambda default_lambda ;;
                Ok (if fl_ltb score (fst best) then (score, Some (w, d)) else best))).
  split.
  - intros [best H] w d Hw Hd.
    apply (scan_none_inv
             (fun wd => _score_trial data alloc pid (fst wd) (snd wd) default_lambda default_lambda)
             (fun wd : string * Z => (fst wd, snd wd))) with (x := (w, d)) in H.
    + apply (score_trial_inf data alloc pid w d default_lambda default_lambda). exact H.
    + apply in_prod; assumption.
  - intros H. exists PInf.
    apply (scan_none_intro
             (fun wd => _score_trial data alloc pid (fst wd) (snd wd) default_lambda default_lambda)
             (fun wd : string * Z => (fst wd, snd wd))).
    intros [w d] Hin. apply in_prod_iff in Hin. destruct Hin as [Hw Hd].
    apply score_trial_inf. now apply H.
Qed.

(** ** When the construction reports saturation *)

Lemma bindM_Raise {A B} (m : M A) (k : A -> M B) (w : World) (e : exn) :
  bindM m k w = Raise e ->
  m w = Raise e \/ exists a w1, m w = Ok (a, w1) /\ k a w1 = Raise e.
Proof.
  unfold bindM. destruct (m w) as [[a w1]|e']; intros H.
  - right. exists a, w1. auto.
  - left. congruence.
Qed.

Lemma place_patient_saturation data alloc pid p w pid' :
  place_patient data alloc (pid, p) w = Raise (RuntimeError pid')
  <-> pid' = pid
      /\ first_fit data alloc p (compatible_wards_for_patient data p) = Ok None
      /\ exists alloc' w',
           repair_pass data alloc p (compatible_wards_for_patient data p) w = Ok (alloc', w')
           /\ first_fit data alloc' p (compatible_wards_for_patient data p) = Ok None
           /\ no_placement data alloc' pid p.
Proof.
  unfold place_patient. set (ws := compatible_wards_for_patient data p). split.
  - intros H.
    apply bindM_Raise in H. destruct H as [H|[ff [w1 [Hff H]]]].
    { exfalso. apply (safeM_liftR _ (safeR_first_fit data alloc p ws)) in H. exact H. }
    apply liftR_Ok in Hff. destruct Hff as [Hff ->].
    destruct ff as [wd|]; [discriminate|].
    apply bindM_Raise in H. destruct H as [H|[alloc' [w' [Hrp H]]]].
    { exfalso. apply (safeM_repair_pass data alloc p ws) in H. exact H. }
    apply bindM_Raise in H. destruct H as [H|[ff2 [w2 [Hff2 H]]]].
    { exfalso. apply (safeM_liftR _ (safeR_first_fit data alloc' p ws)) in H. exact H. }
    apply liftR_Ok in Hff2. destruct Hff2 as [Hff2 ->].
    destruct ff2 as [wd|]; [discriminate|].
    apply bindM_Raise in H. destruct H as [H|[fb [w3 [Hfb H]]]].
    { exfalso. apply (safeM_liftR _ (safeR_fallback_scan data alloc' pid p ws)) in H. exact H. }
    apply liftR_Ok in Hfb. destruct Hfb as [Hfb ->].
    destruct fb as [best [wd|]]; simpl in H; [discriminate|].
    unfold raise in H. inversion H; subst pid'.
    split; [reflexivity|]. split; [exact Hff|]. exists alloc', w'.
    split; [exact Hrp|]. split; [exact Hff2|].
    apply fallback_scan_none. exists best. exact Hfb.
  - intros [-> [Hff [alloc' [w' [Hrp [Hff2 Hno]]]]]].
    apply fallback_scan_none in Hno. destruct Hno as [best Hfb]. fold ws in Hfb.
    rewrite (bindM_liftR _ _ None w Hff).
    rewrite (bindM_Ok_eq _ _ _ _ _ Hrp).
    rewrite (bindM_liftR _ _ None w' Hff2).
    rewrite (bindM_liftR _ _ (best, None) w' Hfb).
    reflexivity.
Qed.




(** ** Loops *)

Lemma for_loop_invariant {S} (P : S -> Prop) (body : S -> M (S * bool)) :
  (forall s w s' b w', P s -> body s w = Ok ((s', b), w') -> P s') ->
  forall n s w s' w', P s -> for_loop n body s w = Ok (s', w') -> P s'.
Proof.
  intros Hbody. induction n as [|n IH]; intros s w s' w' Hs H; simpl in H.
  - inversion H; subst. exact Hs.
  - apply bindM_Ok in H. destruct H as [[s1 b] [w1 [H1 H2]]].
    pose proof (Hbody _ _ _ _ _ Hs H1) as Hs1.
    destruct b.
    + inversion H2; subst. exact Hs1.
    + exact (IH _ _ _ _ Hs1 H2).
Qed.

Lemma loop_trace_invariant {S} (P : S -> Prop) (body : S -> M (S * bool)) :
  (forall s w s' b w', P s -> body s w = Ok ((s', b), w') -> P s') ->
  forall n s w, P s -> Forall P (loop_trace n body s w).
Proof.
  intros Hbody. induction n as [|n IH]; intros s w Hs; simpl; [constructor|].
  destruct (body s w) as [[[s1 b] w1]|e] eqn:E; [|constructor].
  pose proof (Hbody _ _ _ _ _ Hs E) as Hs1.
  constructor; [exact Hs1|]. destruct b; [constructor | now apply IH].
Qed.

Lemma last_default {A} (l : list A) (x d d' : A) : last (x :: l) d = last (x :: l) d'.
Proof.
  revert x. induction l as [|y l IH]; intros x; [reflexivity|].
  change (last (y :: l) d = last (y :: l) d'). apply IH.
Qed.

(** The state that the loop returns is the last state of its trace. *)
Lemma for_loop_last {S} (body : S -> M (S * bool)) :
  forall n s w s' w', for_loop n body s w = Ok (s', w') ->
                      s' = last (loop_trace n body s w) s.
Proof.
  induction n as [|n IH]; intros s w s' w' H; simpl in H.
  - inversion H. reflexivity.
  - apply bindM_Ok in H. destruct H as [[s1 b] [w1 [H1 H2]]].
    cbn [loop_trace]. rewrite H1. destruct b.
    + inversion H2. reflexivity.
    + rewrite (IH _ _ _ _ H2). destruct (loop_trace n body s1 w1) as [|s0 l];
        [reflexivity | exact (last_default l s0 s1 s)].
Qed.

(** A transitive relation that every pass respects orders the whole trace. *)
Lemma loop_trace_sorted {S} (R : S -> S -> Prop) (body : S -> M (S * bool)) :
  (forall a b c, R a b -> R b c -> R a c) ->
  (forall s w s' b w', body s w = Ok ((s', b), w') -> R s s') ->
  forall n s w, StronglySorted R (s :: loop_trace n body s w).
Proof.
  intros Htrans Hbody. induction n as [|n IH]; intros s w; simpl.
  - constructor; constructor.
  - destruct (body s w) as [[[s1 b] w1]|e] eqn:E; [|constructor; constructor].
    pose proof (Hbody _ _ _ _ _ E) as Hs1.
    assert (Hrest : StronglySorted R (s1 :: (if b then [] else loop_trace n body s1 w1))).
    { destruct b; [constructor; constructor | apply IH]. }
    constructor; [exact Hrest|].
    constructor; [exact Hs1|].
    apply StronglySorted_inv in Hrest. destruct Hrest as [_ Hall].
    eapply Forall_impl; [|exact Hall]. intros a Ha. exact (Htrans _ _ _ Hs1 Ha).
Qed.

(** ** Iterated local search *)

Module ILSFacts.

Import IteratedLocalSearch.

Section Facts.

Variable data : PatientAllocationData.
Variables lambda1 lambda2 penalty_weight : Q.

#[local] Abbreviation record_best := (record_best data lambda1 lambda2).
#[local] Abbreviation stagnation := (stagnation data).
#[local] Abbreviation iteration := (iteration data lambda1 lambda2 penalty_weight).
#[local] Abbreviation initial_state := (initial_state data lambda1 lambda2).
#[local] Abbreviation best_step := (best_step data lambda1 lambda2).
#[local] Abbreviation best_is_feasible := (best_is_feasible data).

Lemma ils_record_best_spec st cur st' :
record_best st cur = Ok st' ->
current st' = cur
/\ ((best_feasible_allocation st' = best_feasible_allocation st
   /\ best_feasible_value st' = best_feasible_value st
   /\ no_improve_counter st' = no_improve_counter st + 1
   /\ output st' = output st)
  \/ (feasible_after_change_beds data cur None = Ok true
      /\ objective_value data cur lambda1 lambda2 = Ok (best_feasible_value st')
      /\ (best_feasible_value st' + eps < best_feasible_value st)%Q
      /\ best_feasible_allocation st' = cur
      /\ no_improve_counter st' = 0
      /\ output st' = output st ++ [NewBest (best_feasible_value st')])).
Proof.
unfold IteratedLocalSearch.record_best. intros H.
apply bindR_Ok in H. destruct H as [f [Hf H]]. destruct f.
- apply bindR_Ok in H. destruct H as [v [Hv H]].
destruct (Qltb (v + eps) (best_feasible_value st)) eqn:E;
  inversion H; subst st'; clear H; simpl; (split; [reflexivity|]).
+ right. apply Qltb_lt in E. auto 10.
+ left. auto.
- inversion H; subst st'; clear H; simpl. split; [reflexivity|]. left. auto.
Qed.

Lemma ils_stagnation_spec st w st' w' :
stagnation st w = Ok (st', w') ->
best_feasible_allocation st' = best_feasible_allocation st
/\ best_feasible_value st' = best_feasible_value st
/\ ((no_improve_counter st < STAGNATION_LIMIT /\ st' = st /\ w' = w)
  \/ (STAGNATION_LIMIT <= no_improve_counter st
      /\ no_improve_counter st' = 0
      /\ output st' = output st ++ [Perturbazione (perturbation_intensity
                                                     (no_improve_counter st))]
      /\ _perturbation_mixed data (best_feasible_allocation st)
           (perturbation_intensity (no_improve_counter st)) w = Ok (current st', w'))).
Proof.
unfold IteratedLocalSearch.stagnation. intros H.
destruct (Z.leb_spec STAGNATION_LIMIT (no_improve_counter st)) as [Hle|Hlt].
- apply bindM_Ok in H. destruct H as [cur [w1 [Hp H]]].
inversion H; subst st' w'; clear H; simpl.
split; [reflexivity|]. split; [reflexivity|]. right. auto.
- inversion H; subst st' w'; clear H.
split; [reflexivity|]. split; [reflexivity|]. left. auto.
Qed.

(** The shape of one pass: the time-out, or a local search, the acceptance
test and the stagnation test. *)
Lemma ils_iteration_spec st w st' b w' :
iteration st w = Ok ((st', b), w') ->
(st' = log st TimeoutReached /\ b = true)
\/ exists ls w1 w2 st1 st2,
   _local_search_fast data lambda1 lambda2 penalty_weight (current st) w1 = Ok (ls, w2)
   /\ record_best st (fst ls) = Ok st1
   /\ stagnation st1 w2 = Ok (st2, w')
   /\ ((STAGNATION_LIMIT * 2 <= no_improve_counter st2
        /\ st' = log st2 StoppingEarly /\ b = true)
       \/ (no_improve_counter st2 < STAGNATION_LIMIT * 2 /\ st' = st2 /\ b = false)).
Proof.
unfold IteratedLocalSearch.iteration. intros H.
apply bindM_Ok in H. destruct H as [t [w1 [_ H]]]. destruct t.
- inversion H; subst. left. auto.
- right.
apply bindM_Ok in H. destruct H as [ls [w2 [Hls H]]].
apply bindM_Ok in H. destruct H as [st1 [w3 [Hrb H]]].
apply liftR_Ok in Hrb. destruct Hrb as [Hrb ->].
apply bindM_Ok in H. destruct H as [st2 [w4 [Hst H]]].
exists ls, w1, w2, st1, st2.
destruct (Z.leb_spec (STAGNATION_LIMIT * 2) (no_improve_counter st2)) as [Hle|Hlt];
  inversion H; subst; auto 10.
Qed.

Lemma ils_iteration_best_step st w st' b w' :
iteration st w = Ok ((st', b), w') -> best_step st st'.
Proof.
intros H. apply ils_iteration_spec in H.
destruct H as [[-> _]|[ls [w1 [w2 [st1 [st2 [_ [Hrb [Hst Hend]]]]]]]]].
- left. auto.
- apply ils_record_best_spec in Hrb. destruct Hrb as [_ Hrb].
apply ils_stagnation_spec in Hst. destruct Hst as [Ha [Hv _]].
assert (E : best_feasible_allocation st' = best_feasible_allocation st2
            /\ best_feasible_value st' = best_feasible_value st2).
{ destruct Hend as [[_ [-> _]]|[_ [-> _]]]; simpl; auto. }
destruct E as [Ea Ev]. unfold IteratedLocalSearch.best_step.
rewrite Ea, Ev, Ha, Hv.
destruct Hrb as [[Hb [Hb' _]]|[Hf [Ho [Hlt [Hb _]]]]].
+ left. split; congruence.
+ right. rewrite Hb. auto.
Qed.

(** The best value never increases in a pass. *)
Lemma ils_iteration_best_value st w st' b w' :
iteration st w = Ok ((st', b), w') ->
(best_feasible_value st' <= best_feasible_value st)%Q.
Proof.
intros H. apply ils_iteration_best_step in H.
destruct H as [[_ ->]|[_ [_ Hlt]]]; [apply Qle_refl|].
unfold eps in Hlt. lra.
Qed.

Lemma ils_iteration_best_feasible st w st' b w' :
best_is_feasible st -> iteration st w = Ok ((st', b), w') -> best_is_feasible st'.
Proof.
intros Hst H. apply ils_iteration_best_step in H. unfold IteratedLocalSearch.best_is_feasible in *.
destruct H as [[-> _]|[Hf _]]; assumption.
Qed.

Lemma ils_initial_state_spec start st :
initial_state start = Ok st ->
feasible_after_change_beds data start None = Ok true
/\ current st = start /\ best_feasible_allocation st = start
/\ objective_value data start lambda1 lambda2 = Ok (best_feasible_value st)
/\ no_improve_counter st = 0 /\ output st = [].
Proof.
unfold IteratedLocalSearch.initial_state. intros H.
apply bindR_Ok in H. destruct H as [f [Hf H]]. destruct f; [|discriminate].
apply bindR_Ok in H. destruct H as [v [Hv H]].
inversion H; subst st; simpl. auto 10.
Qed.

(** The stagnation counter is below the limit at the start of every pass,
so every perturbation happens at the limit exactly, with the same
intensity, and the early stop is never taken. *)
Lemma ils_intensity_at_limit : (perturbation_intensity STAGNATION_LIMIT == 1 # 5)%Q.
Proof. reflexivity. Qed.

Lemma ils_iteration_steady st w st' b w' :
steady st -> iteration st w = Ok ((st', b), w') -> steady st'.
Proof.
intros [Hc Ho] H. apply ils_iteration_spec in H.
destruct H as [[-> _]|[ls [w1 [w2 [st1 [st2 [_ [Hrb [Hst Hend]]]]]]]]].
- split; [exact Hc|]. simpl. apply Forall_app. split; [exact Ho|].
constructor; [exact I | constructor].
- apply ils_record_best_spec in Hrb. destruct Hrb as [_ Hrb].
assert (H1 : 0 <= no_improve_counter st1 <= STAGNATION_LIMIT
             /\ Forall steady_event (output st1)).
{ destruct Hrb as [[_ [_ [Hn Hout]]]|[_ [_ [_ [_ [Hn Hout]]]]]]; rewrite Hn, Hout.
  - split; [lia | exact Ho].
  - split; [unfold STAGNATION_LIMIT; lia|]. apply Forall_app. split; [exact Ho|].
    constructor; [exact I | constructor]. }
destruct H1 as [Hc1 Ho1].
apply ils_stagnation_spec in Hst. destruct Hst as [_ [_ Hst]].
assert (H2 : steady st2).
{ destruct Hst as [[Hlt [-> _]]|[Hge [Hn [Hout _]]]].
  - split; [lia | exact Ho1].
  - split; [rewrite Hn; unfold STAGNATION_LIMIT; lia|].
    rewrite Hout. apply Forall_app. split; [exact Ho1|].
    constructor; [|constructor]. simpl.
    replace (no_improve_counter st1) with STAGNATION_LIMIT by lia.
    exact ils_intensity_at_limit. }
destruct Hend as [[Hge _]|[_ [-> _]]]; [|exact H2].
destruct H2 as [Hc2 _]. unfold STAGNATION_LIMIT in *. lia.
Qed.

Lemma ils_initial_state_steady start st : initial_state start = Ok st -> steady st.
Proof.
intros H. apply ils_initial_state_spec in H.
destruct H as [_ [_ [_ [_ [Hn Ho]]]]]. split.
- rewrite Hn. unfold STAGNATION_LIMIT. lia.
- rewrite Ho. constructor.
Qed.

End Facts.

End ILSFacts.

(** ** Variable neighbourhood search *)

Module VNSFacts.

Import VariableNeighborhoodSearch.

Section Facts.

Variable data : PatientAllocationData.
Variables lambda1 lambda2 penalty_weight : Q.

#[local] Abbreviation accept := (accept data lambda1 lambda2).
#[local] Abbreviation iteration := (iteration data lambda1 lambda2 penalty_weight).
#[local] Abbreviation initial_state := (initial_state data lambda1 lambda2).
#[local] Abbreviation best_step := (best_step data lambda1 lambda2).
#[local] Abbreviation best_is_feasible := (best_is_feasible data).
#[local] Abbreviation adopted := (adopted data lambda1 lambda2).

(** The acceptance test: the result is adopted and [k] becomes 1, or the
state keeps its allocations and [k] grows by one. *)
Lemma vns_accept_spec st sol st' :
accept st sol = Ok st' ->
iteration_count st' = iteration_count st
/\ ((exists v, adopted st sol v
             /\ current st' = sol /\ best_feasible_allocation st' = sol
             /\ best_feasible_value st' = v /\ k st' = 1)
  \/ ((forall v, ~ adopted st sol v)
      /\ current st' = current st
      /\ best_feasible_allocation st' = best_feasible_allocation st
      /\ best_feasible_value st' = best_feasible_value st
      /\ k st' = k st + 1)).
Proof.
unfold VariableNeighborhoodSearch.accept, VariableNeighborhoodSearch.adopted. intros H.
apply bindR_Ok in H. destruct H as [f [Hf H]]. destruct f.
- apply bindR_Ok in H. destruct H as [v [Hv H]].
destruct (Qltb (v + eps) (best_feasible_value st)) eqn:E;
  inversion H; subst st'; clear H; simpl; (split; [reflexivity|]).
+ left. exists v. apply Qltb_lt in E. auto 10.
+ right. split; [|auto]. intros v' [_ [Hv' Hlt]].
  apply Qltb_ge in E. assert (v' = v) by congruence. subst v'.
  apply (Qlt_not_le _ _ Hlt E).
- inversion H; subst st'; clear H; simpl. split; [reflexivity|].
right. split; [|auto]. intros v' [Hf' _]. congruence.
Qed.

(** The shape of one pass: the time-out, or a shake of the current
allocation with the neighbourhood [k], the local search, the acceptance
test and the wrap-around of [k]. *)
Lemma vns_iteration_spec st w st' b w' :
iteration st w = Ok ((st', b), w') ->
(st' = st /\ b = true)
\/ exists shaken ls w1 w2 st1,
   _shake data (current st) (k st) w1 = Ok (shaken, w2)
   /\ _local_search_fast data lambda1 lambda2 penalty_weight shaken w2 = Ok (ls, w')
   /\ accept (tick st) (fst ls) = Ok st1
   /\ st' = wrap st1 /\ b = false.
Proof.
unfold VariableNeighborhoodSearch.iteration. intros H.
apply bindM_Ok in H. destruct H as [t [w1 [_ H]]]. destruct t.
- inversion H; subst. left. auto.
- right.
apply bindM_Ok in H. destruct H as [shaken [w2 [Hsh H]]].
apply bindM_Ok in H. destruct H as [ls [w3 [Hls H]]].
apply bindM_Ok in H. destruct H as [st1 [w4 [Hacc H]]].
apply liftR_Ok in Hacc. destruct Hacc as [Hacc ->].
inversion H; subst. exists shaken, ls, w1, w2, st1. auto 10.
Qed.

Lemma vns_iteration_best_step st w st' b w' :
iteration st w = Ok ((st', b), w') -> best_step st st'.
Proof.
intros H. apply vns_iteration_spec in H.
destruct H as [[-> _]|[shaken [ls [w1 [w2 [st1 [_ [_ [Hacc [-> _]]]]]]]]]].
- left. auto.
- apply vns_accept_spec in Hacc. destruct Hacc as [_ Hacc].
unfold VariableNeighborhoodSearch.best_step. simpl.
destruct Hacc as [[v [[Hf [Hv Hlt]] [_ [Ha [Hb _]]]]]|[_ [_ [Ha [Hb _]]]]].
+ right. rewrite Ha, Hb. auto.
+ left. auto.
Qed.

Lemma vns_iteration_best_value st w st' b w' :
iteration st w = Ok ((st', b), w') ->
(best_feasible_value st' <= best_feasible_value st)%Q.
Proof.
intros H. apply vns_iteration_best_step in H.
destruct H as [[_ ->]|[_ [_ Hlt]]]; [apply Qle_refl|].
unfold eps in Hlt. lra.
Qed.

Lemma vns_iteration_best_feasible st w st' b w' :
best_is_feasible st -> iteration st w = Ok ((st', b), w') -> best_is_feasible st'.
Proof.
intros Hst H. apply vns_iteration_best_step in H.
unfold VariableNeighborhoodSearch.best_is_feasible in *.
destruct H as [[-> _]|[Hf _]]; assumption.
Qed.

Lemma vns_iteration_shake_ready st w st' b w' :
shake_ready st -> iteration st w = Ok ((st', b), w') -> shake_ready st'.
Proof.
intros [Hk Hc] H. apply vns_iteration_spec in H.
destruct H as [[-> _]|[shaken [ls [w1 [w2 [st1 [_ [_ [Hacc [-> _]]]]]]]]]].
- split; assumption.
- apply vns_accept_spec in Hacc. destruct Hacc as [_ Hacc].
unfold shake_ready, wrap. simpl. unfold K_MAX in *.
destruct Hacc as [[v [_ [Hcur [Ha [_ Hk1]]]]]|[_ [Hcur [Ha [_ Hk1]]]]];
  simpl in Hcur, Ha, Hk1; rewrite Hcur, Ha, Hk1.
+ split; [simpl; lia | reflexivity].
+ split; [|exact Hc]. destruct (Z.ltb_spec 4 (k st + 1)); lia.
Qed.

Lemma vns_initial_state_spec start st :
initial_state start = Ok st ->
feasible_after_change_beds data start None = Ok true
/\ current st = start /\ best_feasible_allocation st = start
/\ objective_value data start lambda1 lambda2 = Ok (best_feasible_value st)
/\ k st = 1.
Proof.
unfold VariableNeighborhoodSearch.initial_state. intros H.
apply bindR_Ok in H. destruct H as [f [Hf H]]. destruct f; [|discriminate].
apply bindR_Ok in H. destruct H as [v [Hv H]].
inversion H; subst st; simpl. auto 10.
Qed.

(** How a pass that does not time out moves [k] and the allocations. *)
Lemma vns_iteration_k st w st' w' :
iteration st w = Ok ((st', false), w') ->
exists shaken sol pen w1 w2,
_shake data (current st) (k st) w1 = Ok (shaken, w2)
/\ _local_search_fast data lambda1 lambda2 penalty_weight shaken w2 = Ok ((sol, pen), w')
/\ ((exists v, adopted st sol v
               /\ k st' = 1 /\ current st' = sol
               /\ best_feasible_allocation st' = sol /\ best_feasible_value st' = v)
    \/ ((forall v, ~ adopted st sol v)
        /\ k st' = (if K_MAX <? k st + 1 then 1 else k st + 1)
        /\ current st' = current st
        /\ best_feasible_allocation st' = best_feasible_allocation st
        /\ best_feasible_value st' = best_feasible_value st)).
Proof.
intros H. apply vns_iteration_spec in H.
destruct H as [[_ ?]|[shaken [[sol pen] [w1 [w2 [st1 [Hsh [Hls [Hacc [-> _]]]]]]]]]];
[discriminate|].
exists shaken, sol, pen, w1, w2. split; [exact Hsh|]. split; [exact Hls|].
apply vns_accept_spec in Hacc. destruct Hacc as [_ Hacc]. simpl in Hacc.
destruct Hacc as [[v [Had [Hcur [Ha [Hb Hk]]]]]|[Hno [Hcur [Ha [Hb Hk]]]]].
- left. exists v. unfold wrap. simpl. rewrite Hk. auto 10.
- right. unfold wrap. simpl. rewrite Hk. auto 10.
Qed.

End Facts.

End VNSFacts.

(** ** The class [Solution] *)

Lemma fl_ltb_trans (x y z : fl) : fl_ltb x y = true -> fl_ltb y z = true -> fl_ltb x z = true.
Proof.
  destruct x as [a| | |], y as [b| | |], z as [c| | |]; simpl; try discriminate; auto.
  rewrite !Qltb_lt. apply Qlt_trans.
Qed.

Lemma fl_le_trans (x y z : fl) : fl_le x y -> fl_le y z -> fl_le x z.
Proof.
  intros [->|H1] [->|H2]; unfold fl_le; auto.
  right. exact (fl_ltb_trans _ _ _ H1 H2).
Qed.

Lemma fl_le_refl (x : fl) : fl_le x x.
Proof. left. reflexivity. Qed.

Lemma check_feasibility_true data alloc :
  Solution._check_feasibility data alloc = Ok true
  <-> List.length alloc = List.length (patients data)
      /\ Solution.check_windows data alloc = Ok true
      /\ Solution.check_beds data alloc = Ok true
      /\ Solution.check_compatibility data alloc = Ok true.
Proof.
  unfold Solution._check_feasibility.
  destruct (Nat.eqb_spec (List.length alloc) (List.length (patients data))) as [E|E]; simpl.
  - destruct (Solution.check_windows data alloc) as [[|]|e]; simpl;
      [|split; [discriminate | intros [_ [? _]]; discriminate] ..].
    destruct (Solution.check_beds data alloc) as [[|]|e]; simpl;
      [|split; [discriminate | intros [_ [_ [? _]]]; discriminate] ..].
    split; [auto | tauto].
  - split; [discriminate | tauto].
Qed.

(** ** Simulated annealing *)

Module SAFacts.

Import SimulatedAnnealing.

Section Facts.

Variable data : PatientAllocationData.
Variables lambda1 lambda2 : Q.
Variable exp : Q -> Q.

#[local] Abbreviation _get_neighbor := (_get_neighbor data lambda1 lambda2).
#[local] Abbreviation iteration := (iteration data lambda1 lambda2 exp).
#[local] Abbreviation accepts := (accepts exp).

Lemma sa_track_best_spec best cur :
(track_best best cur = best
/\ fl_ltb (Solution.objective_value cur) (Solution.objective_value best) = false)
\/ (track_best best cur = Solution.copy cur
  /\ fl_ltb (Solution.objective_value cur) (Solution.objective_value best) = true).
Proof.
unfold track_best.
destruct (fl_ltb (Solution.objective_value cur) (Solution.objective_value best)); auto.
Qed.

Lemma sa_track_best_le best cur :
fl_le (Solution.objective_value (track_best best cur)) (Solution.objective_value best).
Proof.
destruct (sa_track_best_spec best cur) as [[-> _]|[-> H]]; [apply fl_le_refl|].
right. exact H.
Qed.

(** The shape of one pass. *)
Lemma sa_iteration_spec cooling_rate st w st' b w' :
iteration cooling_rate st w = Ok ((st', b), w') ->
exists neighbor w1 acc,
_get_neighbor (current st) w = Ok (neighbor, w1)
/\ accepts (fl_sub (Solution.objective_value neighbor)
                   (Solution.objective_value (current st)))
           (temperature st) w1 = Ok (acc, w')
/\ current st' = (if acc then neighbor else current st)
/\ best_solution st' = (if acc then track_best (best_solution st) neighbor
                        else best_solution st)
/\ temperature st' = (temperature st * cooling_rate)%Q
/\ b = Qltb (temperature st * cooling_rate) (1 # 100).
Proof.
unfold SimulatedAnnealing.iteration. intros H.
apply bindM_Ok in H. destruct H as [neighbor [w1 [Hn H]]].
apply bindM_Ok in H. destruct H as [acc [w2 [Hacc H]]].
inversion H; subst; clear H. simpl.
exists neighbor, w1, acc. destruct acc; auto 10.
Qed.

Lemma sa_accepts_total delta temperature w : exists acc w', accepts delta temperature w = Ok (acc, w').
Proof.
unfold SimulatedAnnealing.accepts.
destruct (fl_ltb delta (Fin 0)); [now eexists; eexists|].
destruct (Qltb 0 temperature); now eexists; eexists.
Qed.

Lemma sa_iteration_total cooling_rate st w neighbor w1 :
_get_neighbor (current st) w = Ok (neighbor, w1) ->
exists st' b w', iteration cooling_rate st w = Ok ((st', b), w').
Proof.
intros Hn. unfold SimulatedAnnealing.iteration.
rewrite (bindM_Ok_eq _ _ _ _ _ Hn).
destruct (sa_accepts_total (fl_sub (Solution.objective_value neighbor)
                              (Solution.objective_value (current st)))
                      (temperature st) w1) as [acc [w' Hacc]].
rewrite (bindM_Ok_eq _ _ _ _ _ Hacc). now eexists; eexists; eexists.
Qed.

Lemma sa_fl_sub_neg x y : fl_ltb x y = true -> fl_ltb (fl_sub x y) (Fin 0) = true.
Proof.
destruct x as [a| | |], y as [b| | |]; simpl; try discriminate; auto.
rewrite !Qltb_lt. intros H. lra.
Qed.

(** A neighbour with a lower objective is accepted, without a random draw. *)
Lemma sa_accepts_lower x y temperature w :
fl_ltb x y = true -> accepts (fl_sub x y) temperature w = Ok (true, w).
Proof.
intros H. unfold SimulatedAnnealing.accepts. rewrite (sa_fl_sub_neg _ _ H). reflexivity.
Qed.

(** A neighbour with a higher finite objective is accepted exactly when
the uniform draw is below [exp(-delta / temperature)]. *)
Lemma sa_accepts_higher n c temperature w :
(c < n)%Q -> (0 < temperature)%Q ->
exists w', accepts (fl_sub (Fin n) (Fin c)) temperature w
         = Ok (Qltb (units w 0%nat) (exp (- (n - c) / temperature)), w').
Proof.
intros Hlt HT. unfold SimulatedAnnealing.accepts. simpl.
assert (E1 : Qltb (n - c) 0 = false) by (apply Qltb_ge; lra).
assert (E2 : Qltb 0 temperature = true) by (apply Qltb_lt; exact HT).
rewrite E1, E2. unfold bindM, random_random. eexists. reflexivity.
Qed.

(** An infeasible neighbour of a feasible solution is rejected: the draw is
never below [exp(-inf) = 0]. *)
Lemma sa_accepts_infeasible c temperature w :
(0 <= units w 0%nat)%Q ->
accepts (fl_sub PInf (Fin c)) temperature w
= if Qltb 0 temperature
then Ok (false, {| ints := ints w; units := fun n => units w (S n);
                   timeouts := timeouts w |})
else Ok (false, w).
Proof.
intros Hu. unfold SimulatedAnnealing.accepts. simpl.
destruct (Qltb 0 temperature); [|reflexivity].
unfold bindM, random_random, ret. simpl.
assert (E : Qltb (units w 0%nat) 0 = false) by (apply Qltb_ge; exact Hu).
rewrite E. reflexivity.
Qed.

(** Every temperature of the schedule but the last is at the floor or
above: the run goes on only from such a temperature. *)
Lemma sa_schedule_floor n temperature cooling_rate :
Forall (fun t => (1 # 100 <= t)%Q) (removelast (cooling_schedule n temperature cooling_rate)).
Proof.
revert temperature. induction n as [|n IH]; intros temperature; simpl; [constructor|].
destruct (Qltb (temperature * cooling_rate) (1 # 100)) eqn:E; [constructor|].
destruct (cooling_schedule n (temperature * cooling_rate) cooling_rate) as [|t r] eqn:Es;
[constructor|].
constructor.
- apply Qltb_ge. exact E.
- rewrite <- Es. apply IH.
Qed.

Lemma sa_iteration_best_le cooling_rate st w st' b w' :
iteration cooling_rate st w = Ok ((st', b), w') ->
fl_le (Solution.objective_value (best_solution st'))
    (Solution.objective_value (best_solution st)).
Proof.
intros H. apply sa_iteration_spec in H.
destruct H as [neighbor [w1 [acc [_ [_ [_ [Hb _]]]]]]]. rewrite Hb.
destruct acc; [apply sa_track_best_le | apply fl_le_refl].
Qed.

(** The best solution changes only to a copy of the accepted neighbour, and
only when that one is strictly better. *)
Lemma sa_iteration_best_replaced cooling_rate st w st' b w' :
iteration cooling_rate st w = Ok ((st', b), w') ->
best_solution st' = best_solution st
\/ (best_solution st' = Solution.copy (current st')
  /\ fl_ltb (Solution.objective_value (best_solution st'))
            (Solution.objective_value (best_solution st)) = true).
Proof.
intros H. apply sa_iteration_spec in H.
destruct H as [neighbor [w1 [acc [_ [_ [Hc [Hb _]]]]]]]. rewrite Hb, Hc.
destruct acc; [|left; reflexivity].
destruct (sa_track_best_spec (best_solution st) neighbor) as [[-> _]|[-> H]]; auto.
Qed.

(** The temperatures along a run follow the cooling schedule. *)
Lemma sa_trace_temperatures cooling_rate n st w st' w' :
for_loop n (iteration cooling_rate) st w = Ok (st', w') ->
map temperature (loop_trace n (iteration cooling_rate) st w)
= cooling_schedule n (temperature st) cooling_rate.
Proof.
revert st w. induction n as [|n IH]; intros st w H; simpl in *; [reflexivity|].
apply bindM_Ok in H. destruct H as [[st1 b] [w1 [H1 H2]]]. rewrite H1.
pose proof (sa_iteration_spec _ _ _ _ _ _ H1) as Hs.
destruct Hs as [neighbor [w2 [acc [_ [_ [_ [_ [HT Hb]]]]]]]].
simpl. rewrite HT. f_equal. rewrite <- Hb. destruct b; [reflexivity|].
rewrite <- HT. now apply IH.
Qed.

End Facts.

End SAFacts.

(** ** Tabu search *)

Module TabuFacts.

Import TabuSearch.

Section Facts.

Variable data : PatientAllocationData.
Variables lambda1 lambda2 : Q.

#[local] Abbreviation iteration := (iteration data lambda1 lambda2).

Lemma tabu_insert_by_Forall {A} (P : A -> Prop) (lt : A -> A -> bool) (x : A) (l : list A) :
P x -> Forall P l -> Forall P (insert_by lt x l).
Proof.
intros Hx Hl. induction Hl as [|y r Hy Hr IH]; simpl.
- constructor; [exact Hx | constructor].
- destruct (lt y x); constructor; auto.
Qed.

Lemma tabu_sort_by_Forall {A} (P : A -> Prop) (lt : A -> A -> bool) (l : list A) :
Forall P l -> Forall P (sort_by lt l).
Proof.
intros Hl. induction Hl as [|y r Hy Hr IH]; simpl; [constructor|].
now apply tabu_insert_by_Forall.
Qed.

(** The scan keeps the state, or moves to a neighbour and tracks the best
solution as simulated annealing does. *)
Lemma tabu_choose_spec tabu_tenure neighbors st :
choose tabu_tenure neighbors st = st
\/ exists neighbor,
   In neighbor neighbors
   /\ current (choose tabu_tenure neighbors st) = neighbor
   /\ best_solution (choose tabu_tenure neighbors st)
      = SimulatedAnnealing.track_best (best_solution st) neighbor.
Proof.
induction neighbors as [|x r IH]; simpl; [left; reflexivity|].
destruct (negb (is_tabu (Solution.allocation x) (tabu_list st))
        || fl_ltb (Solution.objective_value x)
                  (Solution.objective_value (best_solution st))).
- right. exists x. simpl. auto.
- destruct IH as [IH|[n [Hin [Hc Hb]]]]; [left; exact IH|].
right. exists n. auto.
Qed.

Lemma tabu_iteration_spec tabu_tenure st w st' b w' :
iteration tabu_tenure st w = Ok ((st', b), w') ->
exists neighbors, st' = choose tabu_tenure neighbors st /\ b = false.
Proof.
unfold TabuSearch.iteration. intros H.
apply bindM_Ok in H. destruct H as [ns [w1 [Hn H]]].
inversion H; subst; clear H. eexists. split; reflexivity.
Qed.

Lemma tabu_iteration_best_le tabu_tenure st w st' b w' :
iteration tabu_tenure st w = Ok ((st', b), w') ->
fl_le (Solution.objective_value (best_solution st'))
    (Solution.objective_value (best_solution st)).
Proof.
intros H. apply tabu_iteration_spec in H. destruct H as [ns [-> _]].
destruct (tabu_choose_spec tabu_tenure ns st) as [->|[n [_ [_ ->]]]];
[apply fl_le_refl | apply SAFacts.sa_track_best_le].
Qed.

Lemma tabu_iteration_best_replaced tabu_tenure st w st' b w' :
iteration tabu_tenure st w = Ok ((st', b), w') ->
best_solution st' = best_solution st
\/ (best_solution st' = Solution.copy (current st')
  /\ fl_ltb (Solution.objective_value (best_solution st'))
            (Solution.objective_value (best_solution st)) = true).
Proof.
intros H. apply tabu_iteration_spec in H. destruct H as [ns [-> _]].
destruct (tabu_choose_spec tabu_tenure ns st) as [->|[n [_ [Hc ->]]]]; [left; reflexivity|].
rewrite Hc.
destruct (SAFacts.sa_track_best_spec (best_solution st) n) as [[-> _]|[-> H]]; auto.
Qed.

End Facts.

End TabuFacts.

(** ** The recorded best objective *)

Lemma Qge_trans (S : Type) (f : S -> Q) (a b c : S) :
  (f b <= f a)%Q -> (f c <= f b)%Q -> (f c <= f a)%Q.
Proof. intros H1 H2. exact (Qle_trans _ _ _ H2 H1). Qed.

(** Claim C3.  In a run of simulated annealing, tabu search, ILS or VNS,
    started in any state, the best objective at the end of each pass is at
    most the best objective at the end of every earlier pass; and a pass
    replaces the best solution only by a candidate whose objective is
    strictly lower. *)
Theorem best_objective_nonincreasing :
  (forall data lambda1 lambda2 exp cooling_rate n st w,
      StronglySorted
        (fun a b => fl_le (Solution.objective_value (SimulatedAnnealing.best_solution b))
                          (Solution.objective_value (SimulatedAnnealing.best_solution a)))
        (st :: loop_trace n (SimulatedAnnealing.iteration data lambda1 lambda2 exp cooling_rate)
                          st w)
      /\ forall st' b w',
           SimulatedAnnealing.iteration data lambda1 lambda2 exp cooling_rate st w
           = Ok ((st', b), w') ->
           SimulatedAnnealing.best_solution st' = SimulatedAnnealing.best_solution st
           \/ (SimulatedAnnealing.best_solution st'
               = Solution.copy (SimulatedAnnealing.current st')
               /\ fl_ltb (Solution.objective_value (SimulatedAnnealing.best_solution st'))
                         (Solution.objective_value (SimulatedAnnealing.best_solution st))
                  = true))
  /\ (forall data lambda1 lambda2 tabu_tenure n st w,
         StronglySorted
           (fun a b => fl_le (Solution.objective_value (TabuSearch.best_solution b))
                             (Solution.objective_value (TabuSearch.best_solution a)))
           (st :: loop_trace n (TabuSearch.iteration data lambda1 lambda2 tabu_tenure) st w)
         /\ forall st' b w',
              TabuSearch.iteration data lambda1 lambda2 tabu_tenure st w = Ok ((st', b), w') ->
              TabuSearch.best_solution st' = TabuSearch.best_solution st
              \/ (TabuSearch.best_solution st' = Solution.copy (TabuSearch.current st')
                  /\ fl_ltb (Solution.objective_value (TabuSearch.best_solution st'))
                            (Solution.objective_value (TabuSearch.best_solution st))
                     = true))
  /\ (forall data lambda1 lambda2 penalty_weight n st w,
         StronglySorted
           (fun a b => (IteratedLocalSearch.best_feasible_value b
                        <= IteratedLocalSearch.best_feasible_value a)%Q)
           (st :: loop_trace n (IteratedLocalSearch.iteration data lambda1 lambda2 penalty_weight)
                             st w)
         /\ forall st' b w',
              IteratedLocalSearch.iteration data lambda1 lambda2 penalty_weight st w
              = Ok ((st', b), w') ->
              IteratedLocalSearch.best_step data lambda1 lambda2 st st')
  /\ (forall data lambda1 lambda2 penalty_weight n st w,
         StronglySorted
           (fun a b => (VariableNeighborhoodSearch.best_feasible_value b
                        <= VariableNeighborhoodSearch.best_feasible_value a)%Q)
           (st :: loop_trace n
                    (VariableNeighborhoodSearch.iteration data lambda1 lambda2 penalty_weight)
                    st w)
         /\ forall st' b w',
              VariableNeighborhoodSearch.iteration data lambda1 lambda2 penalty_weight st w
              = Ok ((st', b), w') ->
              VariableNeighborhoodSearch.best_step data lambda1 lambda2 st st').
Proof.
  split; [|split; [|split]].
  - intros data lambda1 lambda2 exp cooling_rate n st w. split.
    + apply loop_trace_sorted.
      * intros a b c H1 H2. exact (fl_le_trans _ _ _ H2 H1).
      * intros s w0 s' b w' H. exact (SAFacts.sa_iteration_best_le _ _ _ _ _ _ _ _ _ _ H).
    + intros st' b w' H. exact (SAFacts.sa_iteration_best_replaced _ _ _ _ _ _ _ _ _ _ H).
  - intros data lambda1 lambda2 tabu_tenure n st w. split.
    + apply loop_trace_sorted.
      * intros a b c H1 H2. exact (fl_le_trans _ _ _ H2 H1).
      * intros s w0 s' b w' H. exact (TabuFacts.tabu_iteration_best_le _ _ _ _ _ _ _ _ _ H).
    + intros st' b w' H. exact (TabuFacts.tabu_iteration_best_replaced _ _ _ _ _ _ _ _ _ H).
  - intros data lambda1 lambda2 penalty_weight n st w. split.
    + apply loop_trace_sorted.
      * intros a b c. apply Qge_trans.
      * intros s w0 s' b w' H. exact (ILSFacts.ils_iteration_best_value _ _ _ _ _ _ _ _ _ H).
    + intros st' b w' H. exact (ILSFacts.ils_iteration_best_step _ _ _ _ _ _ _ _ _ H).
  - intros data lambda1 lambda2 penalty_weight n st w. split.
    + apply loop_trace_sorted.
      * intros a b c. apply Qge_trans.
      * intros s w0 s' b w' H. exact (VNSFacts.vns_iteration_best_value _ _ _ _ _ _ _ _ _ H).
    + intros st' b w' H. exact (VNSFacts.vns_iteration_best_step _ _ _ _ _ _ _ _ _ H).
Qed.

Lemma best_objective_nonincreasing_witness :
  exists st0 st1 w',
    VariableNeighborhoodSearch.initial_state demo_data (1 # 2) (1 # 2) demo_start = Ok st0
    /\ VariableNeighborhoodSearch.iteration demo_data (1 # 2) (1 # 2) 1000 st0 world0
       = Ok ((st1, false), w')
    /\ VariableNeighborhoodSearch.best_step demo_data (1 # 2) (1 # 2) st0 st1.
Proof.
  eexists. eexists. eexists. split; [vm_compute; reflexivity|].
  match goal with |- ?A /\ _ => assert (H : A) by (vm_compute; reflexivity) end.
  split; [exact H|].
  exact (proj2 (proj2 (proj2 (proj2 best_objective_nonincreasing))
                  demo_data (1 # 2) (1 # 2) 1000%Q 0%nat _ world0) _ _ _ H).
Defined.

(** ** The published best allocation *)

Lemma ils_solve_spec data lambda1 lambda2 penalty_weight start n w r w' :
  IteratedLocalSearch.solve data lambda1 lambda2 penalty_weight start n w = Ok (r, w') ->
  exists st0 st,
    IteratedLocalSearch.initial_state data lambda1 lambda2 start = Ok st0
    /\ for_loop n (IteratedLocalSearch.iteration data lambda1 lambda2 penalty_weight) st0 w
       = Ok (st, w')
    /\ r = IteratedLocalSearch.result_of st.
Proof.
  unfold IteratedLocalSearch.solve. intros H.
  apply bindM_Ok in H. destruct H as [st0 [w1 [H0 H]]].
  apply liftR_Ok in H0. destruct H0 as [H0 ->].
  apply bindM_Ok in H. destruct H as [st [w2 [Hl H]]].
  inversion H; subst. exists st0, st. auto.
Qed.

Lemma vns_solve_spec data lambda1 lambda2 penalty_weight start n w r w' :
  VariableNeighborhoodSearch.solve data lambda1 lambda2 penalty_weight start n w = Ok (r, w') ->
  exists st0 st,
    VariableNeighborhoodSearch.initial_state data lambda1 lambda2 start = Ok st0
    /\ for_loop n (VariableNeighborhoodSearch.iteration data lambda1 lambda2 penalty_weight)
         st0 w = Ok (st, w')
    /\ r = VariableNeighborhoodSearch.result_of st.
Proof.
  unfold VariableNeighborhoodSearch.solve. intros H.
  apply bindM_Ok in H. destruct H as [st0 [w1 [H0 H]]].
  apply liftR_Ok in H0. destruct H0 as [H0 ->].
  apply bindM_Ok in H. destruct H as [st [w2 [Hl H]]].
  inversion H; subst. exists st0, st. auto.
Qed.

(** Claim C4.  From a capacity-feasible seed, the stored best allocation of
    ILS and of VNS is capacity-feasible at the start and at the end of every
    pass, and so is the allocation that [solve] returns; the working
    allocation can violate the capacity meanwhile (the last conjunct is a
    run of ILS in which it does). *)
Theorem published_best_is_feasible :
  (forall data lambda1 lambda2 penalty_weight start st0 n w,
      IteratedLocalSearch.initial_state data lambda1 lambda2 start = Ok st0 ->
      Forall (IteratedLocalSearch.best_is_feasible data)
             (st0 :: loop_trace n (IteratedLocalSearch.iteration data lambda1 lambda2
                                     penalty_weight) st0 w))
  /\ (forall data lambda1 lambda2 penalty_weight start n w r w',
         IteratedLocalSearch.solve data lambda1 lambda2 penalty_weight start n w = Ok (r, w') ->
         feasible_after_change_beds data (r_allocation r) None = Ok true)
  /\ (forall data lambda1 lambda2 penalty_weight start st0 n w,
         VariableNeighborhoodSearch.initial_state data lambda1 lambda2 start = Ok st0 ->
         Forall (VariableNeighborhoodSearch.best_is_feasible data)
                (st0 :: loop_trace n (VariableNeighborhoodSearch.iteration data lambda1 lambda2
                                        penalty_weight) st0 w))
  /\ (forall data lambda1 lambda2 penalty_weight start n w r w',
         VariableNeighborhoodSearch.solve data lambda1 lambda2 penalty_weight start n w
         = Ok (r, w') ->
         feasible_after_change_beds data (r_allocation r) None = Ok true)
  /\ (exists st0 st,
         IteratedLocalSearch.initial_state soft_data default_lambda default_lambda soft_start
         = Ok st0
         /\ In st (loop_trace 1 (IteratedLocalSearch.iteration soft_data default_lambda
                                   default_lambda default_penalty_weight) st0 world0)
         /\ feasible_after_change_beds soft_data (IteratedLocalSearch.current st) None
            = Ok false
         /\ feasible_after_change_beds soft_data
              (IteratedLocalSearch.best_feasible_allocation st) None = Ok true).
Proof.
  split; [|split; [|split; [|split]]].
  - intros data lambda1 lambda2 penalty_weight start st0 n w H0.
    assert (Hst0 : IteratedLocalSearch.best_is_feasible data st0).
    { apply ILSFacts.ils_initial_state_spec in H0. destruct H0 as [Hf [_ [Hb _]]].
      unfold IteratedLocalSearch.best_is_feasible. rewrite Hb. exact Hf. }
    constructor; [exact Hst0|].
    apply loop_trace_invariant; [|exact Hst0].
    intros s w0 s' b w' Hs H. exact (ILSFacts.ils_iteration_best_feasible _ _ _ _ _ _ _ _ _ Hs H).
  - intros data lambda1 lambda2 penalty_weight start n w r w' H.
    apply ils_solve_spec in H. destruct H as [st0 [st [H0 [Hl ->]]]]. simpl.
    apply (for_loop_invariant (IteratedLocalSearch.best_is_feasible data)) in Hl; [exact Hl| |].
    + intros s w0 s' b w1 Hs Hi.
      exact (ILSFacts.ils_iteration_best_feasible _ _ _ _ _ _ _ _ _ Hs Hi).
    + apply ILSFacts.ils_initial_state_spec in H0. destruct H0 as [Hf [_ [Hb _]]].
      unfold IteratedLocalSearch.best_is_feasible. rewrite Hb. exact Hf.
  - intros data lambda1 lambda2 penalty_weight start st0 n w H0.
    assert (Hst0 : VariableNeighborhoodSearch.best_is_feasible data st0).
    { apply VNSFacts.vns_initial_state_spec in H0. destruct H0 as [Hf [_ [Hb _]]].
      unfold VariableNeighborhoodSearch.best_is_feasible. rewrite Hb. exact Hf. }
    constructor; [exact Hst0|].
    apply loop_trace_invariant; [|exact Hst0].
    intros s w0 s' b w' Hs H. exact (VNSFacts.vns_iteration_best_feasible _ _ _ _ _ _ _ _ _ Hs H).
  - intros data lambda1 lambda2 penalty_weight start n w r w' H.
    apply vns_solve_spec in H. destruct H as [st0 [st [H0 [Hl ->]]]]. simpl.
    apply (for_loop_invariant (VariableNeighborhoodSearch.best_is_feasible data)) in Hl;
      [exact Hl| |].
    + intros s w0 s' b w1 Hs Hi.
      exact (VNSFacts.vns_iteration_best_feasible _ _ _ _ _ _ _ _ _ Hs Hi).
    + apply VNSFacts.vns_initial_state_spec in H0. destruct H0 as [Hf [_ [Hb _]]].
      unfold VariableNeighborhoodSearch.best_is_feasible. rewrite Hb. exact Hf.
  - eexists. eexists. split; [vm_compute; reflexivity|].
    split; [vm_compute; left; reflexivity|]. split; vm_compute; reflexivity.
Qed.

Lemma published_best_is_feasible_witness :
  exists r w',
    IteratedLocalSearch.solve soft_data default_lambda default_lambda default_penalty_weight
      soft_start 3 world0 = Ok (r, w')
    /\ feasible_after_change_beds soft_data (r_allocation r) None = Ok true.
Proof.
  eexists. eexists.
  match goal with |- ?A /\ _ => assert (H : A) by (vm_compute; reflexivity) end.
  split; [exact H|].
  exact (proj1 (proj2 published_best_is_feasible) _ _ _ _ _ _ _ _ _ H).
Defined.

(** Claim C5.  When the seed fails the capacity check, [solve] of ILS and of
    VNS raises [ValueError] while it builds its initial state, whatever the
    iteration cap, the random draws and the clock: no pass of the search
    loop runs and nothing is returned. *)
Theorem infeasible_seed_rejected data lambda1 lambda2 penalty_weight start n w :
  feasible_after_change_beds data start None = Ok false ->
  IteratedLocalSearch.initial_state data lambda1 lambda2 start = Raise ValueError
  /\ IteratedLocalSearch.solve data lambda1 lambda2 penalty_weight start n w = Raise ValueError
  /\ VariableNeighborhoodSearch.initial_state data lambda1 lambda2 start = Raise ValueError
  /\ VariableNeighborhoodSearch.solve data lambda1 lambda2 penalty_weight start n w
     = Raise ValueError.
Proof.
  intros H.
  assert (H1 : IteratedLocalSearch.initial_state data lambda1 lambda2 start = Raise ValueError).
  { unfold IteratedLocalSearch.initial_state. rewrite H. reflexivity. }
  assert (H2 : VariableNeighborhoodSearch.initial_state data lambda1 lambda2 start
               = Raise ValueError).
  { unfold VariableNeighborhoodSearch.initial_state. rewrite H. reflexivity. }
  split; [exact H1|]. split.
  { unfold IteratedLocalSearch.solve, bindM, liftR. rewrite H1. reflexivity. }
  split; [exact H2|].
  unfold VariableNeighborhoodSearch.solve, bindM, liftR. rewrite H2. reflexivity.
Qed.

Lemma infeasible_seed_rejected_witness :
  feasible_after_change_beds scenario_data scenario_crowded None = Ok false
  /\ IteratedLocalSearch.solve scenario_data default_lambda default_lambda
       default_penalty_weight scenario_crowded 50 world0 = Raise ValueError
  /\ VariableNeighborhoodSearch.solve scenario_data default_lambda default_lambda
       default_penalty_weight scenario_crowded 100 world0 = Raise ValueError.
Proof.
  split; [reflexivity|].
  pose proof (infeasible_seed_rejected scenario_data default_lambda default_lambda
                default_penalty_weight scenario_crowded) as H.
  split.
  - exact (proj1 (proj2 (H 50%nat world0 eq_refl))).
  - exact (proj2 (proj2 (proj2 (H 100%nat world0 eq_refl)))).
Defined.

(** ** The neighbourhood index of VNS *)

(** Claim C7, as the code has it.  In a run of VNS from a feasible seed,
    at the start of every pass [1 <= k <= K_MAX] and the allocation that is
    shaken is the best allocation; a pass that does not time out shakes it
    with the neighbourhood [k] and runs the local search; when the result is
    capacity-feasible and its objective is below the best one by more than
    the tolerance [1e-9], it becomes the best and the current allocation and
    [k] is 1; otherwise both allocations stay and [k] grows by one, wrapping
    to 1 past [K_MAX]. *)
Theorem vns_neighbourhood_index :
  (forall data lambda1 lambda2 penalty_weight start st0 n w,
      VariableNeighborhoodSearch.initial_state data lambda1 lambda2 start = Ok st0 ->
      Forall VariableNeighborhoodSearch.shake_ready
             (st0 :: loop_trace n (VariableNeighborhoodSearch.iteration data lambda1 lambda2
                                     penalty_weight) st0 w))
  /\ (forall data lambda1 lambda2 penalty_weight st w st' w',
         VariableNeighborhoodSearch.iteration data lambda1 lambda2 penalty_weight st w
         = Ok ((st', false), w') ->
         exists shaken sol pen w1 w2,
           VariableNeighborhoodSearch._shake data
             (VariableNeighborhoodSearch.current st) (VariableNeighborhoodSearch.k st) w1
           = Ok (shaken, w2)
           /\ VariableNeighborhoodSearch._local_search_fast data lambda1 lambda2 penalty_weight
                shaken w2 = Ok ((sol, pen), w')
           /\ ((exists v,
                   VariableNeighborhoodSearch.adopted data lambda1 lambda2 st sol v
                   /\ VariableNeighborhoodSearch.k st' = 1
                   /\ VariableNeighborhoodSearch.current st' = sol
                   /\ VariableNeighborhoodSearch.best_feasible_allocation st' = sol
                   /\ VariableNeighborhoodSearch.best_feasible_value st' = v)
               \/ ((forall v, ~ VariableNeighborhoodSearch.adopted data lambda1 lambda2 st sol v)
                   /\ VariableNeighborhoodSearch.k st'
                      = (if VariableNeighborhoodSearch.K_MAX
                            <? VariableNeighborhoodSearch.k st + 1
                         then 1 else VariableNeighborhoodSearch.k st + 1)
                   /\ VariableNeighborhoodSearch.current st'
                      = VariableNeighborhoodSearch.current st
                   /\ VariableNeighborhoodSearch.best_feasible_allocation st'
                      = VariableNeighborhoodSearch.best_feasible_allocation st
                   /\ VariableNeighborhoodSearch.best_feasible_value st'
                      = VariableNeighborhoodSearch.best_feasible_value st))).
Proof.
  split.
  - intros data lambda1 lambda2 penalty_weight start st0 n w H0.
    assert (Hst0 : VariableNeighborhoodSearch.shake_ready st0).
    { apply VNSFacts.vns_initial_state_spec in H0. destruct H0 as [_ [Hc [Hb [_ Hk]]]].
      split; [rewrite Hk; unfold VariableNeighborhoodSearch.K_MAX; lia | congruence]. }
    constructor; [exact Hst0|].
    apply loop_trace_invariant; [|exact Hst0].
    intros s w0 s' b w' Hs H. exact (VNSFacts.vns_iteration_shake_ready _ _ _ _ _ _ _ _ _ Hs H).
  - intros data lambda1 lambda2 penalty_weight st w st' w' H.
    exact (VNSFacts.vns_iteration_k _ _ _ _ _ _ _ _ H).
Qed.

Lemma vns_neighbourhood_index_witness :
  exists st0,
    VariableNeighborhoodSearch.initial_state demo_data default_lambda default_lambda demo_start
    = Ok st0
    /\ Forall VariableNeighborhoodSearch.shake_ready
              (st0 :: loop_trace 6 (VariableNeighborhoodSearch.iteration demo_data
                                      default_lambda default_lambda default_penalty_weight)
                                 st0 world0).
Proof.
  eexists.
  match goal with |- ?A /\ _ => assert (H : A) by (vm_compute; reflexivity) end.
  split; [exact H|].
  exact (proj1 vns_neighbourhood_index _ _ _ default_penalty_weight _ _ 6%nat world0 H).
Defined.

(** The claim C7 as it is worded fails: on [tolerance_data] the first pass
    of VNS shakes the seed into an allocation that the local search returns
    unchanged, that is capacity-feasible and whose objective is strictly
    below the best one (by [5e-10]); the pass does not adopt it and moves
    [k] from 1 to 2. *)
Lemma vns_reset_needs_margin :
  exists st0 w1 shaken w2 sol pen w' v st1,
    VariableNeighborhoodSearch.initial_state tolerance_data default_lambda default_lambda
      tolerance_start = Ok st0
    /\ time_exceeded world1 = Ok (false, w1)
    /\ VariableNeighborhoodSearch._shake tolerance_data
         (VariableNeighborhoodSearch.current st0) (VariableNeighborhoodSearch.k st0) w1
       = Ok (shaken, w2)
    /\ VariableNeighborhoodSearch._local_search_fast tolerance_data default_lambda
         default_lambda default_penalty_weight shaken w2 = Ok ((sol, pen), w')
    /\ feasible_after_change_beds tolerance_data sol None = Ok true
    /\ objective_value tolerance_data sol default_lambda default_lambda = Ok v
    /\ (v < VariableNeighborhoodSearch.best_feasible_value st0)%Q
    /\ VariableNeighborhoodSearch.iteration tolerance_data default_lambda default_lambda
         default_penalty_weight st0 world1 = Ok ((st1, false), w')
    /\ VariableNeighborhoodSearch.k st0 = 1
    /\ VariableNeighborhoodSearch.k st1 = 2
    /\ VariableNeighborhoodSearch.best_feasible_allocation st1 = tolerance_start
    /\ sol = tolerance_better.
Proof.
  do 9 eexists.
  repeat (split; [vm_compute; reflexivity|]). vm_compute. reflexivity.
Qed.

(** ** The perturbation of ILS *)

(** Claim C8, where the code departs from it.  In every run of ILS from a
    feasible seed the stagnation counter is below [STAGNATION_LIMIT] at the
    start of every pass, so every perturbation is made with the counter at
    the limit and the intensity 0.2: the intensity does not grow with
    repeated stagnation, the cap 0.25 is never reached and the early stop is
    never taken.  The perturbation itself starts from the best allocation.
    The last conjunct is a run of 45 passes with two perturbations. *)
Theorem perturbation_intensity_is_constant :
  (forall data lambda1 lambda2 penalty_weight start st0 n w,
      IteratedLocalSearch.initial_state data lambda1 lambda2 start = Ok st0 ->
      Forall IteratedLocalSearch.steady
             (st0 :: loop_trace n (IteratedLocalSearch.iteration data lambda1 lambda2
                                     penalty_weight) st0 w))
  /\ (forall data st w st' w',
         IteratedLocalSearch.stagnation data st w = Ok (st', w') ->
         IteratedLocalSearch.STAGNATION_LIMIT <= IteratedLocalSearch.no_improve_counter st ->
         IteratedLocalSearch._perturbation_mixed data
           (IteratedLocalSearch.best_feasible_allocation st)
           (IteratedLocalSearch.perturbation_intensity
              (IteratedLocalSearch.no_improve_counter st)) w
         = Ok (IteratedLocalSearch.current st', w'))
  /\ (exists st0 st w',
         IteratedLocalSearch.initial_state tolerance_data default_lambda default_lambda
           tolerance_start = Ok st0
         /\ for_loop 45 (IteratedLocalSearch.iteration tolerance_data default_lambda
                           default_lambda default_penalty_weight) st0 world1 = Ok (st, w')
         /\ IteratedLocalSearch.output st = [Perturbazione (40 # 200); Perturbazione (40 # 200)]).
Proof.
  split; [|split].
  - intros data lambda1 lambda2 penalty_weight start st0 n w H0.
    pose proof (ILSFacts.ils_initial_state_steady _ _ _ _ _ H0) as Hst0.
    constructor; [exact Hst0|].
    apply loop_trace_invariant; [|exact Hst0].
    intros s w0 s' b w' Hs H. exact (ILSFacts.ils_iteration_steady _ _ _ _ _ _ _ _ _ Hs H).
  - intros data st w st' w' H Hle.
    apply ILSFacts.ils_stagnation_spec in H. destruct H as [_ [_ [[Hlt _]|[_ [_ [_ H]]]]]].
    + lia.
    + exact H.
  - do 3 eexists. split; [vm_compute; reflexivity|].
    split; [vm_compute; reflexivity | reflexivity].
Qed.

Lemma perturbation_intensity_is_constant_witness :
  exists st0,
    IteratedLocalSearch.initial_state tolerance_data default_lambda default_lambda
      tolerance_start = Ok st0
    /\ Forall IteratedLocalSearch.steady
              (st0 :: loop_trace 45 (IteratedLocalSearch.iteration tolerance_data
                                       default_lambda default_lambda default_penalty_weight)
                                 st0 world1).
Proof.
  eexists.
  match goal with |- ?A /\ _ => assert (H : A) by (vm_compute; reflexivity) end.
  split; [exact H|].
  exact (proj1 perturbation_intensity_is_constant _ _ _ default_penalty_weight _ _
           45%nat world1 H).
Defined.

(** ** Acceptance and cooling in simulated annealing *)

(** Claim C6.  A pass of simulated annealing whose neighbour is generated
    accepts the neighbour when its objective is lower; when both objectives
    are finite, the neighbour's is higher by [delta] and the temperature is
    positive, it accepts exactly when the uniform draw of [random.random()]
    is below [exp(-delta / temperature)]; an infeasible neighbour (objective
    [inf]) of a feasible solution is never accepted; it multiplies the
    temperature by
    the cooling rate and requests the stop when the new temperature is below
    0.01.  Along a run the temperatures are those of the cooling schedule:
    one multiplication per pass, and no pass after the first temperature
    below the floor, so every pass but the first starts at 0.01 or more. *)
Theorem annealing_acceptance_and_cooling :
  (forall data lambda1 lambda2 exp cooling_rate st w neighbor w1,
      SimulatedAnnealing._get_neighbor data lambda1 lambda2 (SimulatedAnnealing.current st) w
      = Ok (neighbor, w1) ->
      exists st' b w',
        SimulatedAnnealing.iteration data lambda1 lambda2 exp cooling_rate st w
        = Ok ((st', b), w')
        /\ (fl_ltb (Solution.objective_value neighbor)
                   (Solution.objective_value (SimulatedAnnealing.current st)) = true ->
            SimulatedAnnealing.current st' = neighbor)
        /\ (forall nv cv,
               Solution.objective_value neighbor = Fin nv ->
               Solution.objective_value (SimulatedAnnealing.current st) = Fin cv ->
               (cv < nv)%Q -> (0 < SimulatedAnnealing.temperature st)%Q ->
               SimulatedAnnealing.current st'
               = if Qltb (units w1 0%nat)
                         (exp (- (nv - cv) / SimulatedAnnealing.temperature st)%Q)
                 then neighbor else SimulatedAnnealing.current st)
        /\ (forall cv,
               Solution.objective_value neighbor = PInf ->
               Solution.objective_value (SimulatedAnnealing.current st) = Fin cv ->
               (0 <= units w1 0%nat)%Q ->
               SimulatedAnnealing.current st' = SimulatedAnnealing.current st)
        /\ SimulatedAnnealing.temperature st'
           = (SimulatedAnnealing.temperature st * cooling_rate)%Q
        /\ b = Qltb (SimulatedAnnealing.temperature st * cooling_rate) (1 # 100))
  /\ (forall data lambda1 lambda2 exp cooling_rate n st w st' w',
         for_loop n (SimulatedAnnealing.iteration data lambda1 lambda2 exp cooling_rate) st w
         = Ok (st', w') ->
         map SimulatedAnnealing.temperature
             (loop_trace n (SimulatedAnnealing.iteration data lambda1 lambda2 exp cooling_rate)
                         st w)
         = SimulatedAnnealing.cooling_schedule n (SimulatedAnnealing.temperature st)
             cooling_rate)
  /\ (forall n temperature cooling_rate,
         Forall (fun t => (1 # 100 <= t)%Q)
                (removelast (SimulatedAnnealing.cooling_schedule n temperature cooling_rate))).
Proof.
  split; [|split].
  - intros data lambda1 lambda2 exp cooling_rate st w neighbor w1 Hn.
    destruct (SAFacts.sa_iteration_total data lambda1 lambda2 exp cooling_rate st w neighbor w1 Hn)
      as [st' [b [w' Hi]]].
    exists st', b, w'. split; [exact Hi|].
    apply SAFacts.sa_iteration_spec in Hi.
    destruct Hi as [neighbor' [w1' [acc [Hn' [Hacc [Hc [_ [HT Hb]]]]]]]].
    assert (neighbor' = neighbor /\ w1' = w1) as [-> ->] by (split; congruence).
    split; [|split; [|split; [|split; assumption]]].
    + intros Hlt. rewrite (SAFacts.sa_accepts_lower exp _ _ _ w1 Hlt) in Hacc.
      inversion Hacc; subst. exact Hc.
    + intros nv cv Hnv Hcv Hlt HT0. rewrite Hnv, Hcv in Hacc.
      destruct (SAFacts.sa_accepts_higher exp nv cv _ w1 Hlt HT0) as [w2 Hacc'].
      rewrite Hacc' in Hacc. inversion Hacc; subst. exact Hc.
    + intros cv Hnv Hcv Hu. rewrite Hnv, Hcv in Hacc.
      rewrite (SAFacts.sa_accepts_infeasible exp cv _ w1 Hu) in Hacc.
      destruct (Qltb 0 (SimulatedAnnealing.temperature st));
        inversion Hacc; subst; exact Hc.
  - intros data lambda1 lambda2 exp cooling_rate n st w st' w' H.
    exact (SAFacts.sa_trace_temperatures _ _ _ _ _ _ _ _ _ _ H).
  - intros n temperature cooling_rate. apply SAFacts.sa_schedule_floor.
Qed.

Lemma annealing_acceptance_and_cooling_witness :
  exists st0,
    SimulatedAnnealing.initial_state demo_data default_lambda default_lambda 1 = Ok st0
    /\ (exists neighbor w1,
           SimulatedAnnealing._get_neighbor demo_data default_lambda default_lambda
             (SimulatedAnnealing.current st0) world0 = Ok (neighbor, w1)
           /\ exists st' b w',
                SimulatedAnnealing.iteration demo_data default_lambda default_lambda exp_half
                  (1 # 2) st0 world0 = Ok ((st', b), w')
                /\ SimulatedAnnealing.temperature st'
                   = (SimulatedAnnealing.temperature st0 * (1 # 2))%Q)
    /\ (exists st w',
           for_loop 10 (SimulatedAnnealing.iteration demo_data default_lambda default_lambda
                          exp_half (1 # 2)) st0 world0 = Ok (st, w')
           /\ map SimulatedAnnealing.temperature
                  (loop_trace 10 (SimulatedAnnealing.iteration demo_data default_lambda
                                    default_lambda exp_half (1 # 2)) st0 world0)
              = SimulatedAnnealing.cooling_schedule 10 (SimulatedAnnealing.temperature st0)
                  (1 # 2)).
Proof.
  eexists. split; [vm_compute; reflexivity|]. split.
  - do 2 eexists.
    match goal with |- ?A /\ _ => assert (H : A) by (vm_compute; reflexivity) end.
    split; [exact H|].
    destruct (proj1 annealing_acceptance_and_cooling _ _ _ exp_half (1 # 2)%Q _ _ _ _ H)
      as [st' [b [w' [Hi [_ [_ [_ [HT _]]]]]]]].
    exists st', b, w'. split; [exact Hi | exact HT].
  - do 2 eexists.
    match goal with |- ?A /\ _ => assert (H : A) by (vm_compute; reflexivity) end.
    split; [exact H|].
    exact (proj1 (proj2 annealing_acceptance_and_cooling) _ _ _ _ _ _ _ _ _ _ H).
Defined.

(** ** Rounding to nearest in binary64

    The operations of the primitive floats are specified by the functions of
    [SpecFloat] on mantissas and exponents.  The lemmas below relate the
    rounding of [SpecFloat] to the rounding [F64.rne] of integers, which is
    monotone, and so the order of floats to the order of their keys. *)

Lemma digits2_pos_log2 (m : positive) : Zpos (digits2_pos m) = Z.log2 (Zpos m) + 1.
Proof.
  induction m as [m IH|m IH|]; cbn [digits2_pos].
  - rewrite Pos2Z.inj_succ, IH. change (Zpos m~1) with (2 * Zpos m + 1).
    rewrite Z.log2_succ_double by lia. lia.
  - rewrite Pos2Z.inj_succ, IH. change (Zpos m~0) with (2 * Zpos m).
    rewrite Z.log2_double by lia. lia.
  - reflexivity.
Qed.

Lemma log2_digits (V d : Z) : 0 < V -> (Z.log2 V + 1 = d <-> 2 ^ (d - 1) <= V < 2 ^ d).
Proof.
  intros HV. split.
  - intros <-. pose proof (Z.log2_spec V HV) as H.
    replace (Z.log2 V + 1 - 1) with (Z.log2 V) by lia.
    replace (Z.log2 V + 1) with (Z.succ (Z.log2 V)) by lia. exact H.
  - intros H.
    assert (Hd : 0 <= d - 1).
    { destruct (Z.lt_ge_cases (d - 1) 0) as [Hn|]; [|assumption].
      assert (2 ^ d <= 1).
      { destruct (Z.eq_dec d 0) as [->|]; [simpl; lia|].
        rewrite Z.pow_neg_r by lia. lia. }
      lia. }
    assert (Z.log2 V = d - 1); [|lia].
    apply Z.log2_unique; [exact Hd|]. replace (Z.succ (d - 1)) with d by lia. exact H.
Qed.

Lemma iter_xO (d m : positive) : Zpos (Pos.iter xO m d) = Zpos m * 2 ^ Zpos d.
Proof.
  induction d as [|d IH] using Pos.peano_ind.
  - cbn [Pos.iter]. rewrite Pos2Z.inj_xO. change (2 ^ 1) with 2. lia.
  - rewrite Pos.iter_succ, Pos2Z.inj_xO, IH, Pos2Z.inj_succ, Z.pow_succ_r by lia. lia.
Qed.

Lemma shl_align_spec (mx : positive) (ex ex' : Z) :
  (ex' <= ex ->
   Zpos (fst (shl_align mx ex ex')) = Zpos mx * 2 ^ (ex - ex') /\ snd (shl_align mx ex ex') = ex')
  /\ (ex <= ex' -> shl_align mx ex ex' = (mx, ex)).
Proof.
  unfold shl_align. split; intros H.
  - destruct (ex' - ex) as [|p|p] eqn:E; cbn [fst snd].
    + assert (ex' = ex) by lia. subst. rewrite Z.sub_diag. simpl. lia.
    + lia.
    + rewrite iter_xO. replace (ex - ex') with (Zpos p) by lia. auto.
  - destruct (ex' - ex) as [|p|p] eqn:E; [reflexivity|reflexivity|lia].
Qed.

Lemma iter_pos_nat {A} (f : A -> A) (p : positive) (x : A) :
  SpecFloat.iter_pos f p x = Nat.iter (Pos.to_nat p) f x.
Proof.
  revert x. induction p as [p IH|p IH|]; intros x; cbn [SpecFloat.iter_pos].
  - rewrite !IH. rewrite Pos2Nat.inj_xI.
    replace (S (2 * Pos.to_nat p)) with (Pos.to_nat p + (Pos.to_nat p + 1))%nat by lia.
    rewrite !Nat.iter_add. reflexivity.
  - rewrite !IH. rewrite Pos2Nat.inj_xO.
    replace (2 * Pos.to_nat p)%nat with (Pos.to_nat p + Pos.to_nat p)%nat by lia.
    rewrite Nat.iter_add. reflexivity.
  - reflexivity.
Qed.

Lemma shr_1_spec (m : Z) (r s : bool) :
  0 <= m ->
  shr_1 {| shr_m := m; shr_r := r; shr_s := s |}
  = {| shr_m := m / 2; shr_r := Z.odd m; shr_s := r || s |}.
Proof.
  intros Hm. unfold shr_1.
  destruct m as [|p|p]; [reflexivity| |lia].
  destruct p as [p|p|].
  - assert (E : Zpos p~1 / 2 = Zpos p)
      by (symmetry; apply Z.div_unique with (r := 1); lia).
    rewrite E. reflexivity.
  - assert (E : Zpos p~0 / 2 = Zpos p)
      by (symmetry; apply Z.div_unique with (r := 0); lia).
    rewrite E. reflexivity.
  - reflexivity.
Qed.

Lemma shr_steps (m0 : Z) (n : nat) :
  0 <= m0 ->
  F64.shr_inv m0 n (Nat.iter n shr_1 {| shr_m := m0; shr_r := false; shr_s := false |}).
Proof.
  intros H0. induction n as [|n IH].
  - exists 0. cbn. repeat split; try lia.
  - rewrite Nat.iter_succ. destruct IH as [rem [Hm [He [Hr [Hrs _]]]]].
    destruct (Nat.iter n shr_1 {| shr_m := m0; shr_r := false; shr_s := false |})
      as [m r s]. cbn [shr_m shr_r shr_s] in *.
    rewrite (shr_1_spec m r s Hm).
    set (b := Z.odd m).
    assert (Hb : m = 2 * (m / 2) + (if b then 1 else 0)).
    { unfold b. rewrite (Z.div_mod m 2) at 1 by lia. rewrite Zmod_odd. reflexivity. }
    assert (Hp : 2 ^ Z.of_nat (S n) = 2 * 2 ^ Z.of_nat n).
    { rewrite Nat2Z.inj_succ, Z.pow_succ_r by lia. reflexivity. }
    assert (Hpos : 0 < 2 ^ Z.of_nat n) by (apply Z.pow_pos_nonneg; lia).
    exists (rem + (if b then 2 ^ Z.of_nat n else 0)).
    cbn [shr_m shr_r shr_s]. rewrite Hp.
    split; [apply Z.div_pos; lia|].
    split; [destruct b; nia|].
    split; [destruct b; lia|].
    split.
    + rewrite Hrs. destruct b, (Z.eqb_spec rem 0); cbn;
        match goal with |- _ = negb (?x =? 0) => destruct (Z.eqb_spec x 0) end;
        try reflexivity; lia.
    + intros _. rewrite Hrs. split.
      * destruct b; symmetry; [apply Z.leb_le|apply Z.leb_gt]; lia.
      * destruct b, (Z.eqb_spec rem 0); cbn [negb orb];
          repeat match goal with |- context [?x =? ?y] => destruct (Z.eqb_spec x y) end;
          cbn [negb orb]; try reflexivity; lia.
Qed.

Lemma rne_cases (V : Z) :
  0 < V ->
  (Z.log2 V + 1 <= 53 /\ F64.rne V = V)
  \/ (53 < Z.log2 V + 1
      /\ exists q r,
           V = q * 2 ^ (Z.log2 V + 1 - 53) + r
           /\ 0 <= r < 2 ^ (Z.log2 V + 1 - 53)
           /\ 2 ^ 52 <= q < 2 ^ 53
           /\ F64.rne V = (if (2 ^ (Z.log2 V + 1 - 53) <? 2 * r)
                          || ((2 ^ (Z.log2 V + 1 - 53) =? 2 * r) && Z.odd q)
                       then q + 1 else q) * 2 ^ (Z.log2 V + 1 - 53)).
Proof.
  intros HV. unfold F64.rne. set (d := Z.log2 V + 1).
  destruct (Z.leb_spec d 53) as [Hd|Hd]; [left; auto|right].
  split; [exact Hd|]. set (n := d - 53).
  assert (Hn : 0 < n) by (unfold n; lia).
  assert (HP : 0 < 2 ^ n) by (apply Z.pow_pos_nonneg; lia).
  exists (V / 2 ^ n), (V mod 2 ^ n).
  pose proof (Z.div_mod V (2 ^ n) ltac:(lia)) as Hdm.
  pose proof (Z.mod_pos_bound V (2 ^ n) HP) as Hmod.
  split; [lia|]. split; [exact Hmod|]. split; [|reflexivity].
  assert (Hb : 2 ^ (d - 1) <= V < 2 ^ d) by (apply log2_digits; [exact HV|reflexivity]).
  assert (E1 : 2 ^ (d - 1) = 2 ^ 52 * 2 ^ n)
    by (rewrite <- Z.pow_add_r by lia; f_equal; unfold n; lia).
  assert (E2 : 2 ^ d = 2 ^ 53 * 2 ^ n)
    by (rewrite <- Z.pow_add_r by lia; f_equal; unfold n; lia).
  rewrite E1, E2 in Hb.
  split.
  - apply Z.div_le_lower_bound; [exact HP|]. lia.
  - apply Z.div_lt_upper_bound; [exact HP|]. lia.
Qed.

Lemma rne_bounds (V : Z) :
  0 < V -> 2 ^ (Z.log2 V + 1 - 1) <= F64.rne V <= 2 ^ (Z.log2 V + 1).
Proof.
  intros HV.
  assert (Hb : 2 ^ (Z.log2 V + 1 - 1) <= V < 2 ^ (Z.log2 V + 1))
    by (apply log2_digits; [exact HV|reflexivity]).
  destruct (rne_cases V HV) as [[_ ->]|[Hd [q [r [HVq [Hr [Hq ->]]]]]]]; [lia|].
  set (n := Z.log2 V + 1 - 53) in *.
  assert (Hn : 0 < n) by (unfold n; lia).
  assert (HP : 0 < 2 ^ n) by (apply Z.pow_pos_nonneg; lia).
  replace (Z.log2 V + 1 - 1) with (52 + n) by (unfold n; lia).
  replace (Z.log2 V + 1) with (53 + n) by (unfold n; lia).
  rewrite !Z.pow_add_r by lia.
  destruct ((2 ^ n <? 2 * r) || ((2 ^ n =? 2 * r) && Z.odd q)); nia.
Qed.

(** Rounding to nearest is monotone. *)
Lemma rne_mono (V1 V2 : Z) : 0 < V1 -> V1 <= V2 -> F64.rne V1 <= F64.rne V2.
Proof.
  intros H1 H12. assert (H2 : 0 < V2) by lia.
  pose proof (Z.log2_le_mono V1 V2 H12) as Hlog.
  destruct (Z.eq_dec (Z.log2 V1) (Z.log2 V2)) as [E|E].
  - destruct (rne_cases V1 H1) as [[Hd1 ->]|[Hd1 [q1 [r1 [HV1 [Hr1 [Hq1 ->]]]]]]];
      destruct (rne_cases V2 H2) as [[Hd2 ->]|[Hd2 [q2 [r2 [HV2 [Hr2 [Hq2 ->]]]]]]];
      try lia.
    rewrite E in *. set (n := Z.log2 V2 + 1 - 53) in *.
    assert (Hn : 0 < n) by (unfold n; lia).
    assert (HP : 0 < 2 ^ n) by (apply Z.pow_pos_nonneg; lia).
    assert (Hq : q1 <= q2) by nia.
    apply Z.mul_le_mono_nonneg_r; [lia|].
    destruct (Z.eq_dec q1 q2) as [Eq|Nq].
    + subst q2. assert (Hr : r1 <= r2) by lia.
      destruct (Z.ltb_spec (2 ^ n) (2 * r1)), (Z.ltb_spec (2 ^ n) (2 * r2)),
        (Z.eqb_spec (2 ^ n) (2 * r1)), (Z.eqb_spec (2 ^ n) (2 * r2)), (Z.odd q1);
        cbn [orb andb]; lia.
    + destruct ((2 ^ n <? 2 * r1) || ((2 ^ n =? 2 * r1) && Z.odd q1)),
        ((2 ^ n <? 2 * r2) || ((2 ^ n =? 2 * r2) && Z.odd q2)); lia.
  - pose proof (rne_bounds V1 H1) as [_ Hu].
    pose proof (rne_bounds V2 H2) as [Hl _].
    assert (2 ^ (Z.log2 V1 + 1) <= 2 ^ (Z.log2 V2 + 1 - 1)); [|lia].
    apply Z.pow_le_mono_r; lia.
Qed.

(** A number with at most 53 significant bits is its own rounding. *)
Lemma rne_exact (k n : Z) :
  0 < k -> 0 <= n -> Z.log2 k + 1 <= 53 -> F64.rne (k * 2 ^ n) = k * 2 ^ n.
Proof.
  intros Hk Hn Hd.
  assert (HP : 0 < 2 ^ n) by (apply Z.pow_pos_nonneg; lia).
  assert (HV : 0 < k * 2 ^ n) by nia.
  assert (Hlog : Z.log2 (k * 2 ^ n) = n + Z.log2 k) by (apply Z.log2_mul_pow2; lia).
  destruct (rne_cases _ HV) as [[_ ->]|[Hd' [q [r [HVq [Hr [Hq ->]]]]]]]; [reflexivity|].
  rewrite Hlog in *. set (n0 := n + Z.log2 k + 1 - 53) in *.
  assert (Hn0 : 0 < n0 <= n) by (unfold n0; lia).
  assert (HP0 : 0 < 2 ^ n0) by (apply Z.pow_pos_nonneg; lia).
  assert (Hsplit : 2 ^ n = 2 ^ (n - n0) * 2 ^ n0)
    by (rewrite <- Z.pow_add_r by lia; f_equal; lia).
  assert (HPd : 0 < 2 ^ (n - n0)) by (apply Z.pow_pos_nonneg; lia).
  assert (Hr0 : r = 0).
  { assert (Hm : (k * 2 ^ n) mod 2 ^ n0 = 0).
    { rewrite Hsplit, Z.mul_assoc. apply Z_mod_mult. }
    assert (Hm' : (q * 2 ^ n0 + r) mod 2 ^ n0 = r).
    { rewrite Z.add_comm, Z_mod_plus_full. apply Z.mod_small. exact Hr. }
    rewrite <- HVq in Hm'. lia. }
  subst r.
  destruct (Z.ltb_spec (2 ^ n0) (2 * 0)); [lia|].
  destruct (Z.eqb_spec (2 ^ n0) (2 * 0)); [lia|]. cbn [orb andb]. lia.
Qed.

(** The canonical forms of binary64. *)
Lemma canonical_cases (m : positive) (e : Z) :
  canonical_mantissa prec emax m e = true ->
  -1074 <= e /\ Z.log2 (Zpos m) + 1 <= 53 /\ (e = -1074 \/ Z.log2 (Zpos m) + 1 = 53).
Proof.
  unfold canonical_mantissa, fexp, emin, prec, emax. intros H.
  apply Z.eqb_eq in H. rewrite digits2_pos_log2 in H. lia.
Qed.

Lemma canonical_intro (m : positive) (e : Z) :
  -1074 <= e -> Z.log2 (Zpos m) + 1 <= 53 -> (e = -1074 \/ Z.log2 (Zpos m) + 1 = 53) ->
  canonical_mantissa prec emax m e = true.
Proof.
  unfold canonical_mantissa, fexp, emin, prec, emax. intros H1 H2 H3.
  apply Z.eqb_eq. rewrite digits2_pos_log2. lia.
Qed.

Lemma fkey_pos (m : positive) (e : Z) : -1074 <= e -> 0 < F64.fkey m e.
Proof.
  intros He. unfold F64.fkey.
  assert (0 < 2 ^ (e + 1074)) by (apply Z.pow_pos_nonneg; lia). nia.
Qed.

Lemma fkey_lt (m1 m2 : positive) (e1 e2 : Z) :
  canonical_mantissa prec emax m1 e1 = true ->
  canonical_mantissa prec emax m2 e2 = true ->
  e1 < e2 -> F64.fkey m1 e1 < F64.fkey m2 e2.
Proof.
  intros H1 H2 Hlt.
  apply canonical_cases in H1. apply canonical_cases in H2.
  destruct H1 as [He1 [Hd1 _]]. destruct H2 as [He2 [_ [Hc|Hc]]]; [lia|].
  assert (Hm1 : Zpos m1 < 2 ^ 53).
  { pose proof (proj1 (log2_digits (Zpos m1) _ ltac:(lia)) eq_refl) as [_ Hu].
    eapply Z.lt_le_trans; [exact Hu|]. apply Z.pow_le_mono_r; lia. }
  assert (Hm2 : 2 ^ 52 <= Zpos m2).
  { pose proof (proj1 (log2_digits (Zpos m2) _ ltac:(lia)) eq_refl) as [Hl _].
    rewrite Hc in Hl. exact Hl. }
  unfold F64.fkey.
  assert (HP1 : 0 < 2 ^ (e1 + 1074)) by (apply Z.pow_pos_nonneg; lia).
  assert (Hs : 2 ^ (e2 + 1074) = 2 ^ (e2 - e1 - 1) * (2 * 2 ^ (e1 + 1074))).
  { rewrite <- Z.pow_succ_r, <- Z.pow_add_r by lia. f_equal. lia. }
  assert (HPd : 0 < 2 ^ (e2 - e1 - 1)) by (apply Z.pow_pos_nonneg; lia).
  rewrite Hs. change (2 ^ 53) with (2 * 2 ^ 52) in Hm1.
  assert (0 < 2 ^ 52) by reflexivity. nia.
Qed.

(** The order of two canonical positive floats is the order of their keys. *)
Lemma fkey_compare (m1 m2 : positive) (e1 e2 : Z) :
  canonical_mantissa prec emax m1 e1 = true ->
  canonical_mantissa prec emax m2 e2 = true ->
  match e1 ?= e2 with
  | Lt => Lt
  | Gt => Gt
  | Eq => Pos.compare_cont Eq m1 m2
  end = (F64.fkey m1 e1 ?= F64.fkey m2 e2).
Proof.
  intros H1 H2. destruct (Z.compare_spec e1 e2) as [E|L|G].
  - subst e2. unfold F64.fkey. transitivity (Zpos m1 ?= Zpos m2); [reflexivity|].
    apply Zmult_compare_compat_r. apply Z.lt_gt. apply Z.pow_pos_nonneg; [lia|].
    apply canonical_cases in H1. lia.
  - symmetry. apply Z.compare_lt_iff. now apply fkey_lt.
  - symmetry. apply Z.compare_gt_iff. now apply fkey_lt.
Qed.

Lemma fkey_bounded (m : positive) (e : Z) :
  canonical_mantissa prec emax m e = true ->
  (e <= 971 -> F64.fkey m e < 2 ^ 2098) /\ (971 < e -> 2 ^ 2098 <= F64.fkey m e).
Proof.
  intros H. apply canonical_cases in H. destruct H as [He [Hd Hc]].
  assert (HP : 0 < 2 ^ (e + 1074)) by (apply Z.pow_pos_nonneg; lia).
  unfold F64.fkey. split; intros Hle.
  - assert (Hm : Zpos m < 2 ^ 53).
    { pose proof (proj1 (log2_digits (Zpos m) _ ltac:(lia)) eq_refl) as [_ Hu].
      eapply Z.lt_le_trans; [exact Hu|]. apply Z.pow_le_mono_r; lia. }
    assert (Hs : 2 ^ 2098 = 2 ^ 53 * 2 ^ (971 - e) * 2 ^ (e + 1074)).
    { rewrite <- !Z.pow_add_r by lia. f_equal. lia. }
    assert (HPd : 0 < 2 ^ (971 - e)) by (apply Z.pow_pos_nonneg; lia).
    rewrite Hs. assert (0 < 2 ^ 53) by reflexivity. nia.
  - destruct Hc as [Hc|Hc]; [lia|].
    assert (Hm : 2 ^ 52 <= Zpos m).
    { pose proof (proj1 (log2_digits (Zpos m) _ ltac:(lia)) eq_refl) as [Hl _].
      rewrite Hc in Hl. exact Hl. }
    assert (Hs : 2 ^ (e + 1074) = 2 ^ (e - 972) * 2 ^ 2046).
    { rewrite <- Z.pow_add_r by lia. f_equal. lia. }
    assert (HPd : 0 < 2 ^ (e - 972)) by (apply Z.pow_pos_nonneg; lia).
    rewrite Hs. change (2 ^ 2098) with (2 ^ 52 * 2 ^ 2046).
    assert (0 < 2 ^ 2046) by reflexivity. assert (0 < 2 ^ 52) by reflexivity. nia.
Qed.

(** A canonical float is its own rounding. *)
Lemma rne_fkey (m : positive) (e : Z) :
  canonical_mantissa prec emax m e = true -> F64.rne (F64.fkey m e) = F64.fkey m e.
Proof.
  intros H. apply canonical_cases in H. destruct H as [He [Hd _]].
  unfold F64.fkey. apply rne_exact; lia.
Qed.

Lemma shr_fexp_spec (p : positive) (e : Z) :
  shr_fexp prec emax (Zpos p) e loc_Exact
  = (if fexp prec emax (Z.log2 (Zpos p) + 1 + e) - e <=? 0
     then ({| shr_m := Zpos p; shr_r := false; shr_s := false |}, e)
     else (Nat.iter (Z.to_nat (fexp prec emax (Z.log2 (Zpos p) + 1 + e) - e)) shr_1
             {| shr_m := Zpos p; shr_r := false; shr_s := false |},
           e + (fexp prec emax (Z.log2 (Zpos p) + 1 + e) - e))).
Proof.
  unfold shr_fexp, shr. cbn [Zdigits2 shr_record_of_loc]. rewrite digits2_pos_log2.
  destruct (fexp prec emax (Z.log2 (Zpos p) + 1 + e) - e) as [|n|n]; try reflexivity.
  rewrite iter_pos_nat. reflexivity.
Qed.

Lemma scale_ltb (a b P : Z) : 0 < P -> (a * P <? b * P) = (a <? b).
Proof.
  intros HP. destruct (Z.ltb_spec a b), (Z.ltb_spec (a * P) (b * P)); try reflexivity; nia.
Qed.

Lemma scale_eqb (a b P : Z) : 0 < P -> (a * P =? b * P) = (a =? b).
Proof.
  intros HP. destruct (Z.eqb_spec a b), (Z.eqb_spec (a * P) (b * P)); try reflexivity; nia.
Qed.

(** The rounding of a number with [53 + n] bits, scaled by a power of two. *)
Lemma rne_shift (M q rem n c : Z) :
  0 < M -> 0 < n -> 0 <= c ->
  Z.log2 M + 1 = 53 + n ->
  M = q * 2 ^ n + rem -> 0 <= rem < 2 ^ n ->
  F64.rne (M * 2 ^ c)
  = (if (2 ^ n <? 2 * rem) || ((2 ^ n =? 2 * rem) && Z.odd q) then q + 1 else q)
    * 2 ^ (n + c).
Proof.
  intros HM Hn Hc Hd HMq Hr.
  assert (HPc : 0 < 2 ^ c) by (apply Z.pow_pos_nonneg; lia).
  assert (HPn : 0 < 2 ^ n) by (apply Z.pow_pos_nonneg; lia).
  assert (Hlog : Z.log2 (M * 2 ^ c) = c + Z.log2 M) by (apply Z.log2_mul_pow2; lia).
  unfold F64.rne. rewrite Hlog.
  destruct (Z.leb_spec (c + Z.log2 M + 1) 53); [lia|].
  replace (c + Z.log2 M + 1 - 53) with (n + c) by lia.
  assert (Hs : 2 ^ (n + c) = 2 ^ n * 2 ^ c) by (apply Z.pow_add_r; lia).
  assert (Hq : M * 2 ^ c / 2 ^ (n + c) = q).
  { symmetry. apply Z.div_unique with (r := rem * 2 ^ c); [left; rewrite Hs; nia|].
    rewrite Hs, HMq. ring. }
  assert (Hm : (M * 2 ^ c) mod 2 ^ (n + c) = rem * 2 ^ c).
  { symmetry. apply Z.mod_unique with (q := q); [left; rewrite Hs; nia|].
    rewrite Hs, HMq. ring. }
  rewrite Hq, Hm.
  replace (2 * (rem * 2 ^ c)) with (2 * rem * 2 ^ c) by ring.
  rewrite Hs, scale_ltb, scale_eqb by exact HPc. reflexivity.
Qed.

(** The two flags of the shifts encode the position of the remainder. *)
Lemma round_loc (M : Z) (n : nat) (mrs : shr_record) :
  (1 <= n)%nat -> F64.shr_inv M n mrs ->
  exists rem,
    0 <= shr_m mrs
    /\ M = shr_m mrs * 2 ^ Z.of_nat n + rem /\ 0 <= rem < 2 ^ Z.of_nat n
    /\ round_nearest_even (shr_m mrs) (loc_of_shr_record mrs)
       = (if (2 ^ Z.of_nat n <? 2 * rem)
             || ((2 ^ Z.of_nat n =? 2 * rem) && Z.odd (shr_m mrs))
          then shr_m mrs + 1 else shr_m mrs).
Proof.
  intros Hn [rem [Hm [HM [Hr [_ Hrs]]]]]. destruct (Hrs Hn) as [Hfr Hfs]. clear Hrs.
  exists rem. split; [exact Hm|]. split; [exact HM|]. split; [exact Hr|].
  destruct mrs as [q r s]. cbn [shr_m shr_r shr_s] in *.
  assert (HP : 0 < 2 ^ Z.of_nat n) by (apply Z.pow_pos_nonneg; lia).
  subst r s. unfold loc_of_shr_record, round_nearest_even.
  rewrite <- Z.negb_odd.
  destruct (Z.leb_spec (2 ^ Z.of_nat n) (2 * rem)), (Z.eqb_spec rem 0),
    (Z.eqb_spec (2 * rem) (2 ^ Z.of_nat n)), (Z.ltb_spec (2 ^ Z.of_nat n) (2 * rem)),
    (Z.eqb_spec (2 ^ Z.of_nat n) (2 * rem)), (Z.odd q);
    cbn [negb orb andb]; try reflexivity; lia.
Qed.

Lemma fexp_53 (x : Z) : fexp prec emax x = Z.max (x - 53) (-1074).
Proof. reflexivity. Qed.

(** What [binary_round] returns, in terms of keys. *)
Lemma binary_round_spec (s : bool) (M : positive) (e : Z) :
  -1074 <= e ->
  exists m e2,
    canonical_mantissa prec emax m e2 = true
    /\ F64.fkey m e2 = F64.rne (F64.fkey M e)
    /\ binary_round prec emax s M e
       = (if e2 <=? 971 then S754_finite s m e2 else S754_infinity s).
Proof.
  intros He. unfold binary_round. rewrite digits2_pos_log2.
  set (N := Z.log2 (Zpos M) + 1).
  assert (HN : 1 <= N) by (unfold N; pose proof (Z.log2_nonneg (Zpos M)); lia).
  rewrite fexp_53.
  destruct (Z.le_gt_cases N 53) as [Hle|Hgt].
  - (* no bit is lost *)
    set (f := Z.max (N + e - 53) (-1074)).
    assert (Hf : f <= e) by (unfold f; lia).
    destruct (proj1 (shl_align_spec M e f) Hf) as [Hmz Hez].
    destruct (shl_align M e f) as [mz ez]. cbn [fst snd] in Hmz, Hez. subst ez.
    assert (Hlog : Z.log2 (Zpos mz) + 1 + f = N + e).
    { rewrite Hmz, Z.log2_mul_pow2 by lia. unfold N. lia. }
    exists mz, f. split; [|split].
    + apply canonical_intro; unfold f in *; lia.
    + unfold F64.fkey at 1. rewrite Hmz, <- Z.mul_assoc, <- Z.pow_add_r by lia.
      replace (e - f + (f + 1074)) with (e + 1074) by lia.
      symmetry. apply rne_exact; unfold N in *; lia.
    + unfold binary_round_aux. rewrite shr_fexp_spec, Hlog, fexp_53. fold f.
      destruct (Z.leb_spec (f - f) 0); [|lia].
      cbn [shr_m loc_of_shr_record round_nearest_even].
      rewrite shr_fexp_spec, Hlog, fexp_53. fold f.
      destruct (Z.leb_spec (f - f) 0); [|lia].
      cbn [shr_m]. reflexivity.
  - (* [N - 53] bits are shifted out *)
    set (f := Z.max (N + e - 53) (-1074)).
    assert (Hf : f = N + e - 53) by (unfold f; lia).
    rewrite (proj2 (shl_align_spec M e f)) by lia.
    unfold binary_round_aux. rewrite shr_fexp_spec. fold N. rewrite fexp_53. fold f.
    destruct (Z.leb_spec (f - e) 0); [lia|].
    set (n := Z.to_nat (f - e)).
    assert (Hn : Z.of_nat n = N - 53) by (unfold n; lia).
    destruct (round_loc (Zpos M) n _ ltac:(lia) (shr_steps (Zpos M) n ltac:(lia)))
      as [rem [Hq0 [HM [Hr Hrnd]]]].
    set (mrs := Nat.iter n shr_1 {| shr_m := Zpos M; shr_r := false; shr_s := false |}) in *.
    set (q := shr_m mrs) in *.
    rewrite Hn in *.
    assert (HPn : 0 < 2 ^ (N - 53)) by (apply Z.pow_pos_nonneg; lia).
    assert (Hq : 2 ^ 52 <= q < 2 ^ 53).
    { pose proof (proj1 (log2_digits (Zpos M) N ltac:(lia)) eq_refl) as [Hl Hu].
      assert (E1 : 2 ^ (N - 1) = 2 ^ 52 * 2 ^ (N - 53))
        by (rewrite <- Z.pow_add_r by lia; f_equal; lia).
      assert (E2 : 2 ^ N = 2 ^ 53 * 2 ^ (N - 53))
        by (rewrite <- Z.pow_add_r by lia; f_equal; lia).
      rewrite E1 in Hl. rewrite E2 in Hu. split; nia. }
    pose proof (rne_shift (Zpos M) q rem (N - 53) (e + 1074) ltac:(lia) ltac:(lia) ltac:(lia)
                  ltac:(fold N; lia) HM Hr) as Hrne.
    fold (F64.fkey M e) in Hrne.
    replace (e + (f - e)) with f by lia.
    replace (N - 53 + (e + 1074)) with (f + 1074) in Hrne by lia.
    rewrite Hrnd. rewrite Hrne.
    set (q' := if (2 ^ (N - 53) <? 2 * rem) || ((2 ^ (N - 53) =? 2 * rem) && Z.odd q)
               then q + 1 else q).
    assert (Hq' : 2 ^ 52 <= q' <= 2 ^ 53).
    { unfold q'.
      destruct ((2 ^ (N - 53) <? 2 * rem) || ((2 ^ (N - 53) =? 2 * rem) && Z.odd q)); lia. }
    destruct (Z.eq_dec q' (2 ^ 53)) as [Htop|Htop].
    + (* the mantissa overflows into the next binade *)
      rewrite Htop.
      exists (Z.to_pos (2 ^ 52)), (f + 1). split; [|split].
      * apply canonical_intro; [lia|reflexivity|right; reflexivity].
      * unfold F64.fkey. replace (f + 1 + 1074) with (Z.succ (f + 1074)) by lia.
        rewrite Z.pow_succ_r by lia. change (Zpos (Z.to_pos (2 ^ 52))) with (2 ^ 52).
        change (2 ^ 53) with (2 ^ 52 * 2). ring.
      * change (2 ^ 53) with (Zpos (Z.to_pos (2 ^ 53))).
        rewrite shr_fexp_spec.
        change (Z.log2 (Zpos (Z.to_pos (2 ^ 53))) + 1) with 54.
        rewrite fexp_53.
        destruct (Z.leb_spec (Z.max (54 + f - 53) (-1074) - f) 0); [lia|].
        replace (Z.max (54 + f - 53) (-1074) - f) with 1 by lia.
        cbn [Z.to_nat Pos.to_nat Pos.iter_op Nat.iter nat_rect].
        replace (f + 1 <=? emax - prec) with (f + 1 <=? 971) by reflexivity.
        reflexivity.
    + assert (Hpos : 0 < q') by lia.
      exists (Z.to_pos q'), f. split; [|split].
      * apply canonical_intro; [lia| |right].
        -- rewrite Z2Pos.id by lia.
           assert (Z.log2 q' + 1 = 53); [|lia].
           apply log2_digits; [lia|]. change (53 - 1) with 52. lia.
        -- rewrite Z2Pos.id by lia. apply log2_digits; [lia|]. change (53 - 1) with 52. lia.
      * unfold F64.fkey. rewrite Z2Pos.id by lia. reflexivity.
      * destruct q' as [|p'|p'] eqn:Eq'; [lia| |lia].
        rewrite shr_fexp_spec.
        assert (Hlog : Z.log2 (Zpos p') + 1 = 53).
        { apply log2_digits; [lia|]. change (53 - 1) with 52. lia. }
        rewrite Hlog, fexp_53.
        destruct (Z.leb_spec (Z.max (53 + f - 53) (-1074) - f) 0); [|lia].
        cbn [shr_m Z.to_pos].
        replace (f <=? emax - prec) with (f <=? 971) by reflexivity.
        reflexivity.
Qed.

Lemma bounded_canonical (m : positive) (e : Z) :
  bounded prec emax m e = true ->
  canonical_mantissa prec emax m e = true /\ e <= 971.
Proof.
  unfold bounded. intros H. apply andb_true_iff in H. destruct H as [Hc He].
  split; [exact Hc|]. apply Z.leb_le in He. exact He.
Qed.

Lemma SFcompare_pos (m1 m2 : positive) (e1 e2 : Z) :
  canonical_mantissa prec emax m1 e1 = true ->
  canonical_mantissa prec emax m2 e2 = true ->
  SFcompare (S754_finite false m1 e1) (S754_finite false m2 e2)
  = Some (F64.fkey m1 e1 ?= F64.fkey m2 e2).
Proof. intros H1 H2. cbn [SFcompare]. now rewrite fkey_compare. Qed.

Lemma SFcompare_neg (m1 m2 : positive) (e1 e2 : Z) :
  canonical_mantissa prec emax m1 e1 = true ->
  canonical_mantissa prec emax m2 e2 = true ->
  SFcompare (S754_finite true m1 e1) (S754_finite true m2 e2)
  = Some (CompOpp (F64.fkey m1 e1 ?= F64.fkey m2 e2)).
Proof.
  intros H1 H2. cbn [SFcompare]. rewrite <- (fkey_compare m1 m2 e1 e2 H1 H2).
  destruct (e1 ?= e2); reflexivity.
Qed.

Lemma SFleb_refl (s : bool) (m : positive) (e : Z) :
  SFleb (S754_finite s m e) (S754_finite s m e) = true.
Proof.
  unfold SFleb, SFcompare. rewrite Z.compare_refl.
  fold (Pos.compare m m). rewrite Pos.compare_refl. destruct s; reflexivity.
Qed.

Lemma shl_align_key (m : positive) (e ez : Z) :
  -1074 <= ez <= e ->
  Zpos (fst (shl_align m e ez)) * 2 ^ (ez + 1074) = F64.fkey m e.
Proof.
  intros H. destruct (proj1 (shl_align_spec m e ez) ltac:(lia)) as [-> _].
  unfold F64.fkey. rewrite <- Z.mul_assoc, <- Z.pow_add_r by lia. do 2 f_equal. lia.
Qed.

(** Adding a float that is not negative does not lower a float. *)
Lemma SFadd_nonneg_ge (a b : spec_float) :
  valid_binary a = true -> valid_binary b = true ->
  SFltb (S754_infinity true) a = true ->
  SFleb (S754_zero false) b = true ->
  SFleb a (SFadd prec emax a b) = true.
Proof.
  intros Ha Hb Hlow Hnn.
  destruct b as [sb|sb| |sb mb eb]; try discriminate Hnn.
  - (* b is a zero *)
    destruct a as [sa|sa| |sa ma ea]; try discriminate Hlow.
    + destruct sa, sb; reflexivity.
    + destruct sa; [discriminate Hlow|reflexivity].
    + apply SFleb_refl.
  - (* b is +infinity *)
    destruct sb; [discriminate Hnn|].
    destruct a as [sa|sa| |sa ma ea]; try discriminate Hlow.
    + reflexivity.
    + destruct sa; [discriminate Hlow|reflexivity].
    + destruct sa; reflexivity.
  - (* b is finite and positive *)
    destruct sb; [discriminate Hnn|].
    destruct a as [sa|sa| |sa ma ea]; try discriminate Hlow.
    + reflexivity.
    + destruct sa; [discriminate Hlow|reflexivity].
    + cbn [SpecFloat.valid_binary] in Ha, Hb.
      apply bounded_canonical in Ha. apply bounded_canonical in Hb.
      destruct Ha as [Hca Hea]. destruct Hb as [Hcb Heb].
      pose proof (canonical_cases _ _ Hca) as [Hma _].
      pose proof (canonical_cases _ _ Hcb) as [Hmb _].
      cbn [SFadd]. set (ez := Z.min ea eb).
      assert (Hez : -1074 <= ez) by (unfold ez; lia).
      pose proof (shl_align_key ma ea ez ltac:(unfold ez; lia)) as HKA.
      pose proof (shl_align_key mb eb ez ltac:(unfold ez; lia)) as HKB.
      set (A := fst (shl_align ma ea ez)) in *.
      set (B := fst (shl_align mb eb ez)) in *.
      assert (HP : 0 < 2 ^ (ez + 1074)) by (apply Z.pow_pos_nonneg; lia).
      pose proof (fkey_pos mb eb Hmb) as HKBpos.
      pose proof (proj1 (fkey_bounded ma ea Hca) Hea) as HKAlt.
      cbn [cond_Zopp].
      destruct sa; cbn [cond_Zopp].
      * (* a is negative *)
        destruct (- Zpos A + Zpos B) as [|p|p] eqn:ES; cbn [binary_normalize].
        -- reflexivity.
        -- destruct (binary_round_spec false p ez Hez) as [m [e2 [Hc [_ ->]]]].
           destruct (e2 <=? 971); reflexivity.
        -- destruct (binary_round_spec true p ez Hez) as [m [e2 [Hc [Hk ->]]]].
           assert (Hp : F64.fkey p ez <= F64.fkey ma ea).
           { unfold F64.fkey at 1. rewrite <- HKA. nia. }
           pose proof (rne_mono _ _ (fkey_pos p ez Hez) Hp) as Hmono.
           rewrite (rne_fkey ma ea Hca), <- Hk in Hmono.
           destruct (Z.leb_spec e2 971) as [Hle|Hgt].
           ++ unfold SFleb. rewrite (SFcompare_neg _ _ _ _ Hca Hc).
              destruct (Z.compare_spec (F64.fkey ma ea) (F64.fkey m e2)); try reflexivity; lia.
           ++ pose proof (proj2 (fkey_bounded m e2 Hc) Hgt). lia.
      * (* a is positive *)
        destruct (Zpos A + Zpos B) as [|p|p] eqn:ES; [lia| |lia].
        cbn [binary_normalize].
        destruct (binary_round_spec false p ez Hez) as [m [e2 [Hc [Hk ->]]]].
        assert (Hp : F64.fkey ma ea <= F64.fkey p ez).
        { unfold F64.fkey at 2. rewrite <- HKA. nia. }
        pose proof (rne_mono _ _ (fkey_pos ma ea Hma) Hp) as Hmono.
        rewrite (rne_fkey ma ea Hca), <- Hk in Hmono.
        destruct (e2 <=? 971); [|reflexivity].
        unfold SFleb. rewrite (SFcompare_pos _ _ _ _ Hca Hc).
        destruct (Z.compare_spec (F64.fkey ma ea) (F64.fkey m e2)); try reflexivity; lia.
Qed.

Lemma shr_1_nonneg (mrs : shr_record) : 0 <= shr_m mrs -> 0 <= shr_m (shr_1 mrs).
Proof.
  destruct mrs as [m r s]. cbn [shr_m]. intros H. rewrite (shr_1_spec m r s H).
  cbn [shr_m]. apply Z.div_pos; lia.
Qed.

Lemma shr_iter_nonneg (n : nat) (mrs : shr_record) :
  0 <= shr_m mrs -> 0 <= shr_m (Nat.iter n shr_1 mrs).
Proof.
  intros H. induction n as [|n IH]; [exact H|].
  rewrite Nat.iter_succ. now apply shr_1_nonneg.
Qed.

Lemma shr_fexp_nonneg (m e : Z) (l : location) :
  0 <= m -> 0 <= shr_m (fst (shr_fexp prec emax m e l)).
Proof.
  intros H. unfold shr_fexp, shr.
  assert (H0 : 0 <= shr_m (shr_record_of_loc m l)) by (destruct l as [|[| |]]; exact H).
  destruct (fexp prec emax (Zdigits2 m + e) - e) as [|n|n]; cbn [fst]; try exact H0.
  rewrite iter_pos_nat. now apply shr_iter_nonneg.
Qed.

Lemma round_nearest_even_nonneg (m : Z) (l : location) :
  0 <= m -> 0 <= round_nearest_even m l.
Proof.
  intros H. destruct l as [|[| |]]; cbn [round_nearest_even]; try lia.
  destruct (Z.even m); lia.
Qed.

(** A rounded float has the sign that was asked for. *)
Lemma binary_round_aux_sign (s : bool) (m e : Z) (l : location) :
  0 <= m ->
  match binary_round_aux prec emax s m e l with
  | S754_zero s' => s' = s
  | S754_infinity s' => s' = s
  | S754_finite s' _ _ => s' = s
  | S754_nan => False
  end.
Proof.
  intros H. unfold binary_round_aux.
  pose proof (shr_fexp_nonneg m e l H) as H1.
  destruct (shr_fexp prec emax m e l) as [mrs' e']. cbn [fst] in H1.
  pose proof (shr_fexp_nonneg _ e' loc_Exact
                (round_nearest_even_nonneg _ (loc_of_shr_record mrs') H1)) as H2.
  destruct (shr_fexp prec emax (round_nearest_even (shr_m mrs') (loc_of_shr_record mrs')) e'
              loc_Exact) as [mrs'' e'']. cbn [fst] in H2.
  destruct (shr_m mrs'') as [|p|p]; [reflexivity| |lia].
  destruct (e'' <=? emax - prec); reflexivity.
Qed.

Lemma SFleb_zero_cases (x : spec_float) :
  SFleb (S754_zero false) x = true <->
  match x with
  | S754_zero _ => True
  | S754_infinity s => s = false
  | S754_finite s _ _ => s = false
  | S754_nan => False
  end.
Proof.
  destruct x as [s|s| |s m e]; cbn.
  - tauto.
  - destruct s; intuition congruence.
  - intuition congruence.
  - destruct s; intuition congruence.
Qed.

(** The product of two finite floats that are not negative is not negative. *)
Lemma SFmul_nonneg (x y : spec_float) :
  SFleb (S754_zero false) x = true -> SFleb (S754_zero false) y = true ->
  (forall s, x <> S754_infinity s) -> (forall s, y <> S754_infinity s) ->
  SFleb (S754_zero false) (SFmul prec emax x y) = true.
Proof.
  intros Hx Hy Fx Fy. apply SFleb_zero_cases in Hx. apply SFleb_zero_cases in Hy.
  apply SFleb_zero_cases.
  destruct x as [sx|sx| |sx mx ex]; [|destruct (Fx sx eq_refl)|destruct Hx|];
    (destruct y as [sy|sy| |sy my ey]; [|destruct (Fy sy eq_refl)|destruct Hy|]);
    cbn [SFmul]; try exact I.
  subst sx sy. cbn [xorb].
  pose proof (binary_round_aux_sign false (Zpos (mx * my)) (ex + ey) loc_Exact ltac:(lia)) as H.
  destruct (binary_round_aux prec emax false (Zpos (mx * my)) (ex + ey) loc_Exact);
    try exact I; assumption.
Qed.

(** The float of an integer that is not negative. *)
Lemma Prim2SF_Z2F (z : Z) :
  0 <= z ->
  Prim2SF (F64.Z2F z) = binary_normalize prec emax z 0 false
  /\ SFleb (S754_zero false) (Prim2SF (F64.Z2F z)) = true.
Proof.
  intros Hz. unfold F64.Z2F.
  assert (H : valid_binary (binary_normalize prec emax z 0 false) = true
              /\ SFleb (S754_zero false) (binary_normalize prec emax z 0 false) = true).
  { destruct z as [|p|p]; [split; reflexivity| |lia].
    cbn [binary_normalize].
    destruct (binary_round_spec false p 0 ltac:(lia)) as [m [e2 [Hc [_ ->]]]].
    destruct (Z.leb_spec e2 971) as [Hle|Hgt]; [|split; reflexivity].
    split; [|reflexivity]. cbn [SpecFloat.valid_binary]. unfold bounded.
    rewrite Hc. apply Z.leb_le. exact Hle. }
  destruct H as [Hv Hn]. rewrite (Prim2SF_SF2Prim _ Hv). split; [reflexivity|exact Hn].
Qed.

Lemma is_finite_not_infinity (x : float) :
  PrimFloat.is_finite x = true -> forall s, Prim2SF x <> S754_infinity s.
Proof.
  unfold PrimFloat.is_finite, is_nan, is_infinity.
  rewrite !FloatAxioms.eqb_spec, FloatAxioms.abs_spec.
  change (Prim2SF infinity) with (S754_infinity false).
  intros H s E. rewrite E in H. destruct s; discriminate H.
Qed.

(** A penalty that is not negative does not lower the objective. *)
Lemma f64_add_penalty_ge (f penalty_weight : float) (vio : Z) :
  (neg_infinity <? f)%float = true ->
  PrimFloat.is_finite penalty_weight = true ->
  (0 <=? penalty_weight)%float = true ->
  0 <= vio ->
  PrimFloat.is_finite (F64.Z2F vio) = true ->
  (f <=? f + penalty_weight * F64.Z2F vio)%float = true.
Proof.
  intros Hf Hfin Hpw Hvio Hvfin.
  rewrite FloatAxioms.leb_spec, FloatAxioms.add_spec. unfold SF64add.
  apply SFadd_nonneg_ge.
  - apply Prim2SF_valid.
  - apply Prim2SF_valid.
  - rewrite FloatAxioms.ltb_spec in Hf. exact Hf.
  - rewrite FloatAxioms.mul_spec. unfold SF64mul. apply SFmul_nonneg.
    + rewrite FloatAxioms.leb_spec in Hpw. exact Hpw.
    + apply (Prim2SF_Z2F vio Hvio).
    + now apply is_finite_not_infinity.
    + now apply is_finite_not_infinity.
Qed.

(** ** Folds that step together *)

Lemma foldM_rel {A S T} (R : S -> T -> Prop) (f : S -> A -> result S)
  (g : T -> A -> result T) (l : list A) :
  (forall s t x s', In x l -> R s t -> f s x = Ok s' -> exists t', g t x = Ok t' /\ R s' t') ->
  forall s t s', R s t -> foldM f l s = Ok s' -> exists t', foldM g l t = Ok t' /\ R s' t'.
Proof.
  induction l as [|x r IH]; intros H s t s' HR Hf; simpl in *.
  - inversion Hf; subst. eauto.
  - apply bindR_Ok in Hf. destruct Hf as [s1 [H1 Hf]].
    destruct (H s t x s1 (or_introl eq_refl) HR H1) as [t1 [Ht1 HR1]].
    rewrite Ht1. simpl.
    apply (IH (fun s t x s' Hin => H s t x s' (or_intror Hin)) s1 t1 s' HR1 Hf).
Qed.

(** Where the rational fold returns, the float fold returns: the two raise
    at the same lookups, and no float operation raises. *)
Lemma foldM_returns {A S T} (f : S -> A -> result S) (g : T -> A -> result T) (l : list A) :
  (forall s t x s', In x l -> f s x = Ok s' -> exists t', g t x = Ok t') ->
  forall s t s', foldM f l s = Ok s' -> exists t', foldM g l t = Ok t'.
Proof.
  intros H s t s' Hf.
  destruct (foldM_rel (fun _ _ => True) f g l) with (s := s) (t := t) (s' := s')
    as [t' [Ht' _]]; [|exact I|exact Hf|exists t'; exact Ht'].
  intros s0 t0 x s0' Hin _ Hs. destruct (H s0 t0 x s0' Hin Hs) as [t1 Ht1]. eauto.
Qed.

(** ** The evaluator over binary64 floats *)

Section FloatEvaluator.

Variable data : PatientAllocationData.
Variable allocation : Allocation.

Lemma f64_ot_used_returns spec d v :
  compute_ot_used_by_spec_day data allocation spec d = Ok v ->
  exists f, F64.compute_ot_used_by_spec_day data allocation spec d = Ok f.
Proof.
  unfold compute_ot_used_by_spec_day, F64.compute_ot_used_by_spec_day.
  apply foldM_returns. intros s t [pid a] s' _ Hs.
  apply bindR_Ok in Hs. destruct Hs as [p [Hp _]]. rewrite Hp. simpl. eauto.
Qed.

Lemma f64_delays_returns v :
  compute_delays data allocation = Ok v -> exists f, F64.compute_delays data allocation = Ok f.
Proof.
  unfold compute_delays, F64.compute_delays.
  apply foldM_returns. intros s t [pid a] s' _ Hs.
  apply bindR_Ok in Hs. destruct Hs as [p [Hp _]]. rewrite Hp. simpl. eauto.
Qed.

Lemma f64_ot_returns v :
  compute_ot data allocation = Ok v -> exists f, F64.compute_ot data allocation = Ok f.
Proof.
  unfold compute_ot, F64.compute_ot.
  apply foldM_returns. intros s t [spec sp] s' _ Hs.
  refine (foldM_returns _ _ (range 0 (num_days data)) _ s t s' Hs).
  intros [[ovt undt] m] [[ovt' undt'] m'] d s1 _ Hs1.
  apply bindR_Ok in Hs1. destruct Hs1 as [used [Hu Hs1]].
  apply bindR_Ok in Hs1. destruct Hs1 as [sr [Hsr Hs1]].
  apply bindR_Ok in Hs1. destruct Hs1 as [avail [Hav _]].
  destruct (f64_ot_used_returns _ _ _ Hu) as [fu Hfu].
  rewrite Hfu. cbn [bindR]. rewrite Hsr. cbn [bindR]. rewrite Hav. cbn [bindR].
  destruct (F64.Q2F avail <? fu)%float; eauto.
Qed.

Lemma f64_workload_returns v :
  compute_workload_normalized_and_z data allocation = Ok v ->
  exists f, F64.compute_workload_normalized_and_z data allocation = Ok f.
Proof.
  unfold compute_workload_normalized_and_z, F64.compute_workload_normalized_and_z.
  apply foldM_returns. intros s t [wn w] s' _ Hs.
  refine (foldM_returns _ _ (range 0 (num_days data)) _ s t s' Hs).
  intros [x z] [x' z'] d s1 _ Hs1.
  apply bindR_Ok in Hs1. destruct Hs1 as [w0 [Hw0 Hs1]].
  apply bindR_Ok in Hs1. destruct Hs1 as [total [Htot _]].
  rewrite Hw0. cbn [bindR].
  assert (G : exists ft, foldM (F64.add_patient_workload data wn w d) allocation (F64.Q2F w0)
                         = Ok ft).
  { refine (foldM_returns _ _ allocation _ w0 (F64.Q2F w0) total Htot).
    intros q fq [pid a] q' _ Hq.
    unfold add_patient_workload in Hq. unfold F64.add_patient_workload.
    destruct (negb (String.eqb (ward a) wn)); [eauto|].
    apply bindR_Ok in Hq. destruct Hq as [p [Hp Hq]]. rewrite Hp. cbn [bindR].
    cbn zeta in *.
    destruct (in_stay a p d); [|eauto].
    destruct ((0 <=? d - day a)
              && (d - day a <? Z.of_nat (List.length (workload_per_day p)))); [|eauto].
    apply bindR_Ok in Hq. destruct Hq as [base [Hb Hq]]. rewrite Hb. cbn [bindR].
    destruct (negb (String.eqb (specialization p) (major_specialization w))
              && str_in (specialization p) (minor_specializations w)); [|eauto].
    apply bindR_Ok in Hq. destruct Hq as [sr [Hsr _]]. rewrite Hsr. cbn [bindR]. eauto. }
  destruct G as [ft ->]. cbn [bindR]. eauto.
Qed.

Lemma f64_objective_value_returns (lambda1q lambda2q : Q) (lambda1 lambda2 : float) v :
  objective_value data allocation lambda1q lambda2q = Ok v ->
  exists f, F64.objective_value data allocation lambda1 lambda2 = Ok f.
Proof.
  unfold objective_value, F64.objective_value, compute_objective_components,
    F64.compute_objective_components.
  intros H.
  apply bindR_Ok in H. destruct H as [c [Hc _]].
  apply bindR_Ok in Hc. destruct Hc as [dl [Hd Hc]].
  apply bindR_Ok in Hc. destruct Hc as [[[ovt undt] m] [Ho Hc]].
  apply bindR_Ok in Hc. destruct Hc as [[xm z] [Hz _]].
  destruct (f64_delays_returns _ Hd) as [fd ->]. cbn [bindR].
  destruct (f64_ot_returns _ Ho) as [[[fo fu] fm] ->]. cbn [bindR].
  destruct (f64_workload_returns _ Hz) as [[fx fz] ->]. cbn [bindR]. eauto.
Qed.

End FloatEvaluator.

(** Adding a penalty of zero violations returns the objective. *)
Lemma f64_add_zero_penalty (f penalty_weight : float) :
  is_nan f = false -> PrimFloat.is_finite penalty_weight = true ->
  (f + penalty_weight * F64.Z2F 0 =? f)%float = true.
Proof.
  intros Hf Hpw.
  rewrite FloatAxioms.eqb_spec, FloatAxioms.add_spec, FloatAxioms.mul_spec.
  change (Prim2SF (F64.Z2F 0)) with (S754_zero false).
  unfold is_nan in Hf. rewrite FloatAxioms.eqb_spec in Hf.
  unfold PrimFloat.is_finite, is_nan, is_infinity in Hpw.
  rewrite !FloatAxioms.eqb_spec, FloatAxioms.abs_spec in Hpw.
  change (Prim2SF infinity) with (S754_infinity false) in Hpw.
  assert (Hrefl : forall s m e, SFeqb (S754_finite s m e) (S754_finite s m e) = true).
  { intros s m e. unfold SFeqb, SFcompare.
    rewrite Z.compare_refl, Pos.compare_refl. destruct s; reflexivity. }
  destruct (Prim2SF penalty_weight) as [sp| sp | | sp mp ep];
    [ | destruct sp; discriminate Hpw | discriminate Hpw | ];
    (destruct (Prim2SF f) as [s|s| |s m e];
     [ destruct s, sp; reflexivity | destruct s; reflexivity | discriminate Hf | apply Hrefl ]).
Qed.

(** Claim C1, as the code has it.  On a total allocation,
    [bed_capacity_violations] is the sum over all ward-days of the positive
    part of occupancy minus bed capacity, and it is zero exactly when the
    bed-capacity check of [feasible_after_change_beds] passes.  The
    penalised objective is the float [f + penalty_weight * violations] for
    the objective [f].  It is at least the objective when the penalty weight
    is finite and not negative (the objective being neither [nan] nor
    [-inf], and the count of violations small enough to be a float); and
    without a violation it equals the objective (for a finite penalty weight
    and an objective that is not [nan]). *)
Theorem capacity_penalty data allocation lambda1 lambda2 penalty_weight :
  wf_data data = true ->
  total_allocation data allocation = true ->
  exists (vio : Z) (f fp : float),
    bed_capacity_violations data allocation = Ok vio
    /\ vio = spec_bed_violations data allocation
    /\ 0 <= vio
    /\ (vio = 0 <-> feasible_after_change_beds data allocation None = Ok true)
    /\ F64.objective_value data allocation lambda1 lambda2 = Ok f
    /\ F64.objective_value_penalized data allocation lambda1 lambda2 penalty_weight = Ok fp
    /\ fp = (f + penalty_weight * F64.Z2F vio)%float
    /\ ((neg_infinity <? f)%float = true ->
        PrimFloat.is_finite penalty_weight = true ->
        (0 <=? penalty_weight)%float = true ->
        PrimFloat.is_finite (F64.Z2F vio) = true ->
        (f <=? fp)%float = true)
    /\ (vio = 0 -> is_nan f = false -> PrimFloat.is_finite penalty_weight = true ->
        (fp =? f)%float = true).
Proof.
  intros Hwf Htot. pose proof (total_allocation_known _ _ Htot) as Hk.
  destruct (objective_value_total data allocation Hwf Hk 0%Q 0%Q) as [v Hv].
  destruct (f64_objective_value_returns data allocation 0%Q 0%Q lambda1 lambda2 v Hv)
    as [f Hf].
  pose proof (bed_capacity_violations_spec data allocation Hwf Hk) as Hvio.
  pose proof (spec_bed_violations_nonneg data allocation) as Hnn.
  exists (spec_bed_violations data allocation), f,
    (f + penalty_weight * F64.Z2F (spec_bed_violations data allocation))%float.
  split; [exact Hvio|]. split; [reflexivity|]. split; [exact Hnn|]. split.
  { rewrite (feasible_iff_capacity_ok data allocation Hwf Hk).
    apply violations_zero_iff_capacity_ok. }
  split; [exact Hf|]. split.
  { unfold F64.objective_value_penalized. rewrite Hf, Hvio. reflexivity. }
  split; [reflexivity|]. split.
  - intros Hlow Hfin Hpw Hvfin.
    exact (f64_add_penalty_ge f penalty_weight _ Hlow Hfin Hpw Hnn Hvfin).
  - intros H0 Hnan Hfin. rewrite H0. exact (f64_add_zero_penalty f penalty_weight Hnan Hfin).
Qed.

Lemma capacity_penalty_witness :
  exists (f fp : float),
    bed_capacity_violations scenario_data scenario_crowded = Ok 1
    /\ F64.objective_value scenario_data scenario_crowded 0.5 0.5 = Ok f
    /\ F64.objective_value_penalized scenario_data scenario_crowded 0.5 0.5 1000 = Ok fp
    /\ (f <=? fp)%float = true
    /\ (fp =? f)%float = false.
Proof.
  destruct (capacity_penalty scenario_data scenario_crowded 0.5 0.5 1000 eq_refl eq_refl)
    as [vio [f [fp [Hv [_ [_ [_ [Hf [Hp [He [Hge _]]]]]]]]]]].
  assert (Hv1 : bed_capacity_violations scenario_data scenario_crowded = Ok 1)
    by (vm_compute; reflexivity).
  assert (E : vio = 1) by congruence. subst vio.
  exists f, fp. split; [exact Hv1|]. split; [exact Hf|]. split; [exact Hp|].
  vm_compute in Hf. injection Hf as <-.
  split.
  - apply Hge; vm_compute; reflexivity.
  - rewrite He. vm_compute. reflexivity.
Defined.

(** The claim as it was stated fails: on the crowded scenario with an
    overtime weight of [4e19], one bed is missing, yet the penalised
    objective with the default penalty weight 1000 is the objective itself,
    [2e19]: the penalty is below half the distance between neighbouring
    floats there. *)
Lemma penalty_is_absorbed :
  wf_data heavy_data = true
  /\ total_allocation heavy_data scenario_crowded = true
  /\ bed_capacity_violations heavy_data scenario_crowded = Ok 1
  /\ feasible_after_change_beds heavy_data scenario_crowded None = Ok false
  /\ F64.objective_value heavy_data scenario_crowded 0.5 0.5 = Ok 2e19%float
  /\ F64.objective_value_penalized heavy_data scenario_crowded 0.5 0.5 1000 = Ok 2e19%float.
Proof. repeat split; vm_compute; reflexivity. Qed.

(** ** The legacy searches over binary64 floats *)

Lemma f64_evaluate_spec data s lambda1 lambda2 s' :
  F64.Solution.evaluate data s lambda1 lambda2 = Ok s' ->
  F64.Solution.allocation s' = F64.Solution.allocation s
  /\ exists ok,
       Solution._check_feasibility data (F64.Solution.allocation s) = Ok ok
       /\ F64.Solution.feasible s' = ok
       /\ (ok = false -> F64.Solution.objective_value s' = infinity)
       /\ (ok = true ->
           exists f1 f2,
             F64.Solution._calculate_operational_cost data (F64.Solution.allocation s) = Ok f1
             /\ F64.Solution._calculate_workload_balance data (F64.Solution.allocation s)
                = Ok f2
             /\ F64.Solution.objective_value s' = (lambda1 * f1 + lambda2 * f2)%float).
Proof.
  unfold F64.Solution.evaluate, F64._check_feasibility. intros H.
  apply bindR_Ok in H. destruct H as [ok [Hok H]]. destruct ok; simpl in H.
  - apply bindR_Ok in H. destruct H as [f1 [H1 H]].
    apply bindR_Ok in H. destruct H as [f2 [H2 H]].
    inversion H; subst s'; clear H; simpl. split; [reflexivity|].
    exists true. split; [exact Hok|]. split; [reflexivity|]. split; [discriminate|].
    intros _. exists f1, f2. auto.
  - inversion H; subst s'; clear H; simpl. split; [reflexivity|].
    exists false. split; [exact Hok|]. split; [reflexivity|]. split; [reflexivity|].
    discriminate.
Qed.

Lemma f64_evaluate_flagged data s lambda1 lambda2 s' :
  F64.Solution.evaluate data s lambda1 lambda2 = Ok s' -> F64.flagged s'.
Proof.
  intros H Hf. apply f64_evaluate_spec in H. destruct H as [_ [ok [_ [Hfl [Hinf _]]]]].
  apply Hinf. congruence.
Qed.

Lemma f64_sa_solve_spec data lambda1 lambda2 exp n initial_temp cooling_rate w r w' :
  F64.SimulatedAnnealing.solve data lambda1 lambda2 exp n initial_temp cooling_rate w
  = Ok (r, w') ->
  exists st0 st,
    F64.SimulatedAnnealing.initial_state data lambda1 lambda2 initial_temp = Ok st0
    /\ for_loop n (F64.SimulatedAnnealing.iteration data lambda1 lambda2 exp cooling_rate) st0 w
       = Ok (st, w')
    /\ r = F64.SimulatedAnnealing.result_of st.
Proof.
  unfold F64.SimulatedAnnealing.solve. intros H.
  apply bindM_Ok in H. destruct H as [st0 [w1 [H0 H]]].
  apply liftR_Ok in H0. destruct H0 as [H0 ->].
  apply bindM_Ok in H. destruct H as [st [w2 [Hl H]]].
  inversion H; subst. exists st0, st. auto.
Qed.

Lemma f64_tabu_solve_spec data lambda1 lambda2 n tabu_tenure w r w' :
  F64.TabuSearch.solve data lambda1 lambda2 n tabu_tenure w = Ok (r, w') ->
  exists st0 st,
    F64.TabuSearch.initial_state data lambda1 lambda2 = Ok st0
    /\ for_loop n (F64.TabuSearch.iteration data lambda1 lambda2 tabu_tenure) st0 w
       = Ok (st, w')
    /\ r = F64.TabuSearch.result_of st.
Proof.
  unfold F64.TabuSearch.solve. intros H.
  apply bindM_Ok in H. destruct H as [st0 [w1 [H0 H]]].
  apply liftR_Ok in H0. destruct H0 as [H0 ->].
  apply bindM_Ok in H. destruct H as [st [w2 [Hl H]]].
  inversion H; subst. exists st0, st. auto.
Qed.

(** The state after a pass of tabu search: unchanged, or moved to one of the
    neighbours. *)
Lemma f64_choose_spec tabu_tenure neighbors st :
  F64.TabuSearch.choose tabu_tenure neighbors st = st
  \/ exists n,
       In n neighbors
       /\ F64.TabuSearch.current (F64.TabuSearch.choose tabu_tenure neighbors st) = n
       /\ F64.TabuSearch.best_solution (F64.TabuSearch.choose tabu_tenure neighbors st)
          = F64.SimulatedAnnealing.track_best (F64.TabuSearch.best_solution st) n.
Proof.
  induction neighbors as [|x r IH]; simpl; [left; reflexivity|].
  destruct (negb (TabuSearch.is_tabu (F64.Solution.allocation x) (F64.TabuSearch.tabu_list st))
            || (F64.Solution.objective_value x
                <? F64.Solution.objective_value (F64.TabuSearch.best_solution st))%float).
  - right. exists x. simpl. auto.
  - destruct IH as [IH|[n [Hin [Hc Hb]]]]; [left; exact IH|].
    right. exists n. auto.
Qed.

Section FloatSearches.

Variable data : PatientAllocationData.
Variables lambda1 lambda2 : float.

Lemma f64_get_neighbor_flagged s w n w' :
  F64.SimulatedAnnealing._get_neighbor data lambda1 lambda2 s w = Ok (n, w') -> F64.flagged n.
Proof.
  unfold F64.SimulatedAnnealing._get_neighbor. intros H.
  apply bindM_Ok in H. destruct H as [pid [w1 [_ H]]].
  apply bindM_Ok in H. destruct H as [p [w2 [_ H]]].
  apply bindM_Ok in H. destruct H as [op [w3 [_ H]]].
  apply bindM_Ok in H. destruct H as [alloc [w4 [_ H]]].
  apply liftR_Ok in H. destruct H as [H _].
  exact (f64_evaluate_flagged _ _ _ _ _ H).
Qed.

Lemma f64_initial_flagged s :
  F64.SimulatedAnnealing._generate_initial_solution data lambda1 lambda2 = Ok s ->
  F64.flagged s.
Proof.
  unfold F64.SimulatedAnnealing._generate_initial_solution. intros H.
  apply bindR_Ok in H. destruct H as [alloc [_ H]].
  exact (f64_evaluate_flagged _ _ _ _ _ H).
Qed.

Lemma f64_track_best_flagged best cur :
  F64.flagged best -> F64.flagged cur -> F64.flagged (F64.SimulatedAnnealing.track_best best cur).
Proof.
  intros Hb Hc. unfold F64.SimulatedAnnealing.track_best.
  destruct (F64.Solution.objective_value cur <? F64.Solution.objective_value best)%float;
    assumption.
Qed.

Lemma f64_sa_iteration_flagged exp cooling_rate st w st' b w' :
  F64.flagged (F64.SimulatedAnnealing.current st)
  /\ F64.flagged (F64.SimulatedAnnealing.best_solution st) ->
  F64.SimulatedAnnealing.iteration data lambda1 lambda2 exp cooling_rate st w
  = Ok ((st', b), w') ->
  F64.flagged (F64.SimulatedAnnealing.current st')
  /\ F64.flagged (F64.SimulatedAnnealing.best_solution st').
Proof.
  intros [Hc Hb] H. unfold F64.SimulatedAnnealing.iteration in H.
  apply bindM_Ok in H. destruct H as [nb [w1 [Hn H]]].
  apply bindM_Ok in H. destruct H as [acc [w2 [_ H]]].
  inversion H; subst st' b w'; clear H. simpl.
  apply f64_get_neighbor_flagged in Hn.
  destruct acc; split; auto. now apply f64_track_best_flagged.
Qed.

Lemma f64_neighborhood_flagged n cur w l w' :
  F64.TabuSearch.neighborhood data lambda1 lambda2 n cur w = Ok (l, w') ->
  Forall F64.flagged l.
Proof.
  revert w l. induction n as [|n IH]; intros w l H; simpl in H.
  - inversion H. constructor.
  - apply bindM_Ok in H. destruct H as [x [w1 [Hx H]]].
    apply bindM_Ok in H. destruct H as [r [w2 [Hr H]]].
    inversion H; subst. constructor.
    + exact (f64_get_neighbor_flagged _ _ _ _ Hx).
    + exact (IH _ _ Hr).
Qed.

Lemma f64_choose_flagged tabu_tenure neighbors st :
  Forall F64.flagged neighbors ->
  F64.flagged (F64.TabuSearch.current st) /\ F64.flagged (F64.TabuSearch.best_solution st) ->
  F64.flagged (F64.TabuSearch.current (F64.TabuSearch.choose tabu_tenure neighbors st))
  /\ F64.flagged (F64.TabuSearch.best_solution (F64.TabuSearch.choose tabu_tenure neighbors st)).
Proof.
  intros Hn [Hc Hb]. induction Hn as [|x r Hx Hr IH]; simpl; [auto|].
  destruct (negb (TabuSearch.is_tabu (F64.Solution.allocation x) (F64.TabuSearch.tabu_list st))
            || (F64.Solution.objective_value x
                <? F64.Solution.objective_value (F64.TabuSearch.best_solution st))%float);
    [|exact IH].
  simpl. split; [exact Hx|]. now apply f64_track_best_flagged.
Qed.

Lemma f64_tabu_iteration_flagged tabu_tenure st w st' b w' :
  F64.flagged (F64.TabuSearch.current st) /\ F64.flagged (F64.TabuSearch.best_solution st) ->
  F64.TabuSearch.iteration data lambda1 lambda2 tabu_tenure st w = Ok ((st', b), w') ->
  F64.flagged (F64.TabuSearch.current st') /\ F64.flagged (F64.TabuSearch.best_solution st').
Proof.
  intros Hst H. unfold F64.TabuSearch.iteration in H.
  apply bindM_Ok in H. destruct H as [ns [w1 [Hn H]]].
  inversion H; subst st' b w'; clear H.
  apply f64_choose_flagged; [|exact Hst].
  apply TabuFacts.tabu_sort_by_Forall. exact (f64_neighborhood_flagged _ _ _ _ _ Hn).
Qed.

Lemma f64_sa_solve_flagged exp n initial_temp cooling_rate w r w' :
  F64.SimulatedAnnealing.solve data lambda1 lambda2 exp n initial_temp cooling_rate w
  = Ok (r, w') ->
  F64.lr_feasible r = false -> F64.lr_objective_value r = infinity.
Proof.
  unfold F64.SimulatedAnnealing.solve. intros H.
  apply bindM_Ok in H. destruct H as [st0 [w1 [H0 H]]].
  apply liftR_Ok in H0. destruct H0 as [H0 ->].
  apply bindM_Ok in H. destruct H as [st [w2 [Hl H]]].
  inversion H; subst r w'; clear H.
  unfold F64.SimulatedAnnealing.initial_state in H0.
  apply bindR_Ok in H0. destruct H0 as [c [Hc H0]]. inversion H0; subst st0; clear H0.
  apply f64_initial_flagged in Hc.
  apply (for_loop_invariant
           (fun s => F64.flagged (F64.SimulatedAnnealing.current s)
                     /\ F64.flagged (F64.SimulatedAnnealing.best_solution s))) in Hl.
  - exact (proj2 Hl).
  - intros s w0 s' b w3 Hs Hi. exact (f64_sa_iteration_flagged _ _ _ _ _ _ _ Hs Hi).
  - simpl. split; exact Hc.
Qed.

Lemma f64_tabu_solve_flagged n tabu_tenure w r w' :
  F64.TabuSearch.solve data lambda1 lambda2 n tabu_tenure w = Ok (r, w') ->
  F64.lr_feasible r = false -> F64.lr_objective_value r = infinity.
Proof.
  unfold F64.TabuSearch.solve. intros H.
  apply bindM_Ok in H. destruct H as [st0 [w1 [H0 H]]].
  apply liftR_Ok in H0. destruct H0 as [H0 ->].
  apply bindM_Ok in H. destruct H as [st [w2 [Hl H]]].
  inversion H; subst r w'; clear H.
  unfold F64.TabuSearch.initial_state in H0.
  apply bindR_Ok in H0. destruct H0 as [c [Hc H0]]. inversion H0; subst st0; clear H0.
  apply f64_initial_flagged in Hc.
  apply (for_loop_invariant
           (fun s => F64.flagged (F64.TabuSearch.current s)
                     /\ F64.flagged (F64.TabuSearch.best_solution s))) in Hl.
  - exact (proj2 Hl).
  - intros s w0 s' b w3 Hs Hi. exact (f64_tabu_iteration_flagged _ _ _ _ _ _ Hs Hi).
  - simpl. split; exact Hc.
Qed.

End FloatSearches.

Lemma f64_finite_not_infinity (x : float) :
  x = infinity -> PrimFloat.is_finite x = false.
Proof. intros ->. reflexivity. Qed.

(** Claim C10, as the code has it.  [Solution.evaluate] stores the verdict
    of the feasibility check as the flag; the verdict is positive exactly
    when the completeness, window, bed-capacity and compatibility checks all
    pass; the objective is [inf] when the verdict is negative and the float
    [lambda1 * f1 + lambda2 * f2] otherwise.  So in the records that
    [SimulatedAnnealing.solve] and [TabuSearch.solve] return, a cleared flag
    ['feasible'] comes with the objective [inf], and a finite
    ['objective_value'] comes with the flag set. *)
Theorem finite_objective_is_feasible :
  (forall data s lambda1 lambda2 s',
      F64.Solution.evaluate data s lambda1 lambda2 = Ok s' ->
      exists ok,
        Solution._check_feasibility data (F64.Solution.allocation s) = Ok ok
        /\ F64.Solution.feasible s' = ok
        /\ (ok = true <->
            List.length (F64.Solution.allocation s) = List.length (patients data)
            /\ Solution.check_windows data (F64.Solution.allocation s) = Ok true
            /\ Solution.check_beds data (F64.Solution.allocation s) = Ok true
            /\ Solution.check_compatibility data (F64.Solution.allocation s) = Ok true)
        /\ (ok = false -> F64.Solution.objective_value s' = infinity)
        /\ (ok = true ->
            exists f1 f2,
              F64.Solution._calculate_operational_cost data (F64.Solution.allocation s)
              = Ok f1
              /\ F64.Solution._calculate_workload_balance data (F64.Solution.allocation s)
                 = Ok f2
              /\ F64.Solution.objective_value s' = (lambda1 * f1 + lambda2 * f2)%float))
  /\ (forall data lambda1 lambda2 exp n initial_temp cooling_rate w r w',
         F64.SimulatedAnnealing.solve data lambda1 lambda2 exp n initial_temp cooling_rate w
         = Ok (r, w') ->
         (F64.lr_feasible r = false -> F64.lr_objective_value r = infinity)
         /\ (PrimFloat.is_finite (F64.lr_objective_value r) = true -> F64.lr_feasible r = true))
  /\ (forall data lambda1 lambda2 n tabu_tenure w r w',
         F64.TabuSearch.solve data lambda1 lambda2 n tabu_tenure w = Ok (r, w') ->
         (F64.lr_feasible r = false -> F64.lr_objective_value r = infinity)
         /\ (PrimFloat.is_finite (F64.lr_objective_value r) = true -> F64.lr_feasible r = true)).
Proof.
  split; [|split].
  - intros data s lambda1 lambda2 s' H. apply f64_evaluate_spec in H.
    destruct H as [_ [ok [Hok [Hf [Hinf Hfin]]]]].
    exists ok. split; [exact Hok|]. split; [exact Hf|]. split; [|split; assumption].
    rewrite <- check_feasibility_true. rewrite Hok. split; congruence.
  - intros data lambda1 lambda2 exp n initial_temp cooling_rate w r w' H.
    pose proof (f64_sa_solve_flagged _ _ _ _ _ _ _ _ _ _ H) as Hfl.
    split; [exact Hfl|]. intros Hfin.
    destruct (F64.lr_feasible r); [reflexivity|].
    rewrite (f64_finite_not_infinity _ (Hfl eq_refl)) in Hfin. discriminate.
  - intros data lambda1 lambda2 n tabu_tenure w r w' H.
    pose proof (f64_tabu_solve_flagged _ _ _ _ _ _ _ _ H) as Hfl.
    split; [exact Hfl|]. intros Hfin.
    destruct (F64.lr_feasible r); [reflexivity|].
    rewrite (f64_finite_not_infinity _ (Hfl eq_refl)) in Hfin. discriminate.
Qed.

Lemma finite_objective_is_feasible_witness :
  (exists r w',
      F64.SimulatedAnnealing.solve demo_data 0.5 0.5 exp_half_f 10 1000
        F64.SimulatedAnnealing.default_cooling_rate world0
      = Ok (r, w')
      /\ PrimFloat.is_finite (F64.lr_objective_value r) = true
      /\ F64.lr_feasible r = true)
  /\ (exists r w',
         F64.TabuSearch.solve scenario_data 0.5 0.5 3 50 world0 = Ok (r, w')
         /\ F64.lr_feasible r = false
         /\ F64.lr_objective_value r = infinity).
Proof.
  split.
  - do 2 eexists.
    match goal with |- ?A /\ _ => assert (H : A) by (vm_compute; reflexivity) end.
    split; [exact H|].
    match goal with |- ?A /\ _ => assert (H2 : A) by (vm_compute; reflexivity) end.
    split; [exact H2|].
    exact (proj2 (proj1 (proj2 finite_objective_is_feasible) _ _ _ _ _ _ _ _ _ _ H) H2).
  - do 2 eexists.
    match goal with |- ?A /\ _ => assert (H : A) by (vm_compute; reflexivity) end.
    split; [exact H|].
    match goal with |- ?A /\ _ => assert (H2 : A) by (vm_compute; reflexivity) end.
    split; [exact H2|].
    exact (proj1 (proj2 (proj2 finite_objective_is_feasible) _ _ _ _ _ _ _ _ H) H2).
Defined.

(** The claim as it was stated fails: on the demonstration instance with an
    undertime weight of [1e308], simulated annealing and tabu search return
    an allocation that passes every check, with the flag ['feasible'] set
    and the objective [inf], because the operational cost overflows. *)
Lemma feasible_with_infinite_objective :
  wf_data overflow_data = true
  /\ (exists s,
      F64.SimulatedAnnealing._generate_initial_solution overflow_data 0.5 0.5 = Ok s
      /\ Solution._check_feasibility overflow_data (F64.Solution.allocation s) = Ok true
      /\ F64.Solution.feasible s = true
      /\ F64.Solution.objective_value s = infinity)
  /\ (exists r w',
         F64.SimulatedAnnealing.solve overflow_data 0.5 0.5 exp_half_f 10 1000
           F64.SimulatedAnnealing.default_cooling_rate world0
         = Ok (r, w')
         /\ F64.lr_feasible r = true
         /\ F64.lr_objective_value r = infinity)
  /\ (exists r w',
         F64.TabuSearch.solve overflow_data 0.5 0.5 3 50 world0 = Ok (r, w')
         /\ F64.lr_feasible r = true
         /\ F64.lr_objective_value r = infinity).
Proof.
  split; [reflexivity|]. split; [|split].
  - eexists. repeat (split; [vm_compute; reflexivity|]). vm_compute. reflexivity.
  - do 2 eexists. repeat (split; [vm_compute; reflexivity|]). vm_compute. reflexivity.
  - do 2 eexists. repeat (split; [vm_compute; reflexivity|]). vm_compute. reflexivity.
Qed.

(* ================================================================== *)
(** * Further properties of the code *)

(** ** Dictionaries *)

Lemma dict_set_keys {V} (d : list (string * V)) (k : string) (v : V) :
  In k (dict_keys d) -> dict_keys (dict_set d k v) = dict_keys d.
Proof.
  induction d as [|[k' v'] r IH]; simpl; intros H; [contradiction|].
  destruct (String.eqb_spec k' k) as [->|Hne]; [reflexivity|].
  simpl. f_equal. apply IH. destruct H as [H|H]; [congruence | exact H].
Qed.

Lemma dict_set_absent {V} (d : list (string * V)) (k : string) (v : V) :
  ~ In k (dict_keys d) -> dict_set d k v = d ++ [(k, v)].
Proof.
  induction d as [|[k' v'] r IH]; simpl; intros H; [reflexivity|].
  destruct (String.eqb_spec k' k) as [->|Hne]; [exfalso; apply H; now left|].
  f_equal. apply IH. intros Hin. apply H. now right.
Qed.

Lemma dict_set_In {V} (d : list (string * V)) (k : string) (v : V) (k' : string) (v' : V) :
  In (k', v') (dict_set d k v) -> (k', v') = (k, v) \/ In (k', v') d.
Proof.
  induction d as [|[k0 v0] r IH]; simpl.
  - intros [H|[]]. left. congruence.
  - destruct (String.eqb_spec k0 k) as [->|Hne]; simpl.
    + intros [H|H]; [left; congruence | right; now right].
    + intros [H|H]; [right; now left|]. destruct (IH H); [now left | right; now right].
Qed.

Lemma dict_get_keys {V} (d : list (string * V)) (k : string) (v : V) :
  dict_get d k = Ok v -> In k (dict_keys d).
Proof.
  intros H. apply dict_get_In in H. change (In (fst (k, v)) (map fst d)). now apply in_map.
Qed.

Lemma dict_get_set_same {V} (d : list (string * V)) (k : string) (v : V) :
  dict_get (dict_set d k v) k = Ok v.
Proof.
  induction d as [|[k' v'] r IH]; simpl.
  - now rewrite String.eqb_refl.
  - destruct (String.eqb_spec k' k) as [->|Hne]; simpl.
    + now rewrite String.eqb_refl.
    + destruct (String.eqb_spec k' k); [contradiction | exact IH].
Qed.

Lemma dict_get_set_other {V} (d : list (string * V)) (k k' : string) (v : V) :
  k' <> k -> dict_get (dict_set d k v) k' = dict_get d k'.
Proof.
  intros Hne. induction d as [|[k0 v0] r IH]; simpl.
  - destruct (String.eqb_spec k k'); [congruence | reflexivity].
  - destruct (String.eqb_spec k0 k) as [->|Hne0]; simpl.
    + destruct (String.eqb_spec k k'); [congruence | reflexivity].
    + destruct (String.eqb_spec k0 k'); [reflexivity | exact IH].
Qed.

Lemma set_day_keys alloc pid d alloc' :
  set_day alloc pid d = Ok alloc' -> dict_keys alloc' = dict_keys alloc.
Proof.
  unfold set_day. intros H. apply bindR_Ok in H. destruct H as [a [Ha H]].
  inversion H; subst. apply dict_set_keys. exact (dict_get_keys _ _ _ Ha).
Qed.

Lemma set_ward_keys alloc pid w alloc' :
  set_ward alloc pid w = Ok alloc' -> dict_keys alloc' = dict_keys alloc.
Proof.
  unfold set_ward. intros H. apply bindR_Ok in H. destruct H as [a [Ha H]].
  inversion H; subst. apply dict_set_keys. exact (dict_get_keys _ _ _ Ha).
Qed.

(** ** The objective is never negative *)

Lemma Qltb_spec (x y : Q) : (Qltb x y = true /\ (x < y)%Q) \/ (Qltb x y = false /\ (y <= x)%Q).
Proof.
  destruct (Qltb x y) eqn:E; [left | right]; split; auto.
  - now apply Qltb_lt.
  - now apply Qltb_ge.
Qed.








(** ** Random draws *)

Lemma random_choice_In {A} (l : list A) (w w' : World) (x : A) :
  random_choice l w = Ok (x, w') -> In x l.
Proof.
  unfold random_choice. destruct l as [|y r]; [discriminate|].
  unfold bindM, next_int, ret. intros H.
  assert (E : x = nth (ints w 0%nat mod List.length (y :: r))%nat (y :: r) y) by congruence.
  rewrite E. apply nth_In. apply Nat.mod_upper_bound. discriminate.
Qed.

Lemma random_randint_range (a b r : Z) (w w' : World) :
  random_randint a b w = Ok (r, w') -> a <= r <= b.
Proof.
  unfold random_randint. destruct (Z.ltb_spec b a) as [Hlt|Hle]; [discriminate|].
  unfold bindM, next_int, ret. intros H.
  assert (E : r = a + Z.of_nat (ints w 0%nat) mod (b - a + 1)) by congruence.
  pose proof (Z.mod_pos_bound (Z.of_nat (ints w 0%nat)) (b - a + 1)). lia.
Qed.

Lemma random_sample_incl {A} (l l' : list A) (k : Z) (w w' : World) :
  random_sample l k w = Ok (l', w') -> incl l' l.
Proof.
  unfold random_sample. destruct ((k <? 0) || (Z.of_nat (List.length l) <? k)); [discriminate|].
  intros H. destruct (draw_incl (Z.to_nat k) l w) as [l0 [w0 [Hd Hi]]].
  rewrite Hd in H. inversion H; subst. exact Hi.
Qed.

(** ** The fast local search *)

Section LocalSearchFacts.

Variable data : PatientAllocationData.
Variables lambda1 lambda2 penalty_weight : Q.

#[local] Abbreviation moves := (ls_moves data lambda1 lambda2 penalty_weight).

Lemma ls_moves_trans s1 s2 s3 : moves s1 s2 -> moves s2 s3 -> moves s1 s3.
Proof.
  intros H. induction H as [s|cur v pid p d trial val s' Hp Hd Hs Hv Hlt Hm IH]; [auto|].
  intros H3. eapply ls_move; eauto.
Qed.

Lemma ls_try_days_moves p pid days_to_try current curr_val r :
  dict_get (patients data) pid = Ok p ->
  incl days_to_try (window_days data p) ->
  ls_try_days data lambda1 lambda2 penalty_weight pid days_to_try current curr_val = Ok r ->
  moves (current, curr_val) (fst r).
Proof.
  intros Hp. induction days_to_try as [|d ds IH]; intros Hi H; simpl in H.
  - inversion H; subst. apply ls_stay.
  - assert (Hi' : incl ds (window_days data p)) by (intros x Hx; apply Hi; now right).
    apply bindR_Ok in H. destruct H as [base [Hb H]].
    destruct (d =? day base); [exact (IH Hi' H)|].
    apply bindR_Ok in H. destruct H as [trial [Ht H]].
    apply bindR_Ok in H. destruct H as [val [Hv H]].
    destruct (Qltb_spec (val + eps) curr_val) as [[E Hlt]|[E _]]; rewrite E in H.
    + inversion H; subst r. simpl. eapply ls_move; eauto.
      * apply Hi. now left.
      * apply ls_stay.
    + exact (IH Hi' H).
Qed.

Lemma ls_patients_moves days_per_patient pids current curr_val w r w' :
  ls_patients data lambda1 lambda2 penalty_weight days_per_patient pids current curr_val w
  = Ok (r, w') ->
  moves (current, curr_val) (fst r).
Proof.
  revert current curr_val w. induction pids as [|pid pids IH]; intros current curr_val w H;
    simpl in H.
  - inversion H; subst. apply ls_stay.
  - apply bindM_Ok in H. destruct H as [t [w1 [_ H]]]. destruct t.
    { inversion H; subst. apply ls_stay. }
    apply bindM_Ok in H. destruct H as [p [w2 [Hp H]]].
    apply liftR_Ok in Hp. destruct Hp as [Hp ->].
    apply bindM_Ok in H. destruct H as [b0 [w3 [_ H]]].
    apply bindM_Ok in H. destruct H as [ds [w4 [Hds H]]].
    apply random_sample_incl in Hds.
    apply bindM_Ok in H. destruct H as [[[cur' val'] improved] [w5 [Ht H]]].
    apply liftR_Ok in Ht. destruct Ht as [Ht ->].
    pose proof (ls_try_days_moves p pid ds current curr_val _ Hp Hds Ht) as Hm. simpl in Hm.
    destruct improved.
    + inversion H; subst. exact Hm.
    + eapply ls_moves_trans; [exact Hm|]. exact (IH _ _ _ H).
Qed.

Lemma ls_pass_moves sample_ratio days_per_patient s w s' b w' :
  ls_pass data lambda1 lambda2 penalty_weight sample_ratio days_per_patient s w
  = Ok ((s', b), w') ->
  moves s s'.
Proof.
  unfold ls_pass. destruct s as [current curr_val]. intros H.
  apply bindM_Ok in H. destruct H as [t [w1 [_ H]]]. destruct t.
  { inversion H; subst. apply ls_stay. }
  apply bindM_Ok in H. destruct H as [pids [w2 [_ H]]].
  apply bindM_Ok in H. destruct H as [[[cur' val'] improved] [w3 [Hp H]]].
  inversion H; subst. exact (ls_patients_moves _ _ _ _ _ _ _ Hp).
Qed.

(** The local search returns what a sequence of improving moves leads to. *)
Lemma local_search_fast_moves max_iterations sample_ratio days_per_patient allocation w s' w' :
  local_search_fast data lambda1 lambda2 penalty_weight max_iterations sample_ratio
    days_per_patient allocation w = Ok (s', w') ->
  exists v0,
    objective_value_penalized data allocation lambda1 lambda2 penalty_weight = Ok v0
    /\ moves (allocation, v0) s'.
Proof.
  unfold local_search_fast. intros H.
  apply bindM_Ok in H. destruct H as [v0 [w1 [Hv H]]].
  apply liftR_Ok in Hv. destruct Hv as [Hv ->].
  exists v0. split; [exact Hv|].
  apply (for_loop_invariant (fun s => moves (allocation, v0) s)) in H; [exact H| |apply ls_stay].
  intros s w0 s1 b w2 Hs Hpass. eapply ls_moves_trans; [exact Hs|].
  exact (ls_pass_moves _ _ _ _ _ _ _ Hpass).
Qed.

Lemma ls_moves_keys s s' : moves s s' -> dict_keys (fst s') = dict_keys (fst s).
Proof.
  intros H. induction H as [s|cur v pid p d trial val s' Hp Hd Hs Hv Hlt Hm IH]; [reflexivity|].
  simpl in *. rewrite IH. exact (set_day_keys _ _ _ _ Hs).
Qed.

Lemma ls_moves_value s s' :
  objective_value_penalized data (fst s) lambda1 lambda2 penalty_weight = Ok (snd s) ->
  moves s s' ->
  objective_value_penalized data (fst s') lambda1 lambda2 penalty_weight = Ok (snd s')
  /\ (snd s' <= snd s)%Q
  /\ (fst s' = fst s \/ (snd s' + eps < snd s)%Q).
Proof.
  intros H0 H. induction H as [s|cur v pid p d trial val s' Hp Hd Hs Hv Hlt Hm IH].
  - split; [exact H0|]. split; [apply Qle_refl | now left].
  - simpl in *. destruct (IH Hv) as [H1 [H2 H3]].
    split; [exact H1|]. unfold eps in *. split; [lra|].
    right. destruct H3 as [_|H3]; lra.
Qed.

Lemma set_day_placements cur pid p d trial :
  dict_get (patients data) pid = Ok p ->
  earliest p <= d <= Z.min (latest p) (num_days data - 1) ->
  set_day cur pid d = Ok trial ->
  all_placements_ok data cur -> all_placements_ok data trial.
Proof.
  intros Hp Hd Hs Hok pid' a' Hin. unfold set_day in Hs.
  apply bindR_Ok in Hs. destruct Hs as [a [Ha Hs]]. inversion Hs; subst trial; clear Hs.
  apply dict_set_In in Hin. destruct Hin as [Heq|Hin]; [|exact (Hok _ _ Hin)].
  inversion Heq; subst pid' a'.
  destruct (Hok pid a (dict_get_In _ _ _ Ha)) as [p' [Hp' [_ Hw]]].
  assert (p' = p) by congruence. subst p'.
  exists p. simpl. auto.
Qed.

Lemma window_days_bound p d :
  In d (window_days data p) -> earliest p <= d <= Z.min (latest p) (num_days data - 1).
Proof. unfold window_days. rewrite in_range. lia. Qed.

Lemma ls_moves_placements s s' :
  moves s s' -> all_placements_ok data (fst s) -> all_placements_ok data (fst s').
Proof.
  intros H. induction H as [s|cur v pid p d trial val s' Hp Hd Hs Hv Hlt Hm IH]; [auto|].
  simpl in *. intros Hok. apply IH.
  exact (set_day_placements _ _ _ _ _ Hp (window_days_bound _ _ Hd) Hs Hok).
Qed.

End LocalSearchFacts.

Lemma local_search_fast_keeps data lambda1 lambda2 penalty_weight max_iterations
  sample_ratio days_per_patient allocation w result value w' :
  local_search_fast data lambda1 lambda2 penalty_weight max_iterations sample_ratio
    days_per_patient allocation w = Ok ((result, value), w') ->
  dict_keys result = dict_keys allocation
  /\ (all_placements_ok data allocation -> all_placements_ok data result).
Proof.
  intros H. apply local_search_fast_moves in H. destruct H as [v0 [Hv Hm]].
  split; [exact (ls_moves_keys _ _ _ _ _ _ Hm) | exact (ls_moves_placements _ _ _ _ _ _ Hm)].
Qed.

(** Property X6.  The fast local search of ILS and of VNS keeps the patients of the
    allocation; the value it returns is the penalised objective of the
    allocation it returns and is at most that of its argument (lower by more
    than the tolerance when the allocation changed); and it keeps every
    patient inside its window and on a compatible ward. *)
Theorem local_search_fast_sound data lambda1 lambda2 penalty_weight max_iterations
  sample_ratio days_per_patient allocation w result value w' :
  local_search_fast data lambda1 lambda2 penalty_weight max_iterations sample_ratio
    days_per_patient allocation w = Ok ((result, value), w') ->
  dict_keys result = dict_keys allocation
  /\ objective_value_penalized data result lambda1 lambda2 penalty_weight = Ok value
  /\ (exists v0,
         objective_value_penalized data allocation lambda1 lambda2 penalty_weight = Ok v0
         /\ (value <= v0)%Q
         /\ (result = allocation \/ (value + eps < v0)%Q))
  /\ (all_placements_ok data allocation -> all_placements_ok data result).
Proof.
  intros H. apply local_search_fast_moves in H. destruct H as [v0 [Hv Hm]].
  pose proof (ls_moves_keys _ _ _ _ _ _ Hm) as Hk.
  pose proof (ls_moves_value data lambda1 lambda2 penalty_weight (allocation, v0)
                (result, value) Hv Hm) as [H1 [H2 H3]].
  pose proof (ls_moves_placements _ _ _ _ _ _ Hm) as Hp. simpl in *.
  split; [exact Hk|]. split; [exact H1|]. split; [|exact Hp].
  exists v0. auto.
Qed.

Lemma local_search_fast_sound_witness :
  exists result value w',
    IteratedLocalSearch._local_search_fast soft_data default_lambda default_lambda
      default_penalty_weight soft_start world0 = Ok ((result, value), w')
    /\ dict_keys result = dict_keys soft_start
    /\ objective_value_penalized soft_data result default_lambda default_lambda
         default_penalty_weight = Ok value.
Proof.
  do 3 eexists.
  match goal with |- ?A /\ _ => assert (H : A) by (vm_compute; reflexivity) end.
  split; [exact H|].
  pose proof (local_search_fast_sound _ _ _ _ _ _ _ _ _ _ _ _ H) as [H1 [H2 _]].
  split; assumption.
Defined.

(** ** The shakes of VNS and the perturbation of ILS *)

Lemma keeps_refl data a : keeps data a a.
Proof. split; auto. Qed.

Lemma keeps_trans data a b c : keeps data a b -> keeps data b c -> keeps data a c.
Proof. intros [H1 H2] [H3 H4]. split; [congruence | auto]. Qed.

Lemma set_day_keeps data alloc pid p d alloc' :
  dict_get (patients data) pid = Ok p ->
  earliest p <= d <= Z.min (latest p) (num_days data - 1) ->
  set_day alloc pid d = Ok alloc' -> keeps data alloc alloc'.
Proof.
  intros Hp Hd Hs. split; [exact (set_day_keys _ _ _ _ Hs)|].
  exact (set_day_placements data _ _ _ _ _ Hp Hd Hs).
Qed.

Lemma set_ward_keeps data alloc pid p w alloc' :
  dict_get (patients data) pid = Ok p ->
  In w (compatible_wards_for_patient data p) ->
  set_ward alloc pid w = Ok alloc' -> keeps data alloc alloc'.
Proof.
  intros Hp Hw Hs. split; [exact (set_ward_keys _ _ _ _ Hs)|].
  intros Hok pid' a' Hin. unfold set_ward in Hs.
  apply bindR_Ok in Hs. destruct Hs as [a [Ha Hs]]. inversion Hs; subst alloc'; clear Hs.
  apply dict_set_In in Hin. destruct Hin as [Heq|Hin]; [|exact (Hok _ _ Hin)].
  inversion Heq; subst pid' a'.
  destruct (Hok pid a (dict_get_In _ _ _ Ha)) as [p' [Hp' [Hd _]]].
  assert (p' = p) by congruence. subst p'. exists p. simpl. auto.
Qed.

Lemma dict_set_keeps data alloc pid p a :
  In pid (dict_keys alloc) ->
  dict_get (patients data) pid = Ok p ->
  earliest p <= day a <= Z.min (latest p) (num_days data - 1) ->
  In (ward a) (compatible_wards_for_patient data p) ->
  keeps data alloc (dict_set alloc pid a).
Proof.
  intros Hk Hp Hd Hw. split; [exact (dict_set_keys _ _ _ Hk)|].
  intros Hok pid' a' Hin.
  apply dict_set_In in Hin. destruct Hin as [Heq|Hin]; [|exact (Hok _ _ Hin)].
  inversion Heq; subst pid' a'. exists p. auto.
Qed.

Lemma foldMM_keeps data (f : Allocation -> string -> M Allocation) (l : list string) :
  (forall a x w a' w', In x l -> f a x w = Ok (a', w') -> keeps data a a') ->
  forall a w a' w', foldMM f l a w = Ok (a', w') -> keeps data a a'.
Proof.
  induction l as [|x r IH]; intros Hf a w a' w' H; simpl in H.
  - inversion H. apply keeps_refl.
  - apply bindM_Ok in H. destruct H as [a1 [w1 [H1 H2]]].
    eapply keeps_trans.
    + eapply Hf; [now left | exact H1].
    + eapply IH; [|exact H2]. intros a0 x0 w0 a0' w0' Hin Hfx.
      eapply Hf; [right; exact Hin | exact Hfx].
Qed.

Section ShakeFacts.

Import VariableNeighborhoodSearch.

Variable data : PatientAllocationData.

Lemma shake_N1_keeps allocation w a' w' :
  _shake_N1 data allocation w = Ok (a', w') -> keeps data allocation a'.
Proof.
  unfold _shake_N1. intros H.
  apply bindM_Ok in H. destruct H as [pid [w1 [_ H]]].
  apply bindM_Ok in H. destruct H as [p [w2 [Hp H]]].
  apply liftR_Ok in Hp. destruct Hp as [Hp ->].
  apply bindM_Ok in H. destruct H as [a [w3 [_ H]]].
  apply bindM_Ok in H. destruct H as [shift [w4 [_ H]]].
  destruct ((earliest p <=? day a + shift) && (day a + shift <=? day_bound data p)) eqn:E.
  - apply liftR_Ok in H. destruct H as [H _].
    apply andb_prop in E. destruct E as [E1 E2].
    apply Z.leb_le in E1. apply Z.leb_le in E2. unfold day_bound in E2.
    eapply set_day_keeps; [exact Hp | | exact H]. lia.
  - inversion H; subst. apply keeps_refl.
Qed.

Lemma shake_N2_keeps allocation w a' w' :
  _shake_N2 data allocation w = Ok (a', w') -> keeps data allocation a'.
Proof.
  unfold _shake_N2. intros H.
  apply bindM_Ok in H. destruct H as [pid [w1 [_ H]]].
  apply bindM_Ok in H. destruct H as [p [w2 [Hp H]]].
  apply liftR_Ok in Hp. destruct Hp as [Hp ->].
  destruct (1 <? Z.of_nat (List.length (compatible_wards_for_patient data p))).
  - apply bindM_Ok in H. destruct H as [a [w3 [_ H]]].
    apply bindM_Ok in H. destruct H as [nw [w4 [Hc H]]].
    apply random_choice_In in Hc. apply filter_In in Hc. destruct Hc as [Hc _].
    apply liftR_Ok in H. destruct H as [H _].
    eapply set_ward_keeps; eauto.
  - inversion H; subst. apply keeps_refl.
Qed.

Lemma shake_one_keeps shaken pid w a' w' :
  shake_one data shaken pid w = Ok (a', w') -> keeps data shaken a'.
Proof.
  unfold shake_one. intros H.
  apply bindM_Ok in H. destruct H as [p [w1 [Hp H]]].
  apply liftR_Ok in Hp. destruct Hp as [Hp ->].
  apply bindM_Ok in H. destruct H as [u [w2 [_ H]]].
  destruct (Qltb u (1 # 2)).
  - apply bindM_Ok in H. destruct H as [nd [w3 [Hr H]]].
    apply random_randint_range in Hr. unfold day_bound in Hr.
    apply liftR_Ok in H. destruct H as [H _].
    eapply set_day_keeps; eauto.
  - destruct (1 <? Z.of_nat (List.length (compatible_wards_for_patient data p))).
    + apply bindM_Ok in H. destruct H as [nw [w3 [Hc H]]].
      apply random_choice_In in Hc.
      apply liftR_Ok in H. destruct H as [H _].
      eapply set_ward_keeps; eauto.
    + inversion H; subst. apply keeps_refl.
Qed.

Lemma shake_N3_keeps allocation w a' w' :
  _shake_N3 data allocation w = Ok (a', w') -> keeps data allocation a'.
Proof.
  unfold _shake_N3. intros H.
  apply bindM_Ok in H. destruct H as [pids [w1 [_ H]]].
  eapply foldMM_keeps; [|exact H].
  intros a x w0 a0 w2 _ Hs. exact (shake_one_keeps _ _ _ _ _ Hs).
Qed.

Lemma shake_N4_keeps allocation w a' w' :
  _shake_N4 data allocation w = Ok (a', w') -> keeps data allocation a'.
Proof.
  unfold _shake_N4. intros H.
  destruct (2 <=? Z.of_nat (List.length (dict_keys (patients data))));
    [|inversion H; subst; apply keeps_refl].
  apply bindM_Ok in H. destruct H as [pids [w1 [_ H]]].
  destruct pids as [|p1_id [|p2_id [|? ?]]]; try discriminate.
  apply bindM_Ok in H. destruct H as [p1 [w2 [Hp1 H]]].
  apply liftR_Ok in Hp1. destruct Hp1 as [Hp1 ->].
  apply bindM_Ok in H. destruct H as [p2 [w3 [Hp2 H]]].
  apply liftR_Ok in Hp2. destruct Hp2 as [Hp2 ->].
  apply bindM_Ok in H. destruct H as [a1 [w4 [Ha1 H]]].
  apply liftR_Ok in Ha1. destruct Ha1 as [Ha1 ->].
  apply bindM_Ok in H. destruct H as [a2 [w5 [Ha2 H]]].
  apply liftR_Ok in Ha2. destruct Ha2 as [Ha2 ->].
  match type of H with (if ?c then _ else _) _ = _ => destruct c eqn:E end;
    [|inversion H; subst; apply keeps_refl].
  inversion H; subst; clear H.
  rewrite !andb_true_iff in E. destruct E as [[[[[E1 E2] E3] E4] E5] E6].
  apply str_in_In in E1. apply str_in_In in E2.
  apply Z.leb_le in E3. apply Z.leb_le in E4. apply Z.leb_le in E5. apply Z.leb_le in E6.
  unfold day_bound in *.
  eapply keeps_trans.
  - apply (dict_set_keeps data allocation p1_id p1 a2); auto.
    exact (dict_get_keys _ _ _ Ha1).
  - apply (dict_set_keeps data _ p2_id p2 a1); auto.
    rewrite dict_set_keys; [|exact (dict_get_keys _ _ _ Ha1)].
    exact (dict_get_keys _ _ _ Ha2).
Qed.

Lemma shake_keeps allocation k w a' w' :
  _shake data allocation k w = Ok (a', w') -> keeps data allocation a'.
Proof.
  unfold _shake. intros H.
  destruct (k =? 1); [exact (shake_N1_keeps _ _ _ _ H)|].
  destruct (k =? 2); [exact (shake_N2_keeps _ _ _ _ H)|].
  destruct (k =? 3); [exact (shake_N3_keeps _ _ _ _ H)|].
  exact (shake_N4_keeps _ _ _ _ H).
Qed.

End ShakeFacts.

Lemma mapR_spec {A B} (f : A -> result B) (l : list A) (r : list B) :
  IteratedLocalSearch.mapR f l = Ok r ->
  (forall x, In x l -> exists y, f x = Ok y)
  /\ (forall y, In y r -> exists x, In x l /\ f x = Ok y).
Proof.
  unfold IteratedLocalSearch.mapR.
  assert (G : forall acc r,
             foldM (fun acc x => y <- f x ;; Ok (acc ++ [y])) l acc = Ok r ->
             (forall x, In x l -> exists y, f x = Ok y)
             /\ (forall y, In y r -> In y acc \/ exists x, In x l /\ f x = Ok y)).
  { induction l as [|x l IH]; intros acc r0 H; simpl in H.
    - inversion H; subst. split; [intros x [] | auto].
    - apply bindR_Ok in H. destruct H as [acc1 [H1 H2]].
      apply bindR_Ok in H1. destruct H1 as [y [Hy H1]]. inversion H1; subst acc1.
      destruct (IH _ _ H2) as [Ha Hb]. split.
      + intros x0 [<-|Hx]; [now exists y | now apply Ha].
      + intros y0 Hy0. destruct (Hb y0 Hy0) as [Hin|[x0 [Hx0 Hf]]].
        * apply in_app_or in Hin. destruct Hin as [Hin|[<-|[]]]; [now left|].
          right. exists x. split; [now left | exact Hy].
        * right. exists x0. split; [now right | exact Hf]. }
  intros H. destruct (G [] r H) as [Ha Hb]. split; [exact Ha|].
  intros y Hy. destruct (Hb y Hy) as [[]|Hx]. exact Hx.
Qed.

Lemma sort_by_In {A} (lt : A -> A -> bool) (l : list A) (x : A) :
  In x (sort_by lt l) -> In x l.
Proof.
  intros H.
  assert (HF : Forall (fun y => In y l) (sort_by lt l)).
  { apply TabuFacts.tabu_sort_by_Forall. apply Forall_forall. auto. }
  rewrite Forall_forall in HF. exact (HF x H).
Qed.

Lemma firstn_In {A} (n : nat) (l : list A) (x : A) : In x (firstn n l) -> In x l.
Proof.
  revert l. induction n as [|n IH]; intros [|y l]; simpl; try tauto.
  intros [H|H]; [now left | right; now apply IH].
Qed.

Section PerturbationFacts.

Import IteratedLocalSearch.

Variable data : PatientAllocationData.

Lemma worst_contributors_spec allocation intensity worst :
  worst_contributors data allocation intensity = Ok worst ->
  (forall pid p, In (pid, p) (patients data) -> In pid (dict_keys allocation))
  /\ incl worst (dict_keys (patients data)).
Proof.
  unfold worst_contributors. intros H.
  apply bindR_Ok in H. destruct H as [l [Hl H]]. inversion H; subst worst; clear H.
  apply mapR_spec in Hl. destruct Hl as [Ha Hb]. split.
  - intros pid p Hin. destruct (Ha _ Hin) as [y Hy]. simpl in Hy.
    apply bindR_Ok in Hy. destruct Hy as [a [Hget _]]. exact (dict_get_keys _ _ _ Hget).
  - intros pid Hin. apply in_map_iff in Hin. destruct Hin as [[dl pid'] [E Hin]].
    simpl in E. subst pid'. apply firstn_In in Hin. apply sort_by_In in Hin.
    destruct (Hb _ Hin) as [[pid0 p0] [Hin0 Hf]]. simpl in Hf.
    apply bindR_Ok in Hf. destruct Hf as [a [_ Hf]]. inversion Hf; subst.
    change (In (fst (pid, p0)) (map fst (patients data))). now apply in_map.
Qed.

Lemma reassign_keeps perturbed pid w a' w' :
  In pid (dict_keys perturbed) ->
  reassign data perturbed pid w = Ok (a', w') -> keeps data perturbed a'.
Proof.
  unfold reassign. intros Hk H.
  apply bindM_Ok in H. destruct H as [p [w1 [Hp H]]].
  apply liftR_Ok in Hp. destruct Hp as [Hp ->].
  apply bindM_Ok in H. destruct H as [nw [w2 [Hc H]]]. apply random_choice_In in Hc.
  apply bindM_Ok in H. destruct H as [nd [w3 [Hr H]]]. apply random_randint_range in Hr.
  inversion H; subst. apply (dict_set_keeps data perturbed pid p); auto.
Qed.

Lemma reassign_fold_keeps keys l a w a' w' :
  (forall pid, In pid l -> In pid keys) ->
  dict_keys a = keys ->
  foldMM (reassign data) l a w = Ok (a', w') -> keeps data a a'.
Proof.
  revert a w. induction l as [|x l IH]; intros a w Hl Hk H; simpl in H.
  - inversion H. apply keeps_refl.
  - apply bindM_Ok in H. destruct H as [a1 [w1 [H1 H2]]].
    assert (K1 : keeps data a a1).
    { eapply reassign_keeps; [|exact H1]. rewrite Hk. apply Hl. now left. }
    eapply keeps_trans; [exact K1|].
    eapply IH; [| |exact H2].
    + intros pid Hpid. apply Hl. now right.
    + destruct K1 as [K1 _]. congruence.
Qed.

Lemma perturbation_keeps allocation intensity w a' w' :
  _perturbation_mixed data allocation intensity w = Ok (a', w') -> keeps data allocation a'.
Proof.
  unfold _perturbation_mixed. intros H.
  apply bindM_Ok in H. destruct H as [worst [w1 [Hw H]]].
  apply liftR_Ok in Hw. destruct Hw as [Hw ->].
  apply worst_contributors_spec in Hw. destruct Hw as [Hall Hworst].
  apply bindM_Ok in H. destruct H as [rnd [w2 [Hs H]]]. apply random_sample_incl in Hs.
  eapply (reassign_fold_keeps (dict_keys allocation)); [|reflexivity|exact H].
  intros pid Hin. apply in_app_or in Hin.
  assert (Hk : In pid (dict_keys (patients data))) by (destruct Hin; auto).
  apply in_map_iff in Hk. destruct Hk as [[pid' p] [E Hk]]. simpl in E. subst pid'.
  exact (Hall _ _ Hk).
Qed.

End PerturbationFacts.






(** ** What ILS and VNS return *)

Lemma ils_iteration_keeps data lambda1 lambda2 penalty_weight start st w st' b w' :
  keeps data start (IteratedLocalSearch.current st)
  /\ keeps data start (IteratedLocalSearch.best_feasible_allocation st) ->
  IteratedLocalSearch.iteration data lambda1 lambda2 penalty_weight st w = Ok ((st', b), w') ->
  keeps data start (IteratedLocalSearch.current st')
  /\ keeps data start (IteratedLocalSearch.best_feasible_allocation st').
Proof.
  intros [Hc Hb] H. apply ILSFacts.ils_iteration_spec in H.
  destruct H as [[-> _]|[[res val] [w1 [w2 [st1 [st2 [Hls [Hrb [Hst Hend]]]]]]]]].
  - simpl. auto.
  - apply local_search_fast_keeps in Hls. destruct Hls as [Hk Hp].
    assert (Hres : keeps data start res).
    { eapply keeps_trans; [exact Hc|]. split; assumption. }
    apply ILSFacts.ils_record_best_spec in Hrb. simpl in Hrb. destruct Hrb as [Hcur Hrb].
    assert (H1 : keeps data start (IteratedLocalSearch.current st1)
                 /\ keeps data start (IteratedLocalSearch.best_feasible_allocation st1)).
    { rewrite Hcur. split; [exact Hres|].
      destruct Hrb as [[-> _]|[_ [_ [_ [-> _]]]]]; assumption. }
    destruct H1 as [Hc1 Hb1].
    apply ILSFacts.ils_stagnation_spec in Hst. destruct Hst as [Ha [_ Hst]].
    assert (H2 : keeps data start (IteratedLocalSearch.current st2)
                 /\ keeps data start (IteratedLocalSearch.best_feasible_allocation st2)).
    { rewrite Ha. split; [|exact Hb1].
      destruct Hst as [[_ [-> _]]|[_ [_ [_ Hp']]]]; [exact Hc1|].
      eapply keeps_trans; [exact Hb1|]. exact (perturbation_keeps _ _ _ _ _ _ Hp'). }
    destruct Hend as [[_ [-> _]]|[_ [-> _]]]; simpl; exact H2.
Qed.

Lemma vns_iteration_keeps data lambda1 lambda2 penalty_weight start st w st' b w' :
  keeps data start (VariableNeighborhoodSearch.current st)
  /\ keeps data start (VariableNeighborhoodSearch.best_feasible_allocation st) ->
  VariableNeighborhoodSearch.iteration data lambda1 lambda2 penalty_weight st w
  = Ok ((st', b), w') ->
  keeps data start (VariableNeighborhoodSearch.current st')
  /\ keeps data start (VariableNeighborhoodSearch.best_feasible_allocation st').
Proof.
  intros [Hc Hb] H. apply VNSFacts.vns_iteration_spec in H.
  destruct H as [[-> _]|[shaken [[res val] [w1 [w2 [st1 [Hsh [Hls [Hacc [-> _]]]]]]]]]].
  - auto.
  - apply shake_keeps in Hsh.
    apply local_search_fast_keeps in Hls. destruct Hls as [Hk Hp].
    assert (Hres : keeps data start res).
    { eapply keeps_trans; [exact Hc|]. eapply keeps_trans; [exact Hsh|]. split; assumption. }
    apply VNSFacts.vns_accept_spec in Hacc. destruct Hacc as [_ Hacc]. simpl in Hacc.
    simpl.
    destruct Hacc as [[v [_ [-> [-> _]]]]|[_ [-> [-> _]]]]; auto.
Qed.

(** Property X9.  The allocation that [solve] of ILS and of VNS returns has an entry for
    exactly the patients of the seed, in the same order; and when the seed
    has every patient inside its window and on a compatible ward, so has the
    result. *)
Theorem search_keeps_patients_and_windows :
  (forall data lambda1 lambda2 penalty_weight start n w r w',
      IteratedLocalSearch.solve data lambda1 lambda2 penalty_weight start n w = Ok (r, w') ->
      dict_keys (r_allocation r) = dict_keys start
      /\ (all_placements_ok data start -> all_placements_ok data (r_allocation r)))
  /\ (forall data lambda1 lambda2 penalty_weight start n w r w',
         VariableNeighborhoodSearch.solve data lambda1 lambda2 penalty_weight start n w
         = Ok (r, w') ->
         dict_keys (r_allocation r) = dict_keys start
         /\ (all_placements_ok data start -> all_placements_ok data (r_allocation r))).
Proof.
  split.
  - intros data lambda1 lambda2 penalty_weight start n w r w' H.
    apply ils_solve_spec in H. destruct H as [st0 [st [H0 [Hl ->]]]]. simpl.
    apply ILSFacts.ils_initial_state_spec in H0. destruct H0 as [_ [Hc [Hb _]]].
    apply (for_loop_invariant
             (fun st => keeps data start (IteratedLocalSearch.current st)
                        /\ keeps data start (IteratedLocalSearch.best_feasible_allocation st)))
      in Hl.
    + exact (proj2 Hl).
    + intros s w0 s' b w1 Hs Hi. exact (ils_iteration_keeps _ _ _ _ _ _ _ _ _ _ Hs Hi).
    + rewrite Hc, Hb. split; apply keeps_refl.
  - intros data lambda1 lambda2 penalty_weight start n w r w' H.
    apply vns_solve_spec in H. destruct H as [st0 [st [H0 [Hl ->]]]]. simpl.
    apply VNSFacts.vns_initial_state_spec in H0. destruct H0 as [_ [Hc [Hb _]]].
    apply (for_loop_invariant
             (fun st => keeps data start (VariableNeighborhoodSearch.current st)
                        /\ keeps data start
                             (VariableNeighborhoodSearch.best_feasible_allocation st)))
      in Hl.
    + exact (proj2 Hl).
    + intros s w0 s' b w1 Hs Hi. exact (vns_iteration_keeps _ _ _ _ _ _ _ _ _ _ Hs Hi).
    + rewrite Hc, Hb. split; apply keeps_refl.
Qed.

Lemma search_keeps_patients_and_windows_witness :
  exists r w',
    VariableNeighborhoodSearch.solve demo_data default_lambda default_lambda
      default_penalty_weight demo_start 10 world7 = Ok (r, w')
    /\ dict_keys (r_allocation r) = dict_keys demo_start.
Proof.
  do 2 eexists.
  match goal with |- ?A /\ _ => assert (H : A) by (vm_compute; reflexivity) end.
  split; [exact H|].
  exact (proj1 (proj2 search_keeps_patients_and_windows _ _ _ _ _ _ _ _ _ H)).
Defined.

(** ** The constructive heuristic *)

Lemma allM_true_inv {A} (f : A -> result bool) (l : list A) :
  allM f l = Ok true -> forall x, In x l -> f x = Ok true.
Proof.
  induction l as [|y r IH]; simpl; intros H x Hx; [contradiction|].
  apply bindR_Ok in H. destruct H as [b [Hb H]]. destruct b; [|discriminate].
  destruct Hx as [<-|Hx]; [exact Hb | exact (IH H x Hx)].
Qed.

Lemma allM_false_inv {A} (f : A -> result bool) (l : list A) :
  allM f l = Ok false -> exists x, In x l /\ f x = Ok false.
Proof.
  induction l as [|y r IH]; simpl; intros H; [discriminate|].
  apply bindR_Ok in H. destruct H as [b [Hb H]]. destruct b.
  - destruct (IH H) as [x [Hx Hf]]. exists x. split; [now right | exact Hf].
  - exists y. split; [now left | exact Hb].
Qed.

Lemma findM_Some {A} (f : A -> result bool) (l : list A) (x : A) :
  findM f l = Ok (Some x) -> In x l /\ f x = Ok true.
Proof.
  induction l as [|y r IH]; simpl; intros H; [discriminate|].
  apply bindR_Ok in H. destruct H as [b [Hb H]]. destruct b.
  - inversion H; subst. split; [now left | exact Hb].
  - destruct (IH H) as [Hx Hf]. split; [now right | exact Hf].
Qed.

Lemma findM_None {A} (f : A -> result bool) (l : list A) :
  findM f l = Ok None -> forall x, In x l -> f x = Ok false.
Proof.
  induction l as [|y r IH]; simpl; intros H x Hx; [contradiction|].
  apply bindR_Ok in H. destruct H as [b [Hb H]]. destruct b; [discriminate|].
  destruct Hx as [<-|Hx]; [exact Hb | exact (IH H x Hx)].
Qed.

Lemma first_fit_Some data alloc p ws w d :
  first_fit data alloc p ws = Ok (Some (w, d)) ->
  In w ws /\ In d (window_days data p)
  /\ exists wd, dict_get (wards data) w = Ok wd
                /\ stay_free data alloc w (bed_capacity wd) (los p) d = Ok true.
Proof.
  induction ws as [|w0 r IH]; simpl; intros H; [discriminate|].
  apply bindR_Ok in H. destruct H as [wd [Hwd H]].
  apply bindR_Ok in H. destruct H as [od [Hod H]].
  destruct od as [d0|].
  - inversion H; subst. apply findM_Some in Hod. destruct Hod as [Hd Hs].
    split; [now left|]. split; [exact Hd|]. exists wd. auto.
  - destruct (IH H) as [Hw [Hd He]]. split; [now right | auto].
Qed.

Lemma first_fit_None data alloc p ws :
  first_fit data alloc p ws = Ok None ->
  forall w, In w ws ->
    exists wd, dict_get (wards data) w = Ok wd
               /\ forall d, In d (window_days data p) ->
                            stay_free data alloc w (bed_capacity wd) (los p) d = Ok false.
Proof.
  induction ws as [|w0 r IH]; simpl; intros H w Hw; [contradiction|].
  apply bindR_Ok in H. destruct H as [wd [Hwd H]].
  apply bindR_Ok in H. destruct H as [od [Hod H]].
  destruct od as [d0|]; [discriminate|].
  destruct Hw as [<-|Hw]; [|exact (IH H w Hw)].
  exists wd. split; [exact Hwd|]. exact (findM_None _ _ Hod).
Qed.

Lemma compatible_ward_In data p w :
  In w (compatible_wards_for_patient data p) -> exists wd, In (w, wd) (wards data).
Proof.
  unfold compatible_wards_for_patient. intros H. apply in_map_iff in H.
  destruct H as [[w' wd] [E H]]. simpl in E. subst w'. apply filter_In in H.
  exists wd. tauto.
Qed.

Lemma spec_occupancy_app data alloc kv wname w d :
  spec_occupancy data (alloc ++ [kv]) wname w d
  = spec_occupancy data alloc wname w d + (if resident data wname d kv then 1 else 0).
Proof.
  unfold spec_occupancy. rewrite filter_app, length_app. simpl.
  destruct (resident data wname d kv); simpl; lia.
Qed.

Lemma insert_by_perm {A} (lt : A -> A -> bool) (x : A) (l : list A) :
  Permutation (insert_by lt x l) (x :: l).
Proof.
  induction l as [|y r IH]; simpl; [apply Permutation_refl|].
  destruct (lt y x); [|apply Permutation_refl].
  eapply Permutation_trans; [apply perm_skip; exact IH | apply perm_swap].
Qed.

Lemma sort_by_perm {A} (lt : A -> A -> bool) (l : list A) : Permutation (sort_by lt l) l.
Proof.
  induction l as [|x r IH]; simpl; [apply Permutation_refl|].
  eapply Permutation_trans; [apply insert_by_perm | apply perm_skip; exact IH].
Qed.

Lemma known_of_placements data alloc : all_placements_ok data alloc -> known_patients data alloc.
Proof.
  intros H pid a Hin. destruct (H pid a Hin) as [p [Hp _]]. now exists p.
Qed.

Section Construction.

Variable data : PatientAllocationData.
Hypothesis Hwf : wf_data data = true.

Lemma capacity_ok_of_feasible alloc :
  all_placements_ok data alloc ->
  feasible_after_change_beds data alloc None = Ok true -> spec_capacity_ok data alloc.
Proof.
  intros Hok Hf.
  exact (proj1 (feasible_iff_capacity_ok data alloc Hwf (known_of_placements _ _ Hok)) Hf).
Qed.

(** Committing a placement found by the first-fit scan. *)
Lemma commit_first_fit alloc pid p w d :
  In (pid, p) (patients data) ->
  ~ In pid (dict_keys alloc) ->
  construction_ok data alloc ->
  first_fit data alloc p (compatible_wards_for_patient data p) = Ok (Some (w, d)) ->
  construction_ok data (commit alloc pid (w, d)).
Proof.
  intros Hin Hnew [Hok Hcap] Hff.
  apply first_fit_Some in Hff. destruct Hff as [Hw [Hd [wd [Hwd Hfree]]]].
  pose proof (dict_get_NoDup _ _ _ (wf_data_patients _ Hwf) Hin) as Hp.
  unfold commit. simpl. rewrite (dict_set_absent _ _ _ Hnew).
  split.
  - intros pid' a' Hin'. apply in_app_or in Hin'. destruct Hin' as [Hin'|[Heq|[]]].
    + exact (Hok _ _ Hin').
    + inversion Heq; subst pid' a'. exists p. simpl.
      split; [exact Hp|]. split; [exact (window_days_bound _ _ _ Hd) | exact Hw].
  - intros wname wr d' Hwr Hd'. rewrite spec_occupancy_app.
    destruct (resident data wname d' (pid, {| ward := w; day := d |})) eqn:Er;
      [|specialize (Hcap wname wr d' Hwr Hd'); lia].
    unfold resident in Er. simpl in Er. rewrite Hp in Er.
    apply andb_prop in Er. destruct Er as [Ew Es]. apply String.eqb_eq in Ew. subst wname.
    unfold in_stay in Es. simpl in Es. apply andb_prop in Es. destruct Es as [Es1 Es2].
    apply Z.leb_le in Es1. apply Z.ltb_lt in Es2.
    assert (wd = wr).
    { pose proof (wf_data_ward_get _ _ _ Hwf Hwr). congruence. }
    subst wd.
    unfold stay_free in Hfree.
    pose proof (allM_true_inv _ _ Hfree d') as Hday.
    rewrite in_range in Hday. specialize (Hday ltac:(lia)).
    rewrite (count_beds_spec data alloc Hwf (known_of_placements _ _ Hok) w wr d' Hwr Hd')
      in Hday.
    simpl in Hday. inversion Hday as [Hlt]. apply negb_true_iff in Hlt.
    apply Z.leb_gt in Hlt. lia.
Qed.

Lemma repair_try_ok alloc candidates tried max_shifts b alloc' :
  construction_ok data alloc ->
  repair_try data alloc candidates tried max_shifts = Ok (b, alloc') ->
  construction_ok data alloc' /\ dict_keys alloc' = dict_keys alloc.
Proof.
  intros Hc. revert tried. induction candidates as [|pid r IH]; intros tried H; simpl in H.
  - inversion H; subst. auto.
  - destruct (max_shifts <=? tried); [inversion H; subst; auto|].
    apply bindR_Ok in H. destruct H as [p [Hp H]].
    apply bindR_Ok in H. destruct H as [a [Ha H]].
    destruct (Z.leb_spec (day a + 1) (Z.min (latest p) (num_days data - 1))) as [Hle|_];
      [|exact (IH _ H)].
    apply bindR_Ok in H. destruct H as [trial [Ht H]].
    apply bindR_Ok in H. destruct H as [f [Hf H]].
    destruct f; [|exact (IH _ H)].
    inversion H; subst b alloc'; clear H.
    destruct Hc as [Hok Hcap].
    destruct (Hok pid a (dict_get_In _ _ _ Ha)) as [p' [Hp' [Hd _]]].
    assert (p' = p) by congruence. subst p'.
    assert (Hk : keeps data alloc trial).
    { eapply set_day_keeps; [exact Hp | | exact Ht]. lia. }
    destruct Hk as [Hkeys Hpl]. split; [|exact Hkeys].
    split; [exact (Hpl Hok)|]. exact (capacity_ok_of_feasible _ (Hpl Hok) Hf).
Qed.

Lemma tiny_repair_ok alloc ward_name congested_day max_shifts w b alloc' w' :
  construction_ok data alloc ->
  _tiny_repair_shift_same_ward_day_forward data alloc ward_name congested_day max_shifts w
  = Ok ((b, alloc'), w') ->
  construction_ok data alloc' /\ dict_keys alloc' = dict_keys alloc.
Proof.
  intros Hc H. unfold _tiny_repair_shift_same_ward_day_forward in H.
  apply bindM_Ok in H. destruct H as [c [w1 [_ H]]].
  apply bindM_Ok in H. destruct H as [c' [w2 [_ H]]].
  apply liftR_Ok in H. destruct H as [H _]. exact (repair_try_ok _ _ _ _ _ _ Hc H).
Qed.

Lemma repair_stay_ok wn day_checks alloc w alloc' w' :
  construction_ok data alloc ->
  repair_stay data wn day_checks alloc w = Ok (alloc', w') ->
  construction_ok data alloc' /\ dict_keys alloc' = dict_keys alloc.
Proof.
  revert alloc w. induction day_checks as [|dc r IH]; intros alloc w Hc H; simpl in H.
  - inversion H; subst. auto.
  - apply bindM_Ok in H. destruct H as [used [w1 [_ H]]].
    apply bindM_Ok in H. destruct H as [wd [w2 [_ H]]].
    destruct (bed_capacity wd <=? used); [|exact (IH _ _ Hc H)].
    apply bindM_Ok in H. destruct H as [[ok a1] [w3 [Ht H]]].
    destruct (tiny_repair_ok _ _ _ _ _ _ _ _ Hc Ht) as [Hc1 Hk1].
    destruct ok.
    + inversion H; subst. auto.
    + destruct (IH _ _ Hc1 H) as [Hc2 Hk2]. split; [exact Hc2 | congruence].
Qed.

Lemma foldMM_ok {A} (f : Allocation -> A -> M Allocation) (l : list A) :
  (forall a x w a' w', construction_ok data a -> f a x w = Ok (a', w') ->
                       construction_ok data a' /\ dict_keys a' = dict_keys a) ->
  forall a w a' w', construction_ok data a -> foldMM f l a w = Ok (a', w') ->
                    construction_ok data a' /\ dict_keys a' = dict_keys a.
Proof.
  intros Hf. induction l as [|x r IH]; intros a w a' w' Hc H; simpl in H.
  - inversion H; subst. auto.
  - apply bindM_Ok in H. destruct H as [a1 [w1 [H1 H2]]].
    destruct (Hf _ _ _ _ _ Hc H1) as [Hc1 Hk1].
    destruct (IH _ _ _ _ Hc1 H2) as [Hc2 Hk2]. split; [exact Hc2 | congruence].
Qed.

Lemma repair_pass_ok alloc p ws w alloc' w' :
  construction_ok data alloc ->
  repair_pass data alloc p ws w = Ok (alloc', w') ->
  construction_ok data alloc' /\ dict_keys alloc' = dict_keys alloc.
Proof.
  unfold repair_pass. apply foldMM_ok. intros a wn w0 a' w1 Hc.
  apply foldMM_ok; [|exact Hc]. intros a0 d w2 a1 w3 Hc0 H.
  exact (repair_stay_ok _ _ _ _ _ _ Hc0 H).
Qed.

(** A placement that the fallback scan returns passed the capacity check. *)
Lemma fallback_scan_Some alloc pid p ws best w d :
  fallback_scan data alloc pid p ws = Ok (best, Some (w, d)) ->
  In w ws /\ In d (window_days data p)
  /\ feasible_after_change_beds data alloc (Some (pid, w, d)) = Ok true.
Proof.
  unfold fallback_scan.
  rewrite (foldM_nested
             (fun (best : fl * option (string * Z)) w d =>
                score <- _score_trial data alloc pid w d default_lambda default_lambda ;;
                Ok (if fl_ltb score (fst best) then (score, Some (w, d)) else best))).
  intros H.
  assert (Hinv : forall w1 d1, snd (best, Some (w, d)) = Some (w1, d1) ->
                   In (w1, d1) (list_prod ws (window_days data p))
                   /\ feasible_after_change_beds data alloc (Some (pid, w1, d1)) = Ok true).
  { refine (foldM_invariant
              (fun st : fl * option (string * Z) =>
                 forall w d, snd st = Some (w, d) ->
                   In (w, d) (list_prod ws (window_days data p))
                   /\ feasible_after_change_beds data alloc (Some (pid, w, d)) = Ok true)
              _ _ _ _ _ _ H).
    - intros st [w0 d0] st' Hin Hst Hstep. simpl in Hstep.
      apply bindR_Ok in Hstep. destruct Hstep as [score [Hs Hstep]].
      destruct (fl_ltb score (fst st)) eqn:E; inversion Hstep; subst st'; [|exact Hst].
      intros w1 d1 Heq. simpl in Heq. inversion Heq; subst w1 d1. split; [exact Hin|].
      unfold _score_trial in Hs. apply bindR_Ok in Hs. destruct Hs as [f [Hf Hs]].
      destruct f; [exact Hf|]. simpl in Hs. inversion Hs; subst score.
      destruct (fst st); discriminate.
    - intros w0 d0 Heq. discriminate. }
  destruct (Hinv w d eq_refl) as [Hin Hf]. apply in_prod_iff in Hin. tauto.
Qed.

Lemma commit_fallback alloc pid p w d :
  In (pid, p) (patients data) ->
  construction_ok data alloc ->
  In w (compatible_wards_for_patient data p) -> In d (window_days data p) ->
  feasible_after_change_beds data alloc (Some (pid, w, d)) = Ok true ->
  construction_ok data (commit alloc pid (w, d)).
Proof.
  intros Hin [Hok Hcap] Hw Hd Hf.
  pose proof (dict_get_NoDup _ _ _ (wf_data_patients _ Hwf) Hin) as Hp.
  assert (Hok' : all_placements_ok data (commit alloc pid (w, d))).
  { intros pid' a' Hin'. unfold commit in Hin'. simpl in Hin'.
    apply dict_set_In in Hin'. destruct Hin' as [Heq|Hin']; [|exact (Hok _ _ Hin')].
    inversion Heq; subst pid' a'. exists p. simpl.
    split; [exact Hp|]. split; [exact (window_days_bound _ _ _ Hd) | exact Hw]. }
  split; [exact Hok'|].
  apply (capacity_ok_of_feasible _ Hok'). exact Hf.
Qed.

Lemma commit_keys alloc pid wd :
  ~ In pid (dict_keys alloc) -> dict_keys (commit alloc pid wd) = dict_keys alloc ++ [pid].
Proof.
  intros H. unfold commit. rewrite (dict_set_absent _ _ _ H).
  unfold dict_keys. rewrite map_app. reflexivity.
Qed.

Lemma place_patient_ok alloc pid p w alloc' w' :
  In (pid, p) (patients data) ->
  ~ In pid (dict_keys alloc) ->
  construction_ok data alloc ->
  place_patient data alloc (pid, p) w = Ok (alloc', w') ->
  construction_ok data alloc' /\ dict_keys alloc' = dict_keys alloc ++ [pid].
Proof.
  intros Hin Hnew Hc H. unfold place_patient in H.
  apply bindM_Ok in H. destruct H as [ff [w1 [Hff H]]].
  apply liftR_Ok in Hff. destruct Hff as [Hff ->].
  destruct ff as [[w0 d0]|].
  { inversion H; subst. split; [exact (commit_first_fit _ _ _ _ _ Hin Hnew Hc Hff)|].
    exact (commit_keys _ _ _ Hnew). }
  apply bindM_Ok in H. destruct H as [alloc1 [w2 [Hrp H]]].
  destruct (repair_pass_ok _ _ _ _ _ _ Hc Hrp) as [Hc1 Hk1].
  assert (Hnew1 : ~ In pid (dict_keys alloc1)) by (rewrite Hk1; exact Hnew).
  apply bindM_Ok in H. destruct H as [ff2 [w3 [Hff2 H]]].
  apply liftR_Ok in Hff2. destruct Hff2 as [Hff2 ->].
  destruct ff2 as [[w0 d0]|].
  { inversion H; subst. split; [exact (commit_first_fit _ _ _ _ _ Hin Hnew1 Hc1 Hff2)|].
    rewrite (commit_keys _ _ _ Hnew1). congruence. }
  apply bindM_Ok in H. destruct H as [[best fb] [w4 [Hfb H]]].
  apply liftR_Ok in Hfb. destruct Hfb as [Hfb ->].
  simpl in H. destruct fb as [[w0 d0]|]; [|discriminate].
  inversion H; subst.
  apply fallback_scan_Some in Hfb. destruct Hfb as [Hw [Hd Hf]].
  split; [exact (commit_fallback _ _ _ _ _ Hin Hc1 Hw Hd Hf)|].
  rewrite (commit_keys _ _ _ Hnew1). congruence.
Qed.

Lemma place_all_ok (l : list (string * Patient)) :
  forall alloc w alloc' w',
    incl l (patients data) ->
    NoDup (dict_keys alloc ++ dict_keys l) ->
    construction_ok data alloc ->
    foldMM (place_patient data) l alloc w = Ok (alloc', w') ->
    construction_ok data alloc' /\ dict_keys alloc' = dict_keys alloc ++ dict_keys l.
Proof.
  induction l as [|[pid p] r IH]; intros alloc w alloc' w' Hi Hnd Hc H; simpl in H.
  - inversion H; subst. simpl. rewrite app_nil_r. auto.
  - apply bindM_Ok in H. destruct H as [a1 [w1 [H1 H2]]].
    assert (Hnew : ~ In pid (dict_keys alloc)).
    { simpl in Hnd. apply NoDup_remove_2 in Hnd. intros Hin. apply Hnd.
      apply in_or_app. now left. }
    destruct (place_patient_ok _ _ _ _ _ _ (Hi _ (or_introl eq_refl)) Hnew Hc H1) as [Hc1 Hk1].
    destruct (IH a1 w1 alloc' w') as [Hc2 Hk2]; auto.
    + intros x Hx. apply Hi. now right.
    + rewrite Hk1, <- app_assoc. exact Hnd.
    + split; [exact Hc2|]. rewrite Hk2, Hk1, <- app_assoc. reflexivity.
Qed.

End Construction.

Lemma construction_facts data w alloc w' :
  wf_data data = true ->
  feasible_after_change_beds data [] None = Ok true ->
  greedy_feasible_by_window_strict data w = Ok (alloc, w') ->
  dict_keys alloc = dict_keys (patients_order data)
  /\ total_allocation data alloc = true
  /\ all_placements_ok data alloc
  /\ feasible_after_change_beds data alloc None = Ok true.
Proof.
  intros Hwf Hempty H. unfold greedy_feasible_by_window_strict in H.
  pose proof (sort_by_perm (fun a b => triple_ltb (greedy_key a) (greedy_key b))
                (patients data)) as Hperm. fold (patients_order data) in Hperm.
  assert (Hnd : NoDup (dict_keys (patients_order data))).
  { eapply Permutation_NoDup; [|exact (wf_data_patients _ Hwf)].
    apply Permutation_map. apply Permutation_sym. exact Hperm. }
  destruct (place_all_ok data Hwf (patients_order data) [] w alloc w') as [[Hok Hcap] Hk]; auto.
  - intros x Hx. eapply Permutation_in; [exact Hperm | exact Hx].
  - assert (Hnil : all_placements_ok data []) by (intros pid a []).
    split; [exact Hnil | exact (capacity_ok_of_feasible data Hwf [] Hnil Hempty)].
  - simpl in Hk. split; [exact Hk|]. split; [|split; [exact Hok|]].
    + unfold total_allocation. rewrite Hk. rewrite !andb_true_iff. split; [split|].
      * clear -Hnd. induction Hnd as [|x l Hx Hl IH]; simpl; [reflexivity|].
        rewrite IH, andb_true_r. apply negb_true_iff.
        destruct (str_in x l) eqn:E; [|reflexivity]. apply str_in_In in E. contradiction.
      * apply forallb_forall. intros k Hin. apply dict_mem_In.
        eapply Permutation_in; [|exact Hin]. apply Permutation_map. exact Hperm.
      * apply forallb_forall. intros k Hin. apply dict_mem_In. rewrite Hk.
        eapply Permutation_in; [|exact Hin]. apply Permutation_map.
        apply Permutation_sym. exact Hperm.
    + apply (feasible_iff_capacity_ok data alloc Hwf (known_of_placements _ _ Hok)).
      exact Hcap.
Qed.

(** Property X2.  When the carried-over patients alone fit the beds, an allocation that
    the constructive heuristic returns has one entry per patient, in the
    order of the construction; every patient is inside its window and the
    horizon and on a compatible ward; and the allocation passes the
    bed-capacity check. *)
Theorem construction_is_feasible data w alloc w' :
  wf_data data = true ->
  feasible_after_change_beds data [] None = Ok true ->
  greedy_feasible_by_window_strict data w = Ok (alloc, w') ->
  dict_keys alloc = dict_keys (patients_order data)
  /\ total_allocation data alloc = true
  /\ all_placements_ok data alloc
  /\ feasible_after_change_beds data alloc None = Ok true.
Proof. exact (construction_facts data w alloc w'). Qed.

Lemma construction_is_feasible_witness :
  exists alloc w',
    greedy_feasible_by_window_strict demo_data world1 = Ok (alloc, w')
    /\ dict_keys alloc = dict_keys (patients_order demo_data)
    /\ total_allocation demo_data alloc = true
    /\ all_placements_ok demo_data alloc
    /\ feasible_after_change_beds demo_data alloc None = Ok true.
Proof.
  do 2 eexists.
  match goal with |- ?A /\ _ => assert (H : A) by (vm_compute; reflexivity) end.
  split; [exact H|].
  exact (construction_is_feasible demo_data world1 _ _ eq_refl eq_refl H).
Defined.

(** ** The last resort of the construction *)

Section Fallback.

Variable data : PatientAllocationData.
Hypothesis Hwf : wf_data data = true.

Lemma first_fit_none_blocks alloc pid p w d :
  In (pid, p) (patients data) ->
  0 <= earliest p ->
  all_placements_ok data alloc ->
  ~ In pid (dict_keys alloc) ->
  first_fit data alloc p (compatible_wards_for_patient data p) = Ok None ->
  In w (compatible_wards_for_patient data p) -> In d (window_days data p) ->
  feasible_after_change_beds data alloc (Some (pid, w, d)) = Ok false.
Proof.
  intros Hin Hearly Hok Hnew Hff Hw Hd.
  pose proof (dict_get_NoDup _ _ _ (wf_data_patients _ Hwf) Hin) as Hp.
  destruct (first_fit_None _ _ _ _ Hff w Hw) as [wd [Hwd Hblocked]].
  specialize (Hblocked d Hd). unfold stay_free in Hblocked.
  apply allM_false_inv in Hblocked. destruct Hblocked as [dc [Hdc Hfull]].
  apply in_range in Hdc.
  pose proof (window_days_bound _ _ _ Hd) as Hdb.
  assert (Hrange : 0 <= dc < num_days data) by lia.
  pose proof (dict_get_In _ _ _ Hwd) as Hwin.
  rewrite (count_beds_spec data alloc Hwf (known_of_placements _ _ Hok) w wd dc Hwin Hrange)
    in Hfull.
  simpl in Hfull.
  assert (Hge : (bed_capacity wd <=? spec_occupancy data alloc w wd dc) = true)
    by (apply negb_false_iff; congruence).
  clear Hfull.
  apply Z.leb_le in Hge.
  assert (Hok' : all_placements_ok data (alloc ++ [(pid, {| ward := w; day := d |})])).
  { intros pid' a' Hin'. apply in_app_or in Hin'. destruct Hin' as [Hin'|[Heq|[]]].
    - exact (Hok _ _ Hin').
    - inversion Heq; subst pid' a'. exists p. simpl. auto. }
  assert (Er : resident data w dc (pid, {| ward := w; day := d |}) = true).
  { unfold resident. simpl. rewrite String.eqb_refl, Hp. unfold in_stay. simpl.
    apply andb_true_intro. split; [apply Z.leb_le | apply Z.ltb_lt]; lia. }
  assert (E : feasible_after_change_beds data alloc (Some (pid, w, d))
              = feasible_after_change_beds data
                  (alloc ++ [(pid, {| ward := w; day := d |})]) None).
  { unfold feasible_after_change_beds, apply_change.
    rewrite (dict_set_absent _ _ _ Hnew). reflexivity. }
  rewrite E, (feasible_spec data _ Hwf (known_of_placements _ _ Hok')).
  match goal with |- Ok ?b = Ok false => destruct b eqn:Hall; [exfalso | reflexivity] end.
  rewrite forallb_forall in Hall. specialize (Hall (w, wd) Hwin). cbn [fst snd] in Hall.
  rewrite forallb_forall in Hall. specialize (Hall dc). rewrite in_range in Hall.
  specialize (Hall Hrange). apply negb_true_iff in Hall. apply Z.ltb_ge in Hall.
  rewrite spec_occupancy_app, Er in Hall. lia.
Qed.

End Fallback.

(** Property X3.  On an instance whose windows start on or after day 0 and whose carried-over
    patients fit the beds, the last-resort scan of the construction never
    finds a placement: whenever it is reached (both first-fit scans found no
    bed), every compatible ward and window day fails the capacity check, the
    scan returns [(inf, None)] and the construction raises [RuntimeError]. *)
Theorem fallback_scan_never_places data w pre pid p post alloc w1 alloc1 w2 :
  wf_data data = true ->
  feasible_after_change_beds data [] None = Ok true ->
  forallb (fun kv : string * Patient => 0 <=? earliest (snd kv)) (patients data) = true ->
  patients_order data = pre ++ (pid, p) :: post ->
  foldMM (place_patient data) pre [] w = Ok (alloc, w1) ->
  first_fit data alloc p (compatible_wards_for_patient data p) = Ok None ->
  repair_pass data alloc p (compatible_wards_for_patient data p) w1 = Ok (alloc1, w2) ->
  first_fit data alloc1 p (compatible_wards_for_patient data p) = Ok None ->
  no_placement data alloc1 pid p
  /\ fallback_scan data alloc1 pid p (compatible_wards_for_patient data p) = Ok (PInf, None)
  /\ place_patient data alloc (pid, p) w1 = Raise (RuntimeError pid).
Proof.
  intros Hwf Hempty Hearly Horder Hpre Hff Hrp Hff2.
  pose proof (sort_by_perm (fun a b => triple_ltb (greedy_key a) (greedy_key b))
                (patients data)) as Hperm. fold (patients_order data) in Hperm.
  assert (Hnd : NoDup (dict_keys (patients_order data))).
  { eapply Permutation_NoDup; [|exact (wf_data_patients _ Hwf)].
    apply Permutation_map. apply Permutation_sym. exact Hperm. }
  assert (Hin : In (pid, p) (patients data)).
  { eapply Permutation_in; [exact Hperm|]. rewrite Horder. apply in_elt. }
  assert (Hnil : all_placements_ok data []) by (intros pid' a' []).
  rewrite Horder in Hnd. unfold dict_keys in Hnd. rewrite map_app in Hnd. simpl in Hnd.
  destruct (place_all_ok data Hwf pre [] w alloc w1) as [Hc Hk].
  - intros x Hx. eapply Permutation_in; [exact Hperm|]. rewrite Horder.
    apply in_or_app. now left.
  - simpl. apply NoDup_remove_1 in Hnd. apply NoDup_app_remove_r in Hnd. exact Hnd.
  - split; [exact Hnil | exact (capacity_ok_of_feasible data Hwf [] Hnil Hempty)].
  - exact Hpre.
  - simpl in Hk.
    destruct (repair_pass_ok data Hwf _ _ _ _ _ _ Hc Hrp) as [[Hok1 _] Hk1].
    assert (Hnew : ~ In pid (dict_keys alloc1)).
    { rewrite Hk1, Hk. apply NoDup_remove_2 in Hnd. intros Hi. apply Hnd.
      apply in_or_app. now left. }
    assert (He : 0 <= earliest p).
    { rewrite forallb_forall in Hearly. specialize (Hearly _ Hin). simpl in Hearly.
      apply Z.leb_le. exact Hearly. }
    assert (Hno : no_placement data alloc1 pid p).
    { intros w0 d0 Hw0 Hd0.
      exact (first_fit_none_blocks data Hwf _ _ _ _ _ Hin He Hok1 Hnew Hff2 Hw0 Hd0). }
    split; [exact Hno|]. split.
    + unfold fallback_scan.
      rewrite (foldM_nested
                 (fun (best : fl * option (string * Z)) w d =>
                    score <- _score_trial data alloc1 pid w d default_lambda default_lambda ;;
                    Ok (if fl_ltb score (fst best) then (score, Some (w, d)) else best))).
      apply (scan_none_intro
               (fun wd => _score_trial data alloc1 pid (fst wd) (snd wd)
                            default_lambda default_lambda)
               (fun wd : string * Z => (fst wd, snd wd))).
      intros [w0 d0] Hi. apply in_prod_iff in Hi. destruct Hi as [Hw0 Hd0].
      apply score_trial_inf. now apply Hno.
    + apply place_patient_saturation. split; [reflexivity|]. split; [exact Hff|].
      exists alloc1, w2. auto.
Qed.

Lemma fallback_scan_never_places_witness :
  exists alloc w1 alloc1 w2,
    foldMM (place_patient scenario_data) (firstn 2 (patients_order scenario_data)) [] world0
    = Ok (alloc, w1)
    /\ repair_pass scenario_data alloc scenario_patient
         (compatible_wards_for_patient scenario_data scenario_patient) w1 = Ok (alloc1, w2)
    /\ no_placement scenario_data alloc1 "p3" scenario_patient
    /\ fallback_scan scenario_data alloc1 "p3" scenario_patient
         (compatible_wards_for_patient scenario_data scenario_patient) = Ok (PInf, None)
    /\ place_patient scenario_data alloc ("p3"%string, scenario_patient) w1
       = Raise (RuntimeError "p3").
Proof.
  do 4 eexists.
  match goal with |- ?A /\ _ => assert (H : A) by (vm_compute; reflexivity) end.
  split; [exact H|].
  match goal with |- ?A /\ _ => assert (H2 : A) by (vm_compute; reflexivity) end.
  split; [exact H2|].
  exact (fallback_scan_never_places scenario_data world0
           (firstn 2 (patients_order scenario_data)) "p3"%string scenario_patient []
           _ _ _ _ eq_refl eq_refl eq_refl eq_refl H eq_refl H2 eq_refl).
Defined.

(** ** The deterministic local improvement *)

Lemma Assign_eqb_refl (a : Assign) : Assign_eqb a a = true.
Proof. unfold Assign_eqb. now rewrite String.eqb_refl, Z.eqb_refl. Qed.

Lemma conditional_move_keeps data current pid base cand :
  dict_get current pid = Ok base ->
  (placement_ok data pid base -> placement_ok data pid cand) ->
  keeps data current (dict_set current pid cand).
Proof.
  intros Hb Hc. split; [exact (dict_set_keys _ _ _ (dict_get_keys _ _ _ Hb))|].
  intros Hok pid' a' Hin. apply dict_set_In in Hin. destruct Hin as [Heq|Hin].
  - inversion Heq; subst pid' a'. apply Hc. exact (Hok _ _ (dict_get_In _ _ _ Hb)).
  - exact (Hok _ _ Hin).
Qed.

Section LocalImprovementFacts.

Variable data : PatientAllocationData.
Variables lambda1 lambda2 : Q.

#[local] Abbreviation feasible a := (feasible_after_change_beds data a None = Ok true).
#[local] Abbreviation value a v := (objective_value data a lambda1 lambda2 = Ok v).

#[local] Abbreviation found := (gli_found data lambda1 lambda2).
#[local] Abbreviation improves := (gli_improves data lambda1 lambda2).

Lemma gli_try_found current pid base curr_val best cand best' :
  cand <> base ->
  (placement_ok data pid base -> placement_ok data pid cand) ->
  found current pid base curr_val best ->
  gli_try data lambda1 lambda2 current pid best cand = Ok best' ->
  found current pid base curr_val best'.
Proof.
  intros Hne Hpl Hbest H. unfold gli_try in H.
  apply bindR_Ok in H. destruct H as [f [Hf H]].
  destruct f; simpl in H; [|inversion H; subst; exact Hbest].
  apply bindR_Ok in H. destruct H as [val [Hval H]].
  destruct (Qltb (val + eps) (snd best)) eqn:E; inversion H; subst best'; [|exact Hbest].
  right. simpl. apply Qltb_lt in E.
  split; [exact Hne|]. split; [exact Hpl|]. split; [|split; [exact Hval|]].
  - destruct cand as [cw cd]. exact Hf.
  - destruct Hbest as [->|[_ [_ [_ [_ Hlt]]]]]; [exact E|].
    unfold eps in *. lra.
Qed.

Lemma improves_trans s1 s2 s3 : improves s1 s2 -> improves s2 s3 -> improves s1 s3.
Proof.
  intros [->|[K1 [F1 [V1 L1]]]] H23; [exact H23|].
  destruct H23 as [->|[K2 [F2 [V2 L2]]]].
  - right. auto.
  - right. split; [exact (keeps_trans _ _ _ _ K1 K2)|]. split; [exact F2|].
    split; [exact V2|]. unfold eps in *. lra.
Qed.

Lemma gli_patient_improves s pid s' moved :
  gli_patient data lambda1 lambda2 s pid = Ok (s', moved) -> improves s s'.
Proof.
  destruct s as [current curr_val]. unfold gli_patient.
  intros H.
  apply bindR_Ok in H. destruct H as [p [Hp H]].
  apply bindR_Ok in H. destruct H as [base [Hb H]].
  apply bindR_Ok in H. destruct H as [best1 [H1 H]].
  apply bindR_Ok in H. destruct H as [best2 [H2 H]].
  assert (F1 : found current pid base curr_val best1).
  { refine (foldM_invariant (found current pid base curr_val) _ _ _ _ _ _ H1);
      [|now left].
    intros b d b' Hd Hfb Hstep. destruct (Z.eqb_spec d (day base)) as [->|Hne].
    - inversion Hstep; subst. exact Hfb.
    - refine (gli_try_found _ _ _ _ _ _ _ _ _ Hfb Hstep).
      + intros Heq. apply Hne. rewrite <- Heq. reflexivity.
      + intros [p' [Hp' [Hday Hward]]]. exists p'. simpl.
        assert (p' = p) by congruence. subst p'.
        split; [exact Hp'|]. split; [exact (window_days_bound _ _ _ Hd) | exact Hward]. }
  assert (F2 : found current pid base curr_val best2).
  { refine (foldM_invariant (found current pid base curr_val) _ _ _ _ _ _ H2);
      [|exact F1].
    intros b w b' Hw Hfb Hstep. destruct (String.eqb_spec w (ward base)) as [->|Hne].
    - inversion Hstep; subst. exact Hfb.
    - refine (gli_try_found _ _ _ _ _ _ _ _ _ Hfb Hstep).
      + intros Heq. apply Hne. rewrite <- Heq. reflexivity.
      + intros [p' [Hp' [Hday Hward]]]. exists p'. simpl.
        assert (p' = p) by congruence. subst p'. auto. }
  destruct (Assign_eqb (fst best2) base) eqn:E; simpl in H; inversion H; subst s' moved.
  - now left.
  - destruct F2 as [->|[Hne [Hpl [Hf [Hv Hlt]]]]].
    + simpl in E. rewrite Assign_eqb_refl in E. discriminate.
    + right. simpl. split; [exact (conditional_move_keeps _ _ _ _ _ Hb Hpl)|]. auto.
Qed.

Lemma gli_round_improves s s' flag :
  gli_round data lambda1 lambda2 s = Ok (s', flag) -> improves s s'.
Proof.
  unfold gli_round. intros H.
  apply bindR_Ok in H. destruct H as [c [_ H]].
  apply bindR_Ok in H. destruct H as [pc [_ H]].
  refine (foldM_invariant (fun acc : Allocation * Q * bool => improves s (fst acc))
            _ _ _ _ _ _ H); [|now left].
  intros acc pid acc' _ Hacc Hstep.
  apply bindR_Ok in Hstep. destruct Hstep as [[s1 m] [Hp Hstep]].
  inversion Hstep; subst acc'. simpl.
  exact (improves_trans _ _ _ Hacc (gli_patient_improves _ _ _ _ Hp)).
Qed.

Lemma gli_rounds_improves n s s' :
  gli_rounds data lambda1 lambda2 n s = Ok s' -> improves s s'.
Proof.
  revert s. induction n as [|n IH]; intros s H; simpl in H.
  - inversion H; subst. now left.
  - apply bindR_Ok in H. destruct H as [[s1 flag] [Hr H]].
    pose proof (gli_round_improves _ _ _ Hr) as H1. simpl in H.
    destruct flag.
    + inversion H; subst. exact H1.
    + exact (improves_trans _ _ _ H1 (IH _ H)).
Qed.

End LocalImprovementFacts.

(** Property X5.  The deterministic local improvement returns an allocation together with
    its objective value; the allocation has the keys of the start and keeps
    every placement that was inside its window and on a compatible ward so;
    and either nothing changed, or the result passes the bed-capacity check
    and its value is lower than the start value by more than the tolerance. *)
Theorem local_improvement_sound data lambda1 lambda2 start max_rounds alloc val :
  greedy_local_improvement data lambda1 lambda2 start max_rounds = Ok (alloc, val) ->
  objective_value data alloc lambda1 lambda2 = Ok val
  /\ keeps data start alloc
  /\ exists v0,
       objective_value data start lambda1 lambda2 = Ok v0
       /\ ((alloc = start /\ val = v0)
           \/ (feasible_after_change_beds data alloc None = Ok true /\ (val + eps < v0)%Q)).
Proof.
  unfold greedy_local_improvement. intros H.
  apply bindR_Ok in H. destruct H as [v0 [Hv0 H]].
  apply gli_rounds_improves in H. destruct H as [Heq|[K [F [V L]]]].
  - inversion Heq; subst. split; [exact Hv0|]. split; [apply keeps_refl|].
    exists v0. auto.
  - simpl in *. split; [exact V|]. split; [exact K|]. exists v0. auto.
Qed.

Lemma local_improvement_sound_witness :
  exists alloc val,
    greedy_local_improvement demo_data default_lambda default_lambda delayed_start 6
    = Ok (alloc, val)
    /\ objective_value demo_data alloc default_lambda default_lambda = Ok val
    /\ keeps demo_data delayed_start alloc.
Proof.
  do 2 eexists.
  match goal with |- ?A /\ _ => assert (H : A) by (vm_compute; reflexivity) end.
  split; [exact H|].
  pose proof (local_improvement_sound _ _ _ _ _ _ _ H) as [H1 [H2 _]].
  split; assumption.
Defined.

(** ** The pipeline *)




(** ** The iteration cap of simulated annealing *)

Lemma f64_sa_loop_cut data lambda1 lambda2 exp cooling_rate k :
  forall n st w,
    (k <= n)%nat ->
    (List.length (F64.SimulatedAnnealing.cooling_schedule (S k)
                    (F64.SimulatedAnnealing.temperature st) cooling_rate) <= k)%nat ->
    for_loop n (F64.SimulatedAnnealing.iteration data lambda1 lambda2 exp cooling_rate) st w
    = for_loop k (F64.SimulatedAnnealing.iteration data lambda1 lambda2 exp cooling_rate) st w.
Proof.
  induction k as [|k IH]; intros n st w Hn Hlen.
  - simpl in Hlen.
    destruct (F64.SimulatedAnnealing.temperature st * cooling_rate <? F64.Q2F (1 # 100))%float;
      simpl in Hlen; lia.
  - destruct n as [|n]; [lia|].
    cbn [for_loop]. unfold bindM.
    destruct (F64.SimulatedAnnealing.iteration data lambda1 lambda2 exp cooling_rate st w)
      as [[[st1 b] w1]|e] eqn:Hi; [|reflexivity].
    destruct b; [reflexivity|].
    unfold F64.SimulatedAnnealing.iteration in Hi.
    apply bindM_Ok in Hi. destruct Hi as [nb [w2 [_ Hi]]].
    apply bindM_Ok in Hi. destruct Hi as [acc [w3 [_ Hi]]].
    injection Hi as Hst Hb Hw.
    apply IH; [lia|].
    cbn [F64.SimulatedAnnealing.cooling_schedule] in Hlen.
    rewrite Hb in Hlen. subst st1. cbn [F64.SimulatedAnnealing.temperature].
    cbn [List.length] in Hlen.
    cbn [F64.SimulatedAnnealing.cooling_schedule List.length]. lia.
Qed.

(** Property X11.  When the cooling schedule from the initial temperature ends within [k]
    passes, a larger iteration cap changes nothing: [solve] behaves for every
    cap [n >= k] as it does for [k], result, exception and random draws
    alike.  The schedule is the one of the floats of the source: with the
    default temperature 1000 and rate 0.95 it has 225 entries, so the default
    cap of 10000 passes is never reached. *)
Theorem annealing_cap_is_inert data lambda1 lambda2 exp initial_temp cooling_rate k n w :
  (List.length (F64.SimulatedAnnealing.cooling_schedule (S k) initial_temp cooling_rate)
   <= k)%nat ->
  (k <= n)%nat ->
  F64.SimulatedAnnealing.solve data lambda1 lambda2 exp n initial_temp cooling_rate w
  = F64.SimulatedAnnealing.solve data lambda1 lambda2 exp k initial_temp cooling_rate w.
Proof.
  intros Hlen Hn. unfold F64.SimulatedAnnealing.solve, bindM, liftR.
  destruct (F64.SimulatedAnnealing.initial_state data lambda1 lambda2 initial_temp)
    as [st0|e] eqn:H0; [|reflexivity].
  assert (HT : F64.SimulatedAnnealing.temperature st0 = initial_temp).
  { unfold F64.SimulatedAnnealing.initial_state in H0.
    apply bindR_Ok in H0. destruct H0 as [c [_ H0]]. inversion H0. reflexivity. }
  rewrite (f64_sa_loop_cut data lambda1 lambda2 exp cooling_rate k n st0 w Hn)
    by (rewrite HT; exact Hlen).
  reflexivity.
Qed.

Lemma annealing_cap_is_inert_witness :
  List.length (F64.SimulatedAnnealing.cooling_schedule (100 * 100) 1000
                 F64.SimulatedAnnealing.default_cooling_rate) = 225%nat
  /\ F64.SimulatedAnnealing.solve demo_data 0.5 0.5 exp_half_f (100 * 100) 1000
       F64.SimulatedAnnealing.default_cooling_rate world1
     = F64.SimulatedAnnealing.solve demo_data 0.5 0.5 exp_half_f 225 1000
         F64.SimulatedAnnealing.default_cooling_rate world1.
Proof.
  split; [vm_compute; reflexivity|].
  apply (annealing_cap_is_inert demo_data 0.5%float 0.5%float exp_half_f 1000%float
           F64.SimulatedAnnealing.default_cooling_rate 225 (100 * 100) world1).
  - vm_compute. lia.
  - lia.
Defined.

(** ** The tabu list *)

Lemma tabu_push_length tabu_tenure l move :
  Z.of_nat (List.length l) <= Z.max 0 tabu_tenure ->
  Z.of_nat (List.length (TabuSearch.push tabu_tenure l move)) <= Z.max 0 tabu_tenure.
Proof.
  intros H. unfold TabuSearch.push.
  assert (Hl : List.length (l ++ [move]) = S (List.length l))
    by (rewrite length_app; simpl; lia).
  destruct (Z.ltb_spec tabu_tenure (Z.of_nat (List.length (l ++ [move])))) as [Hlt|Hge].
  - destruct (l ++ [move]) as [|x r] eqn:E; simpl in *; lia.
  - lia.
Qed.

Lemma tabu_choose_length tabu_tenure neighbors st :
  Z.of_nat (List.length (F64.TabuSearch.tabu_list st)) <= Z.max 0 tabu_tenure ->
  Z.of_nat (List.length
              (F64.TabuSearch.tabu_list (F64.TabuSearch.choose tabu_tenure neighbors st)))
  <= Z.max 0 tabu_tenure.
Proof.
  intros H. induction neighbors as [|nb r IH]; simpl; [exact H|].
  destruct (negb (TabuSearch.is_tabu (F64.Solution.allocation nb) (F64.TabuSearch.tabu_list st))
            || (F64.Solution.objective_value nb
                <? F64.Solution.objective_value (F64.TabuSearch.best_solution st))%float);
    [|exact IH].
  simpl. apply tabu_push_length. exact H.
Qed.

(** Property X12.  Along a run of tabu search the tabu list never holds more than
    [tabu_tenure] allocations; with a tenure of zero or less it stays empty,
    so no move is ever tabu. *)
Theorem tabu_list_is_bounded data lambda1 lambda2 tabu_tenure n st0 w st w' :
  F64.TabuSearch.initial_state data lambda1 lambda2 = Ok st0 ->
  for_loop n (F64.TabuSearch.iteration data lambda1 lambda2 tabu_tenure) st0 w = Ok (st, w') ->
  Z.of_nat (List.length (F64.TabuSearch.tabu_list st)) <= Z.max 0 tabu_tenure
  /\ (tabu_tenure <= 0 ->
      F64.TabuSearch.tabu_list st = []
      /\ forall move, TabuSearch.is_tabu move (F64.TabuSearch.tabu_list st) = false).
Proof.
  intros H0 Hl.
  assert (Hb : Z.of_nat (List.length (F64.TabuSearch.tabu_list st)) <= Z.max 0 tabu_tenure).
  { apply (for_loop_invariant
             (fun s => Z.of_nat (List.length (F64.TabuSearch.tabu_list s))
                       <= Z.max 0 tabu_tenure))
      in Hl; [exact Hl| |].
    - intros s w0 s' b w1 Hs Hi. unfold F64.TabuSearch.iteration in Hi.
      apply bindM_Ok in Hi. destruct Hi as [ns [w2 [_ Hi]]].
      inversion Hi; subst. apply tabu_choose_length. exact Hs.
    - unfold F64.TabuSearch.initial_state in H0.
      apply bindR_Ok in H0. destruct H0 as [c [_ H0]]. inversion H0; subst. simpl. lia. }
  split; [exact Hb|]. intros Hle.
  assert (He : F64.TabuSearch.tabu_list st = []).
  { destruct (F64.TabuSearch.tabu_list st); [reflexivity|]. simpl in Hb. lia. }
  split; [exact He|]. intros move. rewrite He. reflexivity.
Qed.

Lemma tabu_list_is_bounded_witness :
  exists st0 st w',
    F64.TabuSearch.initial_state demo_data 0.5 0.5 = Ok st0
    /\ for_loop 3 (F64.TabuSearch.iteration demo_data 0.5 0.5 2) st0 world7
       = Ok (st, w')
    /\ Z.of_nat (List.length (F64.TabuSearch.tabu_list st)) <= Z.max 0 2.
Proof.
  do 3 eexists.
  match goal with |- ?A /\ _ => assert (H : A) by (vm_compute; reflexivity) end.
  split; [exact H|].
  match goal with |- ?A /\ _ => assert (H2 : A) by (vm_compute; reflexivity) end.
  split; [exact H2|].
  exact (proj1 (tabu_list_is_bounded _ _ _ _ _ _ _ _ _ H H2)).
Defined.

(** ** The initial solution of simulated annealing and tabu search *)

Lemma dict_set_set {V} (d : list (string * V)) (k : string) (v v' : V) :
  dict_set (dict_set d k v) k v' = dict_set d k v'.
Proof.
  induction d as [|[k0 v0] r IH]; simpl.
  - now rewrite String.eqb_refl.
  - destruct (String.eqb k0 k) eqn:E; simpl; rewrite E; [reflexivity|]. now rewrite IH.
Qed.

Lemma dict_set_length_absent {V} (d : list (string * V)) (k : string) (v : V) :
  ~ In k (dict_keys d) -> List.length (dict_set d k v) = S (List.length d).
Proof.
  intros H. rewrite (dict_set_absent _ _ _ H), length_app. simpl. lia.
Qed.

Section InitialSolution.

Variable data : PatientAllocationData.

#[local] Abbreviation try_wards := (SimulatedAnnealing.try_wards data).
#[local] Abbreviation try_days := (SimulatedAnnealing.try_days data).
#[local] Abbreviation allocate_patient := (SimulatedAnnealing.allocate_patient data).

(** The trial writes only touch the entry of the patient. *)
Lemma try_wards_shape pid d ws alloc alloc' b :
  try_wards pid d ws alloc = Ok (alloc', b) ->
  (alloc' = alloc \/ exists x, alloc' = dict_set alloc pid x)
  /\ (b = true -> exists x, alloc' = dict_set alloc pid x
                            /\ Solution._check_feasibility data alloc' = Ok true).
Proof.
  revert alloc. induction ws as [|wn r IH]; intros alloc H; simpl in H.
  - inversion H; subst. split; [now left | discriminate].
  - apply bindR_Ok in H. destruct H as [c [Hc H]]. destruct c.
    + inversion H; subst. split; [right; eauto|]. intros _. eauto.
    + destruct (IH _ H) as [H1 H2]. split.
      * right. destruct H1 as [->|[x ->]]; [eauto|]. rewrite dict_set_set. eauto.
      * intros Hb. destruct (H2 Hb) as [x [-> Hx]]. rewrite dict_set_set in *. eauto.
Qed.

Lemma try_days_shape pid ws ds alloc alloc' b :
  try_days pid ws ds alloc = Ok (alloc', b) ->
  (alloc' = alloc \/ exists x, alloc' = dict_set alloc pid x)
  /\ (b = true -> exists x, alloc' = dict_set alloc pid x
                            /\ Solution._check_feasibility data alloc' = Ok true).
Proof.
  revert alloc. induction ds as [|d r IH]; intros alloc H; simpl in H.
  - inversion H; subst. split; [now left | discriminate].
  - destruct (num_days data <=? d).
    { inversion H; subst. split; [now left | discriminate]. }
    apply bindR_Ok in H. destruct H as [[a1 b1] [Hw H]].
    apply try_wards_shape in Hw. destruct Hw as [W1 W2].
    destruct b1.
    + inversion H; subst. split; [right|]; destruct (W2 eq_refl) as [x [-> Hx]]; eauto.
    + destruct (IH _ H) as [H1 H2]. split.
      * destruct W1 as [->|[x ->]]; [exact H1|].
        right. destruct H1 as [->|[y ->]]; [eauto|]. rewrite dict_set_set. eauto.
      * intros Hb. destruct (H2 Hb) as [y [-> Hy]].
        destruct W1 as [->|[x ->]]; [eauto|]. rewrite dict_set_set in *. eauto.
Qed.

(** Whatever happens, the patient ends up with one entry and the other
    entries stay. *)
Lemma allocate_patient_shape alloc pid p alloc' :
  allocate_patient alloc (pid, p) = Ok alloc' -> exists x, alloc' = dict_set alloc pid x.
Proof.
  unfold SimulatedAnnealing.allocate_patient. intros H.
  apply bindR_Ok in H. destruct H as [[a1 b1] [Hd H]].
  apply try_days_shape in Hd. destruct Hd as [D1 D2].
  destruct b1.
  - inversion H; subst. destruct (D2 eq_refl) as [x [-> _]]. eauto.
  - apply bindR_Ok in H. destruct H as [w0 [_ H]]. inversion H; subst.
    destruct D1 as [->|[x ->]]; [eauto|]. rewrite dict_set_set. eauto.
Qed.

(** While a patient is missing, the feasibility check fails on its first
    test, so no trial placement is kept. *)
Lemma try_wards_short pid d ws alloc0 alloc :
  ~ In pid (dict_keys alloc0) ->
  S (List.length alloc0) <> List.length (patients data) ->
  (alloc = alloc0 \/ exists x, alloc = dict_set alloc0 pid x) ->
  exists alloc',
    try_wards pid d ws alloc = Ok (alloc', false)
    /\ (alloc' = alloc0 \/ exists x, alloc' = dict_set alloc0 pid x).
Proof.
  intros Hnew Hlen. revert alloc. induction ws as [|wn r IH]; intros alloc HR; simpl.
  - eauto.
  - assert (E : dict_set alloc pid {| ward := wn; day := d |}
                = dict_set alloc0 pid {| ward := wn; day := d |}).
    { destruct HR as [->|[x ->]]; [reflexivity | apply dict_set_set]. }
    rewrite E.
    assert (Hc : Solution._check_feasibility data (dict_set alloc0 pid {| ward := wn; day := d |})
                 = Ok false).
    { unfold Solution._check_feasibility. rewrite (dict_set_length_absent _ _ _ Hnew).
      destruct (Nat.eqb_spec (S (List.length alloc0)) (List.length (patients data)));
        [contradiction | reflexivity]. }
    rewrite Hc. simpl. apply IH. right. eauto.
Qed.

Lemma try_days_short pid ws ds alloc0 alloc :
  ~ In pid (dict_keys alloc0) ->
  S (List.length alloc0) <> List.length (patients data) ->
  (alloc = alloc0 \/ exists x, alloc = dict_set alloc0 pid x) ->
  exists alloc',
    try_days pid ws ds alloc = Ok (alloc', false)
    /\ (alloc' = alloc0 \/ exists x, alloc' = dict_set alloc0 pid x).
Proof.
  intros Hnew Hlen. revert alloc. induction ds as [|d r IH]; intros alloc HR; simpl.
  - eauto.
  - destruct (num_days data <=? d); [eauto|].
    destruct (try_wards_short pid d ws alloc0 alloc Hnew Hlen HR) as [a1 [-> HR1]]. simpl.
    exact (IH a1 HR1).
Qed.

Lemma allocate_patient_short alloc0 pid p :
  ~ In pid (dict_keys alloc0) ->
  S (List.length alloc0) <> List.length (patients data) ->
  allocate_patient alloc0 (pid, p)
  = (y <- forced_placement data (pid, p) ;; Ok (alloc0 ++ [y])).
Proof.
  intros Hnew Hlen. unfold SimulatedAnnealing.allocate_patient, forced_placement.
  destruct (try_days_short pid (SimulatedAnnealing.compatible_wards data p)
              (range (earliest p) (latest p + 1)) alloc0 alloc0 Hnew Hlen (or_introl eq_refl))
    as [a1 [-> HR]].
  simpl. destruct (py_index (SimulatedAnnealing.compatible_wards data p) 0) as [w0|e];
    [|reflexivity].
  simpl. f_equal.
  destruct HR as [->|[x ->]]; [|rewrite dict_set_set]; apply dict_set_absent; exact Hnew.
Qed.

Lemma allocate_all_short ps :
  forall acc,
    NoDup (dict_keys acc ++ dict_keys ps) ->
    (List.length acc + List.length ps < List.length (patients data))%nat ->
    foldM allocate_patient ps acc
    = foldM (fun acc x => y <- forced_placement data x ;; Ok (acc ++ [y])) ps acc.
Proof.
  induction ps as [|[pid p] r IH]; intros acc Hnd Hlen; cbn [foldM]; [reflexivity|].
  simpl in Hlen.
  assert (Hnew : ~ In pid (dict_keys acc)).
  { simpl in Hnd. apply NoDup_remove_2 in Hnd. intros Hin. apply Hnd.
    apply in_or_app. now left. }
  rewrite (allocate_patient_short acc pid p Hnew) by lia.
  destruct (forced_placement data (pid, p)) as [y|e] eqn:Ey; [|reflexivity].
  cbn [bindR]. apply IH.
  - unfold forced_placement in Ey. apply bindR_Ok in Ey. destruct Ey as [w0 [_ Ey]].
    inversion Ey; subst y. unfold dict_keys. rewrite map_app. simpl.
    rewrite <- app_assoc. exact Hnd.
  - rewrite length_app. simpl. lia.
Qed.

End InitialSolution.

Lemma mapR_keys data ps forced :
  IteratedLocalSearch.mapR (forced_placement data) ps = Ok forced ->
  forall acc r,
    foldM (fun acc x => y <- forced_placement data x ;; Ok (acc ++ [y])) ps acc = Ok r ->
    dict_keys r = dict_keys acc ++ dict_keys ps
    /\ forall pid p, In (pid, p) ps ->
         exists w0, py_index (SimulatedAnnealing.compatible_wards data p) 0 = Ok w0
                    /\ In (pid, {| ward := w0; day := earliest p |}) r.
Proof.
  intros _. induction ps as [|[pid p] t IH]; intros acc r H; simpl in H.
  - inversion H; subst. simpl. rewrite app_nil_r. split; [reflexivity | intros ? ? []].
  - apply bindR_Ok in H. destruct H as [a1 [H1 H]].
    apply bindR_Ok in H1. destruct H1 as [y [Hy H1]]. inversion H1; subst a1; clear H1.
    unfold forced_placement in Hy. apply bindR_Ok in Hy. destruct Hy as [w0 [Hw Hy]].
    inversion Hy; subst y; clear Hy. simpl in *.
    destruct (IH _ _ H) as [Hk Hin]. split.
    + rewrite Hk. unfold dict_keys. rewrite map_app, <- app_assoc. reflexivity.
    + intros pid' p' [Heq|Ht]; [|exact (Hin _ _ Ht)].
      inversion Heq; subst pid' p'. exists w0. split; [exact Hw|].
      assert (G : forall l acc0 r0 (z : string * Assign),
                 foldM (fun acc x => y <- forced_placement data x ;; Ok (acc ++ [y])) l acc0
                 = Ok r0 -> In z acc0 -> In z r0).
      { clear. induction l as [|x l IHl]; intros acc0 r0 z Hf Hz; simpl in Hf.
        - inversion Hf; subst. exact Hz.
        - apply bindR_Ok in Hf. destruct Hf as [a1 [H1 Hf]].
          apply bindR_Ok in H1. destruct H1 as [y [_ H1]]. inversion H1; subst a1.
          apply (IHl _ _ _ Hf). apply in_or_app. now left. }
      apply (G _ _ _ _ H). apply in_or_app. right. now left.
Qed.

(** Property X13.  The construction of the initial solution checks the whole allocation
    after every trial placement, and the check fails while any patient is
    missing.  So every patient but the last in the order of the construction
    is placed without a passed check, on its first compatible ward on its
    earliest day, whatever the beds; only the last patient is placed by
    trial.  [IndexError] is raised at the first of these patients without a
    compatible ward. *)
Theorem initial_solution_forces_placements data lambda1 lambda2 ps last :
  wf_data data = true ->
  sort_by (fun a b => SimulatedAnnealing.pair_ltb (SimulatedAnnealing.initial_key a)
                        (SimulatedAnnealing.initial_key b)) (patients data) = ps ++ [last] ->
  F64.SimulatedAnnealing._generate_initial_solution data lambda1 lambda2
  = (forced <- IteratedLocalSearch.mapR (forced_placement data) ps ;;
     alloc <- SimulatedAnnealing.allocate_patient data forced last ;;
     F64.Solution.evaluate data
       {| F64.Solution.allocation := alloc; F64.Solution.objective_value := infinity;
          F64.Solution.feasible := false |} lambda1 lambda2)
  /\ forall s,
       F64.SimulatedAnnealing._generate_initial_solution data lambda1 lambda2 = Ok s ->
       dict_keys (F64.Solution.allocation s) = dict_keys (ps ++ [last])
       /\ forall pid p, In (pid, p) ps ->
            exists w0,
              py_index (SimulatedAnnealing.compatible_wards data p) 0 = Ok w0
              /\ dict_get (F64.Solution.allocation s) pid = Ok {| ward := w0; day := earliest p |}.
Proof.
  intros Hwf Hsort.
  pose proof (sort_by_perm (fun a b => SimulatedAnnealing.pair_ltb
                                         (SimulatedAnnealing.initial_key a)
                                         (SimulatedAnnealing.initial_key b))
                (patients data)) as Hperm.
  rewrite Hsort in Hperm.
  assert (Hnd : NoDup (dict_keys (ps ++ [last]))).
  { eapply Permutation_NoDup; [|exact (wf_data_patients _ Hwf)].
    apply Permutation_map. apply Permutation_sym. exact Hperm. }
  assert (Hlen : (List.length ps < List.length (patients data))%nat).
  { rewrite <- (Permutation_length Hperm), length_app. simpl. lia. }
  assert (Hnd' : NoDup (dict_keys ps)).
  { unfold dict_keys in Hnd. rewrite map_app in Hnd. exact (NoDup_app_remove_r _ _ Hnd). }
  assert (E : F64.SimulatedAnnealing._generate_initial_solution data lambda1 lambda2
              = (forced <- IteratedLocalSearch.mapR (forced_placement data) ps ;;
                 alloc <- SimulatedAnnealing.allocate_patient data forced last ;;
                 F64.Solution.evaluate data
                   {| F64.Solution.allocation := alloc; F64.Solution.objective_value := infinity;
                      F64.Solution.feasible := false |} lambda1 lambda2)).
  { unfold F64.SimulatedAnnealing._generate_initial_solution. rewrite Hsort, foldM_app.
    rewrite (allocate_all_short data ps []) by (simpl; first [exact Hnd' | lia]).
    unfold IteratedLocalSearch.mapR.
    destruct (foldM (fun acc x => y <- forced_placement data x ;; Ok (acc ++ [y])) ps [])
      as [forced|e]; [|reflexivity].
    simpl. destruct (SimulatedAnnealing.allocate_patient data forced last); reflexivity. }
  split; [exact E|].
  intros s Hs. rewrite E in Hs.
  apply bindR_Ok in Hs. destruct Hs as [forced [Hf Hs]].
  apply bindR_Ok in Hs. destruct Hs as [alloc [Ha Hs]].
  apply f64_evaluate_spec in Hs. destruct Hs as [Hal _]. simpl in Hal. rewrite Hal.
  destruct (mapR_keys data ps forced Hf [] forced Hf) as [Hk Hin]. simpl in Hk.
  destruct last as [lpid lp].
  apply allocate_patient_shape in Ha. destruct Ha as [x ->].
  assert (Hlast : ~ In lpid (dict_keys forced)).
  { rewrite Hk. unfold dict_keys in Hnd. rewrite map_app in Hnd. simpl in Hnd.
    apply NoDup_remove_2 in Hnd. rewrite app_nil_r in Hnd. exact Hnd. }
  split.
  - rewrite (dict_set_absent _ _ _ Hlast). unfold dict_keys. rewrite !map_app.
    fold (dict_keys forced). rewrite Hk. reflexivity.
  - intros pid p Hp. destruct (Hin pid p Hp) as [w0 [Hw Hi]]. exists w0.
    split; [exact Hw|].
    rewrite (dict_set_absent _ _ _ Hlast).
    apply dict_get_NoDup.
    + unfold dict_keys. rewrite map_app. simpl. fold (dict_keys forced). rewrite Hk.
      unfold dict_keys in Hnd. rewrite map_app in Hnd. exact Hnd.
    + apply in_or_app. now left.
Qed.

Lemma initial_solution_forces_placements_witness :
  exists s w0,
    F64.SimulatedAnnealing._generate_initial_solution scenario_data 0.5%float 0.5%float
    = Ok s
    /\ py_index (SimulatedAnnealing.compatible_wards scenario_data scenario_patient) 0 = Ok w0
    /\ dict_get (F64.Solution.allocation s) "p2" = Ok {| ward := w0; day := 0 |}.
Proof.
  destruct (initial_solution_forces_placements scenario_data 0.5%float 0.5%float
              [("p1"%string, scenario_patient); ("p2"%string, scenario_patient)]
              ("p3"%string, scenario_patient) eq_refl eq_refl) as [_ H].
  eexists.
  assert (Hs : F64.SimulatedAnnealing._generate_initial_solution scenario_data 0.5%float
                 0.5%float = Ok ?[s]) by (vm_compute; reflexivity).
  destruct (H _ Hs) as [_ Hp].
  destruct (Hp "p2"%string scenario_patient) as [w0 [Hw Hg]]; [right; left; reflexivity|].
  exists w0. split; [exact Hs|]. split; [exact Hw | exact Hg].
Defined.

(** ** The allocations that simulated annealing and tabu search return *)

Lemma NoDup_nodupb (l : list string) : NoDup l -> nodupb l = true.
Proof.
  induction 1 as [|x l Hx Hl IH]; simpl; [reflexivity|].
  rewrite IH, andb_true_r. apply negb_true_iff.
  destruct (str_in x l) eqn:E; [|reflexivity]. apply str_in_In in E. contradiction.
Qed.

Lemma total_of_permutation data alloc :
  NoDup (dict_keys (patients data)) ->
  Permutation (dict_keys alloc) (dict_keys (patients data)) ->
  total_allocation data alloc = true.
Proof.
  intros Hnd Hp. unfold total_allocation. rewrite !andb_true_iff. split; [split|].
  - apply NoDup_nodupb. eapply Permutation_NoDup; [apply Permutation_sym; exact Hp | exact Hnd].
  - apply forallb_forall. intros k Hin. apply dict_mem_In.
    eapply Permutation_in; [exact Hp | exact Hin].
  - apply forallb_forall. intros k Hin. apply dict_mem_In.
    eapply Permutation_in; [apply Permutation_sym; exact Hp | exact Hin].
Qed.

Section LegacyKeys.

Variable data : PatientAllocationData.
Variables lambda1 lambda2 : float.

Lemma allocate_all_keys ps :
  forall acc r,
    NoDup (dict_keys acc ++ dict_keys ps) ->
    foldM (SimulatedAnnealing.allocate_patient data) ps acc = Ok r ->
    dict_keys r = dict_keys acc ++ dict_keys ps.
Proof.
  induction ps as [|[pid p] t IH]; intros acc r Hnd H; cbn [foldM] in H.
  - inversion H; subst. simpl. now rewrite app_nil_r.
  - apply bindR_Ok in H. destruct H as [a1 [H1 H]].
    apply allocate_patient_shape in H1. destruct H1 as [x ->].
    assert (Hnew : ~ In pid (dict_keys acc)).
    { simpl in Hnd. apply NoDup_remove_2 in Hnd. intros Hin. apply Hnd.
      apply in_or_app. now left. }
    rewrite (dict_set_absent _ _ _ Hnew) in H.
    apply IH in H.
    + rewrite H. unfold dict_keys. rewrite map_app, <- app_assoc. reflexivity.
    + unfold dict_keys. rewrite map_app, <- app_assoc. exact Hnd.
Qed.

Lemma initial_solution_keys s :
  NoDup (dict_keys (patients data)) ->
  F64.SimulatedAnnealing._generate_initial_solution data lambda1 lambda2 = Ok s ->
  Permutation (dict_keys (F64.Solution.allocation s)) (dict_keys (patients data)).
Proof.
  intros Hnd H. unfold F64.SimulatedAnnealing._generate_initial_solution in H.
  apply bindR_Ok in H. destruct H as [alloc [Ha H]].
  apply f64_evaluate_spec in H. destruct H as [-> _]. simpl.
  pose proof (sort_by_perm (fun a b => SimulatedAnnealing.pair_ltb
                                         (SimulatedAnnealing.initial_key a)
                                         (SimulatedAnnealing.initial_key b))
                (patients data)) as Hperm.
  apply allocate_all_keys in Ha.
  - rewrite Ha. simpl. apply Permutation_map. exact Hperm.
  - simpl. eapply Permutation_NoDup; [|exact Hnd].
    apply Permutation_map. apply Permutation_sym. exact Hperm.
Qed.

Lemma apply_operation_keys alloc pid p op w alloc' w' :
  SimulatedAnnealing.apply_operation data alloc pid p op w = Ok (alloc', w') ->
  dict_keys alloc' = dict_keys alloc.
Proof.
  destruct op; simpl; intros H.
  - apply bindM_Ok in H. destruct H as [d [w1 [_ H]]].
    destruct (d <? num_days data).
    + apply liftR_Ok in H. destruct H as [H _]. exact (set_day_keys _ _ _ _ H).
    + inversion H; subst. reflexivity.
  - destruct (1 <? Z.of_nat (List.length (SimulatedAnnealing.compatible_wards data p))).
    + apply bindM_Ok in H. destruct H as [a [w1 [_ H]]].
      apply bindM_Ok in H. destruct H as [ws' [w2 [_ H]]].
      apply bindM_Ok in H. destruct H as [wn [w3 [_ H]]].
      apply liftR_Ok in H. destruct H as [H _]. exact (set_ward_keys _ _ _ _ H).
    + inversion H; subst. reflexivity.
  - apply bindM_Ok in H. destruct H as [pid2 [w1 [_ H]]].
    destruct (negb (String.eqb pid pid2)).
    + apply bindM_Ok in H. destruct H as [a1 [w2 [_ H]]].
      apply bindM_Ok in H. destruct H as [a2 [w3 [_ H]]].
      apply bindM_Ok in H. destruct H as [alloc1 [w4 [H1 H]]].
      apply liftR_Ok in H1. destruct H1 as [H1 _].
      apply liftR_Ok in H. destruct H as [H _].
      rewrite (set_day_keys _ _ _ _ H), (set_day_keys _ _ _ _ H1). reflexivity.
    + inversion H; subst. reflexivity.
Qed.

Lemma get_neighbor_keys s w n w' :
  F64.SimulatedAnnealing._get_neighbor data lambda1 lambda2 s w = Ok (n, w') ->
  dict_keys (F64.Solution.allocation n) = dict_keys (F64.Solution.allocation s).
Proof.
  unfold F64.SimulatedAnnealing._get_neighbor. intros H.
  apply bindM_Ok in H. destruct H as [pid [w1 [_ H]]].
  apply bindM_Ok in H. destruct H as [p [w2 [_ H]]].
  apply bindM_Ok in H. destruct H as [op [w3 [_ H]]].
  apply bindM_Ok in H. destruct H as [alloc [w4 [Ha H]]].
  apply liftR_Ok in H. destruct H as [H _].
  apply f64_evaluate_spec in H. destruct H as [-> _]. simpl.
  exact (apply_operation_keys _ _ _ _ _ _ _ Ha).
Qed.

Lemma track_best_keys K best cur :
  dict_keys (F64.Solution.allocation best) = K -> dict_keys (F64.Solution.allocation cur) = K ->
  dict_keys (F64.Solution.allocation (F64.SimulatedAnnealing.track_best best cur)) = K.
Proof.
  intros Hb Hc. unfold F64.SimulatedAnnealing.track_best.
  destruct (F64.Solution.objective_value cur <? F64.Solution.objective_value best)%float;
    [exact Hc | exact Hb].
Qed.

Lemma sa_iteration_keys exp cooling_rate K st w st' b w' :
  dict_keys (F64.Solution.allocation (F64.SimulatedAnnealing.current st)) = K
  /\ dict_keys (F64.Solution.allocation (F64.SimulatedAnnealing.best_solution st)) = K ->
  F64.SimulatedAnnealing.iteration data lambda1 lambda2 exp cooling_rate st w = Ok ((st', b), w') ->
  dict_keys (F64.Solution.allocation (F64.SimulatedAnnealing.current st')) = K
  /\ dict_keys (F64.Solution.allocation (F64.SimulatedAnnealing.best_solution st')) = K.
Proof.
  intros [Hc Hb] H. unfold F64.SimulatedAnnealing.iteration in H.
  apply bindM_Ok in H. destruct H as [nb [w1 [Hn H]]].
  apply bindM_Ok in H. destruct H as [acc [w2 [_ H]]].
  inversion H; subst st' b w'; clear H. simpl.
  apply get_neighbor_keys in Hn.
  destruct acc; [|auto]. split; [congruence|].
  apply track_best_keys; congruence.
Qed.

Lemma neighborhood_keys n cur w l w' :
  F64.TabuSearch.neighborhood data lambda1 lambda2 n cur w = Ok (l, w') ->
  Forall (fun x => dict_keys (F64.Solution.allocation x)
                   = dict_keys (F64.Solution.allocation cur)) l.
Proof.
  revert w l. induction n as [|n IH]; intros w l H; simpl in H.
  - inversion H. constructor.
  - apply bindM_Ok in H. destruct H as [x [w1 [Hx H]]].
    apply bindM_Ok in H. destruct H as [r [w2 [Hr H]]].
    inversion H; subst. constructor.
    + exact (get_neighbor_keys _ _ _ _ Hx).
    + exact (IH _ _ Hr).
Qed.

Lemma tabu_iteration_keys tabu_tenure K st w st' b w' :
  dict_keys (F64.Solution.allocation (F64.TabuSearch.current st)) = K
  /\ dict_keys (F64.Solution.allocation (F64.TabuSearch.best_solution st)) = K ->
  F64.TabuSearch.iteration data lambda1 lambda2 tabu_tenure st w = Ok ((st', b), w') ->
  dict_keys (F64.Solution.allocation (F64.TabuSearch.current st')) = K
  /\ dict_keys (F64.Solution.allocation (F64.TabuSearch.best_solution st')) = K.
Proof.
  intros [Hc Hb] H. unfold F64.TabuSearch.iteration in H.
  apply bindM_Ok in H. destruct H as [ns [w1 [Hn H]]].
  inversion H; subst st' b w'; clear H.
  apply neighborhood_keys in Hn.
  apply (TabuFacts.tabu_sort_by_Forall _
           (fun a b => (F64.Solution.objective_value a <? F64.Solution.objective_value b)%float))
    in Hn.
  match goal with |- context [F64.TabuSearch.choose _ ?l _] => set (sorted := l) in * end.
  destruct (f64_choose_spec tabu_tenure sorted st) as [->|[nb [Hin [-> ->]]]];
    [auto|].
  rewrite Forall_forall in Hn. specialize (Hn nb Hin).
  split; [congruence|]. apply track_best_keys; congruence.
Qed.

End LegacyKeys.

Lemma sa_solve_total data lambda1 lambda2 exp n initial_temp cooling_rate w r w' :
  wf_data data = true ->
  F64.SimulatedAnnealing.solve data lambda1 lambda2 exp n initial_temp cooling_rate w
  = Ok (r, w') ->
  total_allocation data (F64.lr_solution r) = true.
Proof.
  intros Hwf H.
  pose proof (wf_data_patients _ Hwf) as Hnd.
  apply f64_sa_solve_spec in H. destruct H as [st0 [st [H0 [Hl ->]]]]. simpl.
  unfold F64.SimulatedAnnealing.initial_state in H0.
  apply bindR_Ok in H0. destruct H0 as [c [Hc H0]]. inversion H0; subst st0; clear H0.
  apply (for_loop_invariant
           (fun s => dict_keys (F64.Solution.allocation (F64.SimulatedAnnealing.current s))
                     = dict_keys (F64.Solution.allocation c)
                     /\ dict_keys (F64.Solution.allocation (F64.SimulatedAnnealing.best_solution s))
                        = dict_keys (F64.Solution.allocation c))) in Hl.
  - destruct Hl as [_ Hb]. apply (total_of_permutation _ _ Hnd). rewrite Hb.
    exact (initial_solution_keys _ _ _ _ Hnd Hc).
  - intros s w0 s' b w1 Hs Hi. exact (sa_iteration_keys _ _ _ _ _ _ _ _ _ _ _ Hs Hi).
  - simpl. auto.
Qed.

Lemma tabu_solve_total data lambda1 lambda2 n tabu_tenure w r w' :
  wf_data data = true ->
  F64.TabuSearch.solve data lambda1 lambda2 n tabu_tenure w = Ok (r, w') ->
  total_allocation data (F64.lr_solution r) = true.
Proof.
  intros Hwf H.
  pose proof (wf_data_patients _ Hwf) as Hnd.
  apply f64_tabu_solve_spec in H. destruct H as [st0 [st [H0 [Hl ->]]]]. simpl.
  unfold F64.TabuSearch.initial_state in H0.
  apply bindR_Ok in H0. destruct H0 as [c [Hc H0]]. inversion H0; subst st0; clear H0.
  apply (for_loop_invariant
           (fun s => dict_keys (F64.Solution.allocation (F64.TabuSearch.current s))
                     = dict_keys (F64.Solution.allocation c)
                     /\ dict_keys (F64.Solution.allocation (F64.TabuSearch.best_solution s))
                        = dict_keys (F64.Solution.allocation c))) in Hl.
  - destruct Hl as [_ Hb]. apply (total_of_permutation _ _ Hnd). rewrite Hb.
    exact (initial_solution_keys _ _ _ _ Hnd Hc).
  - intros s w0 s' b w1 Hs Hi. exact (tabu_iteration_keys _ _ _ _ _ _ _ _ _ _ Hs Hi).
  - simpl. auto.
Qed.

(** Property X14.  Whatever its feasibility flag says, the allocation that simulated
    annealing or tabu search returns has exactly one entry for every patient
    of the instance: the moves change days and wards of entries, and never add
    or drop one. *)
Theorem legacy_results_are_total :
  (forall data lambda1 lambda2 exp n initial_temp cooling_rate w r w',
      wf_data data = true ->
      F64.SimulatedAnnealing.solve data lambda1 lambda2 exp n initial_temp cooling_rate w
      = Ok (r, w') ->
      total_allocation data (F64.lr_solution r) = true)
  /\ (forall data lambda1 lambda2 n tabu_tenure w r w',
         wf_data data = true ->
         F64.TabuSearch.solve data lambda1 lambda2 n tabu_tenure w = Ok (r, w') ->
         total_allocation data (F64.lr_solution r) = true).
Proof.
  split.
  - intros. eapply sa_solve_total; eassumption.
  - intros. eapply tabu_solve_total; eassumption.
Qed.

Lemma legacy_results_are_total_witness :
  exists r w',
    F64.TabuSearch.solve demo_data 0.5 0.5 3 2 world7 = Ok (r, w')
    /\ total_allocation demo_data (F64.lr_solution r) = true.
Proof.
  do 2 eexists.
  match goal with |- ?A /\ _ => assert (H : A) by (vm_compute; reflexivity) end.
  split; [exact H|].
  exact (proj2 legacy_results_are_total demo_data _ _ _ _ _ _ _ eq_refl H).
Defined.

(** ** The warm start of the hybrid method *)

Lemma warm_start_patient_map y pid a :
  warm_start_patient y (pid, a)
  = map (fun kv : YKey * option Z =>
           let '(p, w, d) := fst kv in
           if String.eqb p pid
           then if String.eqb w (ward a) && (d =? day a) then (fst kv, Some 1)
                else (fst kv, Some 0)
           else kv) y.
Proof.
  unfold warm_start_patient.
  assert (E : (if existsb (fun k => ykey_eqb (fst k) (pid, ward a, day a)) y
               then set_start y (pid, ward a, day a) 1 else y)
              = set_start y (pid, ward a, day a) 1).
  { destruct (existsb (fun k => ykey_eqb (fst k) (pid, ward a, day a)) y) eqn:Ex;
      [reflexivity|].
    unfold set_start. rewrite <- (map_id y) at 1. apply map_ext_in. intros kv Hin.
    destruct (ykey_eqb (fst kv) (pid, ward a, day a)) eqn:Ek; [|reflexivity].
    exfalso. assert (Ht : existsb (fun k => ykey_eqb (fst k) (pid, ward a, day a)) y = true)
      by (apply existsb_exists; exists kv; auto).
    congruence. }
  rewrite E. unfold clear_others, set_start. rewrite map_map. apply map_ext.
  intros [[[p w] d] v]. unfold ykey_eqb. cbn [fst].
  destruct (String.eqb p pid) eqn:Ep; cbn [andb fst];
    destruct (String.eqb w (ward a)) eqn:Ew; cbn [andb negb orb fst]; rewrite ?Ep, ?Ew;
    cbn [andb negb orb];
    destruct (d =? day a) eqn:Ed; cbn [andb negb orb fst]; rewrite ?Ep, ?Ew, ?Ed;
    cbn [andb negb orb]; reflexivity.
Qed.

Lemma warm_start_fold solution :
  NoDup (dict_keys solution) ->
  forall y, fold_left warm_start_patient solution y = map (warm_start_value solution) y.
Proof.
  induction solution as [|[pid a] r IH]; intros Hnd y; cbn [fold_left].
  - rewrite <- (map_id y) at 1. apply map_ext. intros [[[p w] d] v]. reflexivity.
  - simpl in Hnd. inversion Hnd as [|k l Hnotin Hr]; subst.
    rewrite (IH Hr), warm_start_patient_map, map_map. apply map_ext.
    intros [[[p w] d] v].
    assert (Hget : dict_get r pid = Raise (KeyError pid)).
    { clear -Hnotin. induction r as [|[k0 v0] t IHt]; simpl; [reflexivity|].
      destruct (String.eqb_spec k0 pid) as [->|_].
      - exfalso. apply Hnotin. now left.
      - apply IHt. intros Hin. apply Hnotin. now right. }
    unfold warm_start_value. cbn [fst dict_get].
    destruct (String.eqb_spec p pid) as [->|Hne].
    + rewrite String.eqb_refl.
      destruct (String.eqb w (ward a) && (d =? day a)); cbn [fst]; rewrite Hget; reflexivity.
    + destruct (String.eqb_spec pid p) as [->|_]; [contradiction | reflexivity].
Qed.

(** Property X15.  After [_apply_warm_start], a variable of a patient that the solution
    places has the start value 1 when it is the variable of the patient's
    ward and day and 0 otherwise; the variables of the other patients keep
    their start values.  So every placed patient has at most one variable
    started at 1. *)
Theorem warm_start_is_one_hot y solution :
  nodupb (dict_keys solution) = true ->
  _apply_warm_start y solution = map (warm_start_value solution) y.
Proof.
  intros H. unfold _apply_warm_start. apply warm_start_fold. exact (nodupb_NoDup _ H).
Qed.

Lemma warm_start_is_one_hot_witness :
  _apply_warm_start demo_y demo_start
  = [(("a"%string, "W1"%string, 2), Some 1); (("a"%string, "W2"%string, 0), Some 0);
     (("b"%string, "W1"%string, 1), Some 1); (("c"%string, "W1"%string, 0), Some 1)].
Proof.
  rewrite (warm_start_is_one_hot demo_y demo_start eq_refl). reflexivity.
Defined.
(** ** What the hybrid method reports *)

Lemma f64_improvement_from_infinity (q : float) :
  is_nan ((infinity - q) / infinity * 100)%float = true.
Proof.
  unfold is_nan.
  rewrite FloatAxioms.eqb_spec, FloatAxioms.mul_spec, FloatAxioms.div_spec,
    FloatAxioms.sub_spec.
  change (Prim2SF infinity) with (S754_infinity false).
  destruct (Prim2SF q) as [s|s| |s m e]; try reflexivity. destruct s; reflexivity.
Qed.

Lemma f64_infinity_not_zero (x : float) : x = infinity -> (x =? 0)%float = false.
Proof. intros ->. reflexivity. Qed.

Lemma run_metaheuristic_facts data lambda1 lambda2 exp mh n w r w' :
  wf_data data = true ->
  F64.HybridSolver.run_metaheuristic data lambda1 lambda2 exp mh n w = Ok (r, w') ->
  (F64.lr_feasible r = false -> F64.lr_objective_value r = infinity)
  /\ total_allocation data (F64.lr_solution r) = true.
Proof.
  intros Hwf H. unfold F64.HybridSolver.run_metaheuristic in H.
  destruct (String.eqb mh "SA").
  - split; [exact (f64_sa_solve_flagged _ _ _ _ _ _ _ _ _ _ H)
           | exact (sa_solve_total _ _ _ _ _ _ _ _ _ _ Hwf H)].
  - destruct (String.eqb mh "TS"); [|discriminate].
    split; [exact (f64_tabu_solve_flagged _ _ _ _ _ _ _ _ H)
           | exact (tabu_solve_total _ _ _ _ _ _ _ _ Hwf H)].
Qed.

Lemma improvement_pct_infinity q :
  (q =? 0)%float = false ->
  exists pct, F64.improvement_pct infinity (Some q) = Ok pct /\ is_nan pct = true.
Proof.
  intros Hq. unfold F64.improvement_pct, F64.truthy. rewrite Hq. simpl.
  eexists. split; [reflexivity|]. apply f64_improvement_from_infinity.
Qed.

Lemma improvement_pct_zero_objective m q :
  (m =? 0)%float = true -> (q =? 0)%float = false ->
  F64.improvement_pct m (Some q) = Raise ZeroDivisionError.
Proof.
  intros Hm Hq. unfold F64.improvement_pct, F64.truthy. rewrite Hq. simpl. rewrite Hm.
  reflexivity.
Qed.

(** Property X16.  The hybrid method rejects a selector other than ['SA'] and ['TS'] with
    [ValueError] before anything runs.  When it returns, the external solver
    was started from the variables as built if the metaheuristic result is
    flagged infeasible, and otherwise from the one-hot start values of the
    metaheuristic allocation; the reported objective and solution are the
    solver's.  The reported improvement is 0 when the solver returns nothing
    or the objective 0, and it is [nan] when the metaheuristic result is
    flagged infeasible and the solver's objective is not 0.  A metaheuristic
    objective of 0 with a solver objective other than 0 makes [solve] raise
    [ZeroDivisionError] after both phases have run. *)
Theorem hybrid_report data lambda1 lambda2 exp milp_y milp_solve :
  wf_data data = true ->
  (forall mh n w,
      String.eqb mh "SA" = false -> String.eqb mh "TS" = false ->
      F64.HybridSolver.solve data lambda1 lambda2 exp milp_y milp_solve mh n w
      = Raise ValueError)
  /\ (forall mh n w h w',
         F64.HybridSolver.solve data lambda1 lambda2 exp milp_y milp_solve mh n w
         = Ok (h, w') ->
         exists r,
           F64.HybridSolver.run_metaheuristic data lambda1 lambda2 exp mh n w = Ok (r, w')
           /\ F64.h_metaheuristic_obj h = F64.lr_objective_value r
           /\ F64.h_final_obj h
              = option_map fst
                  (milp_solve (if F64.lr_feasible r
                               then map (warm_start_value (F64.lr_solution r)) milp_y
                               else milp_y))
           /\ F64.h_solution h
              = option_map snd
                  (milp_solve (if F64.lr_feasible r
                               then map (warm_start_value (F64.lr_solution r)) milp_y
                               else milp_y))
           /\ (F64.truthy (F64.h_final_obj h) = false -> F64.h_improvement_pct h = 0%float)
           /\ (F64.truthy (F64.h_final_obj h) = true -> F64.lr_feasible r = false ->
               is_nan (F64.h_improvement_pct h) = true))
  /\ (forall mh n w r w1 q sol,
         F64.HybridSolver.run_metaheuristic data lambda1 lambda2 exp mh n w = Ok (r, w1) ->
         (F64.lr_objective_value r =? 0)%float = true ->
         milp_solve (map (warm_start_value (F64.lr_solution r)) milp_y) = Some (q, sol) ->
         (q =? 0)%float = false ->
         F64.HybridSolver.solve data lambda1 lambda2 exp milp_y milp_solve mh n w
         = Raise ZeroDivisionError).
Proof.
  intros Hwf. split; [|split].
  - intros mh n w Hsa Hts.
    unfold F64.HybridSolver.solve, F64.HybridSolver.run_metaheuristic, bindM.
    rewrite Hsa, Hts. reflexivity.
  - intros mh n w h w' H. unfold F64.HybridSolver.solve in H.
    apply bindM_Ok in H. destruct H as [r [w1 [Hr H]]].
    apply bindM_Ok in H. destruct H as [pct [w2 [Hp H]]].
    apply liftR_Ok in Hp. destruct Hp as [Hp ->].
    inversion H; subst h w'; clear H. simpl.
    destruct (run_metaheuristic_facts _ _ _ _ _ _ _ _ _ Hwf Hr) as [Hc Ht].
    assert (Hy : (if F64.lr_feasible r then _apply_warm_start milp_y (F64.lr_solution r)
                  else milp_y)
                 = (if F64.lr_feasible r
                    then map (warm_start_value (F64.lr_solution r)) milp_y
                    else milp_y)).
    { destruct (F64.lr_feasible r); [|reflexivity]. unfold _apply_warm_start.
      apply warm_start_fold. apply nodupb_NoDup. unfold total_allocation in Ht.
      rewrite !andb_true_iff in Ht. tauto. }
    rewrite Hy in *. exists r. split; [exact Hr|]. split; [reflexivity|].
    destruct (milp_solve (if F64.lr_feasible r
                          then map (warm_start_value (F64.lr_solution r)) milp_y
                          else milp_y)) as [[q sol]|]; cbn [fst snd option_map] in *.
    + split; [reflexivity|]. split; [reflexivity|]. split.
      * intros Hq. unfold F64.improvement_pct in Hp. rewrite Hq in Hp. congruence.
      * intros Hq Hf. cbn [F64.truthy] in Hq. apply negb_true_iff in Hq.
        rewrite (Hc Hf) in Hp.
        destruct (improvement_pct_infinity q Hq) as [pct' [Hp' Hn]].
        rewrite Hp' in Hp. inversion Hp; subst pct'. exact Hn.
    + split; [reflexivity|]. split; [reflexivity|].
      split; [intros _; unfold F64.improvement_pct in Hp; congruence | discriminate].
  - intros mh n w r w1 q sol Hr Hz Hs Hq.
    destruct (run_metaheuristic_facts _ _ _ _ _ _ _ _ _ Hwf Hr) as [Hc Ht].
    assert (Hf : F64.lr_feasible r = true).
    { destruct (F64.lr_feasible r); [reflexivity|].
      rewrite (f64_infinity_not_zero _ (Hc eq_refl)) in Hz. discriminate. }
    unfold F64.HybridSolver.solve. rewrite (bindM_Ok_eq _ _ _ _ _ Hr). rewrite Hf.
    assert (Hy : _apply_warm_start milp_y (F64.lr_solution r)
                 = map (warm_start_value (F64.lr_solution r)) milp_y).
    { unfold _apply_warm_start. apply warm_start_fold. apply nodupb_NoDup.
      unfold total_allocation in Ht. rewrite !andb_true_iff in Ht. tauto. }
    rewrite Hy, Hs. cbn [fst snd].
    unfold bindM, liftR. rewrite (improvement_pct_zero_objective _ q Hz Hq). reflexivity.
Qed.

Lemma hybrid_report_witness :
  F64.HybridSolver.solve demo_data 0 0 exp_half_f demo_y demo_milp_solve "ILS" 5 world1
  = Raise ValueError
  /\ F64.HybridSolver.solve demo_data 0 0 exp_half_f demo_y demo_milp_solve "SA" 5 world1
     = Raise ZeroDivisionError.
Proof.
  pose proof (hybrid_report demo_data 0%float 0%float exp_half_f demo_y demo_milp_solve eq_refl)
    as [H1 [_ H3]].
  split.
  - apply H1; reflexivity.
  - assert (Hr : exists r w1,
               F64.HybridSolver.run_metaheuristic demo_data 0 0 exp_half_f "SA" 5 world1
               = Ok (r, w1)
               /\ (F64.lr_objective_value r =? 0)%float = true).
    { do 2 eexists. split; vm_compute; reflexivity. }
    destruct Hr as [r [w1 [Hr Hz]]].
    exact (H3 "SA"%string 5%nat world1 r w1 1%float [] Hr Hz eq_refl eq_refl).
Defined.

(** ** The repair step of the construction *)

Lemma repair_candidates_spec data alloc ward_name congested_day cands :
  repair_candidates data alloc ward_name congested_day = Ok cands ->
  forall pid, In pid cands ->
    exists a p, In (pid, a) alloc /\ ward a = ward_name
                /\ dict_get (patients data) pid = Ok p
                /\ in_stay a p congested_day = true.
Proof.
  unfold repair_candidates. intros H.
  refine (foldM_invariant
            (fun cands : list string =>
               forall pid, In pid cands ->
                 exists a p, In (pid, a) alloc /\ ward a = ward_name
                             /\ dict_get (patients data) pid = Ok p
                             /\ in_stay a p congested_day = true)
            _ _ _ _ _ _ H); [|intros pid []].
  intros s [pid a] s' Hin Hs Hstep.
  destruct (String.eqb_spec (ward a) ward_name) as [Hw|Hw]; simpl in Hstep.
  - apply bindR_Ok in Hstep. destruct Hstep as [p [Hp Hstep]].
    destruct (in_stay a p congested_day) eqn:Est; inversion Hstep; subst s'; [|exact Hs].
    intros pid' Hin'. apply in_app_or in Hin'. destruct Hin' as [Hin'|[<-|[]]].
    + exact (Hs _ Hin').
    + exists a, p. auto.
  - inversion Hstep; subst. exact Hs.
Qed.

Lemma repair_try_spec data alloc candidates tried max_shifts b alloc' :
  repair_try data alloc candidates tried max_shifts = Ok (b, alloc') ->
  (b = false /\ alloc' = alloc)
  \/ (b = true /\ tried < max_shifts
      /\ exists pid p a,
           In pid candidates
           /\ dict_get (patients data) pid = Ok p /\ dict_get alloc pid = Ok a
           /\ day a + 1 <= Z.min (latest p) (num_days data - 1)
           /\ alloc' = dict_set alloc pid {| ward := ward a; day := day a + 1 |}
           /\ feasible_after_change_beds data alloc' None = Ok true).
Proof.
  revert tried. induction candidates as [|pid r IH]; intros tried H; simpl in H.
  - inversion H; subst. now left.
  - destruct (Z.leb_spec max_shifts tried) as [Hge|Hlt]; [inversion H; subst; now left|].
    assert (Hrec : forall t, tried < t ->
              repair_try data alloc r t max_shifts = Ok (b, alloc') ->
              (b = false /\ alloc' = alloc)
              \/ (b = true /\ tried < max_shifts
                  /\ exists q pq aq,
                       In q (pid :: r)
                       /\ dict_get (patients data) q = Ok pq /\ dict_get alloc q = Ok aq
                       /\ day aq + 1 <= Z.min (latest pq) (num_days data - 1)
                       /\ alloc' = dict_set alloc q {| ward := ward aq; day := day aq + 1 |}
                       /\ feasible_after_change_beds data alloc' None = Ok true)).
    { intros t Ht Hr. destruct (IH _ Hr) as [Hl|[Hb [_ [pid' [p' [a' [Hin Hrest]]]]]]];
        [now left|].
      right. split; [exact Hb|]. split; [exact Hlt|].
      exists pid', p', a'. split; [now right | exact Hrest]. }
    apply bindR_Ok in H. destruct H as [p [Hp H]].
    apply bindR_Ok in H. destruct H as [a [Ha H]].
    destruct (Z.leb_spec (day a + 1) (Z.min (latest p) (num_days data - 1))) as [Hle|_];
      [|apply (Hrec (tried + 1)); [lia | exact H]].
    apply bindR_Ok in H. destruct H as [trial [Ht H]].
    apply bindR_Ok in H. destruct H as [f [Hf H]].
    destruct f; [|apply (Hrec (tried + 1)); [lia | exact H]].
    inversion H; subst b alloc'; clear H.
    right. split; [reflexivity|]. split; [exact Hlt|].
    exists pid, p, a. split; [now left|]. split; [exact Hp|]. split; [exact Ha|].
    split; [exact Hle|]. unfold set_day in Ht. rewrite Ha in Ht. simpl in Ht.
    inversion Ht; subst trial. auto.
Qed.

(** Property X4.  The repair step either reports failure and leaves the allocation as it
    was, or reports success after moving exactly one patient who occupies a
    bed of the congested ward on the congested day to the next day, which is
    inside the patient's window and the horizon; the allocation it leaves
    passes the bed-capacity check.  With a budget [max_shifts] of zero or
    less it never moves anyone. *)
Theorem tiny_repair_moves_one data alloc ward_name congested_day max_shifts w b alloc' w' :
  nodupb (dict_keys alloc) = true ->
  _tiny_repair_shift_same_ward_day_forward data alloc ward_name congested_day max_shifts w
  = Ok ((b, alloc'), w') ->
  (b = false /\ alloc' = alloc)
  \/ (b = true /\ 0 < max_shifts
      /\ exists pid p a,
           dict_get (patients data) pid = Ok p /\ dict_get alloc pid = Ok a
           /\ ward a = ward_name /\ in_stay a p congested_day = true
           /\ day a + 1 <= Z.min (latest p) (num_days data - 1)
           /\ alloc' = dict_set alloc pid {| ward := ward_name; day := day a + 1 |}
           /\ feasible_after_change_beds data alloc' None = Ok true).
Proof.
  intros Hnd H. apply nodupb_NoDup in Hnd.
  unfold _tiny_repair_shift_same_ward_day_forward in H.
  apply bindM_Ok in H. destruct H as [c [w1 [Hc H]]].
  apply liftR_Ok in Hc. destruct Hc as [Hc ->].
  apply bindM_Ok in H. destruct H as [c' [w2 [Hs H]]].
  apply liftR_Ok in H. destruct H as [H _].
  unfold random_shuffle in Hs.
  destruct (draw_incl (List.length c) c w) as [l' [w3 [Hd Hi]]].
  assert (l' = c') by congruence. subst l'.
  apply repair_try_spec in H.
  destruct H as [Hl|[Hb [Hlt [pid [p [a [Hin [Hp [Ha [Hle [Hset Hf]]]]]]]]]]]; [now left|].
  right. split; [exact Hb|]. split; [exact Hlt|].
  destruct (repair_candidates_spec _ _ _ _ _ Hc pid (Hi _ Hin)) as [a0 [p0 [Hin0 [Hw [Hp0 Hst]]]]].
  pose proof (dict_get_NoDup _ _ _ Hnd Hin0) as Ha0.
  assert (a0 = a) by congruence. assert (p0 = p) by congruence. subst a0 p0.
  exists pid, p, a. rewrite <- Hw. auto 10.
Qed.

Lemma tiny_repair_moves_one_witness :
  exists w',
    _tiny_repair_shift_same_ward_day_forward soft_data
      [("p2"%string, {| ward := "W"; day := 0 |})] "W" 0 3 world0
    = Ok ((true, [("p2"%string, {| ward := "W"; day := 1 |})]), w')
    /\ feasible_after_change_beds soft_data [("p2"%string, {| ward := "W"; day := 1 |})] None
       = Ok true.
Proof.
  eexists.
  match goal with |- ?A /\ _ => assert (H : A) by (vm_compute; reflexivity) end.
  split; [exact H|].
  destruct (tiny_repair_moves_one soft_data [("p2"%string, {| ward := "W"; day := 0 |})]
              _ _ _ _ _ _ _ eq_refl H)
    as [[Hb _]|[_ [_ [pid [p [a [_ [_ [_ [_ [_ [_ Hf]]]]]]]]]]]]; [discriminate | exact Hf].
Defined.

(** ** The bed-capacity test of the two modules *)

Lemma foldM_ext_in {A S} (f g : S -> A -> result S) (l : list A) (s : S) :
  (forall s x, In x l -> f s x = g s x) -> foldM f l s = foldM g l s.
Proof.
  revert s. induction l as [|x r IH]; intros s H; simpl; [reflexivity|].
  rewrite (H s x (or_introl eq_refl)). destruct (g s x); simpl; [|reflexivity].
  apply IH. intros; apply H; now right.
Qed.

Lemma allM_ext_in {A} (f g : A -> result bool) (l : list A) :
  (forall x, In x l -> f x = g x) -> allM f l = allM g l.
Proof.
  induction l as [|x r IH]; intros H; simpl; [reflexivity|].
  rewrite (H x (or_introl eq_refl)). destruct (g x) as [[|]|e]; simpl; try reflexivity.
  apply IH. intros; apply H; now right.
Qed.

Section Agreement.

Variable data : PatientAllocationData.
Hypothesis Hwf : wf_data data = true.

(** The bed-capacity test of the older evaluator is the capacity check of
    the newer one. *)
Lemma check_beds_is_capacity_check alloc :
  Solution.check_beds data alloc = feasible_after_change_beds data alloc None.
Proof.
  unfold Solution.check_beds, feasible_after_change_beds. cbn [apply_change].
  apply allM_ext_in. intros [wn w] Hin. apply allM_ext_in. intros d _.
  unfold Solution.patients_count, count_beds_used_on_day.
  rewrite (wf_data_ward_get _ _ _ Hwf Hin). cbn [bindR].
  destruct (py_index (carryover_patients w) d) as [c0|e]; [|reflexivity]. cbn [bindR].
  rewrite (foldM_ext_in
             (fun count (kv : string * Assign) =>
                let (patient_id, a) := kv in
                if String.eqb (ward a) wn
                then patient <- dict_get (patients data) patient_id ;;
                     Ok (if in_stay a patient d then count + 1 else count)
                else Ok count)
             (fun used (kv : string * Assign) =>
                let (pid, a) := kv in
                if negb (String.eqb (ward a) wn) then Ok used
                else p <- dict_get (patients data) pid ;;
                     Ok (if in_stay a p d then used + 1 else used))); [reflexivity|].
  intros s [pid a] _. destruct (String.eqb (ward a) wn); reflexivity.
Qed.

End Agreement.

(** Property X17.  The bed-capacity test inside [Solution._check_feasibility] of the older
    module and the capacity check [feasible_after_change_beds] of the newer
    module are the same function of the allocation: the same verdict or the
    same exception.  So an allocation that [Solution.evaluate] flags
    feasible passes the capacity check that ILS and VNS require of their
    seed. *)
Theorem capacity_checks_agree data :
  wf_data data = true ->
  (forall alloc, Solution.check_beds data alloc = feasible_after_change_beds data alloc None)
  /\ (forall s lambda1 lambda2 s',
         F64.Solution.evaluate data s lambda1 lambda2 = Ok s' ->
         F64.Solution.feasible s' = true ->
         feasible_after_change_beds data (F64.Solution.allocation s) None = Ok true).
Proof.
  intros Hwf. split; [exact (check_beds_is_capacity_check data Hwf)|].
  intros s lambda1 lambda2 s' He Hf.
  apply f64_evaluate_spec in He. destruct He as [_ [ok [Hok [Hfl _]]]].
  rewrite Hfl in Hf. rewrite Hf in Hok.
  apply check_feasibility_true in Hok. destruct Hok as [_ [_ [Hbeds _]]].
  rewrite <- (check_beds_is_capacity_check data Hwf). exact Hbeds.
Qed.

Lemma capacity_checks_agree_witness :
  Solution.check_beds scenario_data scenario_crowded = Ok false
  /\ feasible_after_change_beds scenario_data scenario_crowded None = Ok false.
Proof.
  assert (H : feasible_after_change_beds scenario_data scenario_crowded None = Ok false)
    by (vm_compute; reflexivity).
  split; [|exact H].
  rewrite (proj1 (capacity_checks_agree scenario_data eq_refl) scenario_crowded). exact H.
Defined.
